(** * ThreeDeeRender renderables: circle grids, LD object lists, cuboid tool

    A shallow embedding of the scene extensions under
    [packages/studio-base/src/panels/ThreeDeeRender/renderables]:
    [RenderableCircleList], [CircleGrids], [LDObjectListRenderable] with the
    message normalizers of [LDObjectList.ts], and [DrawCuboidTool].

    Conventions of the embedding.
    - A JavaScript [number] is a binary64 number.  The extensions are
      modelled on integer-valued numbers, as integers of [Z]: the grid
      settings are integers (the number inputs step by 10), and binary64
      arithmetic is exact on integers as long as no magnitude exceeds 2^53.
      [Binary64] has the numbers themselves, as [SpecFloat] of the Standard
      Library specifies them: the loop of [_range] on them, which the
      integer model is proved to agree with on those integers, and the
      binary32 numbers of a position attribute.  Message payload numbers are
      only copied and compared.
    - Objects that the code compares or shares by reference (three.js
      geometries, materials, meshes, labels, the [scale] object of a marker)
      carry a [handle], drawn from the allocation counter of a [Heap].
    - [dispose()] calls on three.js resources are appended to the heap's
      log, so that "disposed exactly once" is a statement about that log.
    - A call that does not return (the [for] loop of [_range] when the step
      is 0) is [None]. *)

From Stdlib Require Import ZArith Lia.
From Stdlib Require SpecFloat.
From stdpp Require Import base option list gmap strings pretty.

#[local] Set Warnings "-clear-no-such-hyp".

Local Open Scope Z_scope.

(** ** Handles, the allocation heap and its monad *)

Module Three.

Definition handle := nat.

Record Heap := {
  next_handle : handle;          (* every smaller handle has been allocated *)
  dispose_log : list handle      (* one entry per [dispose()] call, oldest first *)
}.

Definition empty_heap : Heap := {| next_handle := 0%nat; dispose_log := [] |}.

(** Computations over the heap that may fail to return. *)
Definition M (A : Type) : Type := Heap -> option (A * Heap).

Definition ret {A} (a : A) : M A := fun h => Some (a, h).

Definition bind {A B} (m : M A) (k : A -> M B) : M B :=
  fun h => match m h with
           | Some (a, h') => k a h'
           | None => None
           end.

Definition lift {A} (o : option A) : M A :=
  fun h => match o with Some a => Some (a, h) | None => None end.

(** [new X(...)]: a fresh object identity. *)
Definition fresh (h : Heap) : handle * Heap :=
  (next_handle h, {| next_handle := S (next_handle h); dispose_log := dispose_log h |}).

(** [x.dispose()] on a three.js resource. *)
Definition log_dispose (x : handle) (h : Heap) : Heap :=
  {| next_handle := next_handle h; dispose_log := dispose_log h ++ [x] |}.

Definition alloc : M handle := fun h => Some (fresh h).

Definition dispose (x : handle) : M unit := fun h => Some (tt, log_dispose x h).

(** [parent.add(o)] of three.js on the children of [parent]: an object that
    is already a child is moved to the end. *)
Definition add_child (children : list handle) (o : handle) : list handle :=
  filter (fun c => c <> o) children ++ [o].

(** [o.removeFromParent()] / [parent.remove(o)]. *)
Definition remove_child (children : list handle) (o : handle) : list handle :=
  filter (fun c => c <> o) children.

(** [xs.forEach(f)] for an effectful [f]. *)
Fixpoint forEach {A} (f : A -> M unit) (xs : list A) : M unit :=
  match xs with
  | [] => ret tt
  | x :: xs' => bind (f x) (fun _ => forEach f xs')
  end.

End Three.

Import Three.

(** [o?.f]: property access through a value that may be undefined. *)
Definition chain {A B} (o : option A) (f : A -> option B) : option B :=
  match o with
  | Some a => f a
  | None => None
  end.

Notation "x <- m ;; k" := (Three.bind m (fun x => k))
  (at level 100, m at next level, right associativity, only parsing).
Notation "m ;;; k" := (Three.bind m (fun _ => k))
  (at level 100, right associativity, only parsing).

(** ** JavaScript numbers

    Binary64 numbers and their operations, as [SpecFloat] specifies them
    (precision 53, infinities at exponent 1024). *)

Module Binary64.

Import SpecFloat.

Definition number : Type := spec_float.

Definition prec : Z := 53.
Definition emax : Z := 1024.

(** [a + b], [a < b] and [a <= b]; [a > b] is [b < a] and [a >= b] is
    [b <= a].  A comparison with NaN is false. *)
Definition add (a b : number) : number := SFadd prec emax a b.
Definition ltb (a b : number) : bool := SFltb a b.
Definition leb (a b : number) : bool := SFleb a b.

(** The number that an integer literal denotes: the nearest double. *)
Definition of_Z (z : Z) : number := binary_normalize prec emax z 0 false.

(** [Math.fround]: the double of the nearest binary32 number, which is what
    a [Float32Array] holds of a number stored into it. *)
Definition fround (x : number) : number :=
  match x with
  | S754_finite s m e =>
      match binary_round 24 128 s m e with
      | S754_finite s' m' e' => binary_round prec emax s' m' e'
      | y => y
      end
  | _ => x
  end.

(** [RenderableCircleList._range] on numbers.  The [for] loop takes [fuel]
    tests of its condition at most; [None] is a loop that has not ended by
    then. *)
Fixpoint _range_loop (fuel : nat) (i rangeStop rangeStep : number) (result : list number)
  : option (list number) :=
  match fuel with
  | O => None
  | S fuel' =>
      if (if ltb (of_Z 0) rangeStep then ltb i rangeStop else ltb rangeStop i)
      then _range_loop fuel' (add i rangeStep) rangeStop rangeStep (result ++ [i])
      else Some result
  end.

Definition _range (fuel : nat) (start : number) (stop step : option number)
  : option (list number) :=
  let '(rangeStart, rangeStop) :=
    match stop with
    | None => (of_Z 0, start)
    | Some s => (start, s)
    end in
  let rangeStep := default (of_Z 1) step in
  if (ltb (of_Z 0) rangeStep && leb rangeStop rangeStart)
     || (ltb rangeStep (of_Z 0) && leb rangeStart rangeStop)
  then Some []
  else _range_loop fuel rangeStart rangeStop rangeStep [].

End Binary64.

(** ** ROS message types and their normalizers

    Every message type is declared once, over the wrapper [F] of its
    fields: [option] gives the [PartialMessage<T>] of the wire, [Full] the
    normalized message. *)

Module Ros.

Local Set Implicit Arguments.
Local Set Maximal Implicit Insertion.

Local Notation "o ?. f" := (chain o f)
  (at level 2, f at level 1, left associativity, format "o ?. f").
Local Notation "o ?? d" := (default d o) (at level 40, left associativity).

Definition Full (T : Type) : Type := T.

Record Time_ (F : Type -> Type) := { sec : F Z; nsec : F Z }.
Record Vector3_ (F : Type -> Type) := { x : F Z; y : F Z; z : F Z }.
Record Quaternion_ (F : Type -> Type) := { qx : F Z; qy : F Z; qz : F Z; qw : F Z }.
Record Pose_ (F : Type -> Type) := {
  position : F (Vector3_ F);
  orientation : F (Quaternion_ F)
}.
Record ColorRGBA_ (F : Type -> Type) := { r : F Z; g : F Z; b : F Z; a : F Z }.
Record Header_ (F : Type -> Type) := { frame_id : F string; stamp : F (Time_ F) }.
Record Twist_ (F : Type -> Type) := {
  linear : F (Vector3_ F);
  angular : F (Vector3_ F)
}.

Abbreviation Time := (Time_ Full).
Abbreviation Vector3 := (Vector3_ Full).
Abbreviation Quaternion := (Quaternion_ Full).
Abbreviation Pose := (Pose_ Full).
Abbreviation ColorRGBA := (ColorRGBA_ Full).
Abbreviation Header := (Header_ Full).
Abbreviation Twist := (Twist_ Full).

Definition TIME_ZERO : Time := {| sec := 0; nsec := 0 |}.

(** [toNanoSec] of [@foxglove/rostime]. *)
Definition toNanoSec (t : Time) : Z := sec t * 1000000000 + nsec t.

(** A normalized message read at the type of a partial one. *)
Definition Time_as_partial (t : Time) : Time_ option :=
  {| sec := Some (sec t); nsec := Some (nsec t) |}.
Definition Vector3_as_partial (v : Vector3) : Vector3_ option :=
  {| x := Some (x v); y := Some (y v); z := Some (z v) |}.
Definition Quaternion_as_partial (q : Quaternion) : Quaternion_ option :=
  {| qx := Some (qx q); qy := Some (qy q); qz := Some (qz q); qw := Some (qw q) |}.
Definition Pose_as_partial (p : Pose) : Pose_ option :=
  {| position := Some (Vector3_as_partial (position p));
     orientation := Some (Quaternion_as_partial (orientation p)) |}.
Definition ColorRGBA_as_partial (c : ColorRGBA) : ColorRGBA_ option :=
  {| r := Some (r c); g := Some (g c); b := Some (b c); a := Some (a c) |}.
Definition Header_as_partial (h : Header) : Header_ option :=
  {| frame_id := Some (frame_id h); stamp := Some (Time_as_partial (stamp h)) |}.
Definition Twist_as_partial (t : Twist) : Twist_ option :=
  {| linear := Some (Vector3_as_partial (linear t));
     angular := Some (Vector3_as_partial (angular t)) |}.

(** Modelled from the spec: the normalizers of [../normalizeMessages] are
    not among the sources.  Each fills every missing field with its default:
    0 for a number, the empty string, the zero time, and the normalized
    nested message. *)
Definition normalizeTime (time : option (Time_ option)) : Time :=
  {| sec := time?.sec ?? 0; nsec := time?.nsec ?? 0 |}.

Definition normalizeVector3 (vector : option (Vector3_ option)) : Vector3 :=
  {| x := vector?.x ?? 0; y := vector?.y ?? 0; z := vector?.z ?? 0 |}.

Definition normalizeQuaternion (quat : option (Quaternion_ option)) : Quaternion :=
  {| qx := quat?.qx ?? 0; qy := quat?.qy ?? 0; qz := quat?.qz ?? 0; qw := quat?.qw ?? 0 |}.

Definition normalizeColorRGBA (color : option (ColorRGBA_ option)) : ColorRGBA :=
  {| r := color?.r ?? 0; g := color?.g ?? 0; b := color?.b ?? 0; a := color?.a ?? 0 |}.

Definition normalizePose (pose : option (Pose_ option)) : Pose :=
  {| position := normalizeVector3 pose?.position;
     orientation := normalizeQuaternion pose?.orientation |}.

Definition normalizeTwist (twist : option (Twist_ option)) : Twist :=
  {| linear := normalizeVector3 twist?.linear;
     angular := normalizeVector3 twist?.angular |}.

Definition normalizeHeader (header : option (Header_ option)) : Header :=
  {| frame_id := header?.frame_id ?? "";
     stamp := normalizeTime header?.stamp |}.

Inductive MarkerType := ARROW | CUBE | SPHERE | CYLINDER | LINE_STRIP | LINE_LIST.
Inductive MarkerAction := ADD | DELETE.

(** Modelled from the spec: [makePose] of [../transforms] is not among the
    sources; it is the identity pose. *)
Definition makePose : Pose :=
  {| position := {| x := 0; y := 0; z := 0 |} : Vector3;
     orientation := {| qx := 0; qy := 0; qz := 0; qw := 1 |} : Quaternion |}.

(** The [scale] object of a marker is compared by reference in
    [RenderableCircleList.update]: it carries its identity. *)
Record ScaleObject := { scale_ref : handle; scale_val : Vector3 }.

Record Marker := {
  header : Header;
  ns : string;
  id : Z;
  type : MarkerType;
  action : MarkerAction;
  pose : Pose;
  scale : ScaleObject;
  color : ColorRGBA;
  lifetime : Time;
  frame_locked : bool;
  points : list Vector3;
  colors : list ColorRGBA;
  text : string;
  mesh_resource : string;
  mesh_use_embedded_materials : bool
}.

End Ros.

(** ** RenderableCircleList.ts *)

Module CircleList.

Import Ros.

Definition DEFAULT_CIRCLEPTS_NUM : Z := 32.
Definition DEFAULT_CIRCLE_X : Z := 0.
Definition DEFAULT_CIRCLE_Y : Z := 0.

(** [new BufferGeometry().setFromPoints(curve.getSpacedPoints(n))] for the
    circle [EllipseCurve(cx, cy, r, r, 0, 2π)]: the geometry is determined by
    the centre, the radius and the number of divisions. *)
Record BufferGeometry := {
  geometry_ref : handle;
  centre_x : Z;
  centre_y : Z;
  radius : Z;
  divisions : Z
}.

(** [new LineLoop(geometry, material)]. *)
Record LineLoop := {
  line_ref : handle;
  line_geometry : handle;
  line_material : handle
}.

Record RenderableCircleList := {
  topic : string;
  marker : Marker;                       (* userData.marker *)
  receiveTime : option Z;                (* userData.receiveTime *)
  geometries : list BufferGeometry;
  circles : list LineLoop;
  group : list handle;                   (* children of [this.group] *)
  material : handle;
  children : list handle                 (* children of the renderable itself *)
}.

(** The [for] loop of [_range] on integers, [fuel] bounding the number of
    tests of the loop condition.  On integers [i + rangeStep] is the sum
    itself; [Binary64._range_loop] is the loop on numbers, and the two
    agree as long as no sum exceeds 2^53 in magnitude. *)
Fixpoint _range_loop (fuel : nat) (i rangeStop rangeStep : Z) (result : list Z)
  : option (list Z) :=
  match fuel with
  | O => None
  | S fuel' =>
      if (if 0 <? rangeStep then i <? rangeStop else rangeStop <? i)
      then _range_loop fuel' (i + rangeStep) rangeStop rangeStep (result ++ [i])
      else Some result
  end.

(** With integer arguments and a step other than 0 the loop tests its
    condition at most [|stop - start| + 1] times. *)
Definition range_fuel (rangeStart rangeStop : Z) : nat :=
  S (Z.to_nat (Z.abs (rangeStop - rangeStart))).

(** [_range] on integers; [Binary64._range] is [_range] on numbers. *)
Definition _range (start : Z) (stop step : option Z) : option (list Z) :=
  let '(rangeStart, rangeStop) :=
    match stop with
    | None => (0, start)
    | Some s => (start, s)
    end in
  let rangeStep := default 1 step in
  if ((0 <? rangeStep) && (rangeStop <=? rangeStart))
     || ((rangeStep <? 0) && (rangeStart <=? rangeStop))
  then Some []
  else _range_loop (range_fuel rangeStart rangeStop) rangeStart rangeStop rangeStep [].

Definition set_lists (c : RenderableCircleList)
    (gs : list BufferGeometry) (cs : list LineLoop) (grp : list handle)
  : RenderableCircleList :=
  {| topic := topic c; marker := marker c; receiveTime := receiveTime c;
     geometries := gs; circles := cs; group := grp;
     material := material c; children := children c |}.

(** One pass of the loop body of [_setCircles]. *)
Definition _setCircles_body (c : RenderableCircleList) (r : Z) : M RenderableCircleList :=
  geometry <- alloc ;;
  circle <- alloc ;;
  let gs := geometries c ++
            [{| geometry_ref := geometry; centre_x := DEFAULT_CIRCLE_X;
                centre_y := DEFAULT_CIRCLE_Y; radius := r;
                divisions := DEFAULT_CIRCLEPTS_NUM |}] in
  let cs := circles c ++
            [{| line_ref := circle; line_geometry := geometry;
                line_material := material c |}] in
  ret (set_lists c gs cs (foldl add_child (group c) (line_ref <$> cs))).

Fixpoint _setCircles_loop (radiuses : list Z) (c : RenderableCircleList)
  : M RenderableCircleList :=
  match radiuses with
  | [] => ret c
  | r :: rest => c' <- _setCircles_body c r ;; _setCircles_loop rest c'
  end.

Definition _setCircles (minRadius maxRadius radiusStep : Z) (c : RenderableCircleList)
  : M RenderableCircleList :=
  radiuses <- lift (_range minRadius (Some maxRadius) (Some radiusStep)) ;;
  _setCircles_loop radiuses c.

(** Modelled from the spec: the constructor of [RenderableMarker]
    ([./RenderableMarker], not among the sources) stores the marker and the
    receive time in [userData]. *)
Definition RenderableMarker_new (topic : string) (marker : Marker)
    (receiveTime : option Z) (material : handle) : RenderableCircleList :=
  {| topic := topic; marker := marker; receiveTime := receiveTime;
     geometries := []; circles := []; group := [];
     material := material; children := [] |}.

(** Modelled from the spec: [RenderableMarker.update] replaces the logical
    payload, and the receive time when one is given. *)
Definition RenderableMarker_update (newMarker : Marker) (receiveTime : option Z)
    (c : RenderableCircleList) : RenderableCircleList :=
  {| topic := topic c; marker := newMarker;
     receiveTime := match receiveTime with Some t => Some t | None => CircleList.receiveTime c end;
     geometries := geometries c; circles := circles c; group := group c;
     material := material c; children := children c |}.

Definition new (topic : string) (marker : Marker) (receiveTime : option Z)
  : M RenderableCircleList :=
  grp <- alloc ;;
  mat <- alloc ;;
  let this := RenderableMarker_new topic marker receiveTime mat in
  let scale := scale_val (scale marker) in
  this <- _setCircles (x scale) (y scale) (z scale) this ;;
  ret {| topic := CircleList.topic this; marker := CircleList.marker this;
         receiveTime := CircleList.receiveTime this;
         geometries := geometries this; circles := circles this; group := group this;
         material := material this; children := add_child (children this) grp |}.

Definition dispose (c : RenderableCircleList) : M unit :=
  forEach (fun items => Three.dispose (geometry_ref items)) (geometries c) ;;;
  Three.dispose (material c).

Definition update (newMarker : Marker) (receiveTime : option Z)
    (c : RenderableCircleList) : M RenderableCircleList :=
  let prevScale := scale (marker c) in
  let this := RenderableMarker_update newMarker receiveTime c in
  let scale := scale (marker this) in
  if bool_decide (scale_ref prevScale ≠ scale_ref scale) then
    forEach (fun item => Three.dispose (geometry_ref item)) (geometries this) ;;;
    _setCircles (x (scale_val scale)) (y (scale_val scale)) (z (scale_val scale))
      (set_lists this [] [] [])
  else ret this.

End CircleList.

(** ** CircleGrids.ts *)

Module Grids.

Import Ros.

Definition LAYER_ID : string := "foxglove.CircleGrid".
Definition MIN_SIZE : Z := 30.
Definition DEFAULT_SIZE : Z := 100.
Definition MAX_SIZE : Z := 300.
Definition DEFAULT_STEP : Z := 20.
Definition MIN_STEP : Z := 10.
Definition MAX_STEP : Z := 40.

Record LayerSettingsCircleGrid := {
  visible : bool;
  frameLocked : option bool;
  label : string;
  instanceId : string;
  layerId : string;
  order : option Z;
  frameId : option string;
  minSize : Z;
  maxSize : Z;
  step : Z
}.

(** An entry of [renderer.config.layers], read as
    [Partial<LayerSettingsCircleGrid>]: [None] is an absent property.  The
    entries of other layer kinds live in the same object and differ in
    [layerId]. *)
Record LayerConfig := {
  c_visible : option bool;
  c_frameLocked : option bool;
  c_label : option string;
  c_instanceId : option string;
  c_layerId : option string;
  c_order : option Z;
  c_frameId : option string;
  c_minSize : option Z;
  c_maxSize : option Z;
  c_step : option Z
}.

Definition empty_config : LayerConfig :=
  {| c_visible := None; c_frameLocked := None; c_label := None;
     c_instanceId := None; c_layerId := None; c_order := None;
     c_frameId := None; c_minSize := None; c_maxSize := None; c_step := None |}.

Definition DEFAULT_SETTINGS : LayerSettingsCircleGrid :=
  {| visible := true; frameLocked := Some true; label := "CircleGrid";
     instanceId := "invalid"; layerId := LAYER_ID; order := None;
     frameId := None; minSize := MIN_SIZE; maxSize := DEFAULT_SIZE;
     step := DEFAULT_STEP |}.

(** [{ ...d, ...s }], for an entry each of whose properties is absent or
    holds a value. *)
Definition spread (d : LayerSettingsCircleGrid) (s : LayerConfig) : LayerSettingsCircleGrid :=
  {| visible := default (visible d) (c_visible s);
     frameLocked := match c_frameLocked s with Some v => Some v | None => frameLocked d end;
     label := default (label d) (c_label s);
     instanceId := default (instanceId d) (c_instanceId s);
     layerId := default (layerId d) (c_layerId s);
     order := match c_order s with Some v => Some v | None => order d end;
     frameId := match c_frameId s with Some v => Some v | None => frameId d end;
     minSize := default (minSize d) (c_minSize s);
     maxSize := default (maxSize d) (c_maxSize s);
     step := default (step d) (c_step s) |}.

(** A full settings object stored as a configuration entry. *)
Definition to_config (s : LayerSettingsCircleGrid) : LayerConfig :=
  {| c_visible := Some (visible s); c_frameLocked := frameLocked s;
     c_label := Some (label s); c_instanceId := Some (instanceId s);
     c_layerId := Some (layerId s); c_order := order s;
     c_frameId := frameId s; c_minSize := Some (minSize s);
     c_maxSize := Some (maxSize s); c_step := Some (step s) |}.

Definition is_grid (e : LayerConfig) : bool :=
  bool_decide (c_layerId e = Some LAYER_ID).

Record CircleGridRenderable := {
  renderable_ref : handle;
  name : string;
  receiveTime : Z;
  messageTime : Z;
  userFrameId : string;                  (* userData.frameId *)
  userPose : Pose;
  settingsPath : list string;
  settings : LayerSettingsCircleGrid;
  circleList : CircleList.RenderableCircleList
}.

Definition with_settings (s : LayerSettingsCircleGrid) (r : CircleGridRenderable)
  : CircleGridRenderable :=
  {| renderable_ref := renderable_ref r; name := name r;
     receiveTime := receiveTime r; messageTime := messageTime r;
     userFrameId := userFrameId r; userPose := userPose r;
     settingsPath := settingsPath r; settings := s; circleList := circleList r |}.

Definition with_circleList (c : CircleList.RenderableCircleList) (r : CircleGridRenderable)
  : CircleGridRenderable :=
  {| renderable_ref := renderable_ref r; name := name r;
     receiveTime := receiveTime r; messageTime := messageTime r;
     userFrameId := userFrameId r; userPose := userPose r;
     settingsPath := settingsPath r; settings := settings r; circleList := c |}.

(** Modelled from the spec: [Renderable.dispose] (not among the sources),
    the [super.dispose()] of a renderable, releases no three.js resource. *)
Definition Renderable_dispose (self : handle) : M unit := ret tt.

(** [CircleGridRenderable.dispose].  The renderable is a scene object with
    a [dispose()] of its own: a call of it is logged under the handle of
    the renderable, and its body disposes of the circle list and calls
    [super.dispose()]. *)
Definition CircleGridRenderable_dispose (r : CircleGridRenderable) : M unit :=
  Three.dispose (renderable_ref r) ;;;
  CircleList.dispose (circleList r) ;;;
  Renderable_dispose (renderable_ref r).

(** The extension together with the parts of the renderer it talks to. *)
Record World := {
  heap : Heap;
  config_layers : gmap string LayerConfig;           (* renderer.config.layers *)
  renderables : gmap string CircleGridRenderable;    (* this.renderables *)
  children : list handle;                            (* this.children *)
  settingsTreeUpdates : nat;                         (* calls of updateSettingsTree() *)
  customLayersCountUpdates : nat                     (* calls of updateCustomLayersCount() *)
}.

Definition with_heap (h : Heap) (w : World) : World :=
  {| heap := h; config_layers := config_layers w; renderables := renderables w;
     children := children w; settingsTreeUpdates := settingsTreeUpdates w;
     customLayersCountUpdates := customLayersCountUpdates w |}.

Definition with_config (c : gmap string LayerConfig) (w : World) : World :=
  {| heap := heap w; config_layers := c; renderables := renderables w;
     children := children w; settingsTreeUpdates := settingsTreeUpdates w;
     customLayersCountUpdates := customLayersCountUpdates w |}.

Definition with_renderables (rs : gmap string CircleGridRenderable) (w : World) : World :=
  {| heap := heap w; config_layers := config_layers w; renderables := rs;
     children := children w; settingsTreeUpdates := settingsTreeUpdates w;
     customLayersCountUpdates := customLayersCountUpdates w |}.

Definition with_children (cs : list handle) (w : World) : World :=
  {| heap := heap w; config_layers := config_layers w; renderables := renderables w;
     children := cs; settingsTreeUpdates := settingsTreeUpdates w;
     customLayersCountUpdates := customLayersCountUpdates w |}.

(** Run a heap computation inside the world. *)
Definition on_heap {A} (m : M A) (w : World) : option (A * World) :=
  match m (heap w) with
  | Some (a, h) => Some (a, with_heap h w)
  | None => None
  end.

(** Modelled from the spec: [SceneExtension.updateSettingsTree] (not among
    the sources) schedules a settings-tree refresh. *)
Definition updateSettingsTree (w : World) : World :=
  {| heap := heap w; config_layers := config_layers w; renderables := renderables w;
     children := children w; settingsTreeUpdates := S (settingsTreeUpdates w);
     customLayersCountUpdates := customLayersCountUpdates w |}.

(** Modelled from the spec: [Renderer.updateCustomLayersCount] (not among
    the sources) only notifies the host. *)
Definition updateCustomLayersCount (w : World) : World :=
  {| heap := heap w; config_layers := config_layers w; renderables := renderables w;
     children := children w; settingsTreeUpdates := settingsTreeUpdates w;
     customLayersCountUpdates := S (customLayersCountUpdates w) |}.

Definition createMarker (settings : LayerSettingsCircleGrid) : M Marker :=
  scale_object <- alloc ;;
  ret {| header := {| frame_id := ""; stamp := TIME_ZERO |} : Header;
         ns := "";
         id := 0;
         type := LINE_LIST;
         action := ADD;
         pose := makePose;
         scale := {| scale_ref := scale_object;
                     scale_val := {| x := minSize settings; y := maxSize settings;
                                     z := step settings |} : Vector3 |};
         color := {| r := 0; g := 0; b := 0; a := 0 |} : ColorRGBA;
         lifetime := TIME_ZERO;
         frame_locked := true;
         points := [];
         colors := [];
         text := "";
         mesh_resource := "";
         mesh_use_embedded_materials := false |}.

Definition _createRenderable (instanceId : string) (settings : LayerSettingsCircleGrid)
    (w : World) : option (CircleGridRenderable * World) :=
  '(renderable, w) ← on_heap (
      marker <- createMarker settings ;;
      let circleListId := instanceId +:+ ":CIRCLE_LIST" in
      circleList <- CircleList.new circleListId marker None ;;
      self <- alloc ;;
      ret {| renderable_ref := self; name := instanceId;
             receiveTime := 0; messageTime := 0; userFrameId := "";
             userPose := makePose; settingsPath := ["layers"; instanceId];
             settings := settings; circleList := circleList |}) w;
  Some (renderable,
        with_renderables (<[instanceId := renderable]> (renderables w))
          (with_children (add_child (children w) (renderable_ref renderable)) w)).

Definition _updateGrid (instanceId : string) (settings : option LayerConfig) (w : World)
  : option World :=
  let renderable := renderables w !! instanceId in
  match settings with
  | None =>
      (* Handle deletes *)
      match renderable with
      | Some renderable =>
          '(_, w) ← on_heap (CircleList.dispose (circleList renderable)) w;
          Some (with_renderables (delete instanceId (renderables w))
                  (with_children
                     (remove_child (children w) (renderable_ref renderable)) w))
      | None => Some w
      end
  | Some settings =>
      let newSettings := spread DEFAULT_SETTINGS settings in
      '(renderable, w) ← match renderable with
                          | Some renderable => Some (renderable, w)
                          | None => _createRenderable instanceId newSettings w
                          end;
      let prevSettings := Grids.settings renderable in
      let markersEqual :=
        (minSize newSettings =? minSize prevSettings)
        && (maxSize newSettings =? maxSize prevSettings)
        && (step newSettings =? step prevSettings) in
      let renderable := with_settings newSettings renderable in
      if negb markersEqual then
        '(circleList, w) ← on_heap (
            marker <- createMarker newSettings ;;
            CircleList.update marker None (circleList renderable)) w;
        Some (with_renderables
                (<[instanceId := with_circleList circleList renderable]> (renderables w)) w)
      else
        Some (with_renderables (<[instanceId := renderable]> (renderables w)) w)
  end.

(** The constructor, started on a given heap and configuration: it loads the
    existing grid layers. *)
Definition load_entry (w : option World) (kv : string * LayerConfig) : option World :=
  w ← w;
  if is_grid kv.2 then _updateGrid kv.1 (Some kv.2) w else Some w.

Definition new (h : Heap) (layers : gmap string LayerConfig) : option World :=
  foldl load_entry
    (Some {| heap := h; config_layers := layers; renderables := ∅; children := [];
             settingsTreeUpdates := 0; customLayersCountUpdates := 0 |})
    (map_to_list layers).

(** *** settingsNodes *)

Record SettingsTreeField := {
  field_label : string;
  field_input : string;
  field_min : Z;
  field_max : Z;
  field_step : Z;
  field_value : option Z;
  field_placeholder : string
}.

Record SettingsTreeEntry := {
  path : list string;
  node_label : string;
  node_icon : string;
  node_fields : list (string * SettingsTreeField);
  node_visible : bool;
  node_actions : list (string * string);   (* id, label *)
  node_order : option Z
}.

Definition settings_entry (instanceId : string) (config : LayerConfig) : SettingsTreeEntry :=
  {| path := ["layers"; instanceId];
     node_label := default "Grid" (c_label config);
     node_icon := "Grid";
     node_fields :=
       [("minSize", {| field_label := "minSize"; field_input := "number";
                       field_min := MIN_SIZE; field_max := MAX_SIZE; field_step := 10;
                       field_value := c_minSize config;
                       field_placeholder := pretty MIN_SIZE |});
        ("maxSize", {| field_label := "maxSize"; field_input := "number";
                       field_min := MIN_SIZE; field_max := MAX_SIZE; field_step := 10;
                       field_value := c_maxSize config;
                       field_placeholder := pretty DEFAULT_SIZE |});
        ("step", {| field_label := "Step"; field_input := "number";
                    field_min := MIN_STEP; field_max := MAX_STEP; field_step := 10;
                    field_value := c_step config;
                    field_placeholder := pretty DEFAULT_STEP |})];
     node_visible := default (visible DEFAULT_SETTINGS) (c_visible config);
     node_actions := [("delete", "Delete")];
     node_order := c_order config |}.

(** One pass of the loop of [settingsNodes]. *)
Definition settingsNodes_body (acc : option (list SettingsTreeEntry * World))
    (kv : string * LayerConfig) : option (list SettingsTreeEntry * World) :=
  '(entries, w) ← acc;
  let '(instanceId, layerConfig) := kv in
  if negb (is_grid layerConfig) then Some (entries, w)
  else
    let entries := entries ++ [settings_entry instanceId layerConfig] in
    (* Create renderables for new grid layers *)
    match renderables w !! instanceId with
    | None => w ← _updateGrid instanceId (Some layerConfig) w; Some (entries, w)
    | Some _ => Some (entries, w)
    end.

(** [settingsNodes].  [Object.entries] enumerates the layers in the order
    of their insertion, [map_to_list] in an order of its own: the model has
    the entries and the renderables of the source, not the order in which
    the source emits and allocates them. *)
Definition settingsNodes (w : World) : option (list SettingsTreeEntry * World) :=
  foldl settingsNodes_body (Some ([], w)) (map_to_list (config_layers w)).

(** *** Settings actions *)

(** The payload of an update: a number, a boolean or a string.  An update
    whose payload is [undefined] (a cleared field) is not among the
    actions modelled. *)
Inductive Value :=
| VNumber (n : Z)
| VBoolean (b : bool)
| VString (s : string).

Inductive SettingsTreeAction :=
| Update (path : list string) (value : Value)                  (* action: "update" *)
| PerformNodeAction (path : list string) (id : string).        (* "perform-node-action" *)

(** Assignment of one property of a configuration entry.  A property this
    extension never reads, or a value outside the declared type of the
    property, leaves the typed view of the entry as it is. *)
Definition set_field (field : string) (v : Value) (e : LayerConfig) : LayerConfig :=
  let upd vis fl lab iid lid ord fid mn mx st :=
    {| c_visible := vis; c_frameLocked := fl; c_label := lab; c_instanceId := iid;
       c_layerId := lid; c_order := ord; c_frameId := fid; c_minSize := mn;
       c_maxSize := mx; c_step := st |} in
  let keep := upd (c_visible e) (c_frameLocked e) (c_label e) (c_instanceId e)
                  (c_layerId e) (c_order e) (c_frameId e) (c_minSize e)
                  (c_maxSize e) (c_step e) in
  match v with
  | VNumber n =>
      if String.eqb field "minSize" then
        upd (c_visible e) (c_frameLocked e) (c_label e) (c_instanceId e)
            (c_layerId e) (c_order e) (c_frameId e) (Some n) (c_maxSize e) (c_step e)
      else if String.eqb field "maxSize" then
        upd (c_visible e) (c_frameLocked e) (c_label e) (c_instanceId e)
            (c_layerId e) (c_order e) (c_frameId e) (c_minSize e) (Some n) (c_step e)
      else if String.eqb field "step" then
        upd (c_visible e) (c_frameLocked e) (c_label e) (c_instanceId e)
            (c_layerId e) (c_order e) (c_frameId e) (c_minSize e) (c_maxSize e) (Some n)
      else if String.eqb field "order" then
        upd (c_visible e) (c_frameLocked e) (c_label e) (c_instanceId e)
            (c_layerId e) (Some n) (c_frameId e) (c_minSize e) (c_maxSize e) (c_step e)
      else keep
  | VBoolean b =>
      if String.eqb field "visible" then
        upd (Some b) (c_frameLocked e) (c_label e) (c_instanceId e)
            (c_layerId e) (c_order e) (c_frameId e) (c_minSize e) (c_maxSize e) (c_step e)
      else if String.eqb field "frameLocked" then
        upd (c_visible e) (Some b) (c_label e) (c_instanceId e)
            (c_layerId e) (c_order e) (c_frameId e) (c_minSize e) (c_maxSize e) (c_step e)
      else keep
  | VString s =>
      if String.eqb field "label" then
        upd (c_visible e) (c_frameLocked e) (Some s) (c_instanceId e)
            (c_layerId e) (c_order e) (c_frameId e) (c_minSize e) (c_maxSize e) (c_step e)
      else if String.eqb field "instanceId" then
        upd (c_visible e) (c_frameLocked e) (c_label e) (Some s)
            (c_layerId e) (c_order e) (c_frameId e) (c_minSize e) (c_maxSize e) (c_step e)
      else if String.eqb field "layerId" then
        upd (c_visible e) (c_frameLocked e) (c_label e) (c_instanceId e)
            (Some s) (c_order e) (c_frameId e) (c_minSize e) (c_maxSize e) (c_step e)
      else if String.eqb field "frameId" then
        upd (c_visible e) (c_frameLocked e) (c_label e) (c_instanceId e)
            (c_layerId e) (c_order e) (Some s) (c_minSize e) (c_maxSize e) (c_step e)
      else keep
  end.

(** Modelled from the spec: [SceneExtension.saveSetting] (not among the
    sources) writes the value at the path of the persisted configuration and
    refreshes the settings tree.  Only [config.layers] is modelled: a path of
    three keys under ["layers"] assigns a property of that entry, creating
    the entry when it is missing; other paths leave [config.layers] alone. *)
Definition saveSetting (path : list string) (value : Value) (w : World) : World :=
  let w :=
    match path with
    | [root; instanceId; field] =>
        if String.eqb root "layers" then
          let entry := default empty_config (config_layers w !! instanceId) in
          with_config (<[instanceId := set_field field value entry]> (config_layers w)) w
        else w
    | _ => w
    end in
  updateSettingsTree w.

Definition handleSettingsAction (action : SettingsTreeAction) (w : World) : option World :=
  match action with
  | PerformNodeAction path id =>
      (* Handle menu actions (delete) *)
      match path with
      | [_; instanceId] =>
          if String.eqb id "delete" then
            (* Remove this instance from the config *)
            let w := with_config (delete instanceId (config_layers w)) w in
            (* Remove the renderable *)
            w ← _updateGrid instanceId None w;
            (* Update the settings tree *)
            Some (updateCustomLayersCount (updateSettingsTree w))
          else Some w
      | _ => Some w
      end
  | Update path value =>
      match path with
      | [_; instanceId; _] =>
          let w := saveSetting path value w in
          let settings := config_layers w !! instanceId in
          _updateGrid instanceId settings w
      | _ => Some w     (* Doesn't match the pattern of ["layers", instanceId, field] *)
      end
  end.

(** [maxBy(Object.values(layers), layer => layer?.order)?.order]: entries
    without an order are skipped. *)
Definition max_order (layers : gmap string LayerConfig) : option Z :=
  map_fold (fun _ e acc =>
              match c_order e, acc with
              | Some o, Some m => Some (Z.max m o)
              | Some o, None => Some o
              | None, _ => acc
              end) None layers.

Definition handleAddGrid (instanceId : string) (w : World) : option World :=
  let d := DEFAULT_SETTINGS in
  let config :=
    {| visible := visible d; frameLocked := frameLocked d; label := label d;
       instanceId := instanceId; layerId := layerId d; order := order d;
       frameId := frameId d; minSize := minSize d; maxSize := maxSize d;
       step := step d |} in
  (* Add this instance to the config *)
  let order := 1 + default 0 (max_order (config_layers w)) in
  let entry :=
    {| c_visible := c_visible (to_config config);
       c_frameLocked := c_frameLocked (to_config config);
       c_label := c_label (to_config config);
       c_instanceId := c_instanceId (to_config config);
       c_layerId := c_layerId (to_config config);
       c_order := Some order;
       c_frameId := c_frameId (to_config config);
       c_minSize := c_minSize (to_config config);
       c_maxSize := c_maxSize (to_config config);
       c_step := c_step (to_config config) |} in
  let w := with_config (<[instanceId := entry]> (config_layers w)) w in
  (* Add a renderable *)
  w ← _updateGrid instanceId (Some (to_config config)) w;
  (* Update the settings tree *)
  Some (updateSettingsTree w).

(** What the user can do to the grid layers: the "Add Circle Grid" layer
    action, and an action on a node of the settings tree. *)
Inductive UserAction :=
| AddGrid (instanceId : string)
| Settings (action : SettingsTreeAction).

Definition perform (a : UserAction) (w : World) : option World :=
  match a with
  | AddGrid instanceId => handleAddGrid instanceId w
  | Settings action => handleSettingsAction action w
  end.

Fixpoint run (acts : list UserAction) (w : World) : option World :=
  match acts with
  | [] => Some w
  | a :: rest => w' ← perform a w; run rest w'
  end.

(** The instance ids configured as circle grids. *)
Definition grid_ids (layers : gmap string LayerConfig) : gset string :=
  dom (filter (fun kv => is_grid kv.2 = true) layers).

End Grids.

(** ** LDObjectList.ts: messages and normalizers *)

Module LDMsg.

Import Ros.

Local Set Implicit Arguments.
Local Set Maximal Implicit Insertion.

Local Notation "o ?. f" := (chain o f)
  (at level 2, f at level 1, left associativity, format "o ?. f").
Local Notation "o ?? d" := (default d o) (at level 40, left associativity).

Record LDObject_ (F : Type -> Type) := {
  header : F (Header_ F);
  id : F Z;
  tracking_age : F Z;
  Age : F (Time_ F);
  lifetime : F (Time_ F);
  object_status : F string;
  confidence : F Z;
  color : F (ColorRGBA_ F);
  pose_reliable : F bool;
  pose : F (Pose_ F);
  pose_var : F (Vector3_ F);
  gps_pos : F (Vector3_ F);
  gps_var : F (Vector3_ F);
  tracking_points : F (Vector3_ F);
  tracking_point_type : F Z;
  jsk_pose : F (Pose_ F);
  yaw : F Z;
  yaw_var : F Z;
  heading_angle : F Z;
  heading_angle_var : F Z;
  pitch : F Z;
  pitch_var : F Z;
  dimensions : F (Vector3_ F);
  dimensions_var : F (Vector3_ F);
  clustered_dimensions : F (Vector3_ F);
  velocity : F (Twist_ F);
  velocity_var : F (Twist_ F);
  abs_velocity : F Z;
  abs_velocity_var : F Z;
  rel_velocity : F (Twist_ F);
  rel_velocity_var : F (Twist_ F);
  rel_abs_velocity : F Z;
  rel_abs_velocity_var : F Z;
  acceleration : F (Twist_ F);
  acceleration_var : F (Twist_ F);
  abs_acceleration : F Z;
  abs_acceleration_var : F Z;
  rel_acceleration : F (Twist_ F);
  rel_acceleration_var : F (Twist_ F);
  rel_abs_acceleration : F Z;
  rel_abs_acceleration_var : F Z;
  lane_relation : F Z;
  visibility : F Z;
  solid_angle : F Z;
  reflectivity : F Z;
  occlusion : F string;
  occlusion_l : F string;
  occlusion_h : F string;
  occlusion_w : F string;
  occlusion_lowerpart : F bool;
  validity : F bool;
  has_sun : F bool;
  relation_type : F Z;
  relation_id : F Z;
  has_child : F bool;
  class_label_true : F string;
  class_label_pred : F string;
  target_added : F bool;
  target_deleted : F bool;
  subclass_label_true : F string;
  subclass_label_pred : F string;
  behavior_state : F Z
}.

Abbreviation LDObject := (LDObject_ Full).

Record LDObjectList_ (F : Type -> Type) := {
  list_header : F (Header_ F);
  frame_number : F Z;
  objects : F (list (F (LDObject_ F)))
}.

Abbreviation LDObjectList := (LDObjectList_ Full).

Section Normalizers.

(** The normalizers of [../normalizeMessages] are not among the sources:
    [normalizeLDObject] is given over any six functions of their types.
    [Ros] holds their model from the spec. *)
Variable normalizeVector3 : option (Vector3_ option) -> Vector3.
Variable normalizeColorRGBA : option (ColorRGBA_ option) -> ColorRGBA.
Variable normalizeHeader : option (Header_ option) -> Header.
Variable normalizePose : option (Pose_ option) -> Pose.
Variable normalizeTime : option (Time_ option) -> Time.
Variable normalizeTwist : option (Twist_ option) -> Twist.

Definition normalizeLDObject (object : option (LDObject_ option)) : LDObject :=
  {|
    header := normalizeHeader object?.header;
    id := object?.id ?? 0;
    tracking_age := object?.tracking_age ?? 0;
    Age := normalizeTime object?.Age;
    lifetime := normalizeTime object?.lifetime;
    object_status := object?.object_status ?? "";
    confidence := object?.confidence ?? 0;
    color := normalizeColorRGBA object?.color;
    pose_reliable := object?.pose_reliable ?? false;
    pose := normalizePose object?.pose;
    pose_var := normalizeVector3 object?.pose_var;
    gps_pos := normalizeVector3 object?.gps_pos;
    gps_var := normalizeVector3 object?.gps_var;
    tracking_points := normalizeVector3 object?.tracking_points;
    tracking_point_type := object?.tracking_point_type ?? 0;
    jsk_pose := normalizePose object?.jsk_pose;
    yaw := object?.yaw ?? 0;
    yaw_var := object?.yaw_var ?? 0;
    heading_angle := object?.heading_angle ?? 0;
    heading_angle_var := object?.heading_angle_var ?? 0;
    pitch := object?.pitch ?? 0;
    pitch_var := object?.pitch_var ?? 0;
    dimensions := normalizeVector3 object?.dimensions;
    dimensions_var := normalizeVector3 object?.dimensions_var;
    clustered_dimensions := normalizeVector3 object?.clustered_dimensions;
    velocity := normalizeTwist object?.velocity;
    velocity_var := normalizeTwist object?.velocity_var;
    abs_velocity := object?.abs_velocity ?? 0;
    abs_velocity_var := object?.abs_velocity_var ?? 0;
    rel_velocity := normalizeTwist object?.rel_velocity;
    rel_velocity_var := normalizeTwist object?.rel_velocity_var;
    rel_abs_velocity := object?.rel_abs_velocity ?? 0;
    rel_abs_velocity_var := object?.rel_abs_velocity_var ?? 0;
    acceleration := normalizeTwist object?.acceleration;
    acceleration_var := normalizeTwist object?.acceleration_var;
    abs_acceleration := object?.abs_acceleration ?? 0;
    abs_acceleration_var := object?.abs_acceleration_var ?? 0;
    rel_acceleration := normalizeTwist object?.rel_acceleration;
    rel_acceleration_var := normalizeTwist object?.rel_acceleration_var;
    rel_abs_acceleration := object?.rel_abs_acceleration ?? 0;
    rel_abs_acceleration_var := object?.rel_abs_acceleration_var ?? 0;
    lane_relation := object?.lane_relation ?? 0;
    visibility := object?.visibility ?? 0;
    solid_angle := object?.solid_angle ?? 0;
    reflectivity := object?.reflectivity ?? 0;
    occlusion := object?.occlusion ?? "";
    occlusion_l := object?.occlusion_l ?? "";
    occlusion_h := object?.occlusion_h ?? "";
    occlusion_w := object?.occlusion_w ?? "";
    occlusion_lowerpart := object?.occlusion_lowerpart ?? false;
    validity := object?.validity ?? false;
    has_sun := object?.has_sun ?? false;
    relation_type := object?.relation_type ?? 0;
    relation_id := object?.relation_id ?? 0;
    has_child := object?.has_child ?? false;
    class_label_true := object?.class_label_true ?? "";
    class_label_pred := object?.class_label_pred ?? "";
    target_added := object?.target_added ?? false;
    target_deleted := object?.target_deleted ?? false;
    subclass_label_true := object?.subclass_label_true ?? "";
    subclass_label_pred := object?.subclass_label_pred ?? "";
    behavior_state := object?.behavior_state ?? 0
  |}.

Definition normalizeLDObjects (objects : option (list (option (LDObject_ option))))
  : list LDObject :=
  match objects with
  | None => []
  | Some objects => normalizeLDObject <$> objects
  end.

Definition normalizeLDObjectList (objectList : LDObjectList_ option) : LDObjectList :=
  {| list_header := normalizeHeader (list_header objectList);
     frame_number := frame_number objectList ?? 0;
     objects := normalizeLDObjects (objects objectList) |}.

End Normalizers.

(** A normalized message read at the type of a partial one. *)
Definition LDObject_as_partial (o : LDObject) : LDObject_ option :=
  {|
    header := Some (Header_as_partial (header o));
    id := Some (id o);
    tracking_age := Some (tracking_age o);
    Age := Some (Time_as_partial (Age o));
    lifetime := Some (Time_as_partial (lifetime o));
    object_status := Some (object_status o);
    confidence := Some (confidence o);
    color := Some (ColorRGBA_as_partial (color o));
    pose_reliable := Some (pose_reliable o);
    pose := Some (Pose_as_partial (pose o));
    pose_var := Some (Vector3_as_partial (pose_var o));
    gps_pos := Some (Vector3_as_partial (gps_pos o));
    gps_var := Some (Vector3_as_partial (gps_var o));
    tracking_points := Some (Vector3_as_partial (tracking_points o));
    tracking_point_type := Some (tracking_point_type o);
    jsk_pose := Some (Pose_as_partial (jsk_pose o));
    yaw := Some (yaw o);
    yaw_var := Some (yaw_var o);
    heading_angle := Some (heading_angle o);
    heading_angle_var := Some (heading_angle_var o);
    pitch := Some (pitch o);
    pitch_var := Some (pitch_var o);
    dimensions := Some (Vector3_as_partial (dimensions o));
    dimensions_var := Some (Vector3_as_partial (dimensions_var o));
    clustered_dimensions := Some (Vector3_as_partial (clustered_dimensions o));
    velocity := Some (Twist_as_partial (velocity o));
    velocity_var := Some (Twist_as_partial (velocity_var o));
    abs_velocity := Some (abs_velocity o);
    abs_velocity_var := Some (abs_velocity_var o);
    rel_velocity := Some (Twist_as_partial (rel_velocity o));
    rel_velocity_var := Some (Twist_as_partial (rel_velocity_var o));
    rel_abs_velocity := Some (rel_abs_velocity o);
    rel_abs_velocity_var := Some (rel_abs_velocity_var o);
    acceleration := Some (Twist_as_partial (acceleration o));
    acceleration_var := Some (Twist_as_partial (acceleration_var o));
    abs_acceleration := Some (abs_acceleration o);
    abs_acceleration_var := Some (abs_acceleration_var o);
    rel_acceleration := Some (Twist_as_partial (rel_acceleration o));
    rel_acceleration_var := Some (Twist_as_partial (rel_acceleration_var o));
    rel_abs_acceleration := Some (rel_abs_acceleration o);
    rel_abs_acceleration_var := Some (rel_abs_acceleration_var o);
    lane_relation := Some (lane_relation o);
    visibility := Some (visibility o);
    solid_angle := Some (solid_angle o);
    reflectivity := Some (reflectivity o);
    occlusion := Some (occlusion o);
    occlusion_l := Some (occlusion_l o);
    occlusion_h := Some (occlusion_h o);
    occlusion_w := Some (occlusion_w o);
    occlusion_lowerpart := Some (occlusion_lowerpart o);
    validity := Some (validity o);
    has_sun := Some (has_sun o);
    relation_type := Some (relation_type o);
    relation_id := Some (relation_id o);
    has_child := Some (has_child o);
    class_label_true := Some (class_label_true o);
    class_label_pred := Some (class_label_pred o);
    target_added := Some (target_added o);
    target_deleted := Some (target_deleted o);
    subclass_label_true := Some (subclass_label_true o);
    subclass_label_pred := Some (subclass_label_pred o);
    behavior_state := Some (behavior_state o)
  |}.

Definition LDObjectList_as_partial (l : LDObjectList) : LDObjectList_ option :=
  {| list_header := Some (Header_as_partial (list_header l));
     frame_number := Some (frame_number l);
     objects := Some ((fun o => Some (LDObject_as_partial o)) <$> objects l) |}.

(** The fields of an object by kind: the accessor of the partial message
    beside the accessor of the normalized one. *)
Definition number_fields : list ((LDObject_ option -> option Z) * (LDObject -> Z)) :=
  [(id, id);
   (tracking_age, tracking_age);
   (confidence, confidence);
   (tracking_point_type, tracking_point_type);
   (yaw, yaw);
   (yaw_var, yaw_var);
   (heading_angle, heading_angle);
   (heading_angle_var, heading_angle_var);
   (pitch, pitch);
   (pitch_var, pitch_var);
   (abs_velocity, abs_velocity);
   (abs_velocity_var, abs_velocity_var);
   (rel_abs_velocity, rel_abs_velocity);
   (rel_abs_velocity_var, rel_abs_velocity_var);
   (abs_acceleration, abs_acceleration);
   (abs_acceleration_var, abs_acceleration_var);
   (rel_abs_acceleration, rel_abs_acceleration);
   (rel_abs_acceleration_var, rel_abs_acceleration_var);
   (lane_relation, lane_relation);
   (visibility, visibility);
   (solid_angle, solid_angle);
   (reflectivity, reflectivity);
   (relation_type, relation_type);
   (relation_id, relation_id);
   (behavior_state, behavior_state)].

Definition string_fields : list ((LDObject_ option -> option string) * (LDObject -> string)) :=
  [(object_status, object_status);
   (occlusion, occlusion);
   (occlusion_l, occlusion_l);
   (occlusion_h, occlusion_h);
   (occlusion_w, occlusion_w);
   (class_label_true, class_label_true);
   (class_label_pred, class_label_pred);
   (subclass_label_true, subclass_label_true);
   (subclass_label_pred, subclass_label_pred)].

Definition boolean_fields : list ((LDObject_ option -> option bool) * (LDObject -> bool)) :=
  [(pose_reliable, pose_reliable);
   (occlusion_lowerpart, occlusion_lowerpart);
   (validity, validity);
   (has_sun, has_sun);
   (has_child, has_child);
   (target_added, target_added);
   (target_deleted, target_deleted)].

Definition Header_fields
  : list ((LDObject_ option -> option (Header_ option)) * (LDObject -> Header)) :=
  [(header, header)].

Definition Time_fields
  : list ((LDObject_ option -> option (Time_ option)) * (LDObject -> Time)) :=
  [(Age, Age);
   (lifetime, lifetime)].

Definition ColorRGBA_fields
  : list ((LDObject_ option -> option (ColorRGBA_ option)) * (LDObject -> ColorRGBA)) :=
  [(color, color)].

Definition Pose_fields
  : list ((LDObject_ option -> option (Pose_ option)) * (LDObject -> Pose)) :=
  [(pose, pose);
   (jsk_pose, jsk_pose)].

Definition Vector3_fields
  : list ((LDObject_ option -> option (Vector3_ option)) * (LDObject -> Vector3)) :=
  [(pose_var, pose_var);
   (gps_pos, gps_pos);
   (gps_var, gps_var);
   (tracking_points, tracking_points);
   (dimensions, dimensions);
   (dimensions_var, dimensions_var);
   (clustered_dimensions, clustered_dimensions)].

Definition Twist_fields
  : list ((LDObject_ option -> option (Twist_ option)) * (LDObject -> Twist)) :=
  [(velocity, velocity);
   (velocity_var, velocity_var);
   (rel_velocity, rel_velocity);
   (rel_velocity_var, rel_velocity_var);
   (acceleration, acceleration);
   (acceleration_var, acceleration_var);
   (rel_acceleration, rel_acceleration);
   (rel_acceleration_var, rel_acceleration_var)].

End LDMsg.

(** ** LDObjectList.ts: the instanced renderable *)

Module LDList.

Import Ros LDMsg.

Record LayerSettingsLDObjectList := {
  visible : bool;
  frameLocked : option bool;
  settings_frameId : option string;
  bboxColor : string
}.

Record LDObjectListUserData := {
  receiveTime : Z;
  messageTime : Z;
  frameId : string;
  userPose : Pose;
  settingsPath : list string;
  settings : LayerSettingsLDObjectList;
  topic : string;
  objectList : LDObjectList;
  originalMessage : option (LDObjectList_ option)
}.

(** [tempMat4.compose(position, quaternion, scale)]: the instance matrix is
    kept as the three values it is composed from. *)
Record InstanceMatrix := {
  m_position : Vector3;
  m_quaternion : Quaternion;
  m_scale : Vector3
}.

(** [new THREE.InstancedBufferGeometry().copy(source)] *)
Record InstancedBufferGeometry := {
  outline_ref : handle;
  copied_from : handle;
  instanceCount : option nat       (* [None]: never assigned *)
}.

(** The matrix that the loop of [updateLDObjectList] composes for an
    object. *)
Definition instance_matrix (obj : LDObject) : InstanceMatrix :=
  {| m_position := {| x := x (position (pose obj)); y := y (position (pose obj));
                      z := z (position (pose obj)) |} : Vector3;
     m_quaternion := {| qx := qx (orientation (pose obj)); qy := qy (orientation (pose obj));
                        qz := qz (orientation (pose obj)); qw := qw (orientation (pose obj)) |}
                     : Quaternion;
     m_scale := {| x := x (dimensions obj); y := y (dimensions obj);
                   z := z (dimensions obj) |} : Vector3 |}.

Definition newline : string := String (Ascii.ascii_of_nat 10) EmptyString.

Section Renderable.

(** The colour type of [../color] and its parser are not among the sources:
    [stringToRgb(output, s)] writes the colour parsed from [s] into [output]
    and returns it. *)
Context {Rgb : Type}.
Variable stringToRgb : Rgb -> string -> Rgb.

Record Label := {
  label_ref : handle;
  label_text : string;
  label_position : Vector3;
  billboard : bool;
  sizeAttenuation : bool;
  lineHeight : Z;
  label_color : option Rgb;
  backgroundColor : option (Z * Z * Z)
}.

(** Modelled from the spec: the label pool of [@foxglove/three-text] is not
    among the sources.  Labels are borrowed from the pool and returned to
    it; a released label is reused before a new one is made.  The head of
    [available] is the label released last. *)
Record LabelPool := {
  available : list Label;
  acquire_count : nat;             (* calls of [acquire()] *)
  release_log : list handle        (* one entry per [release(label)] call *)
}.

Definition new_label (self : handle) : Label :=
  {| label_ref := self; label_text := ""; label_position := {| x := 0; y := 0; z := 0 |} : Vector3;
     billboard := false; sizeAttenuation := true; lineHeight := 1;
     label_color := None; backgroundColor := None |}.

Definition acquire (p : LabelPool) (h : Heap) : Label * LabelPool * Heap :=
  match available p with
  | l :: rest =>
      (l, {| available := rest; acquire_count := S (acquire_count p);
             release_log := release_log p |}, h)
  | [] =>
      let '(self, h) := fresh h in
      (new_label self, {| available := []; acquire_count := S (acquire_count p);
                          release_log := release_log p |}, h)
  end.

Definition release (l : Label) (p : LabelPool) : LabelPool :=
  {| available := l :: available p; acquire_count := acquire_count p;
     release_log := release_log p ++ [label_ref l] |}.

(** The renderer, as far as the renderable uses it, and the module-level
    scratch colour [tempColor]. *)
Record Renderer := {
  heap : Heap;
  labelPool : LabelPool;
  sharedGeometry : gmap string handle;
  instancedOutlineMaterial : handle;
  instancedOutlineMaterial_color : string;
  tempColor : Rgb
}.

Definition with_heap (h : Heap) (e : Renderer) : Renderer :=
  {| heap := h; labelPool := labelPool e; sharedGeometry := sharedGeometry e;
     instancedOutlineMaterial := instancedOutlineMaterial e;
     instancedOutlineMaterial_color := instancedOutlineMaterial_color e;
     tempColor := tempColor e |}.

Record LDObjectListRenderable := {
  userData : LDObjectListUserData;
  mesh : handle;
  mesh_count : nat;                              (* this.mesh.count *)
  instanceMatrix : list (option InstanceMatrix); (* this.mesh.instanceMatrix, shared with the outline *)
  material : handle;
  outlineGeometry : InstancedBufferGeometry;
  outline : handle;
  outline_geometry : handle;                     (* this.outline.geometry *)
  geometry : handle;
  maxInstances : nat;
  sharedEdgesGeometry : handle;
  labels : list Label;
  children : list handle
}.

(** [renderer.sharedGeometry.getGeometry(key, create)]: the cached template,
    created on first use. *)
Definition getGeometry (key : string) (e : Renderer) : handle * Renderer :=
  match sharedGeometry e !! key with
  | Some g => (g, e)
  | None =>
      let '(g, h) := fresh (heap e) in
      (g, {| heap := h; labelPool := labelPool e;
             sharedGeometry := <[key := g]> (sharedGeometry e);
             instancedOutlineMaterial := instancedOutlineMaterial e;
             instancedOutlineMaterial_color := instancedOutlineMaterial_color e;
             tempColor := tempColor e |})
  end.

Definition new (topic : string) (e : Renderer) (userData : LDObjectListUserData)
  : LDObjectListRenderable * Renderer :=
  let '(material, h) := fresh (heap e) in
  let e := with_heap h e in
  let '(template, e) := getGeometry "LDObjectListRenderable-object" e in
  let '(geometry, h) := fresh (heap e) in            (* .clone() *)
  let maxInstances := 48%nat in
  let '(mesh, h) := fresh h in
  let e := with_heap h e in
  let '(sharedEdgesGeometry, e) := getGeometry "LDObjectListRenderable-objectedges" e in
  let '(outlineGeometry, h) := fresh (heap e) in
  let '(outline, h) := fresh h in
  ({| userData := userData;
      mesh := mesh;
      mesh_count := 0;
      instanceMatrix := replicate maxInstances None;
      material := material;
      outlineGeometry := {| outline_ref := outlineGeometry;
                            copied_from := sharedEdgesGeometry;
                            instanceCount := None |};
      outline := outline;
      outline_geometry := outlineGeometry;
      geometry := geometry;
      maxInstances := maxInstances;
      sharedEdgesGeometry := sharedEdgesGeometry;
      labels := [];
      children := [outline] |},
   with_heap h e).

(** The setters applied to [this.labels[i]] in the loop of
    [updateLDObjectList]. *)
Definition style_label (obj : LDObject) (c : Rgb) (l : Label) : Label :=
  {| label_ref := label_ref l;
     label_text := pretty (id obj) +:+ newline +:+ class_label_pred obj;
     label_position := {| x := x (tracking_points obj) - 1;
                          y := y (tracking_points obj);
                          z := z (tracking_points obj) |} : Vector3;
     billboard := true;
     sizeAttenuation := false;
     lineHeight := 8;
     label_color := Some c;
     backgroundColor := Some (0, 0, 0) |}.

(** One pass of the loop of [updateLDObjectList], at index [i]. *)
Definition update_body (settings : LayerSettingsLDObjectList) (obj : LDObject) (i : nat)
    (this : LDObjectListRenderable) (e : Renderer) : LDObjectListRenderable * Renderer :=
  (* update bboxs: setMatrixAt writes nothing outside the buffer *)
  let instanceMatrix := <[i := Some (instance_matrix obj)]> (instanceMatrix this) in
  (* update labels *)
  let '(newLabel, pool, h) := acquire (labelPool e) (heap e) in
  let labels := labels this ++ [newLabel] in
  let children := add_child (children this) (label_ref newLabel) in
  let c := stringToRgb (tempColor e) (bboxColor settings) in
  let labels := alter (style_label obj c) i labels in
  ({| userData := userData this; mesh := mesh this; mesh_count := mesh_count this;
      instanceMatrix := instanceMatrix; material := material this;
      outlineGeometry := outlineGeometry this; outline := outline this;
      outline_geometry := outline_geometry this; geometry := geometry this;
      maxInstances := maxInstances this; sharedEdgesGeometry := sharedEdgesGeometry this;
      labels := labels; children := children |},
   {| heap := h; labelPool := pool; sharedGeometry := sharedGeometry e;
      instancedOutlineMaterial := instancedOutlineMaterial e;
      instancedOutlineMaterial_color := instancedOutlineMaterial_color e;
      tempColor := c |}).

Fixpoint update_loop (settings : LayerSettingsLDObjectList) (objs : list LDObject) (i : nat)
    (this : LDObjectListRenderable) (e : Renderer)
  : nat * LDObjectListRenderable * Renderer :=
  match objs with
  | [] => (i, this, e)
  | obj :: rest =>
      let '(this, e) := update_body settings obj i this e in
      update_loop settings rest (S i) this e
  end.

Definition updateLDObjectList (objectList : LDObjectList)
    (originalMessage : option (LDObjectList_ option))
    (settings : LayerSettingsLDObjectList) (receiveTime : Z)
    (this : LDObjectListRenderable) (e : Renderer) : LDObjectListRenderable * Renderer :=
  let e := with_heap (log_dispose (mesh this) (log_dispose (geometry this) (heap e))) e in
  let messageTime := toNanoSec (stamp (list_header objectList)) in
  let userData :=
    {| receiveTime := receiveTime;
       messageTime := messageTime;
       frameId := frame_id (list_header objectList);
       userPose := userPose (userData this);
       settingsPath := settingsPath (userData this);
       settings := settings;
       topic := topic (userData this);
       objectList := objectList;
       originalMessage := originalMessage |} in
  let '(i, this, e) := update_loop settings (objects objectList) 0 this e in
  let h := log_dispose (outline_ref (outlineGeometry this)) (heap e) in
  let '(outlineGeometry, h) := fresh h in
  let labels := labels this in
  let kept := if bool_decide (i < length labels)%nat then take i labels else labels in
  let excess := if bool_decide (i < length labels)%nat then drop i labels else [] in
  ({| userData := userData;
      mesh := mesh this;
      mesh_count := i;
      instanceMatrix := instanceMatrix this;
      material := material this;
      outlineGeometry := {| outline_ref := outlineGeometry;
                            copied_from := sharedEdgesGeometry this;
                            instanceCount := Some i |};
      outline := outline this;
      outline_geometry := outlineGeometry;
      geometry := geometry this;
      maxInstances := maxInstances this;
      sharedEdgesGeometry := sharedEdgesGeometry this;
      labels := kept;
      children := foldl remove_child (children this) (label_ref <$> excess) |},
   {| heap := h;
      labelPool := foldl (fun p l => release l p) (labelPool e) excess;
      sharedGeometry := sharedGeometry e;
      instancedOutlineMaterial := instancedOutlineMaterial e;
      instancedOutlineMaterial_color := bboxColor settings;
      tempColor := tempColor e |}).

End Renderable.

End LDList.

(** ** LDObjectList.ts: the scene extension and the disposal of a renderable *)

Module LDScene.

Import Ros LDMsg LDList.

(** A topic of the data source. *)
Record Topic := { topic_name : string; schemaName : string }.

(** [PartialMessageEvent<LDObjectList>] *)
Record MessageEvent := {
  event_topic : string;
  event_receiveTime : Time;
  event_message : LDObjectList_ option
}.

(** An entry of [renderer.config.topics], read as
    [Partial<LayerSettingsLDObjectList>]. *)
Record TopicConfig := {
  t_visible : option bool;
  t_frameLocked : option bool;
  t_frameId : option string;
  t_bboxColor : option string
}.

Definition empty_topic_config : TopicConfig :=
  {| t_visible := None; t_frameLocked := None; t_frameId := None; t_bboxColor := None |}.

(** [{ ...d, ...s }] for settings that may be undefined. *)
Definition spread (d : LayerSettingsLDObjectList) (s : option TopicConfig)
  : LayerSettingsLDObjectList :=
  match s with
  | None => d
  | Some s =>
      {| visible := default (visible d) (t_visible s);
         frameLocked := match t_frameLocked s with Some v => Some v | None => frameLocked d end;
         settings_frameId := match t_frameId s with
                             | Some v => Some v
                             | None => settings_frameId d
                             end;
         bboxColor := default (bboxColor d) (t_bboxColor s) |}
  end.

(** Assignment of one property of a topic entry; a property this extension
    never reads, or a value outside the declared type of the property,
    leaves the typed view of the entry as it is. *)
Definition set_field (field : string) (v : Grids.Value) (c : TopicConfig) : TopicConfig :=
  match v with
  | Grids.VBoolean b =>
      if String.eqb field "visible" then
        {| t_visible := Some b; t_frameLocked := t_frameLocked c;
           t_frameId := t_frameId c; t_bboxColor := t_bboxColor c |}
      else if String.eqb field "frameLocked" then
        {| t_visible := t_visible c; t_frameLocked := Some b;
           t_frameId := t_frameId c; t_bboxColor := t_bboxColor c |}
      else c
  | Grids.VString s =>
      if String.eqb field "frameId" then
        {| t_visible := t_visible c; t_frameLocked := t_frameLocked c;
           t_frameId := Some s; t_bboxColor := t_bboxColor c |}
      else if String.eqb field "bboxColor" then
        {| t_visible := t_visible c; t_frameLocked := t_frameLocked c;
           t_frameId := t_frameId c; t_bboxColor := Some s |}
      else c
  | Grids.VNumber _ => c
  end.

(** A node of the settings tree, with its one field. *)
Record SettingsTreeEntry := {
  path : list string;
  node_label : string;
  node_icon : string;
  field_label : string;
  field_input : string;
  field_value : string;
  node_visible : bool
}.

Section Scene.

Context {Rgb : Type}.
Variable stringToRgb : Rgb -> string -> Rgb.

(** Not among the sources, and taken as given: the six normalizers of
    [../normalizeMessages], [renderer.normalizeFrameId], [emptyPose()] of
    [util/Pose], the colour string [rgbaToCssString(DEFAULT_COLOR)], and
    [topicIsConvertibleToSchema(topic, LD_OBJ_LIST_DATATYPES)]. *)
Variable normalizeVector3 : option (Vector3_ option) -> Vector3.
Variable normalizeColorRGBA : option (ColorRGBA_ option) -> ColorRGBA.
Variable normalizeHeader : option (Header_ option) -> Header.
Variable normalizePose : option (Pose_ option) -> Pose.
Variable normalizeTime : option (Time_ option) -> Time.
Variable normalizeTwist : option (Twist_ option) -> Twist.
Variable normalizeFrameId : string -> string.
Variable emptyPose : Pose.
Variable DEFAULT_COLOR_STR : string.
Variable topicIsConvertibleToSchema : Topic -> bool.

Definition DEFAULT_SETTINGS : LayerSettingsLDObjectList :=
  {| visible := false; frameLocked := None; settings_frameId := None;
     bboxColor := DEFAULT_COLOR_STR |}.

(** Modelled from the spec: [Renderable.dispose] of [../Renderable] (not
    among the sources) empties the children of the renderable. *)
Definition Renderable_dispose (this : @LDObjectListRenderable Rgb) : LDObjectListRenderable :=
  {| userData := userData this; mesh := mesh this; mesh_count := mesh_count this;
     instanceMatrix := instanceMatrix this; material := material this;
     outlineGeometry := outlineGeometry this; outline := outline this;
     outline_geometry := outline_geometry this; geometry := geometry this;
     maxInstances := maxInstances this; sharedEdgesGeometry := sharedEdgesGeometry this;
     labels := labels this; children := [] |}.

(** [LDObjectListRenderable.dispose] *)
Definition dispose (this : @LDObjectListRenderable Rgb) (e : Renderer)
  : LDObjectListRenderable * Renderer :=
  let this := Renderable_dispose this in
  let h := log_dispose (mesh this) (heap e) in
  let h := log_dispose (geometry this) h in
  let h := log_dispose (material this) h in
  let h := log_dispose (outline_ref (outlineGeometry this)) h in
  (this,
   {| heap := h;
      labelPool := foldl (fun p l => release l p) (labelPool e) (labels this);
      sharedGeometry := sharedGeometry e;
      instancedOutlineMaterial := instancedOutlineMaterial e;
      instancedOutlineMaterial_color := instancedOutlineMaterial_color e;
      tempColor := tempColor e |}).

(** A registered renderable: the object and its state. *)
Record Registered := {
  renderable_ref : handle;
  renderable : @LDObjectListRenderable Rgb
}.

(** The extension together with the parts of the renderer it talks to. *)
Record LDObjectListScene := {
  renderer : @Renderer Rgb;
  config_topics : gmap string TopicConfig;        (* renderer.config.topics *)
  topics : option (list Topic);                   (* renderer.topics *)
  renderables : gmap string Registered;           (* this.renderables *)
  scene_children : list handle;                   (* this.children *)
  settingsTreeUpdates : nat                       (* calls of updateSettingsTree() *)
}.

(** The constructor; the schema subscription hands every message of the
    object-list schemas to [handleLDObjectList]. *)
Definition new (e : Renderer) (config : gmap string TopicConfig) (ts : option (list Topic))
  : LDObjectListScene :=
  {| renderer := e; config_topics := config; topics := ts; renderables := ∅;
     scene_children := []; settingsTreeUpdates := 0 |}.

Definition settingsNodes_body (s : LDObjectListScene) (entries : list SettingsTreeEntry)
    (topic : Topic) : list SettingsTreeEntry :=
  if negb (topicIsConvertibleToSchema topic) then entries
  else
    let config := default empty_topic_config (config_topics s !! topic_name topic) in
    entries ++ [{| path := ["topics"; topic_name topic];
                   node_label := topic_name topic;
                   node_icon := "Cube";
                   field_label := "Object Color";
                   field_input := "rgba";
                   field_value := default DEFAULT_COLOR_STR (t_bboxColor config);
                   node_visible := default (visible DEFAULT_SETTINGS) (t_visible config) |}].

Definition settingsNodes (s : LDObjectListScene) : list SettingsTreeEntry :=
  foldl (settingsNodes_body s) [] (default [] (topics s)).

(** Modelled from the spec: [SceneExtension.saveSetting] (not among the
    sources) writes the value at the path of the persisted configuration and
    refreshes the settings tree.  Only [config.topics] is modelled. *)
Definition saveSetting (path : list string) (value : Grids.Value) (s : LDObjectListScene)
  : LDObjectListScene :=
  let config :=
    match path with
    | [root; topicName; field] =>
        if String.eqb root "topics" then
          let entry := default empty_topic_config (config_topics s !! topicName) in
          <[topicName := set_field field value entry]> (config_topics s)
        else config_topics s
    | _ => config_topics s
    end in
  {| renderer := renderer s; config_topics := config; topics := topics s;
     renderables := renderables s; scene_children := scene_children s;
     settingsTreeUpdates := S (settingsTreeUpdates s) |}.

Definition with_settings (settings : LayerSettingsLDObjectList)
    (this : @LDObjectListRenderable Rgb) : LDObjectListRenderable :=
  {| userData :=
       {| receiveTime := receiveTime (userData this);
          messageTime := messageTime (userData this);
          frameId := frameId (userData this);
          userPose := userPose (userData this);
          settingsPath := settingsPath (userData this);
          settings := settings;
          topic := topic (userData this);
          objectList := objectList (userData this);
          originalMessage := originalMessage (userData this) |};
     mesh := mesh this; mesh_count := mesh_count this;
     instanceMatrix := instanceMatrix this; material := material this;
     outlineGeometry := outlineGeometry this; outline := outline this;
     outline_geometry := outline_geometry this; geometry := geometry this;
     maxInstances := maxInstances this; sharedEdgesGeometry := sharedEdgesGeometry this;
     labels := labels this; children := LDList.children this |}.

(** The renderable of a topic after it has been updated in place, and the
    renderer after that. *)
Definition updated (topicName : string) (self : handle)
    (r : @LDObjectListRenderable Rgb * Renderer) (s : LDObjectListScene)
  : LDObjectListScene :=
  {| renderer := r.2; config_topics := config_topics s; topics := topics s;
     renderables := <[topicName := {| renderable_ref := self; renderable := r.1 |}]>
                      (renderables s);
     scene_children := scene_children s;
     settingsTreeUpdates := settingsTreeUpdates s |}.

Definition handleSettingsAction (action : Grids.SettingsTreeAction) (s : LDObjectListScene)
  : LDObjectListScene :=
  match action with
  | Grids.Update path value =>
      match path with
      | [_; topicName; _] =>
          let s := saveSetting path value s in
          (* Update the renderable *)
          match renderables s !! topicName with
          | Some registered =>
              let settings := config_topics s !! topicName in
              let this := with_settings (spread DEFAULT_SETTINGS settings)
                            (renderable registered) in
              updated topicName (renderable_ref registered)
                (updateLDObjectList stringToRgb
                   (objectList (userData this)) (originalMessage (userData this))
                   (LDList.settings (userData this)) (receiveTime (userData this))
                   this (renderer s)) s
          | None => s
          end
      | _ => s
      end
  | Grids.PerformNodeAction _ _ => s
  end.

Definition handleLDObjectList (messageEvent : MessageEvent) (s : LDObjectListScene)
  : LDObjectListScene :=
  let topic := event_topic messageEvent in
  let objectList :=
    normalizeLDObjectList normalizeVector3 normalizeColorRGBA normalizeHeader
      normalizePose normalizeTime normalizeTwist (event_message messageEvent) in
  let receiveTime := toNanoSec (event_receiveTime messageEvent) in
  let '(registered, s) :=
    match renderables s !! topic with
    | Some registered => (registered, s)
    | None =>
        (* Set the initial settings from default values merged with any user settings *)
        let userSettings := config_topics s !! topic in
        let settings := spread DEFAULT_SETTINGS userSettings in
        let '(self, h) := fresh (heap (renderer s)) in
        let '(this, e) :=
          LDList.new topic (with_heap h (renderer s))
            {| receiveTime := receiveTime;
               messageTime := toNanoSec (stamp (list_header objectList));
               frameId := normalizeFrameId (frame_id (list_header objectList));
               userPose := emptyPose;
               settingsPath := ["topics"; topic];
               settings := settings;
               topic := topic;
               objectList := objectList;
               originalMessage := Some (event_message messageEvent) |} in
        let registered := {| renderable_ref := self; renderable := this |} in
        (registered,
         {| renderer := e; config_topics := config_topics s; topics := topics s;
            renderables := <[topic := registered]> (renderables s);
            scene_children := add_child (scene_children s) self;
            settingsTreeUpdates := settingsTreeUpdates s |})
    end in
  updated topic (renderable_ref registered)
    (updateLDObjectList stringToRgb objectList (Some (event_message messageEvent))
       (LDList.settings (userData (renderable registered))) receiveTime
       (renderable registered) (renderer s)) s.

End Scene.

End LDScene.

(** ** DrawCuboidTool.ts *)

Module Cuboid.

Import Ros.

Inductive DrawCuboidState := idle | place_first_point | place_second_point.

Inductive DrawingEvent := cuboid_start | cuboid_end.

(** The functions registered on [renderer.input]: the two handlers of this
    tool, and those of other extensions. *)
Inductive Listener := handleClick | handleMouseMove | foreign (n : nat).

Global Instance Listener_eq_dec : EqDecision Listener.
Proof. solve_decision. Defined.

(** A [THREE.Mesh] of the tool: what [_render] writes. *)
Record Mesh := { mesh_visible : bool; mesh_position : Vector3 }.

Definition new_mesh : Mesh :=
  {| mesh_visible := true; mesh_position := {| x := 0; y := 0; z := 0 |} : Vector3 |}.

Record DrawCuboidTool := {
  state : DrawCuboidState;
  point1 : option Vector3;
  point2 : option Vector3;
  point1NeedsUpdate : bool;
  point2NeedsUpdate : bool;
  circle1 : handle;
  circle2 : handle;
  circle3 : handle;
  circle4 : handle;
  objects : gmap handle Mesh;             (* the circle meshes made so far *)
  next_object : handle;
  children : list handle;                 (* this.children: what the scene shows *)
  cuboidPositionAttribute : list Binary64.number;
  attribute_needsUpdate : bool;
  cuboid_position : list Binary64.number; (* cuboid.geometry "position" attribute *)
  cuboid_visible : bool;
  cuboidOccluded_position : list Binary64.number;
  cuboidOccluded_visible : bool;
  click_listeners : list Listener;        (* renderer.input, "click" *)
  mousemove_listeners : list Listener;    (* renderer.input, "mousemove" *)
  events : list DrawingEvent;             (* dispatched events, oldest first *)
  animationFrames : nat                   (* calls of queueAnimationFrame() *)
}.

(** Modelled from the spec: [renderer.input] ([../Input], an event emitter)
    is not among the sources.  [addListener] appends one registration;
    [removeListener] drops the registrations of the function. *)
Definition addListener (f : Listener) (ls : list Listener) : list Listener := ls ++ [f].
Definition removeListener (f : Listener) (ls : list Listener) : list Listener :=
  filter (fun g => g <> f) ls.

Definition set_mesh (o : handle) (visible : bool) (position : option Vector3)
    (objects : gmap handle Mesh) : gmap handle Mesh :=
  alter (fun m => {| mesh_visible := visible;
                     mesh_position := default (mesh_position m) position |}) o objects.

(** [new THREE.Float32BufferAttribute(array, 3)]: the numbers of [array]
    as a [Float32Array] holds them. *)
Definition Float32BufferAttribute (array : list Binary64.number) : list Binary64.number :=
  Binary64.fround <$> array.

Definition _createBox (poi1 poi2 : Vector3) : list Binary64.number :=
  let number := Binary64.of_Z in
  let Vector3 (a b c : Binary64.number) := (a, b, c) in
  let p0 := Vector3 (number (x poi1)) (number (y poi1)) (number (z poi1)) in
  let p1 := Vector3 (number (x poi1)) (number (y poi2)) (number (z poi2)) in
  let p2 := Vector3 (number (x poi1)) (number (y poi2))
              (Binary64.add (number (z poi2)) (number 1)) in
  let p3 := Vector3 (number (x poi1)) (number (y poi1))
              (Binary64.add (number (z poi1)) (number 1)) in
  let p4 := Vector3 (number (x poi2)) (number (y poi1)) (number (z poi1)) in
  let p5 := Vector3 (number (x poi2)) (number (y poi2)) (number (z poi2)) in
  let p6 := Vector3 (number (x poi2)) (number (y poi2))
              (Binary64.add (number (z poi2)) (number 1)) in
  let p7 := Vector3 (number (x poi2)) (number (y poi1))
              (Binary64.add (number (z poi1)) (number 1)) in
  let p := [p0; p1; p3; p1; p2; p3;
            p4; p5; p7; p5; p6; p7;
            p0; p1; p4; p1; p5; p4;
            p3; p2; p7; p2; p6; p7;
            p0; p3; p4; p3; p7; p4;
            p1; p2; p5; p2; p6; p5] in
  let pp := foldl (fun pp '(unit_x, unit_y, unit_z) => pp ++ [unit_x; unit_y; unit_z]) [] p in
  Float32BufferAttribute pp.

Definition _render (t : DrawCuboidTool) : DrawCuboidTool :=
  let objects :=
    match point1 t with
    | Some p => set_mesh (circle1 t) true (Some p) (objects t)
    | None => set_mesh (circle1 t) false None (objects t)
    end in
  let point1NeedsUpdate :=
    match point1 t with
    | Some _ => if point1NeedsUpdate t then false else point1NeedsUpdate t
    | None => point1NeedsUpdate t
    end in
  let objects :=
    match point2 t with
    | Some p => set_mesh (circle2 t) true (Some p) objects
    | None => set_mesh (circle2 t) false None objects
    end in
  let point2NeedsUpdate :=
    match point2 t with
    | Some _ => if point2NeedsUpdate t then false else point2NeedsUpdate t
    | None => point2NeedsUpdate t
    end in
  match point1 t, point2 t with
  | Some p1, Some p2 =>
      let attribute := _createBox p1 p2 in
      {| state := state t; point1 := point1 t; point2 := point2 t;
         point1NeedsUpdate := point1NeedsUpdate; point2NeedsUpdate := point2NeedsUpdate;
         circle1 := circle1 t; circle2 := circle2 t; circle3 := circle3 t;
         circle4 := circle4 t; objects := objects; next_object := next_object t;
         children := children t;
         cuboidPositionAttribute := attribute; attribute_needsUpdate := true;
         cuboid_position := attribute; cuboid_visible := true;
         cuboidOccluded_position := attribute; cuboidOccluded_visible := true;
         click_listeners := click_listeners t;
         mousemove_listeners := mousemove_listeners t;
         events := events t; animationFrames := S (animationFrames t) |}
  | _, _ =>
      (* this.cuboid.visible = false and this.cuboidOccluded.visible = false
         are commented out in the source *)
      {| state := state t; point1 := point1 t; point2 := point2 t;
         point1NeedsUpdate := point1NeedsUpdate; point2NeedsUpdate := point2NeedsUpdate;
         circle1 := circle1 t; circle2 := circle2 t; circle3 := circle3 t;
         circle4 := circle4 t; objects := objects; next_object := next_object t;
         children := children t;
         cuboidPositionAttribute := cuboidPositionAttribute t;
         attribute_needsUpdate := attribute_needsUpdate t;
         cuboid_position := cuboid_position t; cuboid_visible := cuboid_visible t;
         cuboidOccluded_position := cuboidOccluded_position t;
         cuboidOccluded_visible := cuboidOccluded_visible t;
         click_listeners := click_listeners t;
         mousemove_listeners := mousemove_listeners t;
         events := events t; animationFrames := S (animationFrames t) |}
  end.

(** Assignment of the fields that the handlers and [_setState] write. *)
Definition assign (st : DrawCuboidState) (p1 p2 : option Vector3) (u1 u2 : bool)
    (clicks moves : list Listener) (evs : list DrawingEvent) (t : DrawCuboidTool)
  : DrawCuboidTool :=
  {| state := st; point1 := p1; point2 := p2;
     point1NeedsUpdate := u1; point2NeedsUpdate := u2;
     circle1 := circle1 t; circle2 := circle2 t; circle3 := circle3 t;
     circle4 := circle4 t; objects := objects t; next_object := next_object t;
     children := children t;
     cuboidPositionAttribute := cuboidPositionAttribute t;
     attribute_needsUpdate := attribute_needsUpdate t;
     cuboid_position := cuboid_position t; cuboid_visible := cuboid_visible t;
     cuboidOccluded_position := cuboidOccluded_position t;
     cuboidOccluded_visible := cuboidOccluded_visible t;
     click_listeners := clicks; mousemove_listeners := moves;
     events := evs; animationFrames := animationFrames t |}.

Definition _setState (st : DrawCuboidState) (t : DrawCuboidTool) : DrawCuboidTool :=
  let t :=
    match st with
    | idle =>
        assign st (point1 t) (point2 t) (point1NeedsUpdate t) (point2NeedsUpdate t)
          (removeListener handleClick (click_listeners t))
          (removeListener handleMouseMove (mousemove_listeners t))
          (events t ++ [cuboid_end]) t
    | place_first_point =>
        assign st None None (point1NeedsUpdate t) (point2NeedsUpdate t)
          (addListener handleClick (click_listeners t))
          (addListener handleMouseMove (mousemove_listeners t))
          (events t ++ [cuboid_start]) t
    | place_second_point =>
        assign st (point1 t) (point2 t) (point1NeedsUpdate t) (point2NeedsUpdate t)
          (click_listeners t) (mousemove_listeners t) (events t) t
    end in
  _render t.

(** The constructor, on an input that already has the given listeners. *)
Definition new (clicks moves : list Listener) : DrawCuboidTool :=
  let hidden := {| mesh_visible := false; mesh_position := mesh_position new_mesh |} in
  _setState idle
    {| state := idle; point1 := None; point2 := None;
       point1NeedsUpdate := false; point2NeedsUpdate := false;
       circle1 := 0%nat; circle2 := 1%nat; circle3 := 2%nat; circle4 := 3%nat;
       objects := <[3%nat := hidden]> (<[2%nat := hidden]> (<[1%nat := hidden]>
                    (<[0%nat := hidden]> ∅)));
       next_object := 6%nat;
       children := [0; 1; 2; 3; 4; 5]%nat;     (* four circles, cuboid, cuboidOccluded *)
       cuboidPositionAttribute := []; attribute_needsUpdate := false;
       cuboid_position := []; cuboid_visible := true;
       cuboidOccluded_position := []; cuboidOccluded_visible := true;
       click_listeners := clicks; mousemove_listeners := moves;
       events := []; animationFrames := 0 |}.

Definition startDrawing (t : DrawCuboidTool) : DrawCuboidTool :=
  let t := _setState place_first_point t in
  let n := next_object t in
  {| state := state t; point1 := point1 t; point2 := point2 t;
     point1NeedsUpdate := point1NeedsUpdate t; point2NeedsUpdate := point2NeedsUpdate t;
     circle1 := n; circle2 := S n; circle3 := S (S n); circle4 := S (S (S n));
     objects := <[S (S (S n)) := new_mesh]> (<[S (S n) := new_mesh]>
                  (<[S n := new_mesh]> (<[n := new_mesh]> (objects t))));
     next_object := S (S (S (S n)));
     children := children t;
     cuboidPositionAttribute := cuboidPositionAttribute t;
     attribute_needsUpdate := attribute_needsUpdate t;
     cuboid_position := cuboid_position t; cuboid_visible := cuboid_visible t;
     cuboidOccluded_position := cuboidOccluded_position t;
     cuboidOccluded_visible := cuboidOccluded_visible t;
     click_listeners := click_listeners t;
     mousemove_listeners := mousemove_listeners t;
     events := events t; animationFrames := animationFrames t |}.

Definition stopDrawing (t : DrawCuboidTool) : DrawCuboidTool :=
  let t := _setState idle t in
  assign (state t) None None (point1NeedsUpdate t) (point2NeedsUpdate t)
    (click_listeners t) (mousemove_listeners t) (events t) t.

Definition _handleMouseMove (worldSpaceCursorCoords : option Vector3) (t : DrawCuboidTool)
  : DrawCuboidTool :=
  match worldSpaceCursorCoords with
  | None => t
  | Some w =>
      let t :=
        match state t with
        | idle => t
        | place_first_point =>
            assign (state t) (Some w) (point2 t) true (point2NeedsUpdate t)
              (click_listeners t) (mousemove_listeners t) (events t) t
        | place_second_point =>
            assign (state t) (point1 t) (Some w) (point1NeedsUpdate t) true
              (click_listeners t) (mousemove_listeners t) (events t) t
        end in
      _render t
  end.

Definition _handleClick (worldSpaceCursorCoords : option Vector3) (t : DrawCuboidTool)
  : DrawCuboidTool :=
  match worldSpaceCursorCoords with
  | None => t
  | Some w =>
      let t :=
        match state t with
        | idle => t
        | place_first_point =>
            _setState place_second_point
              (assign (state t) (Some w) (point2 t) true (point2NeedsUpdate t)
                 (click_listeners t) (mousemove_listeners t) (events t) t)
        | place_second_point =>
            _setState idle
              (assign (state t) (point1 t) (Some w) (point1NeedsUpdate t) true
                 (click_listeners t) (mousemove_listeners t) (events t) t)
        end in
      _render t
  end.

(** What happens to the tool: calls of its public methods, and pointer
    events of the input, which run a handler once per registration. *)
Inductive Stimulus :=
| StartDrawing
| StopDrawing
| Click (worldSpaceCursorCoords : option Vector3)
| MouseMove (worldSpaceCursorCoords : option Vector3).

Definition registrations (f : Listener) (ls : list Listener) : nat :=
  length (filter (fun g => g = f) ls).

Definition react (s : Stimulus) (t : DrawCuboidTool) : DrawCuboidTool :=
  match s with
  | StartDrawing => startDrawing t
  | StopDrawing => stopDrawing t
  | Click w => Nat.iter (registrations handleClick (click_listeners t)) (_handleClick w) t
  | MouseMove w =>
      Nat.iter (registrations handleMouseMove (mousemove_listeners t)) (_handleMouseMove w) t
  end.

Definition reacts (ss : list Stimulus) (t : DrawCuboidTool) : DrawCuboidTool :=
  foldl (fun t s => react s t) t ss.

(** The visibility of a circle mesh; a handle with no mesh shows nothing. *)
Definition visible (o : handle) (t : DrawCuboidTool) : bool :=
  match objects t !! o with
  | Some m => mesh_visible m
  | None => false
  end.

End Cuboid.

(** ** Reference definitions for the statements below *)

Module Spec.



(** The integers on which binary64 arithmetic is exact: every integer up
    to 2^53 in magnitude is a double, and a sum of two of them that is one
    of them again is computed without rounding. *)
Definition safe (z : Z) : Prop := - 2 ^ 53 <= z <= 2 ^ 53.


(** What [dispose()] of a circle list logs: one [dispose()] call on each
    geometry, then one on the material. *)
Definition disposal (c : CircleList.RenderableCircleList) : list handle :=
  (CircleList.geometry_ref <$> CircleList.geometries c) ++ [CircleList.material c].

(** No configured step is 0 (an absent step is the default, 20). *)
Definition nonzero_steps (layers : gmap string Grids.LayerConfig) : Prop :=
  map_Forall (fun _ e => Grids.c_step e <> Some 0) layers.

(** The sizes of every entry, each with its default, are integers up to
    2^52 in magnitude, and no step is 0: the loop of [_range] then stays
    within the safe integers. *)
Definition safe_sizes (layers : gmap string Grids.LayerConfig) : Prop :=
  map_Forall (fun _ e =>
                let s := Grids.spread Grids.DEFAULT_SETTINGS e in
                Z.abs (Grids.minSize s) <= 2 ^ 52
                /\ Z.abs (Grids.maxSize s) <= 2 ^ 52
                /\ Z.abs (Grids.step s) <= 2 ^ 52
                /\ Grids.step s <> 0) layers.

(** The settings tree as a projection of the configuration: one node per
    configured circle grid. *)
Definition settings_entries (layers : gmap string Grids.LayerConfig)
  : list Grids.SettingsTreeEntry :=
  (fun kv => Grids.settings_entry kv.1 kv.2)
    <$> filter (fun kv => Grids.is_grid kv.2 = true) (map_to_list layers).



(** An action that does not set a step to 0. *)
Definition keeps_steps (a : Grids.UserAction) : bool :=
  match a with
  | Grids.Settings (Grids.Update [_; _; field] (Grids.VNumber n)) =>
      negb (String.eqb field "step" && (n =? 0))
  | _ => true
  end.


(** A saved layout with one circle grid and one layer of another kind. *)
Definition example_layers : gmap string Grids.LayerConfig :=
  {[ "g" := {| Grids.c_visible := Some true; Grids.c_frameLocked := None;
               Grids.c_label := Some "Rings"; Grids.c_instanceId := Some "g";
               Grids.c_layerId := Some Grids.LAYER_ID; Grids.c_order := Some 1;
               Grids.c_frameId := None; Grids.c_minSize := Some 40;
               Grids.c_maxSize := None; Grids.c_step := Some 10 |};
     "other" := {| Grids.c_visible := Some true; Grids.c_frameLocked := None;
                   Grids.c_label := Some "Grid"; Grids.c_instanceId := Some "other";
                   Grids.c_layerId := Some "foxglove.Grid"; Grids.c_order := Some 2;
                   Grids.c_frameId := None; Grids.c_minSize := None;
                   Grids.c_maxSize := None; Grids.c_step := None |} ]}.

Definition example_actions : list Grids.UserAction :=
  [Grids.AddGrid "a";
   Grids.Settings (Grids.Update ["layers"; "a"; "step"] (Grids.VNumber 10));
   Grids.Settings (Grids.PerformNodeAction ["layers"; "g"] "delete");
   Grids.AddGrid "b";
   Grids.Settings (Grids.Update ["layers"; "b"; "minSize"] (Grids.VNumber 120));
   Grids.Settings (Grids.Update ["layers"; "a"; "visible"] (Grids.VBoolean false))].

(** The three.js objects of an object-list renderable other than its
    labels and instance matrices. *)
Definition same_resources {Rgb : Type} (a b : @LDList.LDObjectListRenderable Rgb) : Prop :=
  LDList.mesh a = LDList.mesh b
  /\ LDList.material a = LDList.material b
  /\ LDList.outlineGeometry a = LDList.outlineGeometry b
  /\ LDList.outline a = LDList.outline b
  /\ LDList.geometry a = LDList.geometry b
  /\ LDList.maxInstances a = LDList.maxInstances b
  /\ LDList.sharedEdgesGeometry a = LDList.sharedEdgesGeometry b.

(** An object-list message of [n] objects, all fields at their defaults. *)
Definition example_message (n : nat) : LDMsg.LDObjectList :=
  LDMsg.normalizeLDObjectList Ros.normalizeVector3 Ros.normalizeColorRGBA
    Ros.normalizeHeader Ros.normalizePose Ros.normalizeTime Ros.normalizeTwist
    {| LDMsg.list_header := None; LDMsg.frame_number := None;
       LDMsg.objects := Some (replicate n None) |}.

Definition example_settings : LDList.LayerSettingsLDObjectList :=
  {| LDList.visible := true; LDList.frameLocked := None;
     LDList.settings_frameId := None; LDList.bboxColor := "#7c6bff" |}.

(** A renderer with an empty label pool; colours are kept as the strings
    they are parsed from. *)
Definition example_renderer : @LDList.Renderer string :=
  {| LDList.heap := empty_heap;
     LDList.labelPool := {| LDList.available := []; LDList.acquire_count := 0;
                            LDList.release_log := [] |};
     LDList.sharedGeometry := ∅;
     LDList.instancedOutlineMaterial := 0%nat;
     LDList.instancedOutlineMaterial_color := "";
     LDList.tempColor := "" |}.

Definition example_stringToRgb (output : string) (s : string) : string := s.

(** A renderable as [handleLDObjectList] makes it for the first message of
    a topic, and the renderer after that. *)
Definition example_renderable : @LDList.LDObjectListRenderable string * @LDList.Renderer string :=
  LDList.new "/objects" example_renderer
    {| LDList.receiveTime := 0; LDList.messageTime := 0; LDList.frameId := "";
       LDList.userPose := Ros.makePose; LDList.settingsPath := ["topics"; "/objects"];
       LDList.settings := example_settings; LDList.topic := "/objects";
       LDList.objectList := example_message 0; LDList.originalMessage := None |}.

(** The renderable after a message of [n] objects received at [time]. *)
Definition after_message (n : nat) (time : Z)
    (s : @LDList.LDObjectListRenderable string * @LDList.Renderer string)
  : @LDList.LDObjectListRenderable string * @LDList.Renderer string :=
  LDList.updateLDObjectList example_stringToRgb (example_message n) None
    example_settings time s.1 s.2.

(** A marker for a circle list: rings 30, 50, 70, 90.  The scale object
    and the time stamp are the arguments. *)
Definition example_marker (scale_object : handle) (seconds : Z) : Ros.Marker :=
  {| Ros.header := {| Ros.frame_id := ""; Ros.stamp := {| Ros.sec := seconds; Ros.nsec := 0 |}
                                                        : Ros.Time |} : Ros.Header;
     Ros.ns := ""; Ros.id := 0; Ros.type := Ros.LINE_LIST; Ros.action := Ros.ADD;
     Ros.pose := Ros.makePose;
     Ros.scale := {| Ros.scale_ref := scale_object;
                     Ros.scale_val := {| Ros.x := 30; Ros.y := 100; Ros.z := 20 |}
                                      : Ros.Vector3 |};
     Ros.color := {| Ros.r := 0; Ros.g := 0; Ros.b := 0; Ros.a := 0 |} : Ros.ColorRGBA;
     Ros.lifetime := Ros.TIME_ZERO; Ros.frame_locked := true; Ros.points := [];
     Ros.colors := []; Ros.text := ""; Ros.mesh_resource := "";
     Ros.mesh_use_embedded_materials := false |}.

(** A heap on which the two scale objects 0 and 1 have been allocated. *)
Definition example_heap : Heap := {| next_handle := 2%nat; dispose_log := [] |}.

(** Two world points for the cuboid tool. *)
Definition corner1 : Ros.Vector3 := {| Ros.x := 1; Ros.y := 2; Ros.z := 0 |}.
Definition corner2 : Ros.Vector3 := {| Ros.x := 4; Ros.y := 6; Ros.z := 0 |}.

(** The tool after the user has drawn one cuboid: start, two clicks. *)
Definition cuboid_drawn : Cuboid.DrawCuboidTool :=
  Cuboid.reacts [Cuboid.StartDrawing; Cuboid.Click (Some corner1); Cuboid.Click (Some corner2)]
    (Cuboid.new [Cuboid.foreign 0] [Cuboid.foreign 0]).

(** The three.js resources a grid renderable owns: the geometries and the
    material of its circle list. *)
Definition owned (r : Grids.CircleGridRenderable) : list handle :=
  disposal (Grids.circleList r).

(** No leak and no double free, as a property of a heap and a registry:
    every handle of the dispose log has been allocated; a registered
    renderable owns distinct, allocated resources none of which has been
    disposed of, and its scale object has been allocated; two registered
    renderables own no resource in common. *)
Definition resources_ok_at (h : Heap) (rs : gmap string Grids.CircleGridRenderable) : Prop :=
  Forall (fun x => (x < next_handle h)%nat) (dispose_log h)
  /\ (forall i r, rs !! i = Some r ->
        NoDup (owned r)
        /\ (forall x, x ∈ owned r -> (x < next_handle h)%nat /\ x ∉ dispose_log h)
        /\ (Ros.scale_ref (Ros.scale (CircleList.marker (Grids.circleList r)))
            < next_handle h)%nat)
  /\ (forall i j ri rj x,
        i <> j -> rs !! i = Some ri -> rs !! j = Some rj -> x ∈ owned ri -> x ∉ owned rj).

Definition resources_ok (w : Grids.World) : Prop :=
  resources_ok_at (Grids.heap w) (Grids.renderables w).

(** An extension with no layer. *)
Definition empty_world : Grids.World :=
  {| Grids.heap := empty_heap; Grids.config_layers := ∅; Grids.renderables := ∅;
     Grids.children := []; Grids.settingsTreeUpdates := 0;
     Grids.customLayersCountUpdates := 0 |}.

End Spec.

(** ** Reference definitions for the further properties *)

Module Ref.


(** A circle list whose scene objects are consistent: the i-th line loop
    draws the i-th geometry with the material of the list, every geometry is
    a circle of 32 divisions around the origin, the group holds each line
    loop once, in order, and no geometry or line loop occurs twice. *)
Definition circles_wf (c : CircleList.RenderableCircleList) : Prop :=
  CircleList.line_geometry <$> CircleList.circles c
    = CircleList.geometry_ref <$> CircleList.geometries c
  /\ Forall (fun l => CircleList.line_material l = CircleList.material c) (CircleList.circles c)
  /\ Forall (fun g => CircleList.centre_x g = 0 /\ CircleList.centre_y g = 0
                      /\ CircleList.divisions g = 32) (CircleList.geometries c)
  /\ CircleList.group c = CircleList.line_ref <$> CircleList.circles c
  /\ NoDup (CircleList.line_ref <$> CircleList.circles c)
  /\ NoDup (CircleList.geometry_ref <$> CircleList.geometries c).

(** The invariant of the loop of [_setCircles]. *)
Definition loop_inv (c : CircleList.RenderableCircleList) (h : Heap) : Prop :=
  circles_wf c
  /\ Forall (fun x => (x < next_handle h)%nat) (CircleList.line_ref <$> CircleList.circles c)
  /\ Forall (fun x => (x < next_handle h)%nat) (CircleList.geometry_ref <$> CircleList.geometries c).

(** The three sizes of a configuration entry, each with its default. *)
Definition configured_sizes (e : Grids.LayerConfig) : Z * Z * Z :=
  (default Grids.MIN_SIZE (Grids.c_minSize e),
   default Grids.DEFAULT_SIZE (Grids.c_maxSize e),
   default Grids.DEFAULT_STEP (Grids.c_step e)).

Definition sizes (s : Grids.LayerSettingsCircleGrid) : Z * Z * Z :=
  (Grids.minSize s, Grids.maxSize s, Grids.step s).

(** The circles of a renderable are those of its settings. *)
Definition rings_of_settings (r : Grids.CircleGridRenderable) : Prop :=
  CircleList._range (Grids.minSize (Grids.settings r))
    (Some (Grids.maxSize (Grids.settings r))) (Some (Grids.step (Grids.settings r)))
  = Some (CircleList.radius <$> CircleList.geometries (Grids.circleList r)).

(** The scene graph shows the registry: the children of the extension are
    the registered renderables, each once, and two instances never share a
    renderable. *)
Definition scene_shows_registry (w : Grids.World) : Prop :=
  NoDup (Grids.children w)
  /\ (forall x, x ∈ Grids.children w <->
                exists i r, Grids.renderables w !! i = Some r /\ Grids.renderable_ref r = x)
  /\ (forall i j ri rj,
        i <> j -> Grids.renderables w !! i = Some ri -> Grids.renderables w !! j = Some rj ->
        Grids.renderable_ref ri <> Grids.renderable_ref rj)
  /\ (forall i r, Grids.renderables w !! i = Some r ->
                  (Grids.renderable_ref r < next_handle (Grids.heap w))%nat).

(** The settings of every registered renderable carry the sizes of its
    configuration entry. *)
Definition settings_of_config (w : Grids.World) : Prop :=
  forall i r, Grids.renderables w !! i = Some r ->
    exists e, Grids.config_layers w !! i = Some e
              /\ sizes (Grids.settings r) = configured_sizes e.

(** Three invariants of the extension, each on top of [resources_ok]. *)
Definition disposal_ok (w : Grids.World) : Prop :=
  Spec.resources_ok w /\ NoDup (dispose_log (Grids.heap w)).

Definition rings_ok (w : Grids.World) : Prop :=
  Spec.resources_ok w
  /\ (forall i r, Grids.renderables w !! i = Some r -> rings_of_settings r)
  /\ settings_of_config w.

Definition scene_ok (w : Grids.World) : Prop :=
  Spec.resources_ok w /\ scene_shows_registry w.

(** One call of [updateLDObjectList]: its four arguments. *)
Record Update := {
  u_objectList : LDMsg.LDObjectList;
  u_originalMessage : option (LDMsg.LDObjectList_ option);
  u_settings : LDList.LayerSettingsLDObjectList;
  u_receiveTime : Z
}.

Section Process.

Context {Rgb : Type} (stringToRgb : Rgb -> string -> Rgb).

Definition apply_update (s : @LDList.LDObjectListRenderable Rgb * @LDList.Renderer Rgb)
    (u : Update) : @LDList.LDObjectListRenderable Rgb * @LDList.Renderer Rgb :=
  LDList.updateLDObjectList stringToRgb (u_objectList u) (u_originalMessage u)
    (u_settings u) (u_receiveTime u) s.1 s.2.

(** A renderable taken through a sequence of updates. *)
Definition process (us : list Update)
    (s : @LDList.LDObjectListRenderable Rgb * @LDList.Renderer Rgb)
  : @LDList.LDObjectListRenderable Rgb * @LDList.Renderer Rgb :=
  foldl apply_update s us.

(** The outline geometries that a renderable holds in the course of a
    sequence of updates: the one it starts with, and the one after each
    update. *)
Definition outlines (us : list Update)
    (s : @LDList.LDObjectListRenderable Rgb * @LDList.Renderer Rgb) : list handle :=
  (fun j => LDList.outline_ref (LDList.outlineGeometry (process (take j us) s).1))
    <$> seq 0 (S (length us)).

End Process.

(** The tool does not shift its scene objects: the children are the six
    objects that the constructor added, none of the four circles among them
    is visible, and the circles that [_render] writes are either the first
    two of these, with no point captured, or meshes made later, which are
    not in the scene. *)
Definition circles_hidden (t : Cuboid.DrawCuboidTool) : Prop :=
  Cuboid.children t = [0; 1; 2; 3; 4; 5]%nat
  /\ (forall o, (o < 4)%nat ->
        exists m, Cuboid.objects t !! o = Some m /\ Cuboid.mesh_visible m = false)
  /\ (6 <= Cuboid.next_object t)%nat
  /\ ((Cuboid.circle1 t = 0%nat /\ Cuboid.circle2 t = 1%nat
       /\ Cuboid.point1 t = None /\ Cuboid.point2 t = None)
      \/ ((6 <= Cuboid.circle1 t)%nat /\ (6 <= Cuboid.circle2 t)%nat)).

(** While the tool is in a placement state, the circles that [_render]
    writes are meshes made by [startDrawing]. *)
Definition drawing_with_new_circles (t : Cuboid.DrawCuboidTool) : Prop :=
  Cuboid.state t <> Cuboid.idle ->
  (6 <= Cuboid.circle1 t)%nat /\ (6 <= Cuboid.circle2 t)%nat.

(** The handlers of the tool are registered exactly while it is drawing,
    as often on [click] as on [mousemove], and the listeners of others are
    as the input had them at first. *)
Definition listening (clicks moves : list Cuboid.Listener) (t : Cuboid.DrawCuboidTool) : Prop :=
  (Cuboid.state t = Cuboid.idle <->
   Cuboid.registrations Cuboid.handleClick (Cuboid.click_listeners t) = 0%nat)
  /\ Cuboid.registrations Cuboid.handleClick (Cuboid.click_listeners t)
     = Cuboid.registrations Cuboid.handleMouseMove (Cuboid.mousemove_listeners t)
  /\ filter (fun g => g <> Cuboid.handleClick) (Cuboid.click_listeners t)
     = filter (fun g => g <> Cuboid.handleClick) clicks
  /\ filter (fun g => g <> Cuboid.handleMouseMove) (Cuboid.mousemove_listeners t)
     = filter (fun g => g <> Cuboid.handleMouseMove) moves.

(** The vertices of a position attribute, three numbers each. *)
Fixpoint vertices (attribute : list Binary64.number)
  : list (Binary64.number * Binary64.number * Binary64.number) :=
  match attribute with
  | x :: y :: z :: rest => (x, y, z) :: vertices rest
  | _ => []
  end.

(** The triangles of a non-indexed mesh, three vertices each. *)
Fixpoint triangles {A : Type} (vs : list A) : list (A * A * A) :=
  match vs with
  | a :: b :: c :: rest => (a, b, c) :: triangles rest
  | _ => []
  end.

(** A coordinate as the position attribute holds it, and the coordinate
    one above. *)
Definition stored (c : Z) : Binary64.number := Binary64.fround (Binary64.of_Z c).

Definition stored_above (c : Z) : Binary64.number :=
  Binary64.fround (Binary64.add (Binary64.of_Z c) (Binary64.of_Z 1)).

(** The six faces of the prism over the segment from [p] to [q]: a vertex
    has the x of one of the two points and the y of one of them, and stands
    at the z of the point whose y it has, or one above. *)
Inductive Face := x_of_p | x_of_q | y_of_p | y_of_q | bottom | top.

Definition on_face (p q : Ros.Vector3) (f : Face)
    (v : Binary64.number * Binary64.number * Binary64.number) : Prop :=
  let '(vx, vy, vz) := v in
  (vx = stored (Ros.x p) \/ vx = stored (Ros.x q))
  /\ ((vy = stored (Ros.y p) /\ (vz = stored (Ros.z p) \/ vz = stored_above (Ros.z p)))
      \/ (vy = stored (Ros.y q) /\ (vz = stored (Ros.z q) \/ vz = stored_above (Ros.z q))))
  /\ match f with
     | x_of_p => vx = stored (Ros.x p)
     | x_of_q => vx = stored (Ros.x q)
     | y_of_p => vy = stored (Ros.y p)
                 /\ (vz = stored (Ros.z p) \/ vz = stored_above (Ros.z p))
     | y_of_q => vy = stored (Ros.y q)
                 /\ (vz = stored (Ros.z q) \/ vz = stored_above (Ros.z q))
     | bottom => (vy = stored (Ros.y p) /\ vz = stored (Ros.z p))
                 \/ (vy = stored (Ros.y q) /\ vz = stored (Ros.z q))
     | top => (vy = stored (Ros.y p) /\ vz = stored_above (Ros.z p))
              \/ (vy = stored (Ros.y q) /\ vz = stored_above (Ros.z q))
     end.

(** The children of the scene are its renderables, each once, with handles
    that have been allocated. *)
Definition scene_children_ok {Rgb : Type} (s : @LDScene.LDObjectListScene Rgb) : Prop :=
  NoDup (LDScene.scene_children s)
  /\ Forall (fun x => (x < next_handle (LDList.heap (LDScene.renderer s)))%nat)
       (LDScene.scene_children s)
  /\ length (LDScene.scene_children s) = size (LDScene.renderables s).

(** The handles of a renderable are allocated and distinct, its outline
    geometry has not been disposed of, and the dispose log names allocated
    handles only. *)
Definition renderable_ok {Rgb : Type}
    (s : @LDList.LDObjectListRenderable Rgb * @LDList.Renderer Rgb) : Prop :=
  let this := s.1 in
  let h := LDList.heap s.2 in
  Forall (fun x => (x < next_handle h)%nat) (dispose_log h)
  /\ (LDList.outline_ref (LDList.outlineGeometry this) < next_handle h)%nat
  /\ (LDList.outline_ref (LDList.outlineGeometry this) ∉ dispose_log h)
  /\ (LDList.geometry this < next_handle h)%nat
  /\ (LDList.mesh this < next_handle h)%nat
  /\ (LDList.material this < next_handle h)%nat
  /\ NoDup [LDList.geometry this; LDList.mesh this; LDList.material this;
            LDList.outline_ref (LDList.outlineGeometry this)].

(** The number of [dispose()] calls on a handle. *)
Definition disposals (x : handle) (h : Heap) : nat :=
  length (filter (fun y => y = x) (dispose_log h)).

End Ref.

(** * Properties *)

(** ** [_range] *)

Section RangeFacts.

Import CircleList Spec.






(** More fuel never changes a result of the loop. *)
Lemma _range_loop_fuel_mono (fuel : nat) :
  forall fuel' i stop step result r,
    _range_loop fuel i stop step result = Some r ->
    (fuel <= fuel')%nat ->
    _range_loop fuel' i stop step result = Some r.
Proof.
  induction fuel as [|fuel IH]; intros fuel' i stop step result r Hrun Hle; [done|].
  destruct fuel' as [|fuel']; [lia|].
  cbn [_range_loop] in *.
  destruct (if 0 <? step then i <? stop else stop <? i); [|done].
  eapply IH; [done | lia].
Qed.

(** The loop returns on every step other than 0. *)
Lemma _range_loop_terminates (fuel : nat) :
  forall (i stop step : Z) result,
    step <> 0 ->
    (Z.to_nat (if 0 <? step then stop - i else i - stop)%Z < fuel)%nat ->
    is_Some (_range_loop fuel i stop step result).
Proof.
  induction fuel as [|fuel IH]; intros i stop step result Hstep Hfuel; [lia|].
  cbn [_range_loop].
  destruct (Z.ltb_spec 0 step) as [Hpos|Hneg].
  - destruct (Z.ltb_spec i stop); [|done].
    apply IH; [done|]. destruct (Z.ltb_spec 0 step); cbn beta iota in *; lia.
  - destruct (Z.ltb_spec stop i); [|done].
    apply IH; [done|]. destruct (Z.ltb_spec 0 step); cbn beta iota in *; lia.
Qed.

Lemma _range_terminates (start stop step : Z) :
  step <> 0 -> is_Some (_range start (Some stop) (Some step)).
Proof.
  intros Hstep. unfold _range. cbn [default from_option id].
  destruct (_ || _); [done|].
  apply _range_loop_terminates; [done|]. unfold range_fuel.
  destruct (0 <? step); cbn beta iota; lia.
Qed.

(** With step 0 and [start > stop] the loop condition stays true: the call
    never returns, whatever the fuel. *)
Lemma _range_loop_diverges (fuel : nat) :
  forall i stop result, stop < i -> _range_loop fuel i stop 0 result = None.
Proof.
  induction fuel as [|fuel IH]; intros i stop result Hlt; [done|].
  cbn [_range_loop]. change (0 <? 0) with false. cbn.
  destruct (Z.ltb_spec stop i); [|lia].
  apply IH. lia.
Qed.

(** The model of [_range] is [None] exactly where the loop of the source
    does not end: step 0 with [start > stop]. *)
Lemma _range_None_iff (start stop step : Z) :
  _range start (Some stop) (Some step) = None <-> step = 0 /\ stop < start.
Proof.
  split.
  - intros Hnone. destruct (decide (step = 0)) as [->|Hstep].
    + split; [done|]. destruct (decide (stop < start)) as [|Hge]; [done|].
      unfold _range, range_fuel in Hnone. cbn in Hnone.
      destruct (Z.ltb_spec stop start); [lia|done].
    + destruct (_range_terminates start stop step Hstep) as [r Hr]. congruence.
  - intros [-> Hlt]. unfold _range. cbn [default from_option id].
    change (0 <? 0) with false. cbn [andb orb].
    by apply _range_loop_diverges.
Qed.



End RangeFacts.

(** ** Binary64 numbers on integers *)

Section Binary64Facts.

Import SpecFloat Binary64 Spec.

Lemma digits2_pos_size (p : positive) : digits2_pos p = Pos.size p.
Proof. induction p as [p IH|p IH|]; cbn; by rewrite ?IH. Qed.

Lemma digits2_pos_log2 (p : positive) : Z.pos (digits2_pos p) = Z.log2 (Z.pos p) + 1.
Proof.
  rewrite digits2_pos_size. destruct p as [p|p|]; cbn [Pos.size Z.log2]; lia.
Qed.

Lemma digits2_pos_bounds (p : positive) (d : Z) :
  Z.pos (digits2_pos p) = d -> 2 ^ (d - 1) <= Z.pos p < 2 ^ d.
Proof.
  rewrite digits2_pos_log2. intros <-.
  pose proof (Z.log2_spec (Z.pos p) ltac:(lia)) as H.
  replace (Z.log2 (Z.pos p) + 1 - 1) with (Z.log2 (Z.pos p)) by lia.
  replace (Z.log2 (Z.pos p) + 1) with (Z.succ (Z.log2 (Z.pos p))) by lia. exact H.
Qed.

Lemma digits2_pos_shift (p q : positive) (k : Z) :
  0 <= k -> Z.pos q = Z.pos p * 2 ^ k ->
  Z.pos (digits2_pos q) = Z.pos (digits2_pos p) + k.
Proof.
  intros Hk Hq. rewrite !digits2_pos_log2, Hq, Z.log2_mul_pow2 by lia. lia.
Qed.

Lemma iter_xO (p : positive) : forall m, Z.pos (Pos.iter xO m p) = Z.pos m * 2 ^ Z.pos p.
Proof.
  induction p as [|p IH] using Pos.peano_ind; intros m.
  - cbn. lia.
  - rewrite Pos.iter_succ, Pos2Z.inj_succ, Z.pow_succ_r by lia.
    rewrite Pos2Z.inj_xO, IH. lia.
Qed.

Lemma shl_align_fst (m : positive) (e e' : Z) :
  e' <= e -> Z.pos (fst (shl_align m e e')) = Z.pos m * 2 ^ (e - e').
Proof.
  intros Hle. unfold shl_align.
  destruct (e' - e) as [|d|d] eqn:Hd; cbn [fst].
  - replace (e - e') with 0 by lia. lia.
  - lia.
  - rewrite iter_xO. f_equal. f_equal. lia.
Qed.

Lemma shl_align_snd (m : positive) (e e' : Z) :
  snd (shl_align m e e') = Z.min e e'.
Proof.
  unfold shl_align. destruct (e' - e) as [|d|d] eqn:Hd; cbn [snd]; lia.
Qed.

Lemma shr_1_double (x : Z) :
  0 < x ->
  shr_1 {| shr_m := 2 * x; shr_r := false; shr_s := false |}
  = {| shr_m := x; shr_r := false; shr_s := false |}.
Proof. intros Hx. destruct x as [|p|p]; [lia|reflexivity|lia]. Qed.

(** Shifting out zero bits is exact. *)
Lemma iter_pos_shr_1 (k : positive) :
  forall x : Z,
    0 < x ->
    SpecFloat.iter_pos shr_1 k {| shr_m := x * 2 ^ Z.pos k; shr_r := false; shr_s := false |}
    = {| shr_m := x; shr_r := false; shr_s := false |}.
Proof.
  induction k as [k IH|k IH|]; intros x Hx; cbn [SpecFloat.iter_pos].
  - replace (x * 2 ^ Z.pos k~1) with (2 * (x * 2 ^ Z.pos k * 2 ^ Z.pos k)).
    + rewrite shr_1_double by (pose proof (Z.pow_pos_nonneg 2 (Z.pos k)); nia).
      rewrite IH by (pose proof (Z.pow_pos_nonneg 2 (Z.pos k)); nia).
      by apply IH.
    + replace (Z.pos k~1) with (Z.pos k + Z.pos k + 1) by lia.
      rewrite !Z.pow_add_r, Z.pow_1_r by lia. ring.
  - replace (x * 2 ^ Z.pos k~0) with (x * 2 ^ Z.pos k * 2 ^ Z.pos k).
    + rewrite IH by (pose proof (Z.pow_pos_nonneg 2 (Z.pos k)); nia).
      by apply IH.
    + replace (Z.pos k~0) with (Z.pos k + Z.pos k) by lia.
      rewrite !Z.pow_add_r by lia. ring.
  - rewrite Z.pow_1_r, Z.mul_comm. by apply shr_1_double.
Qed.

(** A mantissa and an exponent that denote a number with [p] significant
    bits, in the range of the normal numbers of precision [p], are rounded
    to that number. *)
Lemma binary_round_exact (p emx : Z) (s : bool) (m M : positive) (e E : Z) :
  Z.pos (digits2_pos M) = p ->
  3 - emx - p <= E <= emx - p ->
  (E <= e /\ Z.pos M = Z.pos m * 2 ^ (e - E)) \/ (e < E /\ Z.pos m = Z.pos M * 2 ^ (E - e)) ->
  binary_round p emx s m e = S754_finite s M E.
Proof.
  intros HM HE Hval.
  assert (Hd : Z.pos (digits2_pos m) + e = p + E).
  { destruct Hval as [[Hle Hv]|[Hlt Hv]].
    - rewrite (digits2_pos_shift m M (e - E)) in HM by (done || lia). lia.
    - rewrite (digits2_pos_shift M m (E - e)) by (done || lia). lia. }
  assert (Hf : forall d, d = p + E -> fexp p emx d = E).
  { intros d ->. unfold fexp, SpecFloat.emin. lia. }
  assert (Haux : binary_round_aux p emx s (Z.pos M) E loc_Exact = S754_finite s M E).
  { unfold binary_round_aux, shr_fexp. cbn [Zdigits2 shr_record_of_loc].
    rewrite Hf by lia. rewrite Z.sub_diag. cbn [shr shr_m loc_of_shr_record round_nearest_even].
    cbn [Zdigits2]. rewrite Hf by lia. rewrite Z.sub_diag. cbn [shr shr_m].
    replace (E <=? emx - p) with true by (symmetry; apply Z.leb_le; lia).
    done. }
  unfold binary_round. rewrite Hf by done.
  destruct Hval as [[Hle Hv]|[Hlt Hv]].
  - assert (Hal : shl_align m e E = (M, E)).
    { rewrite (surjective_pairing (shl_align m e E)). f_equal.
      - apply Pos2Z.inj. by rewrite shl_align_fst.
      - rewrite shl_align_snd. lia. }
    by rewrite Hal.
  - assert (Hal : shl_align m e E = (m, e)).
    { unfold shl_align. destruct (E - e) eqn:?; (done || lia). }
    rewrite Hal. unfold binary_round_aux at 1, shr_fexp at 1.
    cbn [Zdigits2 shr_record_of_loc]. rewrite Hf by done.
    destruct (E - e) as [|k|k] eqn:Hk; [lia| |lia].
    cbn [shr]. rewrite Hv, iter_pos_shr_1 by lia.
    cbn [shr_m loc_of_shr_record round_nearest_even].
    replace (e + Z.pos k) with E by lia.
    unfold shr_fexp. cbn [Zdigits2 shr_record_of_loc]. rewrite Hf by lia.
    rewrite Z.sub_diag. cbn [shr shr_m].
    replace (E <=? emx - p) with true by (symmetry; apply Z.leb_le; lia).
    done.
Qed.

(** The double of a safe integer other than 0: the sign, a mantissa of 53
    bits and an exponent between -52 and 1 that denote it. *)
Lemma of_Z_finite (z : Z) :
  safe z -> z <> 0 ->
  exists M E,
    of_Z z = S754_finite (z <? 0) M E
    /\ Z.pos (digits2_pos M) = 53
    /\ -52 <= E <= 1
    /\ Z.pos M * 2 ^ (E + 52) = Z.abs z * 2 ^ 52.
Proof.
  intros Hsafe Hz. unfold safe in Hsafe.
  assert (Hpos : forall (p : positive),
             Z.pos p <= 2 ^ 53 ->
             exists M E,
               (forall s, binary_round prec emax s p 0 = S754_finite s M E)
               /\ Z.pos (digits2_pos M) = 53
               /\ -52 <= E <= 1
               /\ Z.pos M * 2 ^ (E + 52) = Z.pos p * 2 ^ 52).
  { intros p Hp.
    pose proof (digits2_pos_bounds p _ eq_refl) as [Hlo Hhi].
    assert (Hd : 1 <= Z.pos (digits2_pos p) <= 54).
    { split; [lia|].
      destruct (Z.le_gt_cases (Z.pos (digits2_pos p)) 54) as [|Hgt]; [done|].
      assert (2 ^ 54 <= 2 ^ (Z.pos (digits2_pos p) - 1)) by (apply Z.pow_le_mono_r; lia).
      assert (2 ^ 53 < 2 ^ 54) by (apply Z.pow_lt_mono_r; lia). lia. }
    destruct (Z.le_gt_cases (Z.pos (digits2_pos p)) 53) as [Hle|Hgt].
    - set (k := 53 - Z.pos (digits2_pos p)).
      assert (HM : 0 < Z.pos p * 2 ^ k) by (pose proof (Z.pow_pos_nonneg 2 k); nia).
      destruct (Z.pos p * 2 ^ k) as [|M|] eqn:HMeq; [lia| |lia].
      exists M, (- k).
      assert (HdM : Z.pos (digits2_pos M) = 53).
      { rewrite (digits2_pos_shift p M k) by (unfold k; lia || done). unfold k. lia. }
      split; [|split; [done|split; [unfold k; lia|]]].
      + intros s. apply binary_round_exact; [done|unfold prec, emax, k; lia|].
        left. split; [unfold k; lia|]. rewrite <- HMeq. f_equal. f_equal. lia.
      + rewrite <- HMeq. replace (- k + 52) with (52 - k) by lia.
        replace (2 ^ 52) with (2 ^ k * 2 ^ (52 - k))
          by (rewrite <- Z.pow_add_r by (unfold k; lia); f_equal; lia).
        ring.
    - assert (Hp53 : Z.pos p = 2 ^ 53).
      { assert (Z.pos (digits2_pos p) = 54) as Heq by lia. rewrite Heq in Hlo.
        replace (54 - 1) with 53 in Hlo by lia. lia. }
      exists (Z.to_pos (2 ^ 52)), 1.
      split; [|split; [reflexivity|split; [lia|]]].
      + intros s. apply binary_round_exact; [reflexivity|unfold prec, emax; lia|].
        right. split; [lia|]. rewrite Hp53. reflexivity.
      + rewrite Hp53. reflexivity. }
  destruct z as [|p|p]; [done| |].
  - destruct (Hpos p ltac:(lia)) as (M & E & Hr & HM & HE & Hv).
    exists M, E. split; [apply Hr|]. done.
  - destruct (Hpos p ltac:(lia)) as (M & E & Hr & HM & HE & Hv).
    exists M, E. split; [apply Hr|]. done.
Qed.

Lemma of_Z_0 : of_Z 0 = S754_zero false.
Proof. reflexivity. Qed.

(** Binary64 addition is exact on safe integers whose sum is safe. *)
Lemma add_of_Z (a b : Z) :
  safe a -> safe b -> safe (a + b) -> add (of_Z a) (of_Z b) = of_Z (a + b).
Proof.
  intros Ha Hb Hab.
  destruct (decide (a = 0)) as [->|Ha0].
  { rewrite Z.add_0_l. destruct (decide (b = 0)) as [->|Hb0]; [reflexivity|].
    by destruct (of_Z_finite b Hb Hb0) as (Mb & Eb & -> & _). }
  destruct (of_Z_finite a Ha Ha0) as (Ma & Ea & Hfa & HMa & HEa & Hva).
  destruct (decide (b = 0)) as [->|Hb0]; [by rewrite Z.add_0_r, Hfa|].
  rewrite Hfa.
  destruct (of_Z_finite b Hb Hb0) as (Mb & Eb & -> & HMb & HEb & Hvb).
  unfold add, SFadd.
  set (ez := Z.min Ea Eb).
  set (X := SpecFloat.cond_Zopp (a <? 0) (Z.pos (fst (shl_align Ma Ea ez)))).
  set (Y := SpecFloat.cond_Zopp (b <? 0) (Z.pos (fst (shl_align Mb Eb ez)))).
  assert (HX : X * 2 ^ (ez + 52) = a * 2 ^ 52).
  { unfold X. rewrite shl_align_fst by (unfold ez; lia).
    assert (Z.pos Ma * 2 ^ (Ea - ez) * 2 ^ (ez + 52) = Z.abs a * 2 ^ 52) as Heq.
    { rewrite <- Z.mul_assoc, <- Z.pow_add_r by (unfold ez; lia).
      replace (Ea - ez + (ez + 52)) with (Ea + 52) by lia. done. }
    destruct (Z.ltb_spec a 0); cbn [SpecFloat.cond_Zopp]; lia. }
  assert (HY : Y * 2 ^ (ez + 52) = b * 2 ^ 52).
  { unfold Y. rewrite shl_align_fst by (unfold ez; lia).
    assert (Z.pos Mb * 2 ^ (Eb - ez) * 2 ^ (ez + 52) = Z.abs b * 2 ^ 52) as Heq.
    { rewrite <- Z.mul_assoc, <- Z.pow_add_r by (unfold ez; lia).
      replace (Eb - ez + (ez + 52)) with (Eb + 52) by lia. done. }
    destruct (Z.ltb_spec b 0); cbn [SpecFloat.cond_Zopp]; lia. }
  assert (HS : (X + Y) * 2 ^ (ez + 52) = (a + b) * 2 ^ 52) by lia.
  assert (Hez : 0 < 2 ^ (ez + 52)) by (apply Z.pow_pos_nonneg; unfold ez; lia).
  clearbody X Y.
  destruct (decide (a + b = 0)) as [Hab0|Hab0].
  { rewrite Hab0 in *. assert (X + Y = 0) as -> by nia. reflexivity. }
  destruct (of_Z_finite (a + b) Hab Hab0) as (M & E & -> & HM & HE & Hv).
  assert (Hsign : (a + b <? 0) = (X + Y <? 0)).
  { destruct (Z.ltb_spec (a + b) 0), (Z.ltb_spec (X + Y) 0); (done || nia). }
  assert (Habs : Z.abs (X + Y) * 2 ^ (ez + 52) = Z.pos M * 2 ^ (E + 52)).
  { rewrite Hv. destruct (Z.ltb_spec (a + b) 0), (Z.ltb_spec (X + Y) 0); try nia. }
  assert (Hrel : forall p : positive,
             Z.pos p = Z.abs (X + Y) ->
             (E <= ez /\ Z.pos M = Z.pos p * 2 ^ (ez - E))
             \/ (ez < E /\ Z.pos p = Z.pos M * 2 ^ (E - ez))).
  { intros p Hp. rewrite <- Hp in Habs.
    destruct (Z.le_gt_cases E ez) as [Hle|Hgt]; [left|right]; (split; [lia|]).
    - replace (ez + 52) with (ez - E + (E + 52)) in Habs by lia.
      rewrite Z.pow_add_r in Habs by (unfold ez in *; lia).
      assert (0 < 2 ^ (E + 52)) by (apply Z.pow_pos_nonneg; lia).
      apply (Z.mul_reg_r _ _ (2 ^ (E + 52))); [lia|]. rewrite <- Habs. ring.
    - replace (E + 52) with (E - ez + (ez + 52)) in Habs by lia.
      rewrite (Z.pow_add_r 2 (E - ez) (ez + 52)) in Habs by (unfold ez in *; lia).
      apply (Z.mul_reg_r _ _ (2 ^ (ez + 52))); [lia|]. rewrite Habs. ring. }
  unfold binary_normalize. rewrite Hsign.
  destruct (X + Y) as [|p|p] eqn:HXY; [nia| |].
  - apply binary_round_exact; [done|unfold prec, emax; lia|]. by apply Hrel.
  - apply binary_round_exact; [done|unfold prec, emax; lia|]. by apply Hrel.
Qed.

(** Mantissas of 53 bits are ordered as the numbers they denote. *)
Lemma compare_magnitude (M M' : positive) (E E' A B : Z) :
  Z.pos (digits2_pos M) = 53 -> Z.pos (digits2_pos M') = 53 ->
  -52 <= E -> -52 <= E' ->
  Z.pos M * 2 ^ (E + 52) = A * 2 ^ 52 ->
  Z.pos M' * 2 ^ (E' + 52) = B * 2 ^ 52 ->
  match E ?= E' with
  | Lt => Lt
  | Gt => Gt
  | Eq => Pos.compare_cont Eq M M'
  end = (A ?= B).
Proof.
  intros HM HM' HE HE' HA HB.
  apply digits2_pos_bounds in HM as [HMlo HMhi], HM' as [HMlo' HMhi'].
  replace (53 - 1) with 52 in * by lia.
  assert (H52 : 0 < 2 ^ 52) by lia.
  assert (Hlt : forall (m m' : positive) e e' a b,
             2 ^ 52 <= Z.pos m' -> Z.pos m < 2 ^ 53 -> -52 <= e -> e < e' ->
             Z.pos m * 2 ^ (e + 52) = a * 2 ^ 52 ->
             Z.pos m' * 2 ^ (e' + 52) = b * 2 ^ 52 -> a < b).
  { intros m m' e e' a b Hlo Hhi He Hee Ha Hb.
    assert (0 < 2 ^ (e + 52)) by (apply Z.pow_pos_nonneg; lia).
    assert (2 ^ (e' + 52) = 2 ^ (e' - e - 1) * 2 * 2 ^ (e + 52)) as Hsplit.
    { rewrite <- (Z.pow_1_r 2) at 3. rewrite <- !Z.pow_add_r by lia. f_equal. lia. }
    assert (0 < 2 ^ (e' - e - 1)) by (apply Z.pow_pos_nonneg; lia).
    rewrite Hsplit in Hb.
    assert (a * 2 ^ 52 < b * 2 ^ 52); [|nia].
    rewrite <- Ha, <- Hb.
    assert (Z.pos m * 2 ^ (e + 52) < 2 ^ 53 * 2 ^ (e + 52)) by nia.
    assert (2 ^ 53 * 2 ^ (e + 52) <= Z.pos m' * (2 ^ (e' - e - 1) * 2 * 2 ^ (e + 52))); [|lia].
    replace (2 ^ 53) with (2 ^ 52 * 2) by reflexivity. nia. }
  destruct (Z.compare_spec E E') as [->|Hee|Hee].
  - rewrite Pos.compare_cont_spec. cbn [Pos.switch_Eq].
    change (Pos.compare M M') with (Z.pos M ?= Z.pos M').
    assert (0 < 2 ^ (E' + 52)) by (apply Z.pow_pos_nonneg; lia).
    destruct (Z.compare_spec (Z.pos M) (Z.pos M')) as [Heq|Hc|Hc];
      symmetry; [apply Z.compare_eq_iff|apply Z.compare_lt_iff|apply Z.compare_gt_iff]; nia.
  - symmetry. apply Z.compare_lt_iff. by eapply (Hlt M M' E E').
  - symmetry. apply Z.compare_gt_iff. by eapply (Hlt M' M E' E).
Qed.

(** Safe integers are ordered as their doubles. *)
Lemma compare_of_Z (a b : Z) :
  safe a -> safe b -> SFcompare (of_Z a) (of_Z b) = Some (a ?= b).
Proof.
  intros Ha Hb.
  destruct (decide (a = 0)) as [->|Ha0].
  { destruct (decide (b = 0)) as [->|Hb0]; [reflexivity|].
    destruct (of_Z_finite b Hb Hb0) as (Mb & Eb & -> & _). rewrite of_Z_0.
    by destruct b. }
  destruct (of_Z_finite a Ha Ha0) as (Ma & Ea & -> & HMa & HEa & Hva).
  destruct (decide (b = 0)) as [->|Hb0].
  { rewrite of_Z_0. by destruct a. }
  destruct (of_Z_finite b Hb Hb0) as (Mb & Eb & -> & HMb & HEb & Hvb).
  cbn [SFcompare]. f_equal.
  destruct (Z.ltb_spec a 0) as [Han|Hap], (Z.ltb_spec b 0) as [Hbn|Hbp].
  - pose proof (compare_magnitude Ma Mb Ea Eb (Z.abs a) (Z.abs b)
                  HMa HMb ltac:(lia) ltac:(lia) Hva Hvb) as H.
    rewrite !Z.abs_neq, Z.compare_opp in H by lia.
    rewrite (Z.compare_antisym b a), <- H. by destruct (Ea ?= Eb).
  - symmetry. apply Z.compare_lt_iff. lia.
  - symmetry. apply Z.compare_gt_iff. lia.
  - rewrite (compare_magnitude Ma Mb Ea Eb (Z.abs a) (Z.abs b)) by (done || lia).
    by rewrite !Z.abs_eq by lia.
Qed.

Lemma ltb_of_Z (a b : Z) : safe a -> safe b -> ltb (of_Z a) (of_Z b) = (a <? b).
Proof.
  intros Ha Hb. unfold ltb, SFltb. rewrite compare_of_Z by done.
  unfold Z.ltb. by destruct (a ?= b).
Qed.

Lemma leb_of_Z (a b : Z) : safe a -> safe b -> leb (of_Z a) (of_Z b) = (a <=? b).
Proof.
  intros Ha Hb. unfold leb, SFleb. rewrite compare_of_Z by done.
  unfold Z.leb. by destruct (a ?= b).
Qed.

(** An integer up to 2^24 in magnitude is a binary32 number: it is stored
    as it is. *)
Lemma fround_of_Z (c : Z) : Z.abs c <= 2 ^ 24 -> fround (of_Z c) = of_Z c.
Proof.
  intros Hc.
  destruct (decide (c = 0)) as [->|Hc0]; [reflexivity|].
  destruct (of_Z_finite c ltac:(unfold safe; lia) Hc0) as (M & E & Hf & HM & HE & Hv).
  rewrite Hf. unfold fround.
  pose proof (digits2_pos_bounds M _ HM) as [HMlo HMhi].
  replace (53 - 1) with 52 in HMlo by lia.
  assert (HE28 : E <= -28).
  { destruct (Z.le_gt_cases E (-28)) as [|Hgt]; [done|].
    assert (2 ^ 25 <= 2 ^ (E + 52)) by (apply Z.pow_le_mono_r; lia).
    assert (Z.abs c * 2 ^ 52 <= 2 ^ 24 * 2 ^ 52) by lia.
    assert (2 ^ 52 * 2 ^ 25 <= Z.pos M * 2 ^ (E + 52)) by nia.
    lia. }
  assert (HMc : Z.pos M = Z.abs c * 2 ^ (- E)).
  { apply (Z.mul_reg_r _ _ (2 ^ (E + 52))).
    - assert (0 < 2 ^ (E + 52)) by (apply Z.pow_pos_nonneg; lia). lia.
    - rewrite Hv, <- Z.mul_assoc, <- Z.pow_add_r by lia. f_equal. f_equal. lia. }
  assert (HM' : exists M' : positive, Z.pos M = Z.pos M' * 2 ^ 29).
  { destruct (Z.le_gt_cases E (-29)) as [Hle|Hgt].
    - assert (0 < Z.abs c * 2 ^ (- E - 29)) as Hpos.
      { assert (0 < 2 ^ (- E - 29)) by (apply Z.pow_pos_nonneg; lia). lia. }
      destruct (Z.abs c * 2 ^ (- E - 29)) as [|M'|] eqn:HM'; [lia| |lia].
      exists M'. rewrite <- HM', HMc, <- Z.mul_assoc, <- Z.pow_add_r by lia.
      f_equal. f_equal. lia.
    - assert (E = -28) as -> by lia. cbn [Z.opp] in HMc.
      exists (Z.to_pos (2 ^ 23)). assert (Z.abs c = 2 ^ 24) as Habs by lia.
      rewrite HMc, Habs. reflexivity. }
  destruct HM' as [M' HM'].
  assert (HdM' : Z.pos (digits2_pos M') = 24).
  { rewrite (digits2_pos_shift M' M 29) in HM by (lia || done). lia. }
  rewrite (binary_round_exact 24 128 (c <? 0) M M' E (E + 29)); [|done|lia|].
  - apply binary_round_exact; [done|unfold prec, emax; lia|].
    left. split; [lia|]. rewrite HM'. f_equal. f_equal. lia.
  - right. split; [lia|]. rewrite HM'. f_equal. f_equal. lia.
Qed.

End Binary64Facts.

(** ** [_range] on binary64 numbers *)

Section RangeRefinement.

Import SpecFloat Binary64 Spec.

Lemma safe_0 : safe 0.
Proof. unfold safe. lia. Qed.


(** On integers whose sums stay safe, the loop of [_range] on doubles takes
    the steps of the loop on integers. *)
Lemma _range_loop_integers (fuel : nat) :
  forall (i stop step : Z) (result : list Z),
    safe i -> safe stop -> safe step -> safe (stop + step) ->
    _range_loop fuel (of_Z i) (of_Z stop) (of_Z step) (of_Z <$> result)
    = fmap (M := list) of_Z <$> CircleList._range_loop fuel i stop step result.
Proof.
  induction fuel as [|fuel IH]; intros i stop step result Hi Hstop Hstep Hsum; [done|].
  cbn [_range_loop CircleList._range_loop].
  rewrite !ltb_of_Z by (done || apply safe_0).
  destruct (if 0 <? step then i <? stop else stop <? i) eqn:Hcond; [|done].
  assert (Hnext : safe (i + step)).
  { unfold safe in *. destruct (Z.ltb_spec 0 step).
    - apply Z.ltb_lt in Hcond. lia.
    - apply Z.ltb_lt in Hcond. lia. }
  rewrite add_of_Z by done.
  replace ((of_Z <$> result) ++ [of_Z i]) with (of_Z <$> (result ++ [i]))
    by (by rewrite fmap_app).
  by apply IH.
Qed.

(** The integer model of [_range] is exact: on integer arguments whose sums
    stay safe, [_range] on doubles returns the doubles of what the integer
    model returns, and does not return where the integer model does not. *)
Lemma _range_integers (start : Z) (stop step : option Z) :
  let rangeStart := match stop with None => 0 | Some _ => start end in
  let rangeStop := default start stop in
  let rangeStep := default 1 step in
  safe rangeStart -> safe rangeStop -> safe rangeStep -> safe (rangeStop + rangeStep) ->
  match CircleList._range start stop step with
  | Some r =>
      forall fuel, (CircleList.range_fuel rangeStart rangeStop <= fuel)%nat ->
        _range fuel (of_Z start) (of_Z <$> stop) (of_Z <$> step) = Some (of_Z <$> r)
  | None =>
      forall fuel, _range fuel (of_Z start) (of_Z <$> stop) (of_Z <$> step) = None
  end.
Proof.
  intros rangeStart rangeStop rangeStep H1 H2 H3 H4.
  assert (Heq : forall fuel,
             _range fuel (of_Z start) (of_Z <$> stop) (of_Z <$> step)
             = if ((0 <? rangeStep) && (rangeStop <=? rangeStart))
                  || ((rangeStep <? 0) && (rangeStart <=? rangeStop))
               then Some []
               else fmap (M := list) of_Z
                      <$> CircleList._range_loop fuel rangeStart rangeStop rangeStep []).
  { intros fuel. unfold _range.
    replace (match of_Z <$> stop with
             | Some s => (of_Z start, s)
             | None => (of_Z 0, of_Z start)
             end) with (of_Z rangeStart, of_Z rangeStop)
      by (unfold rangeStart, rangeStop; by destruct stop).
    replace (default (of_Z 1) (of_Z <$> step)) with (of_Z rangeStep)
      by (unfold rangeStep; by destruct step).
    rewrite !ltb_of_Z, !leb_of_Z by (done || apply safe_0).
    destruct (_ || _); [done|].
    by rewrite <- _range_loop_integers. }
  assert (Hz : CircleList._range start stop step
               = if ((0 <? rangeStep) && (rangeStop <=? rangeStart))
                    || ((rangeStep <? 0) && (rangeStart <=? rangeStop))
                 then Some []
                 else CircleList._range_loop (CircleList.range_fuel rangeStart rangeStop)
                        rangeStart rangeStop rangeStep []).
  { unfold CircleList._range, rangeStart, rangeStop, rangeStep. by destruct stop. }
  rewrite Hz. clear Hz. clearbody rangeStart rangeStop rangeStep.
  destruct (_ || _) eqn:Hguard.
  - intros fuel _. by rewrite Heq.
  - destruct (CircleList._range_loop _ _ _ _ _) as [r|] eqn:Hloop.
    + intros fuel Hfuel. rewrite Heq.
      by rewrite (_range_loop_fuel_mono _ _ _ _ _ _ _ Hloop Hfuel).
    + intros fuel. rewrite Heq.
      assert (Hstep : rangeStep = 0).
      { destruct (decide (rangeStep = 0)) as [|Hne]; [done|].
        destruct (_range_loop_terminates (CircleList.range_fuel rangeStart rangeStop)
                    rangeStart rangeStop rangeStep [] Hne) as [r Hr]; [|congruence].
        unfold CircleList.range_fuel. destruct (0 <? rangeStep); lia. }
      rewrite Hstep in *.
      assert (Hlt : rangeStop < rangeStart).
      { destruct (Z.lt_ge_cases rangeStop rangeStart) as [|Hge]; [done|].
        unfold CircleList.range_fuel in Hloop. cbn in Hloop.
        destruct (Z.ltb_spec rangeStop rangeStart); [lia|done]. }
      by rewrite _range_loop_diverges.
Qed.

End RangeRefinement.

Section Binary64Range.

Import SpecFloat Binary64 Spec.




End Binary64Range.

(** ** [RenderableCircleList] *)

Section CircleListFacts.

Import Ros CircleList Spec.

Lemma forEach_dispose (gs : list BufferGeometry) (h : Heap) :
  forEach (fun item => Three.dispose (geometry_ref item)) gs h =
  Some (tt, {| next_handle := next_handle h;
               dispose_log := dispose_log h ++ (geometry_ref <$> gs) |}).
Proof.
  revert h. induction gs as [|g gs IH]; intros [n log]; cbn.
  - unfold ret. by rewrite app_nil_r.
  - unfold bind, Three.dispose, log_dispose. cbn. rewrite IH. cbn.
    by rewrite <- app_assoc.
Qed.

Lemma dispose_log_spec (c : RenderableCircleList) (h : Heap) :
  CircleList.dispose c h =
  Some (tt, {| next_handle := next_handle h;
               dispose_log := dispose_log h ++ disposal c |}).
Proof.
  unfold CircleList.dispose, bind. rewrite forEach_dispose.
  unfold Three.dispose, log_dispose, disposal. cbn. by rewrite <- app_assoc.
Qed.

(** The loop of [_setCircles] allocates a geometry and a line loop per
    radius, and disposes of nothing. *)
Lemma _setCircles_loop_spec (radiuses : list Z) :
  forall (c : RenderableCircleList) (h : Heap),
  exists c',
    _setCircles_loop radiuses c h =
      Some (c', {| next_handle := (next_handle h + 2 * length radiuses)%nat;
                   dispose_log := dispose_log h |})
    /\ radius <$> geometries c' = (radius <$> geometries c) ++ radiuses
    /\ geometry_ref <$> geometries c' =
         (geometry_ref <$> geometries c)
         ++ ((fun k => next_handle h + 2 * k)%nat <$> seq 0 (length radiuses))
    /\ length (circles c') = (length (circles c) + length radiuses)%nat
    /\ material c' = material c
    /\ marker c' = marker c
    /\ CircleList.receiveTime c' = CircleList.receiveTime c
    /\ topic c' = topic c
    /\ children c' = children c.
Proof.
  induction radiuses as [|r rs IH]; intros c [n log].
  - exists c. cbn. unfold ret. rewrite !app_nil_r, !Nat.add_0_r. done.
  - cbn [_setCircles_loop]. unfold bind at 1. unfold _setCircles_body, bind, alloc, fresh, ret.
    cbn [next_handle dispose_log].
    match goal with |- context [_setCircles_loop rs ?c1 ?h1] =>
      destruct (IH c1 h1) as (c' & Hrun & Hrad & Href & Hlen & Hmat & Hmk & Hrt & Htp & Hch)
    end.
    exists c'. rewrite Hrun. cbn [next_handle dispose_log length] in *.
    split; [do 3 f_equal; lia|].
    cbn [set_lists geometries circles material marker CircleList.receiveTime topic children] in *.
    rewrite fmap_app, <- app_assoc in Hrad. rewrite fmap_app, <- app_assoc in Href.
    cbn in Hrad, Href.
    repeat split; try done.
    + rewrite Href. cbn [seq fmap list_fmap]. do 2 f_equal; [lia|].
      rewrite <- seq_shift, <- list_fmap_compose.
      apply list_fmap_ext. intros _ k _. cbn. lia.
    + rewrite Hlen, length_app. cbn. lia.
Qed.

Lemma _setCircles_spec (minRadius maxRadius radiusStep : Z) (radiuses : list Z)
    (c : RenderableCircleList) (h : Heap) :
  _range minRadius (Some maxRadius) (Some radiusStep) = Some radiuses ->
  _setCircles minRadius maxRadius radiusStep c h = _setCircles_loop radiuses c h.
Proof. intros Hr. unfold _setCircles, bind, lift. by rewrite Hr. Qed.

(** [update] with the scale object it already holds: nothing is rebuilt. *)
Lemma update_same_scale (newMarker : Marker) (receiveTime : option Z)
    (c : RenderableCircleList) (h : Heap) :
  scale_ref (scale newMarker) = scale_ref (scale (marker c)) ->
  update newMarker receiveTime c h = Some (RenderableMarker_update newMarker receiveTime c, h).
Proof.
  intros Href. unfold update. cbn [RenderableMarker_update marker].
  rewrite bool_decide_eq_false_2; [done|]. intros Hne. by apply Hne.
Qed.

(** [update] with another scale object: the old geometries are disposed of
    and the circles are built anew. *)
Lemma update_other_scale (newMarker : Marker) (receiveTime : option Z)
    (c : RenderableCircleList) (h : Heap) :
  scale_ref (scale newMarker) <> scale_ref (scale (marker c)) ->
  update newMarker receiveTime c h =
  _setCircles (x (scale_val (scale newMarker))) (y (scale_val (scale newMarker)))
    (z (scale_val (scale newMarker)))
    (set_lists (RenderableMarker_update newMarker receiveTime c) [] [] [])
    {| next_handle := next_handle h;
       dispose_log := dispose_log h ++ (geometry_ref <$> geometries c) |}.
Proof.
  intros Href. unfold update. cbn [RenderableMarker_update marker].
  rewrite bool_decide_eq_true_2 by (intros Heq; by apply Href).
  unfold bind at 1. rewrite forEach_dispose. done.
Qed.

(** The constructor: a group, a material, and the circles of the range. *)
Lemma new_spec (topic : string) (marker : Marker) (receiveTime : option Z) (h : Heap)
    (radiuses : list Z) :
  _range (x (scale_val (scale marker))) (Some (y (scale_val (scale marker))))
    (Some (z (scale_val (scale marker)))) = Some radiuses ->
  exists c,
    new topic marker receiveTime h =
      Some (c, {| next_handle := (next_handle h + 2 + 2 * length radiuses)%nat;
                  dispose_log := dispose_log h |})
    /\ radius <$> geometries c = radiuses
    /\ geometry_ref <$> geometries c =
         (fun k => next_handle h + 2 + 2 * k)%nat <$> seq 0 (length radiuses)
    /\ length (circles c) = length radiuses
    /\ material c = S (next_handle h)
    /\ CircleList.marker c = marker.
Proof.
  intros Hr. unfold new, bind at 1 2, alloc, fresh. cbn [next_handle dispose_log].
  unfold bind at 1. erewrite _setCircles_spec by done.
  match goal with |- context [_setCircles_loop radiuses ?c1 ?h1] =>
    destruct (_setCircles_loop_spec radiuses c1 h1)
      as (c' & Hrun & Hrad & Href & Hlen & Hmat & Hmk & Hrt & Htp & Hch)
  end.
  rewrite Hrun. cbn [next_handle dispose_log RenderableMarker_new geometries circles
                     material CircleList.marker fmap list_fmap app length] in *.
  unfold ret. eexists. split; [do 3 f_equal; lia|].
  cbn [geometries circles material CircleList.marker].
  repeat split; try done.
  rewrite Href. apply list_fmap_ext. intros _ k _. lia.
Qed.

(** [update] with another scale object, in full. *)
Lemma update_rebuild_spec (newMarker : Marker) (receiveTime : option Z)
    (c : RenderableCircleList) (h : Heap) (radiuses : list Z) :
  scale_ref (scale newMarker) <> scale_ref (scale (marker c)) ->
  _range (x (scale_val (scale newMarker))) (Some (y (scale_val (scale newMarker))))
    (Some (z (scale_val (scale newMarker)))) = Some radiuses ->
  exists c',
    update newMarker receiveTime c h =
      Some (c', {| next_handle := (next_handle h + 2 * length radiuses)%nat;
                   dispose_log := dispose_log h ++ (geometry_ref <$> geometries c) |})
    /\ radius <$> geometries c' = radiuses
    /\ geometry_ref <$> geometries c' =
         (fun k => next_handle h + 2 * k)%nat <$> seq 0 (length radiuses)
    /\ length (circles c') = length radiuses
    /\ material c' = material c
    /\ marker c' = newMarker.
Proof.
  intros Href Hr. rewrite update_other_scale by done.
  erewrite _setCircles_spec by done.
  match goal with |- context [_setCircles_loop radiuses ?c1 ?h1] =>
    destruct (_setCircles_loop_spec radiuses c1 h1)
      as (c' & Hrun & Hrad & Hrefs & Hlen & Hmat & Hmk & Hrt & Htp & Hch)
  end.
  rewrite Hrun. exists c'. split; [done|].
  cbn [set_lists RenderableMarker_update geometries circles material marker
       fmap list_fmap app length next_handle] in *.
  done.
Qed.

(** When the loop of [_range] does not end, neither do the constructor and
    a rebuilding [update]. *)
Lemma _setCircles_None (minRadius maxRadius radiusStep : Z)
    (c : RenderableCircleList) (h : Heap) :
  _range minRadius (Some maxRadius) (Some radiusStep) = None ->
  _setCircles minRadius maxRadius radiusStep c h = None.
Proof. intros Hr. unfold _setCircles, bind, lift. by rewrite Hr. Qed.

Lemma new_None (topic : string) (marker : Marker) (receiveTime : option Z) (h : Heap) :
  _range (x (scale_val (scale marker))) (Some (y (scale_val (scale marker))))
    (Some (z (scale_val (scale marker)))) = None ->
  new topic marker receiveTime h = None.
Proof.
  intros Hr. unfold new, bind at 1 2, alloc, fresh. cbn [next_handle dispose_log].
  unfold bind at 1. by erewrite _setCircles_None.
Qed.

Lemma update_None (newMarker : Marker) (receiveTime : option Z)
    (c : RenderableCircleList) (h : Heap) :
  scale_ref (scale newMarker) <> scale_ref (scale (marker c)) ->
  _range (x (scale_val (scale newMarker))) (Some (y (scale_val (scale newMarker))))
    (Some (z (scale_val (scale newMarker)))) = None ->
  update newMarker receiveTime c h = None.
Proof.
  intros Href Hr. rewrite update_other_scale by done.
  by erewrite _setCircles_None.
Qed.

(** Construction and update return for every step other than 0. *)
Lemma new_total (topic : string) (marker : Marker) (receiveTime : option Z) (h : Heap) :
  z (scale_val (scale marker)) <> 0 -> is_Some (new topic marker receiveTime h).
Proof.
  intros Hz.
  destruct (_range_terminates (x (scale_val (scale marker))) (y (scale_val (scale marker)))
              _ Hz) as [rs Hrs].
  destruct (new_spec topic marker receiveTime h rs Hrs) as (c & -> & _). done.
Qed.

Lemma update_total (newMarker : Marker) (receiveTime : option Z)
    (c : RenderableCircleList) (h : Heap) :
  z (scale_val (scale newMarker)) <> 0 -> is_Some (update newMarker receiveTime c h).
Proof.
  intros Hz.
  destruct (decide (scale_ref (scale newMarker) = scale_ref (scale (marker c)))) as [Heq|Hne].
  - by rewrite update_same_scale.
  - destruct (_range_terminates (x (scale_val (scale newMarker)))
                (y (scale_val (scale newMarker))) _ Hz) as [rs Hrs].
    destruct (update_rebuild_spec newMarker receiveTime c h rs Hne Hrs) as (c' & -> & _).
    done.
Qed.

End CircleListFacts.

Section EmptyRange.

Import Ros CircleList Spec.




End EmptyRange.

(** ** [CircleGrids] *)

Section GridFacts.

Import Grids Spec.

Lemma on_heap_Some {A} (m : M A) (w : World) (a : A) (h : Heap) :
  m (heap w) = Some (a, h) -> on_heap m w = Some (a, with_heap h w).
Proof. intros Hm. unfold on_heap. by rewrite Hm. Qed.

(** [createMarker] allocates the scale object and copies the three sizes. *)
Lemma createMarker_spec (s : LayerSettingsCircleGrid) (h : Heap) :
  exists m,
    createMarker s h = Some (m, {| next_handle := S (next_handle h);
                                   dispose_log := dispose_log h |})
    /\ Ros.scale_ref (Ros.scale m) = next_handle h
    /\ Ros.x (Ros.scale_val (Ros.scale m)) = minSize s
    /\ Ros.y (Ros.scale_val (Ros.scale m)) = maxSize s
    /\ Ros.z (Ros.scale_val (Ros.scale m)) = step s.
Proof. unfold createMarker, bind, alloc, fresh, ret. eexists. split; [done|]. done. Qed.

(** Deleting a registered instance: its circle list is disposed of, the
    renderable leaves the scene and the registry. *)
Lemma _updateGrid_delete (instanceId : string) (w : World) (r : CircleGridRenderable) :
  renderables w !! instanceId = Some r ->
  _updateGrid instanceId None w =
  Some (with_renderables (delete instanceId (renderables w))
          (with_children (remove_child (children w) (renderable_ref r))
             (with_heap {| next_handle := next_handle (heap w);
                           dispose_log := dispose_log (heap w) ++ disposal (circleList r) |}
                w))).
Proof.
  intros Hr. unfold _updateGrid. rewrite Hr.
  erewrite on_heap_Some by apply dispose_log_spec. done.
Qed.

Lemma _updateGrid_delete_absent (instanceId : string) (w : World) :
  renderables w !! instanceId = None -> _updateGrid instanceId None w = Some w.
Proof. intros Hr. unfold _updateGrid. by rewrite Hr. Qed.

(** Settings that leave the three sizes as they are: only the settings of
    the renderable are replaced. *)
Lemma _updateGrid_sizes_unchanged (instanceId : string) (s : LayerConfig)
    (w : World) (r : CircleGridRenderable) :
  renderables w !! instanceId = Some r ->
  minSize (spread DEFAULT_SETTINGS s) = minSize (settings r) ->
  maxSize (spread DEFAULT_SETTINGS s) = maxSize (settings r) ->
  step (spread DEFAULT_SETTINGS s) = step (settings r) ->
  _updateGrid instanceId (Some s) w =
  Some (with_renderables
          (<[instanceId := with_settings (spread DEFAULT_SETTINGS s) r]> (renderables w)) w).
Proof.
  intros Hr Hmin Hmax Hstep. unfold _updateGrid. rewrite Hr. cbn [mbind option_bind].
  rewrite Hmin, Hmax, Hstep, !Z.eqb_refl. done.
Qed.

(** Creating a renderable, in full. *)
Lemma _createRenderable_spec (instanceId : string) (s : LayerSettingsCircleGrid)
    (w : World) (radiuses : list Z) :
  CircleList._range (minSize s) (Some (maxSize s)) (Some (step s)) = Some radiuses ->
  exists r,
    _createRenderable instanceId s w =
      Some (r, with_renderables (<[instanceId := r]> (renderables w))
                 (with_children (add_child (children w) (renderable_ref r))
                    (with_heap
                       {| next_handle := (next_handle (heap w) + 4 + 2 * length radiuses)%nat;
                          dispose_log := dispose_log (heap w) |} w)))
    /\ settings r = s
    /\ name r = instanceId
    /\ CircleList.radius <$> CircleList.geometries (circleList r) = radiuses
    /\ CircleList.geometry_ref <$> CircleList.geometries (circleList r) =
         (fun k => next_handle (heap w) + 3 + 2 * k)%nat <$> seq 0 (length radiuses)
    /\ length (CircleList.circles (circleList r)) = length radiuses
    /\ CircleList.material (circleList r) = (next_handle (heap w) + 2)%nat
    /\ Ros.scale_ref (Ros.scale (CircleList.marker (circleList r))) = next_handle (heap w).
Proof.
  intros Hrange. unfold _createRenderable.
  destruct (createMarker_spec s (heap w)) as (m & Hm & Href & Hx & Hy & Hz).
  rewrite <- Hx, <- Hy, <- Hz in Hrange.
  destruct (new_spec (instanceId +:+ ":CIRCLE_LIST") m None
              {| next_handle := S (next_handle (heap w)); dispose_log := dispose_log (heap w) |}
              radiuses Hrange) as (c & Hnew & Hrad & Hrefs & Hlen & Hmat & Hmk).
  cbn [next_handle dispose_log] in Hnew, Hrefs, Hmat.
  erewrite on_heap_Some; cycle 1.
  { unfold bind at 1. rewrite Hm. unfold bind at 1. rewrite Hnew.
    unfold bind, alloc, fresh, ret. cbn [next_handle dispose_log]. reflexivity. }
  cbn [mbind option_bind]. eexists. split.
  { replace (next_handle (heap w) + 4 + 2 * length radiuses)%nat
      with (S (S (next_handle (heap w)) + 2 + 2 * length radiuses)) by lia.
    reflexivity. }
  cbn [settings name circleList renderable_ref next_handle] in *.
  repeat split; try done.
  - rewrite Hrefs. apply list_fmap_ext. intros _ k _. lia.
  - rewrite Hmat. lia.
  - by rewrite Hmk.
Qed.

Lemma on_heap_inv {A} (m : M A) (w w' : World) (a : A) :
  on_heap m w = Some (a, w') -> exists h, m (heap w) = Some (a, h) /\ w' = with_heap h w.
Proof.
  unfold on_heap. destruct (m (heap w)) as [[a' h]|]; [|done].
  intros [= -> <-]. eauto.
Qed.

Lemma _createRenderable_inv (instanceId : string) (s : LayerSettingsCircleGrid)
    (w w' : World) (r : CircleGridRenderable) :
  _createRenderable instanceId s w = Some (r, w') ->
  config_layers w' = config_layers w
  /\ renderables w' = <[instanceId := r]> (renderables w)
  /\ settings r = s
  /\ settingsTreeUpdates w' = settingsTreeUpdates w
  /\ customLayersCountUpdates w' = customLayersCountUpdates w.
Proof.
  unfold _createRenderable. intros Hc.
  destruct (on_heap _ w) as [[r1 w1]|] eqn:Hon; [|done].
  cbn [mbind option_bind] in Hc. injection Hc as -> <-.
  apply on_heap_inv in Hon as (h & Hm & ->).
  unfold bind at 1 in Hm.
  destruct (createMarker_spec s (heap w)) as (m & Hcm & _). rewrite Hcm in Hm.
  unfold bind at 1 in Hm. destruct (CircleList.new _ m None _) as [[c h1]|]; [|done].
  unfold bind, alloc, fresh, ret in Hm. injection Hm as <- <-. done.
Qed.

(** What [_updateGrid] with settings leaves behind when it returns: the
    configuration is untouched and the registry holds the instance. *)
Lemma _updateGrid_Some_inv (instanceId : string) (s : LayerConfig) (w w' : World) :
  _updateGrid instanceId (Some s) w = Some w' ->
  config_layers w' = config_layers w
  /\ (exists r, renderables w' = <[instanceId := r]> (renderables w)
               /\ settings r = spread DEFAULT_SETTINGS s)
  /\ settingsTreeUpdates w' = settingsTreeUpdates w
  /\ customLayersCountUpdates w' = customLayersCountUpdates w.
Proof.
  unfold _updateGrid. intros Hu.
  destruct (renderables w !! instanceId) as [r|] eqn:Hr.
  - cbn [mbind option_bind] in Hu.
    destruct (negb _).
    + destruct (on_heap _ w) as [[c w1]|] eqn:Hon; [|done].
      cbn [mbind option_bind] in Hu. injection Hu as <-.
      apply on_heap_inv in Hon as (h & _ & ->). cbn.
      split; [done|]. split; [|done]. eexists. split; [done|]. done.
    + injection Hu as <-. cbn. split; [done|]. split; [|done].
      eexists. split; [done|]. done.
  - destruct (_createRenderable _ _ w) as [[r w1]|] eqn:Hc; [|done].
    cbn [mbind option_bind] in Hu.
    apply _createRenderable_inv in Hc as (Hcfg & Hrs & Hs & Ht & Hl).
    rewrite Hs, !Z.eqb_refl in Hu. cbn in Hu. injection Hu as <-. cbn.
    split; [done|]. split; [|done].
    eexists. split; [by rewrite Hrs, insert_insert_eq|]. done.
Qed.

(** [_updateGrid] with settings returns whenever their step is not 0. *)
Lemma _updateGrid_total (instanceId : string) (s : LayerConfig) (w : World) :
  step (spread DEFAULT_SETTINGS s) <> 0 ->
  is_Some (_updateGrid instanceId (Some s) w).
Proof.
  intros Hstep. unfold _updateGrid.
  destruct (renderables w !! instanceId) as [r|] eqn:Hr.
  - cbn [mbind option_bind].
    destruct (negb _); [|done].
    destruct (createMarker_spec (spread DEFAULT_SETTINGS s) (heap w))
      as (m & Hm & _ & _ & _ & Hz).
    rewrite <- Hz in Hstep.
    destruct (update_total m None (circleList (with_settings (spread DEFAULT_SETTINGS s) r))
                {| next_handle := S (next_handle (heap w));
                   dispose_log := dispose_log (heap w) |} Hstep) as [[c h] Hupd].
    erewrite on_heap_Some; [done|].
    unfold bind. rewrite Hm. exact Hupd.
  - destruct (_range_terminates (minSize (spread DEFAULT_SETTINGS s))
                (maxSize (spread DEFAULT_SETTINGS s)) _ Hstep) as [rs Hrs].
    destruct (_createRenderable_spec instanceId _ w rs Hrs) as (r & -> & Hs & _).
    cbn [mbind option_bind]. rewrite Hs, !Z.eqb_refl. done.
Qed.

Lemma spread_step_nonzero (s : LayerConfig) :
  c_step s <> Some 0 -> step (spread DEFAULT_SETTINGS s) <> 0.
Proof. cbn. destruct (c_step s) as [n|]; cbn; [congruence | done]. Qed.

Lemma grid_ids_spec (layers : gmap string LayerConfig) (i : string) :
  i ∈ grid_ids layers <-> exists e, layers !! i = Some e /\ is_grid e = true.
Proof.
  unfold grid_ids. rewrite elem_of_dom. unfold is_Some.
  setoid_rewrite map_lookup_filter_Some. naive_solver.
Qed.

Lemma grid_keys_of_list (layers : gmap string LayerConfig) :
  list_to_set ((filter (fun kv => is_grid kv.2 = true) (map_to_list layers)).*1)
  = grid_ids layers.
Proof.
  apply set_eq. intros i. rewrite grid_ids_spec, elem_of_list_to_set, list_elem_of_fmap.
  split.
  - intros ([k e] & -> & [Hg Hin]%list_elem_of_filter).
    apply elem_of_map_to_list in Hin. eauto.
  - intros (e & Hl & Hg). exists (i, e). split; [done|].
    apply list_elem_of_filter. split; [done|]. by apply elem_of_map_to_list.
Qed.

Lemma settingsNodes_fold_None (l : list (string * LayerConfig)) :
  foldl settingsNodes_body None l = None.
Proof. induction l as [|kv l IH]; [done|]. cbn. exact IH. Qed.

(** The loop of [settingsNodes]: when it returns, it has emitted the nodes
    of the grid entries it went through and has registered a renderable for
    each of them. *)
Lemma settingsNodes_fold_inv (l : list (string * LayerConfig)) :
  forall es w es' w',
    foldl settingsNodes_body (Some (es, w)) l = Some (es', w') ->
    es' = es ++ ((fun kv => settings_entry kv.1 kv.2)
                   <$> filter (fun kv => is_grid kv.2 = true) l)
    /\ config_layers w' = config_layers w
    /\ dom (renderables w') =
         dom (renderables w)
         ∪ list_to_set ((filter (fun kv => is_grid kv.2 = true) l).*1).
Proof.
  induction l as [|[k e] l IH]; intros es w es' w' Hf.
  - cbn in Hf. injection Hf as <- <-. cbn. rewrite app_nil_r. set_solver.
  - cbn [foldl] in Hf. unfold settingsNodes_body at 2 in Hf. cbn [mbind option_bind] in Hf.
    rewrite filter_cons. cbn [snd].
    destruct (is_grid e) eqn:Hg; cbn [negb] in Hf.
    + rewrite decide_True by done.
      destruct (renderables w !! k) as [r|] eqn:Hr.
      * apply IH in Hf as (-> & Hc & Hd). cbn. rewrite <- app_assoc. cbn.
        split; [done|]. split; [done|]. rewrite Hd.
        apply elem_of_dom_2 in Hr. set_solver.
      * destruct (_updateGrid k (Some e) w) as [w1|] eqn:Hu; cbn [mbind option_bind] in Hf;
          [|by rewrite settingsNodes_fold_None in Hf].
        apply _updateGrid_Some_inv in Hu as (Hc1 & (r & Hrs & _) & _).
        apply IH in Hf as (-> & Hc & Hd). cbn. rewrite <- app_assoc. cbn.
        split; [done|]. split; [congruence|]. rewrite Hd, Hrs, dom_insert_L. set_solver.
    + rewrite decide_False by done. by apply IH in Hf.
Qed.

Lemma settingsNodes_fold_total (l : list (string * LayerConfig)) :
  forall es w,
    Forall (fun kv => c_step kv.2 <> Some 0) l ->
    is_Some (foldl settingsNodes_body (Some (es, w)) l).
Proof.
  induction l as [|[k e] l IH]; intros es w Hl; [done|].
  apply Forall_cons in Hl as [He Hl]. cbn [snd] in He.
  cbn [foldl]. unfold settingsNodes_body at 2. cbn [mbind option_bind].
  destruct (negb (is_grid e)); [by apply IH|].
  destruct (renderables w !! k); [by apply IH|].
  destruct (_updateGrid_total k e w (spread_step_nonzero e He)) as [w1 ->].
  cbn [mbind option_bind]. by apply IH.
Qed.

Lemma nonzero_steps_list (layers : gmap string LayerConfig) :
  nonzero_steps layers -> Forall (fun kv => c_step kv.2 <> Some 0) (map_to_list layers).
Proof.
  intros Hn. apply Forall_forall. intros [k e] Hin.
  apply elem_of_map_to_list in Hin. exact (Hn k e Hin).
Qed.

(** [settingsNodes] emits exactly the nodes of the configuration, leaves
    the configuration alone and fills the registry up to the configured
    circle grids. *)
Lemma settingsNodes_inv (w w' : World) (es : list SettingsTreeEntry) :
  settingsNodes w = Some (es, w') ->
  es = settings_entries (config_layers w)
  /\ config_layers w' = config_layers w
  /\ dom (renderables w') = dom (renderables w) ∪ grid_ids (config_layers w).
Proof.
  unfold settingsNodes. intros Hs. apply settingsNodes_fold_inv in Hs as (-> & Hc & Hd).
  by rewrite grid_keys_of_list in Hd.
Qed.

Lemma settingsNodes_total (w : World) :
  nonzero_steps (config_layers w) -> is_Some (settingsNodes w).
Proof. intros Hn. by apply settingsNodes_fold_total, nonzero_steps_list. Qed.

Lemma elem_of_settings_entries (layers : gmap string LayerConfig) (e : SettingsTreeEntry) :
  e ∈ settings_entries layers ->
  exists i c, layers !! i = Some c /\ is_grid c = true /\ path e = ["layers"; i].
Proof.
  unfold settings_entries. rewrite list_elem_of_fmap.
  intros ([i c] & -> & [Hg Hin]%list_elem_of_filter).
  apply elem_of_map_to_list in Hin. eauto.
Qed.

(** [_updateGrid] for an instance without a renderable: one is created
    from the settings merged over the defaults. *)
Lemma _updateGrid_create (instanceId : string) (s : LayerConfig) (w : World)
    (radiuses : list Z) :
  renderables w !! instanceId = None ->
  CircleList._range (minSize (spread DEFAULT_SETTINGS s))
    (Some (maxSize (spread DEFAULT_SETTINGS s)))
    (Some (step (spread DEFAULT_SETTINGS s))) = Some radiuses ->
  exists r,
    _updateGrid instanceId (Some s) w =
      Some (with_renderables (<[instanceId := r]> (renderables w))
              (with_children (add_child (children w) (renderable_ref r))
                 (with_heap
                    {| next_handle := (next_handle (heap w) + 4 + 2 * length radiuses)%nat;
                       dispose_log := dispose_log (heap w) |} w)))
    /\ settings r = spread DEFAULT_SETTINGS s
    /\ CircleList.radius <$> CircleList.geometries (circleList r) = radiuses
    /\ CircleList.geometry_ref <$> CircleList.geometries (circleList r) =
         (fun k => next_handle (heap w) + 3 + 2 * k)%nat <$> seq 0 (length radiuses)
    /\ CircleList.material (circleList r) = (next_handle (heap w) + 2)%nat
    /\ Ros.scale_ref (Ros.scale (CircleList.marker (circleList r))) = next_handle (heap w).
Proof.
  intros Hr Hrange. unfold _updateGrid. rewrite Hr.
  destruct (_createRenderable_spec instanceId _ w radiuses Hrange)
    as (r & -> & Hs & Hn & Hrad & Hrefs & Hlen & Hmat & Hsc).
  cbn [mbind option_bind]. rewrite Hs, !Z.eqb_refl. cbn [andb negb].
  exists (with_settings (spread DEFAULT_SETTINGS s) r).
  cbn [with_settings settings circleList renderable_ref].
  split; [|done].
  f_equal. unfold with_renderables, with_children, with_heap. cbn.
  by rewrite insert_insert_eq.
Qed.

(** [_updateGrid] for a registered instance whose sizes change: the old
    geometries are disposed of, and the circles are built anew. *)
Lemma _updateGrid_rebuild (instanceId : string) (s : LayerConfig) (w : World)
    (r : CircleGridRenderable) (radiuses : list Z) :
  renderables w !! instanceId = Some r ->
  (minSize (spread DEFAULT_SETTINGS s) =? minSize (settings r))
  && (maxSize (spread DEFAULT_SETTINGS s) =? maxSize (settings r))
  && (step (spread DEFAULT_SETTINGS s) =? step (settings r)) = false ->
  Ros.scale_ref (Ros.scale (CircleList.marker (circleList r))) <> next_handle (heap w) ->
  CircleList._range (minSize (spread DEFAULT_SETTINGS s))
    (Some (maxSize (spread DEFAULT_SETTINGS s)))
    (Some (step (spread DEFAULT_SETTINGS s))) = Some radiuses ->
  exists c,
    _updateGrid instanceId (Some s) w =
      Some (with_renderables
              (<[instanceId := with_circleList c (with_settings (spread DEFAULT_SETTINGS s) r)]>
                 (renderables w))
              (with_heap
                 {| next_handle := (next_handle (heap w) + 1 + 2 * length radiuses)%nat;
                    dispose_log := dispose_log (heap w)
                                   ++ (CircleList.geometry_ref
                                         <$> CircleList.geometries (circleList r)) |} w))
    /\ CircleList.radius <$> CircleList.geometries c = radiuses
    /\ CircleList.geometry_ref <$> CircleList.geometries c =
         (fun k => next_handle (heap w) + 1 + 2 * k)%nat <$> seq 0 (length radiuses)
    /\ CircleList.material c = CircleList.material (circleList r)
    /\ Ros.scale_ref (Ros.scale (CircleList.marker c)) = next_handle (heap w).
Proof.
  intros Hr Hneq Hsc Hrange. unfold _updateGrid. rewrite Hr.
  cbn [mbind option_bind]. rewrite Hneq. cbn [negb].
  destruct (createMarker_spec (spread DEFAULT_SETTINGS s) (heap w))
    as (m & Hm & Href & Hx & Hy & Hz).
  rewrite <- Hx, <- Hy, <- Hz in Hrange.
  destruct (update_rebuild_spec m None (circleList r)
              {| next_handle := S (next_handle (heap w)); dispose_log := dispose_log (heap w) |}
              radiuses) as (c & Hupd & Hrad & Hrefs & Hlen & Hmat & Hmk);
    [congruence | done |].
  cbn [next_handle dispose_log] in Hupd, Hrefs.
  erewrite on_heap_Some; cycle 1.
  { unfold bind. rewrite Hm. cbn [with_settings circleList]. exact Hupd. }
  cbn [mbind option_bind]. exists c. split.
  { replace (next_handle (heap w) + 1 + 2 * length radiuses)%nat
      with (S (next_handle (heap w)) + 2 * length radiuses)%nat by lia.
    reflexivity. }
  split; [done|]. split; [|split; [done|by rewrite Hmk]].
  rewrite Hrefs. apply list_fmap_ext. intros _ k _. lia.
Qed.

(** When the loop of [_range] does not end, [_updateGrid] does not return
    from creating or rebuilding. *)
Lemma _updateGrid_create_None (instanceId : string) (s : LayerConfig) (w : World) :
  renderables w !! instanceId = None ->
  CircleList._range (minSize (spread DEFAULT_SETTINGS s))
    (Some (maxSize (spread DEFAULT_SETTINGS s)))
    (Some (step (spread DEFAULT_SETTINGS s))) = None ->
  _updateGrid instanceId (Some s) w = None.
Proof.
  intros Hr Hrange. unfold _updateGrid. rewrite Hr.
  destruct (_createRenderable instanceId (spread DEFAULT_SETTINGS s) w)
    as [[r w1]|] eqn:Hc; [|done].
  unfold _createRenderable in Hc.
  destruct (on_heap _ w) as [[r1 w2]|] eqn:Hon; [|done].
  apply on_heap_inv in Hon as (h & Hm' & _).
  destruct (createMarker_spec (spread DEFAULT_SETTINGS s) (heap w))
    as (m & Hm & Href & Hx & Hy & Hz).
  rewrite <- Hx, <- Hy, <- Hz in Hrange.
  unfold bind at 1 in Hm'. rewrite Hm in Hm'. unfold bind at 1 in Hm'.
  by rewrite new_None in Hm'.
Qed.

Lemma _updateGrid_rebuild_None (instanceId : string) (s : LayerConfig) (w : World)
    (r : CircleGridRenderable) :
  renderables w !! instanceId = Some r ->
  (minSize (spread DEFAULT_SETTINGS s) =? minSize (settings r))
  && (maxSize (spread DEFAULT_SETTINGS s) =? maxSize (settings r))
  && (step (spread DEFAULT_SETTINGS s) =? step (settings r)) = false ->
  Ros.scale_ref (Ros.scale (CircleList.marker (circleList r))) <> next_handle (heap w) ->
  CircleList._range (minSize (spread DEFAULT_SETTINGS s))
    (Some (maxSize (spread DEFAULT_SETTINGS s)))
    (Some (step (spread DEFAULT_SETTINGS s))) = None ->
  _updateGrid instanceId (Some s) w = None.
Proof.
  intros Hr Hneq Hsc Hrange. unfold _updateGrid. rewrite Hr.
  cbn [mbind option_bind]. rewrite Hneq. cbn [negb].
  destruct (createMarker_spec (spread DEFAULT_SETTINGS s) (heap w))
    as (m & Hm & Href & Hx & Hy & Hz).
  rewrite <- Hx, <- Hy, <- Hz in Hrange.
  unfold on_heap, bind. rewrite Hm. cbn [with_settings circleList].
  rewrite update_None; [done| congruence | done].
Qed.

End GridFacts.


Section GridScenario.

Import Grids Spec.

(** C3.  Adding a circle-grid layer (its settings are the defaults,
    minSize 30, maxSize 100, step 20) to an extension that has no renderable
    under that id builds exactly 4 circle geometries, of radii 30, 50, 70,
    90.  Setting its step to 10 then leaves exactly 7 geometries, of radii
    30, 40, ..., 90, all of them new, and [dispose()] has been called on
    each of the 4 original geometries, once. *)
Theorem grid_scenario (w : World) (instanceId : string) :
  renderables w !! instanceId = None ->
  exists w1 r1 w2 r2,
    handleAddGrid instanceId w = Some w1
    /\ renderables w1 !! instanceId = Some r1
    /\ CircleList.radius <$> CircleList.geometries (circleList r1) = [30; 50; 70; 90]
    /\ handleSettingsAction (Update ["layers"; instanceId; "step"] (VNumber 10)) w1 = Some w2
    /\ renderables w2 !! instanceId = Some r2
    /\ CircleList.radius <$> CircleList.geometries (circleList r2)
       = [30; 40; 50; 60; 70; 80; 90]
    /\ dispose_log (heap w1) = dispose_log (heap w)
    /\ dispose_log (heap w2)
       = dispose_log (heap w1)
         ++ (CircleList.geometry_ref <$> CircleList.geometries (circleList r1))
    /\ NoDup (CircleList.geometry_ref <$> CircleList.geometries (circleList r1))
    /\ (forall g, g ∈ CircleList.geometries (circleList r2) ->
                  g ∉ CircleList.geometries (circleList r1)).
Proof.
  intros Hr. unfold handleAddGrid.
  match goal with |- context [_updateGrid instanceId (Some ?s) ?w1] =>
    destruct (_updateGrid_create instanceId s w1 [30; 50; 70; 90])
      as (r1 & Hadd & Hs1 & Hrad1 & Hrefs1 & Hmat1 & Hsc1); [exact Hr | reflexivity |]
  end.
  cbn [with_config heap children renderables length] in Hadd, Hrefs1, Hmat1, Hsc1.
  cbn [seq fmap list_fmap] in Hrefs1.
  eexists _, r1. rewrite Hadd. cbn [mbind option_bind].
  set (w1 := updateSettingsTree _).
  assert (Hr1 : renderables w1 !! instanceId = Some r1) by apply lookup_insert_eq.
  assert (Hc1 : config_layers w1 !! instanceId = Some _) by apply lookup_insert_eq.
  cbn [handleSettingsAction]. unfold saveSetting.
  change (String.eqb "layers" "layers") with true. cbn iota.
  rewrite Hc1. cbn [default from_option id].
  cbn [config_layers updateSettingsTree with_config]. rewrite lookup_insert_eq.
  match goal with |- context [_updateGrid instanceId (Some ?s) ?w2] =>
    destruct (_updateGrid_rebuild instanceId s w2 r1 [30; 40; 50; 60; 70; 80; 90])
      as (c2 & Hupd & Hrad2 & Hrefs2 & Hmat2 & _)
  end.
  { exact Hr1. }
  { rewrite Hs1. reflexivity. }
  { rewrite Hsc1. cbn. lia. }
  { reflexivity. }
  rewrite Hupd.
  cbn [heap w1 updateSettingsTree with_config with_renderables with_children with_heap
       next_handle dispose_log length seq fmap list_fmap] in Hrefs2 |- *.
  eexists _, _.
  split; [reflexivity|]. split; [exact Hr1|]. split; [exact Hrad1|].
  split; [reflexivity|].
  cbn [renderables heap with_renderables with_heap dispose_log].
  split; [apply lookup_insert_eq|].
  cbn [with_circleList circleList].
  split; [exact Hrad2|]. split; [reflexivity|]. split; [reflexivity|].
  split.
  - rewrite Hrefs1. repeat (apply NoDup_cons; split; [set_solver by lia|]). apply NoDup_nil_2.
  - intros g Hg2 Hg1.
    apply (list_elem_of_fmap_2 CircleList.geometry_ref) in Hg1, Hg2.
    rewrite Hrefs1 in Hg1. rewrite Hrefs2 in Hg2.
    set_unfold. lia.
Qed.

Lemma grid_scenario_witness :
  exists w1 w2,
    handleAddGrid "grid" empty_world = Some w1
    /\ handleSettingsAction (Update ["layers"; "grid"; "step"] (VNumber 10)) w1 = Some w2
    /\ dispose_log (heap w2) = [3; 5; 7; 9]%nat.
Proof.
  destruct (grid_scenario empty_world "grid" ltac:(reflexivity))
    as (w1 & r1 & w2 & r2 & H1 & H2 & H3 & H4 & H5 & H6 & H7 & H8 & H9).
  exists w1, w2. split; [exact H1|]. split; [exact H4|].
  rewrite H8, H7.
  vm_compute in H1. injection H1 as <-.
  vm_compute in H2. injection H2 as <-.
  reflexivity.
Defined.

End GridScenario.

Section Reconciliation.

Import Grids Spec.


Lemma set_field_step (field : string) (v : Value) (e : LayerConfig) :
  keeps_steps (Settings (Update ["layers"; "i"; field] v)) = true ->
  c_step e <> Some 0 -> c_step (set_field field v e) <> Some 0.
Proof.
  intros Hf He. unfold set_field.
  destruct v as [n| |];
    repeat (match goal with
            | |- context [if String.eqb field ?s then _ else _] =>
                destruct (String.eqb field s) eqn:?
            end); try done.
  cbn in *. rewrite Heqb1 in Hf. cbn in Hf. apply negb_true_iff, Z.eqb_neq in Hf.
  congruence.
Qed.



Lemma _updateGrid_None_inv (instanceId : string) (w : World) :
  exists w',
    _updateGrid instanceId None w = Some w'
    /\ config_layers w' = config_layers w
    /\ renderables w' = delete instanceId (renderables w).
Proof.
  destruct (renderables w !! instanceId) as [r|] eqn:Hr.
  - rewrite (_updateGrid_delete _ _ r Hr). eexists. split; [done|]. done.
  - rewrite _updateGrid_delete_absent by done. exists w. split; [done|].
    split; [done|]. by rewrite delete_id.
Qed.

(** *** Every action returns as long as no step is 0 *)

Lemma handleAddGrid_total (instanceId : string) (w : World) :
  nonzero_steps (config_layers w) ->
  exists w', handleAddGrid instanceId w = Some w' /\ nonzero_steps (config_layers w').
Proof.
  intros Hsteps. unfold handleAddGrid.
  match goal with |- context [_updateGrid instanceId (Some ?s) ?w1] =>
    destruct (_updateGrid_total instanceId s w1) as [w2 Hw2]; [done|];
    rewrite Hw2; apply _updateGrid_Some_inv in Hw2 as (Hc & _)
  end.
  cbn [mbind option_bind]. eexists. split; [done|].
  cbn in Hc |- *. rewrite Hc. apply map_Forall_insert_2; [done|exact Hsteps].
Qed.

Lemma handleSettingsAction_total (action : SettingsTreeAction) (w : World) :
  nonzero_steps (config_layers w) ->
  keeps_steps (Settings action) = true ->
  exists w', handleSettingsAction action w = Some w' /\ nonzero_steps (config_layers w').
Proof.
  intros Hsteps Hkeeps.
  destruct action as [path value|path id]; cbn [handleSettingsAction].
  - destruct path as [|root [|instanceId [|field [|? ?]]]];
      try (exists w; split; [done|exact Hsteps]).
    unfold saveSetting.
    assert (Hentry : c_step (default empty_config (config_layers w !! instanceId)) <> Some 0).
    { destruct (config_layers w !! instanceId) as [e|] eqn:He; [exact (Hsteps _ _ He)|done]. }
    destruct (String.eqb root "layers").
    + cbn [config_layers updateSettingsTree with_config]. rewrite lookup_insert_eq.
      match goal with |- context [_updateGrid instanceId (Some ?s) ?w1] =>
        destruct (_updateGrid_total instanceId s w1) as [w2 Hw2];
          [by apply spread_step_nonzero, set_field_step|];
        rewrite Hw2; apply _updateGrid_Some_inv in Hw2 as (Hc & _)
      end.
      eexists. split; [done|]. cbn in Hc. rewrite Hc.
      apply map_Forall_insert_2; [|exact Hsteps]. by apply set_field_step.
    + cbn [config_layers updateSettingsTree].
      destruct (config_layers w !! instanceId) as [e|] eqn:He.
      * match goal with |- context [_updateGrid instanceId (Some ?s) ?w1] =>
          destruct (_updateGrid_total instanceId s w1) as [w2 Hw2];
            [apply spread_step_nonzero; exact (Hsteps _ _ He)|];
          rewrite Hw2; apply _updateGrid_Some_inv in Hw2 as (Hc & _)
        end.
        eexists. split; [done|]. cbn in Hc. by rewrite Hc.
      * match goal with |- context [_updateGrid instanceId None ?w1] =>
          destruct (_updateGrid_None_inv instanceId w1) as (w2 & Hw2 & Hc & _)
        end.
        rewrite Hw2. eexists. split; [done|]. cbn in Hc. by rewrite Hc.
  - destruct path as [|root [|instanceId [|? ?]]];
      try (exists w; split; [done|exact Hsteps]).
    destruct (String.eqb id "delete"); [|exists w; split; [done|exact Hsteps]].
    match goal with |- context [_updateGrid instanceId None ?w1] =>
      destruct (_updateGrid_None_inv instanceId w1) as (w2 & Hw2 & Hc & _)
    end.
    rewrite Hw2. cbn [mbind option_bind]. eexists. split; [done|].
    cbn in Hc |- *. rewrite Hc. by apply map_Forall_delete.
Qed.

Lemma run_total (acts : list UserAction) :
  forall w,
    nonzero_steps (config_layers w) ->
    forallb keeps_steps acts = true ->
    exists w', run acts w = Some w' /\ nonzero_steps (config_layers w').
Proof.
  induction acts as [|a acts IH]; intros w Hsteps Hkeeps.
  - exists w. by split.
  - cbn [forallb] in Hkeeps. apply andb_prop in Hkeeps as [Ha Hrest].
    assert (exists w1, perform a w = Some w1 /\ nonzero_steps (config_layers w1))
      as (w1 & Hw1 & Hsteps1).
    { destruct a as [instanceId|action]; cbn [perform].
      - by apply handleAddGrid_total.
      - by apply handleSettingsAction_total. }
    cbn [run]. rewrite Hw1. cbn [mbind option_bind]. by apply IH.
Qed.

(** *** The constructor *)

Lemma load_fold_None (l : list (string * LayerConfig)) : foldl load_entry None l = None.
Proof. induction l as [|kv l IH]; [done|]. cbn. exact IH. Qed.

Lemma load_fold_inv (l : list (string * LayerConfig)) :
  forall w w',
    foldl load_entry (Some w) l = Some w' ->
    config_layers w' = config_layers w
    /\ dom (renderables w') =
         dom (renderables w)
         ∪ list_to_set ((filter (fun kv => is_grid kv.2 = true) l).*1).
Proof.
  induction l as [|[k e] l IH]; intros w w' Hf.
  - cbn in Hf. injection Hf as <-. cbn. split; [done|]. set_solver.
  - cbn [foldl] in Hf. unfold load_entry at 2 in Hf. cbn [mbind option_bind fst snd] in Hf.
    rewrite filter_cons. cbn [snd].
    destruct (is_grid e) eqn:Hg.
    + rewrite decide_True by done.
      destruct (_updateGrid k (Some e) w) as [w1|] eqn:Hw1;
        [|by rewrite load_fold_None in Hf].
      apply _updateGrid_Some_inv in Hw1 as (Hc & (r & Hrs & _) & _).
      apply IH in Hf as (Hc' & Hd'). split; [congruence|].
      rewrite Hd', Hrs, dom_insert_L. cbn. set_solver.
    + rewrite decide_False by done. by apply IH in Hf.
Qed.

Lemma load_fold_total (l : list (string * LayerConfig)) :
  forall w,
    Forall (fun kv => c_step kv.2 <> Some 0) l ->
    is_Some (foldl load_entry (Some w) l).
Proof.
  induction l as [|[k e] l IH]; intros w Hl; [done|].
  apply Forall_cons in Hl as [He Hl]. cbn [snd] in He.
  cbn [foldl]. unfold load_entry at 2. cbn [mbind option_bind fst snd].
  destruct (is_grid e); [|by apply IH].
  destruct (_updateGrid_total k e w (spread_step_nonzero e He)) as [w1 ->].
  by apply IH.
Qed.

Lemma constructor_inv (h : Heap) (layers : gmap string LayerConfig) (w0 : World) :
  Grids.new h layers = Some w0 ->
  config_layers w0 = layers /\ dom (renderables w0) = grid_ids layers.
Proof.
  unfold Grids.new. intros Hnew. apply load_fold_inv in Hnew as (Hc & Hd).
  split; [done|]. rewrite Hd, grid_keys_of_list. cbn. set_solver.
Qed.

Lemma constructor_total (h : Heap) (layers : gmap string LayerConfig) :
  nonzero_steps layers -> is_Some (Grids.new h layers).
Proof. intros Hn. by apply load_fold_total, nonzero_steps_list. Qed.

(** *** Sizes within the safe integers *)

Lemma safe_sizes_nonzero (layers : gmap string LayerConfig) :
  safe_sizes layers -> nonzero_steps layers.
Proof.
  unfold safe_sizes, nonzero_steps. intros H. eapply map_Forall_impl; [exact H|].
  intros i e (_ & _ & _ & Hs) Heq. apply Hs.
  unfold spread. cbn [step]. by rewrite Heq.
Qed.




(** *** Every action on a configured circle grid keeps the registry equal
    to the configured circle grids *)




(** *** The creation pass of [settingsNodes] *)








End Reconciliation.

Section ResourceInvariant.

Import Grids Spec.

Lemma resources_ok_at_delete (h : Heap) (rs : gmap string CircleGridRenderable)
    (instanceId : string) (r0 : CircleGridRenderable) :
  resources_ok_at h rs ->
  rs !! instanceId = Some r0 ->
  resources_ok_at {| next_handle := next_handle h; dispose_log := dispose_log h ++ owned r0 |}
    (delete instanceId rs).
Proof.
  intros (Hlog & Hown & Hdisj) Hr0. unfold resources_ok_at. cbn [next_handle dispose_log].
  split; [|split].
  - apply Forall_app. split; [done|]. apply Forall_forall. intros x Hx.
    by apply (Hown _ _ Hr0).
  - intros i r [Hne Hr]%lookup_delete_Some.
    destruct (Hown _ _ Hr) as (Hnd & Hx & Hsc). split; [done|]. split; [|done].
    intros x Hin. destruct (Hx x Hin) as [Hlt Hnotin]. split; [done|].
    rewrite elem_of_app. intros [?|Hin0]; [done|].
    by apply (Hdisj instanceId i r0 r x).
  - intros i j ri rj x Hij [_ Hi]%lookup_delete_Some [_ Hj]%lookup_delete_Some.
    exact (Hdisj i j ri rj x Hij Hi Hj).
Qed.

(** Replacing (or adding) the renderable of an instance keeps the
    invariant when the new resources are either freshly allocated or kept
    from the renderable it replaces, and only resources of the replaced
    renderable that are not kept have been disposed of. *)
Lemma resources_ok_at_insert (h h' : Heap) (rs : gmap string CircleGridRenderable)
    (instanceId : string) (r : CircleGridRenderable) (released : list handle) :
  resources_ok_at h rs ->
  (next_handle h <= next_handle h')%nat ->
  dispose_log h' = dispose_log h ++ released ->
  (forall x, x ∈ released ->
             exists r0, rs !! instanceId = Some r0 /\ x ∈ owned r0 /\ x ∉ owned r) ->
  (forall x, x ∈ owned r ->
             (next_handle h <= x < next_handle h')%nat
             \/ exists r0, rs !! instanceId = Some r0 /\ x ∈ owned r0) ->
  NoDup (owned r) ->
  (Ros.scale_ref (Ros.scale (CircleList.marker (circleList r))) < next_handle h')%nat ->
  resources_ok_at h' (<[instanceId := r]> rs).
Proof.
  intros (Hlog & Hown & Hdisj) Hnext Hlog' Hrel Hnew Hnd Hsc.
  assert (Hold : forall i r1 x, rs !! i = Some r1 -> x ∈ owned r1 ->
                                (x < next_handle h)%nat /\ x ∉ dispose_log h).
  { intros i r1 x Hr1 Hx. by apply (Hown _ _ Hr1). }
  assert (Hrel_lt : forall x, x ∈ released -> (x < next_handle h)%nat).
  { intros x (r0 & Hr0 & Hx & _)%Hrel. by apply (Hold _ _ _ Hr0 Hx). }
  unfold resources_ok_at. rewrite Hlog'. split; [|split].
  - apply Forall_app. split.
    + eapply Forall_impl; [exact Hlog|]. cbn. lia.
    + apply Forall_forall. intros x Hx%Hrel_lt. lia.
  - intros i r1. rewrite lookup_insert. case_decide as Hi.
    + intros [= <-]. split; [done|]. split; [|done].
      intros x Hx. destruct (Hnew x Hx) as [Hfresh|(r0 & Hr0 & Hx0)].
      * split; [lia|]. rewrite elem_of_app. intros [Hin|Hin%Hrel_lt]; [|lia].
        rewrite Forall_forall in Hlog. apply Hlog in Hin. lia.
      * destruct (Hold _ _ _ Hr0 Hx0) as [Hlt Hnotin]. split; [lia|].
        rewrite elem_of_app. intros [?|(r0' & Hr0' & _ & Hnotr)%Hrel]; done.
    + intros Hr1. destruct (Hown _ _ Hr1) as (Hnd1 & Hx1 & Hsc1).
      split; [done|]. split; [|lia].
      intros x Hx. destruct (Hx1 x Hx) as [Hlt Hnotin]. split; [lia|].
      rewrite elem_of_app. intros [?|(r0 & Hr0 & Hx0 & _)%Hrel]; [done|].
      by apply (Hdisj instanceId i r0 r1 x).
  - intros i j ri rj x Hij. rewrite !lookup_insert.
    case_decide as Hi; case_decide as Hj; try congruence.
    + intros [= <-] Hrj Hx Hxj. destruct (Hnew x Hx) as [Hfresh|(r0 & Hr0 & Hx0)].
      * destruct (Hold _ _ _ Hrj Hxj). lia.
      * by apply (Hdisj instanceId j r0 rj x).
    + intros Hri [= <-] Hx Hxj. destruct (Hnew x Hxj) as [Hfresh|(r0 & Hr0 & Hx0)].
      * destruct (Hold _ _ _ Hri Hx). lia.
      * by apply (Hdisj i instanceId ri r0 x).
    + intros Hri Hrj. exact (Hdisj i j ri rj x Hij Hri Hrj).
Qed.

Lemma NoDup_spaced (a n : nat) : NoDup ((fun k => a + 2 * k)%nat <$> seq 0 n).
Proof. apply NoDup_fmap_2; [intros x y; lia|apply NoDup_seq]. Qed.

Lemma elem_of_spaced (a n x : nat) :
  x ∈ (fun k => a + 2 * k)%nat <$> seq 0 n -> (a <= x < a + 2 * n)%nat.
Proof. rewrite list_elem_of_fmap. intros (k & -> & Hk%elem_of_seq). lia. Qed.

(** [_updateGrid] keeps the invariant. *)
Lemma _updateGrid_resources_ok (instanceId : string) (s : option LayerConfig) (w w' : World) :
  _updateGrid instanceId s w = Some w' -> resources_ok w -> resources_ok w'.
Proof.
  unfold resources_ok. intros Hu Hok. destruct s as [s|].
  - destruct (renderables w !! instanceId) as [r|] eqn:Hr.
    + destruct ((minSize (spread DEFAULT_SETTINGS s) =? minSize (settings r))
                && (maxSize (spread DEFAULT_SETTINGS s) =? maxSize (settings r))
                && (step (spread DEFAULT_SETTINGS s) =? step (settings r))) eqn:Heq.
      * apply andb_prop in Heq as [[Hmin%Z.eqb_eq Hmax%Z.eqb_eq]%andb_prop Hstep%Z.eqb_eq].
        rewrite (_updateGrid_sizes_unchanged instanceId s w r) in Hu by done.
        injection Hu as <-. cbn.
        destruct Hok as (Hlog & Hown & Hdisj). destruct (Hown _ _ Hr) as (Hnd & Hx & Hsc).
        eapply (resources_ok_at_insert _ _ _ _ _ []); try done.
        -- by rewrite app_nil_r.
        -- intros x Hin. by apply not_elem_of_nil in Hin.
        -- intros x Hin. right. eauto.
      * destruct Hok as (Hlog & Hown & Hdisj). destruct (Hown _ _ Hr) as (Hnd & Hx & Hsc).
        destruct (CircleList._range (minSize (spread DEFAULT_SETTINGS s))
                    (Some (maxSize (spread DEFAULT_SETTINGS s)))
                    (Some (step (spread DEFAULT_SETTINGS s)))) as [rs|] eqn:Hrange;
          [|rewrite (_updateGrid_rebuild_None instanceId s w r) in Hu; [done..|lia|done]].
        destruct (_updateGrid_rebuild instanceId s w r rs Hr Heq ltac:(lia) Hrange)
          as (c & Hupd & Hrad & Hrefs & Hmat & Hscale).
        rewrite Hupd in Hu. injection Hu as <-. cbn.
        eapply (resources_ok_at_insert _ _ _ _ _
                  (CircleList.geometry_ref <$> CircleList.geometries (circleList r)));
          [split; [exact Hlog|split; [exact Hown|exact Hdisj]]| | | | | |];
          cbn [next_handle dispose_log with_circleList with_settings circleList].
        -- lia.
        -- done.
        -- intros x Hin. exists r. split; [done|].
           split; [unfold owned, disposal; set_solver|].
           unfold owned, disposal. cbn. rewrite Hrefs, Hmat, elem_of_app, list_elem_of_singleton.
           intros [Hfresh%elem_of_spaced| ->].
           ++ assert (x ∈ owned r) as Hxr by (unfold owned, disposal; set_solver).
              apply Hx in Hxr. lia.
           ++ unfold owned, disposal in Hnd. apply NoDup_app in Hnd as (_ & Hnd & _).
              apply (Hnd _ Hin). set_solver.
        -- intros x. unfold owned, disposal. cbn.
           rewrite Hrefs, Hmat, elem_of_app, list_elem_of_singleton.
           intros [Hfresh%elem_of_spaced| ->]; [left; lia|].
           right. exists r. split; [done|]. set_solver.
        -- unfold owned, disposal. cbn. rewrite Hrefs, Hmat. apply NoDup_app.
           split; [apply NoDup_spaced|]. split; [|apply NoDup_singleton].
           intros x Hfresh%elem_of_spaced ->%list_elem_of_singleton.
           assert (CircleList.material (circleList r) ∈ owned r) as Hm
             by (unfold owned, disposal; set_solver).
           apply Hx in Hm. lia.
        -- rewrite Hscale. lia.
    + destruct (CircleList._range (minSize (spread DEFAULT_SETTINGS s))
                  (Some (maxSize (spread DEFAULT_SETTINGS s)))
                  (Some (step (spread DEFAULT_SETTINGS s)))) as [rs|] eqn:Hrange;
        [|by rewrite (_updateGrid_create_None instanceId s w) in Hu].
      destruct (_updateGrid_create instanceId s w rs Hr Hrange)
        as (r & Hupd & Hs & Hrad & Hrefs & Hmat & Hscale).
      rewrite Hupd in Hu. injection Hu as <-. cbn.
      eapply (resources_ok_at_insert _ _ _ _ _ []); [exact Hok| | | | | |];
        cbn [next_handle dispose_log].
      * lia.
      * by rewrite app_nil_r.
      * intros x Hin. by apply not_elem_of_nil in Hin.
      * intros x. unfold owned, disposal. rewrite Hrefs, Hmat, elem_of_app, list_elem_of_singleton.
        intros [Hfresh%elem_of_spaced| ->]; left; lia.
      * unfold owned, disposal. rewrite Hrefs, Hmat. apply NoDup_app.
        split; [apply NoDup_spaced|]. split; [|apply NoDup_singleton].
        intros x Hfresh%elem_of_spaced ->%list_elem_of_singleton. lia.
      * rewrite Hscale. lia.
  - destruct (renderables w !! instanceId) as [r|] eqn:Hr.
    + rewrite (_updateGrid_delete _ _ r Hr) in Hu. injection Hu as <-. cbn.
      by apply resources_ok_at_delete.
    + rewrite _updateGrid_delete_absent in Hu by done. by injection Hu as <-.
Qed.

Lemma handleAddGrid_resources_ok (instanceId : string) (w w' : World) :
  handleAddGrid instanceId w = Some w' -> resources_ok w -> resources_ok w'.
Proof.
  unfold handleAddGrid. intros Hadd Hok.
  match type of Hadd with context [_updateGrid instanceId (Some ?s) ?w1] =>
    destruct (_updateGrid instanceId (Some s) w1) as [w2|] eqn:Hw2; [|done]
  end.
  cbn [mbind option_bind] in Hadd. injection Hadd as <-.
  apply _updateGrid_resources_ok in Hw2; done.
Qed.

Lemma handleSettingsAction_resources_ok (action : SettingsTreeAction) (w w' : World) :
  handleSettingsAction action w = Some w' -> resources_ok w -> resources_ok w'.
Proof.
  intros Hact Hok.
  destruct action as [path value|path id]; cbn [handleSettingsAction] in Hact.
  - destruct path as [|root [|instanceId [|field [|? ?]]]];
      try (injection Hact as <-; exact Hok).
    apply _updateGrid_resources_ok in Hact; [done|].
    unfold saveSetting. destruct (String.eqb root "layers"); exact Hok.
  - destruct path as [|root [|instanceId [|? ?]]];
      try (injection Hact as <-; exact Hok).
    destruct (String.eqb id "delete"); [|injection Hact as <-; exact Hok].
    match type of Hact with context [_updateGrid instanceId None ?w1] =>
      destruct (_updateGrid instanceId None w1) as [w2|] eqn:Hw2; [|done]
    end.
    cbn [mbind option_bind] in Hact. injection Hact as <-.
    apply _updateGrid_resources_ok in Hw2; done.
Qed.

Lemma run_resources_ok (acts : list UserAction) :
  forall w w', run acts w = Some w' -> resources_ok w -> resources_ok w'.
Proof.
  induction acts as [|a acts IH]; intros w w' Hrun Hok.
  - by injection Hrun as <-.
  - cbn [run] in Hrun. destruct (perform a w) as [w1|] eqn:Hw1; [|done].
    cbn [mbind option_bind] in Hrun. apply (IH w1 w' Hrun).
    destruct a as [instanceId|action]; cbn [perform] in Hw1.
    + by eapply handleAddGrid_resources_ok.
    + by eapply handleSettingsAction_resources_ok.
Qed.

Lemma settingsNodes_fold_resources_ok (l : list (string * LayerConfig)) :
  forall es w es' w',
    foldl settingsNodes_body (Some (es, w)) l = Some (es', w') ->
    resources_ok w -> resources_ok w'.
Proof.
  induction l as [|[k e] l IH]; intros es w es' w' Hf Hok.
  - cbn in Hf. by injection Hf as <- <-.
  - cbn [foldl] in Hf. unfold settingsNodes_body at 2 in Hf. cbn [mbind option_bind] in Hf.
    destruct (negb (is_grid e)); [by eapply IH|].
    destruct (renderables w !! k); [by eapply IH|].
    destruct (_updateGrid k (Some e) w) as [w1|] eqn:Hu; cbn [mbind option_bind] in Hf;
      [|by rewrite settingsNodes_fold_None in Hf].
    eapply IH; [exact Hf|]. by eapply _updateGrid_resources_ok.
Qed.

Lemma settingsNodes_resources_ok (w w' : World) (es : list SettingsTreeEntry) :
  settingsNodes w = Some (es, w') -> resources_ok w -> resources_ok w'.
Proof. apply settingsNodes_fold_resources_ok. Qed.

Lemma load_fold_resources_ok (l : list (string * LayerConfig)) :
  forall w w', foldl load_entry (Some w) l = Some w' -> resources_ok w -> resources_ok w'.
Proof.
  induction l as [|[k e] l IH]; intros w w' Hf Hok.
  - cbn in Hf. by injection Hf as <-.
  - cbn [foldl] in Hf. unfold load_entry at 2 in Hf. cbn [mbind option_bind fst snd] in Hf.
    destruct (is_grid e); [|by eapply IH].
    destruct (_updateGrid k (Some e) w) as [w1|] eqn:Hu;
      [|by rewrite load_fold_None in Hf].
    eapply IH; [exact Hf|]. by eapply _updateGrid_resources_ok.
Qed.

(** The constructor establishes the invariant on a heap whose dispose log
    names allocated handles only. *)
Lemma constructor_resources_ok (h : Heap) (layers : gmap string LayerConfig) (w0 : World) :
  Forall (fun x => (x < next_handle h)%nat) (dispose_log h) ->
  Grids.new h layers = Some w0 -> resources_ok w0.
Proof.
  intros Hlog Hnew. unfold Grids.new in Hnew.
  eapply load_fold_resources_ok; [exact Hnew|].
  unfold resources_ok, resources_ok_at. cbn. split; [done|].
  split; intros *; by rewrite ?lookup_empty.
Qed.

Lemma filter_eq_not_elem_of (x : handle) (l : list handle) :
  x ∉ l -> filter (fun y => y = x) l = [].
Proof.
  induction l as [|y l IH]; [done|].
  intros [Hne Hx]%not_elem_of_cons. rewrite filter_cons.
  rewrite decide_False by congruence. by apply IH.
Qed.

Lemma filter_eq_NoDup (x : handle) (l : list handle) :
  NoDup l -> x ∈ l -> length (filter (fun y => y = x) l) = 1%nat.
Proof.
  induction 1 as [|y l Hy Hnd IH]; [by intros ?%not_elem_of_nil|].
  rewrite filter_cons. intros [->|Hin]%elem_of_cons.
  - rewrite decide_True by done. cbn. by rewrite filter_eq_not_elem_of.
  - rewrite decide_False by (intros ->; done). by apply IH.
Qed.

End ResourceInvariant.

Section DeleteLayer.

Import Grids Spec.

Lemma CircleGridRenderable_dispose_log (r : CircleGridRenderable) (h : Heap) :
  CircleGridRenderable_dispose r h
  = Some (tt, {| next_handle := next_handle h;
                 dispose_log := dispose_log h ++ renderable_ref r :: disposal (circleList r) |}).
Proof.
  unfold CircleGridRenderable_dispose, Renderable_dispose, bind, Three.dispose, ret.
  rewrite dispose_log_spec. cbn. by rewrite <- app_assoc.
Qed.

(** C2 (as the code has it).  A delete action on a registered instance
    always returns, in one step of the extension, and afterwards the
    instance is absent from the configuration and from the registry, the
    dispose log has grown by exactly one run of [dispose()] of its circle
    list (one [dispose()] per geometry, one for the material), a
    settings-tree refresh has been scheduled, and the next
    [settingsNodes()] neither emits a node for the instance nor registers
    it again.  The [dispose()] of the renderable itself is not what runs:
    a call of it would have logged the renderable before the resources of
    the circle list, and the log of the delete action has no entry for a
    renderable that is not among these resources.  In a state kept by the
    extension (no resource disposed of while owned, none shared) every
    resource of the deleted renderable has now been disposed of exactly
    once, ever. *)
Theorem delete_is_atomic (w : World) (instanceId : string) (r : CircleGridRenderable) :
  renderables w !! instanceId = Some r ->
  exists w',
    handleSettingsAction (PerformNodeAction ["layers"; instanceId] "delete") w = Some w'
    /\ config_layers w' !! instanceId = None
    /\ renderables w' !! instanceId = None
    /\ dispose_log (heap w') = dispose_log (heap w) ++ disposal (circleList r)
    /\ (exists h,
          CircleGridRenderable_dispose r (heap w) = Some (tt, h)
          /\ dispose_log h
             = dispose_log (heap w) ++ renderable_ref r :: disposal (circleList r)
          /\ dispose_log h <> dispose_log (heap w'))
    /\ (renderable_ref r ∉ owned r ->
        length (filter (fun y => y = renderable_ref r) (dispose_log (heap w')))
        = length (filter (fun y => y = renderable_ref r) (dispose_log (heap w))))
    /\ (renderable_ref r ∉ children w')
    /\ settingsTreeUpdates w' = S (settingsTreeUpdates w)
    /\ (forall es w'',
          settingsNodes w' = Some (es, w'') ->
          (forall e, e ∈ es -> path e <> ["layers"; instanceId])
          /\ renderables w'' !! instanceId = None)
    /\ (safe_sizes (config_layers w) -> is_Some (settingsNodes w'))
    /\ (resources_ok w ->
        resources_ok w'
        /\ forall x, x ∈ owned r ->
                     length (filter (fun y => y = x) (dispose_log (heap w'))) = 1%nat).
Proof.
  intros Hr. cbn [handleSettingsAction]. change (String.eqb "delete" "delete") with true.
  cbn iota. erewrite _updateGrid_delete by exact Hr.
  cbn [mbind option_bind]. eexists. split; [reflexivity|].
  cbn.
  split; [apply lookup_delete_eq|]. split; [apply lookup_delete_eq|].
  split; [done|].
  split.
  { eexists. split; [apply CircleGridRenderable_dispose_log|]. cbn. split; [done|].
    intros Heq. apply app_inv_head in Heq.
    apply (f_equal length) in Heq. cbn in Heq. lia. }
  split.
  { intros Hown. rewrite filter_app, length_app.
    rewrite (filter_eq_not_elem_of _ (disposal (circleList r))) by exact Hown.
    cbn. lia. }
  split; [unfold remove_child; rewrite list_elem_of_filter; naive_solver|].
  split; [done|]. split; [|split].
  - intros es w'' Hs. apply settingsNodes_inv in Hs as (-> & Hc & Hd).
    cbn in Hc, Hd. split.
    + intros e (i & c & Hl & _ & Hp)%elem_of_settings_entries Heq.
      rewrite Hp in Heq. injection Heq as ->. cbn in Hl.
      by rewrite lookup_delete_eq in Hl.
    + apply not_elem_of_dom. rewrite Hd, elem_of_union, grid_ids_spec.
      intros [Hin|(c & Hl & _)].
      * apply elem_of_dom in Hin as [? Hin]. by rewrite lookup_delete_eq in Hin.
      * cbn in Hl. by rewrite lookup_delete_eq in Hl.
  - intros Hn. apply settingsNodes_total. cbn.
    by apply map_Forall_delete, safe_sizes_nonzero.
  - intros Hok. split.
    + unfold resources_ok. cbn. by apply resources_ok_at_delete.
    + intros x Hx. destruct Hok as (_ & Hown & _).
      destruct (Hown _ _ Hr) as (Hnd & Hfresh & _).
      rewrite filter_app, length_app.
      rewrite filter_eq_not_elem_of by (by apply Hfresh).
      by rewrite filter_eq_NoDup.
Qed.

Lemma delete_is_atomic_witness :
  let w := default empty_world (handleAddGrid "a" empty_world) in
  exists w',
    handleSettingsAction (PerformNodeAction ["layers"; "a"] "delete") w = Some w'
    /\ config_layers w' !! "a" = None
    /\ renderables w' !! "a" = None
    /\ dispose_log (heap w') = [3; 5; 7; 9; 2]%nat
    /\ resources_ok w'.
Proof.
  intros w.
  assert (Hadd : handleAddGrid "a" empty_world = Some w) by (vm_compute; reflexivity).
  assert (Hok : resources_ok w).
  { eapply handleAddGrid_resources_ok; [exact Hadd|].
    unfold resources_ok, resources_ok_at. cbn. split; [constructor|].
    split; intros *; by rewrite ?lookup_empty. }
  assert (Hr : is_Some (renderables w !! "a")) by (vm_compute; eauto).
  destruct Hr as [r Hr].
  destruct (delete_is_atomic w "a" r Hr)
    as (w' & H1 & H2 & H3 & H4 & _ & _ & _ & _ & _ & _ & H9).
  exists w'. split; [exact H1|]. split; [exact H2|]. split; [exact H3|].
  split; [|by apply H9].
  rewrite H4. vm_compute in Hr. injection Hr as <-. reflexivity.
Defined.

(** C2 as stated fails for the disposal routine of the renderable:
    [CircleGridRenderable.dispose] is not invoked by a delete action.  On
    an extension with the one layer "a", the delete action disposes of the
    four geometries and of the material of the circle list, each once, and
    logs no [dispose()] of the renderable, which a call of its disposal
    routine would have logged first. *)
Lemma delete_skips_renderable_dispose_counterexample :
  exists w r w' h,
    handleAddGrid "a" empty_world = Some w
    /\ renderables w !! "a" = Some r
    /\ handleSettingsAction (PerformNodeAction ["layers"; "a"] "delete") w = Some w'
    /\ renderable_ref r = 11%nat
    /\ dispose_log (heap w') = [3; 5; 7; 9; 2]%nat
    /\ length (filter (fun y => y = renderable_ref r) (dispose_log (heap w'))) = 0%nat
    /\ CircleGridRenderable_dispose r (heap w) = Some (tt, h)
    /\ dispose_log h = [11; 3; 5; 7; 9; 2]%nat.
Proof.
  do 4 eexists.
  split; [vm_compute; reflexivity|].
  split; [vm_compute; reflexivity|].
  split; [vm_compute; reflexivity|].
  split; [vm_compute; reflexivity|].
  split; [vm_compute; reflexivity|].
  split; [vm_compute; reflexivity|].
  split; vm_compute; reflexivity.
Qed.

End DeleteLayer.

(** ** Normalization of LD object lists *)

Section Normalization.

Import Ros LDMsg.

Lemma normalizeTime_full (t : Time) : normalizeTime (Some (Time_as_partial t)) = t.
Proof. by destruct t. Qed.

Lemma normalizeVector3_full (v : Vector3) : normalizeVector3 (Some (Vector3_as_partial v)) = v.
Proof. by destruct v. Qed.

Lemma normalizeQuaternion_full (q : Quaternion) :
  normalizeQuaternion (Some (Quaternion_as_partial q)) = q.
Proof. by destruct q. Qed.

Lemma normalizeColorRGBA_full (c : ColorRGBA) :
  normalizeColorRGBA (Some (ColorRGBA_as_partial c)) = c.
Proof. by destruct c. Qed.

Lemma normalizePose_full (p : Pose) : normalizePose (Some (Pose_as_partial p)) = p.
Proof.
  destruct p as [v q]. unfold normalizePose. cbn [chain Pose_as_partial position orientation].
  by rewrite normalizeVector3_full, normalizeQuaternion_full.
Qed.

Lemma normalizeTwist_full (t : Twist) : normalizeTwist (Some (Twist_as_partial t)) = t.
Proof.
  destruct t as [l a]. unfold normalizeTwist. cbn [chain Twist_as_partial linear angular].
  by rewrite !normalizeVector3_full.
Qed.

Lemma normalizeHeader_full (h : Header) : normalizeHeader (Some (Header_as_partial h)) = h.
Proof.
  destruct h as [f s]. unfold normalizeHeader. cbn [chain Header_as_partial frame_id stamp].
  by rewrite normalizeTime_full.
Qed.

End Normalization.

Section NormalizeLDObjectList.

Import Ros LDMsg.

Variable normalizeVector3 : option (Vector3_ option) -> Vector3.
Variable normalizeColorRGBA : option (ColorRGBA_ option) -> ColorRGBA.
Variable normalizeHeader : option (Header_ option) -> Header.
Variable normalizePose : option (Pose_ option) -> Pose.
Variable normalizeTime : option (Time_ option) -> Time.
Variable normalizeTwist : option (Twist_ option) -> Twist.

(** Each nested normalizer returns an already-normalized value unchanged. *)
Hypothesis Vector3_full : forall v, normalizeVector3 (Some (Vector3_as_partial v)) = v.
Hypothesis ColorRGBA_full : forall c, normalizeColorRGBA (Some (ColorRGBA_as_partial c)) = c.
Hypothesis Header_full : forall h, normalizeHeader (Some (Header_as_partial h)) = h.
Hypothesis Pose_full : forall p, normalizePose (Some (Pose_as_partial p)) = p.
Hypothesis Time_full : forall t, normalizeTime (Some (Time_as_partial t)) = t.
Hypothesis Twist_full : forall t, normalizeTwist (Some (Twist_as_partial t)) = t.

Local Abbreviation normalizeLDObject :=
  (LDMsg.normalizeLDObject normalizeVector3 normalizeColorRGBA normalizeHeader
     normalizePose normalizeTime normalizeTwist).
Local Abbreviation normalizeLDObjects :=
  (LDMsg.normalizeLDObjects normalizeVector3 normalizeColorRGBA normalizeHeader
     normalizePose normalizeTime normalizeTwist).
Local Abbreviation normalizeLDObjectList :=
  (LDMsg.normalizeLDObjectList normalizeVector3 normalizeColorRGBA normalizeHeader
     normalizePose normalizeTime normalizeTwist).

(** Normalizing an already-normalized object returns it unchanged. *)
Lemma normalizeLDObject_full (o : LDObject) :
  normalizeLDObject (Some (LDObject_as_partial o)) = o.
Proof.
  destruct o. unfold LDMsg.normalizeLDObject, LDObject_as_partial. cbn.
  by rewrite !Header_full, !Time_full, !Vector3_full, !Pose_full, !ColorRGBA_full,
    !Twist_full.
Qed.

Lemma normalizeLDObjects_full (os : list LDObject) :
  normalizeLDObjects (Some ((fun o => Some (LDObject_as_partial o)) <$> os)) = os.
Proof.
  unfold LDMsg.normalizeLDObjects. rewrite <- list_fmap_compose.
  induction os as [|o os IH]; [done|].
  cbn [fmap list_fmap compose]. rewrite normalizeLDObject_full. f_equal. exact IH.
Qed.

Lemma normalizeLDObjectList_full (l : LDObjectList) :
  normalizeLDObjectList (LDObjectList_as_partial l) = l.
Proof.
  destruct l as [h n os]. unfold LDMsg.normalizeLDObjectList, LDObjectList_as_partial.
  cbn [list_header frame_number objects default from_option id].
  by rewrite Header_full, normalizeLDObjects_full.
Qed.

(** C4.  [normalizeLDObjectList] is a total function of the partial message.
    Over nested normalizers that return a normalized value unchanged, it is
    idempotent, and returns an already-normalized message unchanged.  Every
    field of the result is populated: a number by the value sent or else 0,
    a string by the value sent or else the empty string, a boolean by the
    value sent or else false, a nested message by its normalizer, and the
    object list by the normalized objects (none when the list is missing).
    The field tables cover the 62 fields of an object. *)
Theorem normalize_idempotent (m : LDObjectList_ option) :
  normalizeLDObjectList (LDObjectList_as_partial (normalizeLDObjectList m))
  = normalizeLDObjectList m
  /\ (forall l : LDObjectList, normalizeLDObjectList (LDObjectList_as_partial l) = l)
  /\ list_header (normalizeLDObjectList m) = normalizeHeader (list_header m)
  /\ frame_number (normalizeLDObjectList m) = default 0 (frame_number m)
  /\ objects (normalizeLDObjectList m) = normalizeLDObject <$> default [] (objects m)
  /\ (forall o : option (LDObject_ option),
        Forall (fun pf => pf.2 (normalizeLDObject o) = default 0 (chain o pf.1)) number_fields
        /\ Forall (fun pf => pf.2 (normalizeLDObject o) = default "" (chain o pf.1))
             string_fields
        /\ Forall (fun pf => pf.2 (normalizeLDObject o) = default false (chain o pf.1))
             boolean_fields
        /\ Forall (fun pf => pf.2 (normalizeLDObject o) = normalizeHeader (chain o pf.1))
             Header_fields
        /\ Forall (fun pf => pf.2 (normalizeLDObject o) = normalizeTime (chain o pf.1))
             Time_fields
        /\ Forall (fun pf => pf.2 (normalizeLDObject o) = normalizeColorRGBA (chain o pf.1))
             ColorRGBA_fields
        /\ Forall (fun pf => pf.2 (normalizeLDObject o) = normalizePose (chain o pf.1))
             Pose_fields
        /\ Forall (fun pf => pf.2 (normalizeLDObject o) = normalizeVector3 (chain o pf.1))
             Vector3_fields
        /\ Forall (fun pf => pf.2 (normalizeLDObject o) = normalizeTwist (chain o pf.1))
             Twist_fields)
  /\ (length number_fields + length string_fields + length boolean_fields
      + length Header_fields + length Time_fields + length ColorRGBA_fields
      + length Pose_fields + length Vector3_fields + length Twist_fields = 62)%nat.
Proof.
  split; [apply normalizeLDObjectList_full|].
  split; [apply normalizeLDObjectList_full|].
  split; [done|]. split; [done|].
  split; [by destruct m as [? ? [os|]]|].
  split; [|done].
  intros o.
  repeat split; repeat (apply Forall_cons; split; [reflexivity|]); apply Forall_nil_2.
Qed.

End NormalizeLDObjectList.

Section NormalizeWitness.

Import Ros LDMsg.

Lemma normalize_idempotent_witness :
  let normalize :=
    LDMsg.normalizeLDObjectList normalizeVector3 normalizeColorRGBA normalizeHeader
      normalizePose normalizeTime normalizeTwist in
  let m : LDObjectList_ option :=
    {| list_header := None; frame_number := Some 7;
       objects := Some [None; Some (LDObject_as_partial
                                      (LDMsg.normalizeLDObject normalizeVector3
                                         normalizeColorRGBA normalizeHeader normalizePose
                                         normalizeTime normalizeTwist None))] |} in
  normalize (LDObjectList_as_partial (normalize m)) = normalize m
  /\ length (objects (normalize m)) = 2%nat
  /\ frame_number (normalize m) = 7.
Proof.
  intros normalize m.
  pose proof (normalize_idempotent normalizeVector3 normalizeColorRGBA normalizeHeader
                normalizePose normalizeTime normalizeTwist
                normalizeVector3_full normalizeColorRGBA_full normalizeHeader_full
                normalizePose_full normalizeTime_full normalizeTwist_full m) as (H & _).
  split; [exact H|]. split; reflexivity.
Defined.

End NormalizeWitness.


(** ** [LDObjectListRenderable] *)

Section LDListFacts.

Import Ros LDMsg LDList Spec.

Context {Rgb : Type} (stringToRgb : Rgb -> string -> Rgb).

Lemma acquire_spec (p : @LabelPool Rgb) (h : Heap) :
  exists l p' h',
    acquire p h = (l, p', h')
    /\ release_log p' = release_log p
    /\ acquire_count p' = S (acquire_count p)
    /\ dispose_log h' = dispose_log h
    /\ (next_handle h <= next_handle h')%nat.
Proof.
  unfold acquire. destruct (available p) as [|l rest].
  - cbn. eexists _, _, _. split; [done|]. cbn. repeat split; lia.
  - eexists _, _, _. split; [done|]. cbn. repeat split; lia.
Qed.

Lemma label_ref_alter (f : @Label Rgb -> Label) (i : nat) (ls : list Label) :
  (forall l, label_ref (f l) = label_ref l) ->
  label_ref <$> alter f i ls = label_ref <$> ls.
Proof.
  intros Hf. revert i. induction ls as [|l ls IH]; intros [|i]; cbn; [done..| |].
  - by rewrite Hf.
  - by rewrite IH.
Qed.

(** One pass of the loop: one instance matrix written (inside the buffer),
    one label acquired. *)
Lemma update_body_spec (settings : LayerSettingsLDObjectList) (obj : LDObject) (i : nat)
    (this : @LDObjectListRenderable Rgb) (e : Renderer) :
  exists this' e' l,
    update_body stringToRgb settings obj i this e = (this', e')
    /\ same_resources this this'
    /\ instanceMatrix this' = <[i := Some (instance_matrix obj)]> (instanceMatrix this)
    /\ label_ref <$> labels this' = (label_ref <$> labels this) ++ [l]
    /\ release_log (labelPool e') = release_log (labelPool e)
    /\ acquire_count (labelPool e') = S (acquire_count (labelPool e))
    /\ dispose_log (heap e') = dispose_log (heap e)
    /\ (next_handle (heap e) <= next_handle (heap e'))%nat.
Proof.
  unfold update_body.
  destruct (acquire_spec (labelPool e) (heap e)) as (l & p' & h' & -> & Hr & Ha & Hd & Hn).
  eexists _, _, (label_ref l). split; [done|]. cbn.
  split; [by repeat split|]. split; [done|].
  split; [|done].
  rewrite label_ref_alter by done. by rewrite fmap_app.
Qed.

(** The loop of [updateLDObjectList] from index [i]. *)
Lemma update_loop_spec (settings : LayerSettingsLDObjectList) (objs : list LDObject) :
  forall (i : nat) (this : @LDObjectListRenderable Rgb) (e : Renderer),
  exists this' e' refs,
    update_loop stringToRgb settings objs i this e = ((i + length objs)%nat, this', e')
    /\ same_resources this this'
    /\ length (instanceMatrix this') = length (instanceMatrix this)
    /\ (forall k, (k < i)%nat -> instanceMatrix this' !! k = instanceMatrix this !! k)
    /\ (forall k obj, objs !! k = Some obj ->
                      (i + k < length (instanceMatrix this))%nat ->
                      instanceMatrix this' !! (i + k)%nat = Some (Some (instance_matrix obj)))
    /\ label_ref <$> labels this' = (label_ref <$> labels this) ++ refs
    /\ length refs = length objs
    /\ release_log (labelPool e') = release_log (labelPool e)
    /\ acquire_count (labelPool e') = (acquire_count (labelPool e) + length objs)%nat
    /\ dispose_log (heap e') = dispose_log (heap e)
    /\ (next_handle (heap e) <= next_handle (heap e'))%nat.
Proof.
  induction objs as [|obj objs IH]; intros i this e.
  - exists this, e, []. cbn. rewrite Nat.add_0_r, app_nil_r.
    split; [done|]. split; [by repeat split|]. repeat split; try done; lia.
  - cbn [update_loop].
    destruct (update_body_spec settings obj i this e)
      as (this1 & e1 & l & -> & Hres1 & Hm1 & Hl1 & Hr1 & Ha1 & Hd1 & Hn1).
    destruct (IH (S i) this1 e1)
      as (this' & e' & refs & -> & Hres & Hlen & Hlow & Hobj & Hl & Hrefs & Hr & Ha & Hd & Hn).
    exists this', e', (l :: refs). cbn [length].
    split; [do 2 f_equal; lia|].
    split; [unfold same_resources in *; intuition congruence|].
    split; [by rewrite Hlen, Hm1, length_insert|].
    split.
    { intros k Hk. rewrite Hlow by lia. rewrite Hm1. apply list_lookup_insert_ne. lia. }
    split.
    { intros [|k] o Ho Hk.
      - injection Ho as ->. rewrite Nat.add_0_r in *. rewrite Hlow by lia.
        rewrite Hm1. by apply list_lookup_insert_eq.
      - cbn in Ho. replace (i + S k)%nat with (S i + k)%nat by lia.
        apply Hobj; [done|]. rewrite Hm1, length_insert. lia. }
    split; [by rewrite Hl, Hl1, <- app_assoc|].
    split; [cbn; lia|].
    split; [congruence|]. split; [lia|]. split; [congruence|]. lia.
Qed.

Lemma release_log_foldl (excess : list (@Label Rgb)) (p : LabelPool) :
  release_log (foldl (fun p l => release l p) p excess)
  = release_log p ++ (label_ref <$> excess).
Proof.
  revert p. induction excess as [|l ls IH]; intros p; cbn.
  - by rewrite app_nil_r.
  - rewrite IH. cbn. by rewrite <- app_assoc.
Qed.

Lemma acquire_count_foldl (excess : list (@Label Rgb)) (p : LabelPool) :
  acquire_count (foldl (fun p l => release l p) p excess) = acquire_count p.
Proof. revert p. induction excess as [|l ls IH]; intros p; cbn; [done|]. by rewrite IH. Qed.

(** [updateLDObjectList], in full: the instance count is the number of
    objects of the message, the labels kept are the first ones of the old
    labels followed by the acquired ones, every other label is released,
    the box geometry, the mesh and the old outline geometry are disposed of
    and a new outline geometry is allocated. *)
Lemma updateLDObjectList_spec (objectList : LDObjectList)
    (originalMessage : option (LDObjectList_ option))
    (settings : LayerSettingsLDObjectList) (receiveTime : Z)
    (this : @LDObjectListRenderable Rgb) (e : Renderer) :
  exists this' e' refs,
    updateLDObjectList stringToRgb objectList originalMessage settings receiveTime this e
      = (this', e')
    /\ mesh_count this' = length (objects objectList)
    /\ instanceCount (outlineGeometry this') = Some (length (objects objectList))
    /\ mesh this' = mesh this
    /\ geometry this' = geometry this
    /\ maxInstances this' = maxInstances this
    /\ outline_geometry this' = outline_ref (outlineGeometry this')
    /\ (next_handle (heap e) <= outline_ref (outlineGeometry this'))%nat
    /\ (outline_ref (outlineGeometry this') < next_handle (heap e'))%nat
    /\ dispose_log (heap e')
       = dispose_log (heap e) ++ [geometry this; mesh this; outline_ref (outlineGeometry this)]
    /\ length (instanceMatrix this') = length (instanceMatrix this)
    /\ (forall k obj, objects objectList !! k = Some obj ->
                      (k < length (instanceMatrix this))%nat ->
                      instanceMatrix this' !! k = Some (Some (instance_matrix obj)))
    /\ length refs = length (objects objectList)
    /\ label_ref <$> labels this'
       = take (length (objects objectList)) ((label_ref <$> labels this) ++ refs)
    /\ release_log (labelPool e')
       = release_log (labelPool e)
         ++ drop (length (objects objectList)) ((label_ref <$> labels this) ++ refs)
    /\ acquire_count (labelPool e')
       = (acquire_count (labelPool e) + length (objects objectList))%nat.
Proof.
  unfold updateLDObjectList.
  match goal with |- context [update_loop stringToRgb settings ?os 0 this ?e0] =>
    destruct (update_loop_spec settings os 0 this e0)
      as (this1 & e1 & refs & -> & Hres & Hlen & _ & Hobj & Hl & Hrefs & Hr & Ha & Hd & Hn)
  end.
  destruct Hres as (Hmesh & Hmat & Hog & Hol & Hgeo & Hmax & Hsh).
  cbn [Nat.add fresh with_heap heap labelPool log_dispose next_handle dispose_log] in *.
  unfold Full in *.
  assert (Hlabels : length (labels this1)
                    = (length (labels this) + length (objects objectList))%nat).
  { pose proof (f_equal length Hl) as Hl'.
    rewrite length_app, !length_fmap in Hl'. rewrite Hl'. f_equal. exact Hrefs. }
  eexists _, _, refs. split; [reflexivity|].
  cbn [mesh_count outlineGeometry instanceCount mesh geometry maxInstances outline_geometry
       outline_ref heap next_handle dispose_log instanceMatrix labels labelPool].
  split; [done|]. split; [done|]. split; [done|]. split; [done|]. split; [done|].
  split; [done|]. split; [done|]. split; [lia|].
  split; [rewrite Hd, <- Hog, <- !app_assoc; done|].
  split; [done|].
  split; [intros k obj Ho Hk; by apply (Hobj k obj)|].
  split; [done|].
  rewrite release_log_foldl, acquire_count_foldl, Hr, Ha, <- Hl.
  case_bool_decide as Hlt.
  - rewrite fmap_take, fmap_drop. done.
  - rewrite fmap_nil, app_nil_r.
    rewrite take_ge, drop_ge by (rewrite length_fmap; lia). by rewrite app_nil_r.
Qed.

End LDListFacts.

Section InstanceCap.

Import Ros LDMsg LDList Spec.

Context {Rgb : Type} (stringToRgb : Rgb -> string -> Rgb).

(** The constructor fixes the capacity of the instance buffer at 48. *)
Lemma new_capacity (topic : string) (e : @Renderer Rgb) (userData : LDObjectListUserData) :
  maxInstances (LDList.new topic e userData).1 = 48%nat
  /\ length (instanceMatrix (LDList.new topic e userData).1) = 48%nat
  /\ mesh_count (LDList.new topic e userData).1 = 0%nat
  /\ labels (LDList.new topic e userData).1 = [].
Proof.
  unfold LDList.new, getGeometry, with_heap, fresh. cbn.
  destruct (sharedGeometry e !! _); cbn; destruct (_ !! _); cbn; done.
Qed.

(** C5 (as the code has it).  A message with more objects than the instance
    buffer holds raises nothing: [updateLDObjectList] returns.  The instance
    count of the mesh and of the outline is the number of objects of the
    message; it is not clamped to the capacity.  The buffer keeps its
    length: it holds the matrices of the first [maxInstances] objects, the
    writes for the others are dropped.  A label is kept for every object. *)
Theorem instance_count_not_clamped (objectList : LDObjectList)
    (originalMessage : option (LDObjectList_ option))
    (settings : LayerSettingsLDObjectList) (receiveTime : Z)
    (this : @LDObjectListRenderable Rgb) (e : Renderer) :
  length (instanceMatrix this) = maxInstances this ->
  (maxInstances this < length (objects objectList))%nat ->
  exists this' e',
    updateLDObjectList stringToRgb objectList originalMessage settings receiveTime this e
      = (this', e')
    /\ mesh_count this' = length (objects objectList)
    /\ instanceCount (outlineGeometry this') = Some (length (objects objectList))
    /\ (maxInstances this' < mesh_count this')%nat
    /\ maxInstances this' = maxInstances this
    /\ length (instanceMatrix this') = maxInstances this'
    /\ (forall k obj, objects objectList !! k = Some obj ->
                      (k < maxInstances this')%nat ->
                      instanceMatrix this' !! k = Some (Some (instance_matrix obj)))
    /\ (forall k, (maxInstances this' <= k)%nat -> instanceMatrix this' !! k = None)
    /\ length (labels this') = length (objects objectList).
Proof.
  intros Hcap Hmore.
  destruct (updateLDObjectList_spec stringToRgb objectList originalMessage settings
              receiveTime this e)
    as (this' & e' & refs & Hupd & Hcount & Hic & _ & _ & Hmax & _ & _ & _ & _ & Hlen
        & Hobj & Hrefs & Hl & _).
  exists this', e'. split; [done|]. split; [done|]. split; [done|].
  split; [rewrite Hcount, Hmax; done|]. split; [done|].
  split; [by rewrite Hlen, Hmax|].
  split; [intros k obj Ho Hk; apply Hobj; [done|]; rewrite Hcap, <- Hmax; done|].
  split; [intros k Hk; apply lookup_ge_None_2; rewrite Hlen, Hcap, <- Hmax; done|].
  pose proof (f_equal length Hl) as Hl'.
  rewrite length_fmap, length_take, length_app, length_fmap in Hl'.
  unfold Full in *. lia.
Qed.

End InstanceCap.

Section InstanceCapExamples.

Import Ros LDMsg LDList Spec.

Lemma instance_count_not_clamped_witness :
  exists this' e',
    after_message 49 1 example_renderable = (this', e')
    /\ mesh_count this' = 49%nat
    /\ length (instanceMatrix this') = 48%nat.
Proof.
  destruct (instance_count_not_clamped example_stringToRgb (example_message 49) None
              example_settings 1 example_renderable.1 example_renderable.2)
    as (this' & e' & H1 & H2 & _ & _ & H4 & H5 & _).
  - vm_compute. reflexivity.
  - vm_compute. lia.
  - exists this', e'. split; [exact H1|]. split; [exact H2|]. rewrite H5, H4. reflexivity.
Defined.

(** C5 as stated fails: after a message of 49 objects the instance count
    is 49, above the capacity of 48. *)
Lemma instance_count_clamped_counterexample :
  let this' := (after_message 49 1 example_renderable).1 in
  maxInstances this' = 48%nat
  /\ mesh_count this' = 49%nat
  /\ ~ (mesh_count this' <= maxInstances this')%nat.
Proof. vm_compute. split; [done|]. split; [done|]. lia. Qed.

End InstanceCapExamples.

Section LabelPoolScenario.

Import Ros LDMsg LDList Spec.

Context {Rgb : Type} (stringToRgb : Rgb -> string -> Rgb).

(** C6 (as the code has it).  A renderable processes a message of 3 objects
    and then a message of 1 object.  After the second message the mesh
    shows exactly 1 instance and the renderable holds exactly 1 label, the
    first one it held before.  The second update has acquired one label and
    has released three: the 2 excess labels of the first message, and the
    label it had just acquired. *)
Theorem three_objects_then_one (three one : LDObjectList)
    (message3 message1 : option (LDObjectList_ option))
    (settings3 settings1 : LayerSettingsLDObjectList) (time3 time1 : Z)
    (this : @LDObjectListRenderable Rgb) (e : Renderer) :
  length (objects three) = 3%nat ->
  length (objects one) = 1%nat ->
  exists this3 e3 this1 e1 kept excess1 excess2 acquired,
    updateLDObjectList stringToRgb three message3 settings3 time3 this e = (this3, e3)
    /\ updateLDObjectList stringToRgb one message1 settings1 time1 this3 e3 = (this1, e1)
    /\ mesh_count this3 = 3%nat
    /\ label_ref <$> labels this3 = [kept; excess1; excess2]
    /\ mesh_count this1 = 1%nat
    /\ instanceCount (outlineGeometry this1) = Some 1%nat
    /\ label_ref <$> labels this1 = [kept]
    /\ acquire_count (labelPool e1) = S (acquire_count (labelPool e3))
    /\ release_log (labelPool e1)
       = release_log (labelPool e3) ++ [excess1; excess2; acquired].
Proof.
  intros H3 H1.
  destruct (updateLDObjectList_spec stringToRgb three message3 settings3 time3 this e)
    as (this3 & e3 & refs3 & Hupd3 & Hcount3 & _ & _ & _ & _ & _ & _ & _ & _ & _ & _
        & Hrefs3 & Hl3 & _).
  destruct (updateLDObjectList_spec stringToRgb one message1 settings1 time1 this3 e3)
    as (this1 & e1 & refs1 & Hupd1 & Hcount1 & Hic1 & _ & _ & _ & _ & _ & _ & _ & _ & _
        & Hrefs1 & Hl1 & Hr1 & Ha1).
  unfold Full in *. rewrite H3 in *. rewrite H1 in *.
  destruct refs3 as [|a [|b [|c [|? ?]]]]; try done.
  destruct refs1 as [|f [|? ?]]; try done.
  assert (exists k x1 x2, label_ref <$> labels this3 = [k; x1; x2]) as (k & x1 & x2 & Hk).
  { rewrite Hl3. destruct (label_ref <$> labels this) as [|p [|q [|r ?]]]; cbn; eauto. }
  rewrite Hk in Hl1, Hr1. cbn in Hl1, Hr1.
  exists this3, e3, this1, e1, k, x1, x2, f.
  repeat split; try done. rewrite Ha1. lia.
Qed.

End LabelPoolScenario.

Section LabelPoolExamples.

Import Ros LDMsg LDList Spec.

Lemma three_objects_then_one_witness :
  let s3 := after_message 3 1 example_renderable in
  let s1 := after_message 1 2 s3 in
  mesh_count s1.1 = 1%nat
  /\ length (labels s1.1) = 1%nat
  /\ length (release_log (labelPool s1.2)) = (length (release_log (labelPool s3.2)) + 3)%nat.
Proof.
  intros s3 s1.
  destruct (three_objects_then_one example_stringToRgb (example_message 3) (example_message 1)
              None None example_settings example_settings 1 2
              example_renderable.1 example_renderable.2 ltac:(reflexivity) ltac:(reflexivity))
    as (this3 & e3 & this1 & e1 & k & x1 & x2 & f & Hu3 & Hu1 & _ & _ & Hc & _ & Hl & _ & Hr).
  assert (Hs3 : s3 = (this3, e3)) by exact Hu3.
  assert (Hs1 : s1 = (this1, e1)).
  { unfold s1, after_message. rewrite Hs3. exact Hu1. }
  rewrite Hs1, Hs3. cbn [fst snd].
  split; [exact Hc|]. split.
  - rewrite <- (length_fmap label_ref), Hl. reflexivity.
  - rewrite Hr, length_app. reflexivity.
Defined.

(** C6 as stated fails: the second update hands three labels back to the
    pool, not two. *)
Lemma two_labels_released_counterexample :
  let s3 := after_message 3 1 example_renderable in
  let s1 := after_message 1 2 s3 in
  release_log (labelPool s3.2) = []
  /\ release_log (labelPool s1.2) = [8; 9; 11]%nat
  /\ length (release_log (labelPool s1.2)) <> 2%nat.
Proof. vm_compute. split; [done|]. split; [done|]. lia. Qed.

End LabelPoolExamples.

(** ** Updates that change no geometry-affecting field *)

Section NoRebuild.

Import Spec.

Context {Rgb : Type} (stringToRgb : Rgb -> string -> Rgb).

(** C1 (as the code has it).
    - [RenderableCircleList.update] compares the scale objects by
      reference: a marker that carries the scale object already held leaves
      the geometries as they are, and allocates and disposes of nothing.
    - [CircleGrids._updateGrid] compares the values: settings whose
      minSize, maxSize and step equal the previous ones leave the circle
      list, and the heap, as they are.
    - [LDObjectListRenderable.updateLDObjectList] has no comparison: on
      every call the box geometry and the mesh keep their identity, and a
      new outline geometry is allocated in place of the old one. *)
Theorem no_rebuild_without_geometry_change :
  (forall (newMarker : Ros.Marker) (receiveTime : option Z)
          (c : CircleList.RenderableCircleList) (h : Heap),
      Ros.scale_ref (Ros.scale newMarker) = Ros.scale_ref (Ros.scale (CircleList.marker c)) ->
      exists c',
        CircleList.update newMarker receiveTime c h = Some (c', h)
        /\ CircleList.geometries c' = CircleList.geometries c
        /\ CircleList.circles c' = CircleList.circles c
        /\ CircleList.group c' = CircleList.group c
        /\ CircleList.marker c' = newMarker)
  /\ (forall (instanceId : string) (s : Grids.LayerConfig) (w : Grids.World)
            (r : Grids.CircleGridRenderable),
        Grids.renderables w !! instanceId = Some r ->
        Grids.minSize (Grids.spread Grids.DEFAULT_SETTINGS s) = Grids.minSize (Grids.settings r) ->
        Grids.maxSize (Grids.spread Grids.DEFAULT_SETTINGS s) = Grids.maxSize (Grids.settings r) ->
        Grids.step (Grids.spread Grids.DEFAULT_SETTINGS s) = Grids.step (Grids.settings r) ->
        exists w' r',
          Grids._updateGrid instanceId (Some s) w = Some w'
          /\ Grids.heap w' = Grids.heap w
          /\ Grids.renderables w' !! instanceId = Some r'
          /\ Grids.circleList r' = Grids.circleList r
          /\ Grids.settings r' = Grids.spread Grids.DEFAULT_SETTINGS s)
  /\ (forall (objectList : LDMsg.LDObjectList)
            (originalMessage : option (LDMsg.LDObjectList_ option))
            (settings : LDList.LayerSettingsLDObjectList) (receiveTime : Z)
            (this : @LDList.LDObjectListRenderable Rgb) (e : LDList.Renderer),
        exists this' e',
          LDList.updateLDObjectList stringToRgb objectList originalMessage settings
            receiveTime this e = (this', e')
          /\ LDList.geometry this' = LDList.geometry this
          /\ LDList.mesh this' = LDList.mesh this
          /\ (next_handle (LDList.heap e)
              <= LDList.outline_ref (LDList.outlineGeometry this'))%nat
          /\ (next_handle (LDList.heap e) < next_handle (LDList.heap e'))%nat
          /\ ((LDList.outline_ref (LDList.outlineGeometry this)
               < next_handle (LDList.heap e))%nat ->
              LDList.outline_ref (LDList.outlineGeometry this')
              <> LDList.outline_ref (LDList.outlineGeometry this))).
Proof.
  split; [|split].
  - intros newMarker receiveTime c h Href.
    rewrite update_same_scale by done. eexists. split; [done|]. done.
  - intros instanceId s w r Hr Hmin Hmax Hstep.
    rewrite (_updateGrid_sizes_unchanged instanceId s w r) by done.
    eexists _, _. split; [done|]. cbn. split; [done|].
    split; [apply lookup_insert_eq|]. done.
  - intros objectList originalMessage settings receiveTime this e.
    destruct (updateLDObjectList_spec stringToRgb objectList originalMessage settings
                receiveTime this e)
      as (this' & e' & refs & Hupd & _ & _ & Hmesh & Hgeo & _ & _ & Hge & Hlt & _).
    exists this', e'. split; [done|]. split; [done|]. split; [done|]. split; [done|].
    split; lia.
Qed.

End NoRebuild.

Section NoRebuildExamples.

Import Spec.

Lemma no_rebuild_without_geometry_change_witness :
  (exists c h c',
      CircleList.new "rings" (example_marker 0%nat 1) None example_heap = Some (c, h)
      /\ CircleList.update (example_marker 0%nat 2) None c h = Some (c', h)
      /\ CircleList.geometries c' = CircleList.geometries c)
  /\ (exists w w',
        Grids.handleAddGrid "a" empty_world = Some w
        /\ Grids._updateGrid "a" (Some (Grids.to_config Grids.DEFAULT_SETTINGS)) w = Some w'
        /\ Grids.heap w' = Grids.heap w)
  /\ (let s := after_message 3 1 example_renderable in
      let s' := after_message 3 2 s in
      LDList.geometry s'.1 = LDList.geometry s.1
      /\ LDList.outline_ref (LDList.outlineGeometry s'.1)
         <> LDList.outline_ref (LDList.outlineGeometry s.1)).
Proof.
  destruct (no_rebuild_without_geometry_change example_stringToRgb) as (Hcircle & Hgrid & Hld).
  split; [|split].
  - destruct (CircleList.new "rings" (example_marker 0%nat 1) None example_heap)
      as [[c h]|] eqn:Hnew; [|by vm_compute in Hnew].
    assert (Href : Ros.scale_ref (Ros.scale (example_marker 0%nat 2))
                   = Ros.scale_ref (Ros.scale (CircleList.marker c))).
    { vm_compute in Hnew. injection Hnew as <- <-. reflexivity. }
    destruct (Hcircle (example_marker 0%nat 2) None c h Href) as (c' & Hupd & Hg & _).
    exists c, h, c'. by repeat split.
  - destruct (Grids.handleAddGrid "a" empty_world) as [w|] eqn:Hadd;
      [|by vm_compute in Hadd].
    assert (Hr : is_Some (Grids.renderables w !! "a")).
    { vm_compute in Hadd. injection Hadd as <-. vm_compute. eauto. }
    destruct Hr as [r Hr].
    destruct (Hgrid "a" (Grids.to_config Grids.DEFAULT_SETTINGS) w r)
      as (w' & r' & Hupd & Hheap & _).
    + exact Hr.
    + vm_compute in Hadd. injection Hadd as <-. vm_compute in Hr. injection Hr as <-.
      reflexivity.
    + vm_compute in Hadd. injection Hadd as <-. vm_compute in Hr. injection Hr as <-.
      reflexivity.
    + vm_compute in Hadd. injection Hadd as <-. vm_compute in Hr. injection Hr as <-.
      reflexivity.
    + exists w, w'. split; [done|]. split; [exact Hupd|]. exact Hheap.
  - intros s s'.
    destruct (Hld (example_message 3) None example_settings 2 s.1 s.2)
      as (this' & e' & Hupd & Hgeo & _ & _ & _ & Hne).
    assert (Hs' : s' = (this', e')) by exact Hupd.
    rewrite Hs'. cbn [fst]. split; [exact Hgeo|]. apply Hne. vm_compute. lia.
Defined.

(** C1 as stated fails, for both renderables.  A marker with the same scale
    values in another scale object, differing in its time stamp, makes
    [RenderableCircleList.update] dispose of the four geometries and build
    four new ones.  The same object list received again at a later time
    makes [updateLDObjectList] replace the outline geometry. *)
Lemma no_rebuild_counterexample :
  (exists c h c' h',
      CircleList.new "rings" (example_marker 0%nat 1) None example_heap = Some (c, h)
      /\ CircleList.update (example_marker 1%nat 2) None c h = Some (c', h')
      /\ Ros.scale_val (Ros.scale (example_marker 1%nat 2))
         = Ros.scale_val (Ros.scale (example_marker 0%nat 1))
      /\ CircleList.geometry_ref <$> CircleList.geometries c = [4; 6; 8; 10]%nat
      /\ CircleList.geometry_ref <$> CircleList.geometries c' = [12; 14; 16; 18]%nat
      /\ dispose_log h' = [4; 6; 8; 10]%nat)
  /\ (let s := after_message 3 1 example_renderable in
      let s' := after_message 3 2 s in
      LDList.objectList (LDList.userData s'.1) = LDList.objectList (LDList.userData s.1)
      /\ LDList.outline_ref (LDList.outlineGeometry s.1) = 10%nat
      /\ LDList.outline_ref (LDList.outlineGeometry s'.1) = 14%nat).
Proof.
  split.
  - vm_compute. eexists _, _, _, _. repeat split; reflexivity.
  - vm_compute. repeat split; reflexivity.
Qed.

End NoRebuildExamples.

(** ** [DrawCuboidTool] *)

Section CuboidFacts.

Import Cuboid Spec.

Lemma not_elem_of_removeListener (f : Listener) (ls : list Listener) :
  f ∉ removeListener f ls.
Proof. unfold removeListener. rewrite list_elem_of_filter. naive_solver. Qed.

(** [_render] writes the meshes and the cuboid only. *)
Lemma _render_fields (t : DrawCuboidTool) :
  state (_render t) = state t
  /\ point1 (_render t) = point1 t
  /\ point2 (_render t) = point2 t
  /\ click_listeners (_render t) = click_listeners t
  /\ mousemove_listeners (_render t) = mousemove_listeners t
  /\ events (_render t) = events t
  /\ circle1 (_render t) = circle1 t
  /\ circle2 (_render t) = circle2 t.
Proof. unfold _render. destruct (point1 t), (point2 t); done. Qed.

Lemma _setState_idle (t : DrawCuboidTool) :
  state (_setState idle t) = idle
  /\ point1 (_setState idle t) = point1 t
  /\ point2 (_setState idle t) = point2 t
  /\ click_listeners (_setState idle t) = removeListener handleClick (click_listeners t)
  /\ mousemove_listeners (_setState idle t)
     = removeListener handleMouseMove (mousemove_listeners t)
  /\ events (_setState idle t) = events t ++ [cuboid_end].
Proof.
  unfold _setState.
  destruct (_render_fields (assign idle (point1 t) (point2 t) (point1NeedsUpdate t)
                              (point2NeedsUpdate t)
                              (removeListener handleClick (click_listeners t))
                              (removeListener handleMouseMove (mousemove_listeners t))
                              (events t ++ [cuboid_end]) t))
    as (-> & -> & -> & -> & -> & -> & _).
  done.
Qed.

(** C8 (as the code has it).  [stopDrawing()] from any state returns to
    idle, clears both points and leaves neither handler registered.  The
    completing click in place-second-point returns to idle, emits the end
    event and leaves neither handler registered; it keeps both points, the
    first point and the clicked one, as the corners of the cuboid it has
    drawn.  Listeners of other extensions stay registered. *)
Theorem leaving_placement_state :
  (forall t : DrawCuboidTool,
      state (stopDrawing t) = idle
      /\ point1 (stopDrawing t) = None
      /\ point2 (stopDrawing t) = None
      /\ (handleClick ∉ click_listeners (stopDrawing t))
      /\ (handleMouseMove ∉ mousemove_listeners (stopDrawing t))
      /\ (forall n, foreign n ∈ click_listeners t ->
                    foreign n ∈ click_listeners (stopDrawing t)))
  /\ (forall (t : DrawCuboidTool) (w : Ros.Vector3),
        state t = place_second_point ->
        state (_handleClick (Some w) t) = idle
        /\ (handleClick ∉ click_listeners (_handleClick (Some w) t))
        /\ (handleMouseMove ∉ mousemove_listeners (_handleClick (Some w) t))
        /\ events (_handleClick (Some w) t) = events t ++ [cuboid_end]
        /\ point1 (_handleClick (Some w) t) = point1 t
        /\ point2 (_handleClick (Some w) t) = Some w).
Proof.
  split.
  - intros t. unfold stopDrawing. cbn [assign state point1 point2 click_listeners
                                        mousemove_listeners].
    destruct (_setState_idle t) as (-> & _ & _ & -> & -> & _).
    split; [done|]. split; [done|]. split; [done|].
    split; [apply not_elem_of_removeListener|].
    split; [apply not_elem_of_removeListener|].
    intros n Hn. unfold removeListener. rewrite list_elem_of_filter. done.
  - intros t w Hstate. unfold _handleClick. rewrite Hstate.
    match goal with |- context [_render (_setState idle ?t1)] =>
      destruct (_render_fields (_setState idle t1)) as (-> & -> & -> & -> & -> & -> & _);
      destruct (_setState_idle t1) as (-> & -> & -> & -> & -> & ->)
    end.
    cbn [assign click_listeners mousemove_listeners events point1 point2].
    split; [done|].
    split; [apply not_elem_of_removeListener|].
    split; [apply not_elem_of_removeListener|]. done.
Qed.

Lemma leaving_placement_state_witness :
  let t := reacts [StartDrawing; Click (Some corner1)] (Cuboid.new [] []) in
  state (_handleClick (Some corner2) t) = idle
  /\ click_listeners (_handleClick (Some corner2) t) = []
  /\ point2 (_handleClick (Some corner2) t) = Some corner2.
Proof.
  intros t.
  destruct (proj2 leaving_placement_state t corner2 ltac:(reflexivity))
    as (H1 & _ & _ & _ & _ & H6).
  split; [exact H1|]. split; [reflexivity|exact H6].
Defined.

(** C8 as stated fails on the completing click: the tool is back in idle
    with no handler registered, and still holds both points. *)
Lemma points_cleared_counterexample :
  state cuboid_drawn = idle
  /\ click_listeners cuboid_drawn = [foreign 0]
  /\ mousemove_listeners cuboid_drawn = [foreign 0]
  /\ point1 cuboid_drawn = Some corner1
  /\ point2 cuboid_drawn = Some corner2.
Proof. vm_compute. done. Qed.

Lemma visible_set_mesh_eq (o : handle) (b : bool) (p : option Ros.Vector3)
    (objs : gmap handle Mesh) :
  mesh_visible <$> set_mesh o b p objs !! o = (fun _ => b) <$> objs !! o.
Proof. unfold set_mesh. rewrite lookup_alter_eq. by destruct (objs !! o). Qed.

Lemma visible_set_mesh_ne (o o' : handle) (b : bool) (p : option Ros.Vector3)
    (objs : gmap handle Mesh) :
  o <> o' -> set_mesh o b p objs !! o' = objs !! o'.
Proof. intros Hne. unfold set_mesh. by rewrite lookup_alter_ne. Qed.

(** Whatever happens to the tool, its two anchor circles are two meshes. *)
Lemma _setState_circles (st : DrawCuboidState) (t : DrawCuboidTool) :
  circle1 (_setState st t) = circle1 t /\ circle2 (_setState st t) = circle2 t.
Proof.
  unfold _setState.
  match goal with |- context [_render ?t1] =>
    destruct (_render_fields t1) as (_ & _ & _ & _ & _ & _ & -> & ->)
  end.
  by destruct st.
Qed.

Lemma _handleClick_circles (w : option Ros.Vector3) (t : DrawCuboidTool) :
  circle1 (_handleClick w t) = circle1 t /\ circle2 (_handleClick w t) = circle2 t.
Proof.
  unfold _handleClick. destruct w as [w|]; [|done].
  match goal with |- context [_render ?t1] =>
    destruct (_render_fields t1) as (_ & _ & _ & _ & _ & _ & -> & ->)
  end.
  destruct (state t); [done| |];
    match goal with |- context [_setState ?st ?t1] =>
      destruct (_setState_circles st t1) as [-> ->]
    end; done.
Qed.

Lemma _handleMouseMove_circles (w : option Ros.Vector3) (t : DrawCuboidTool) :
  circle1 (_handleMouseMove w t) = circle1 t /\ circle2 (_handleMouseMove w t) = circle2 t.
Proof.
  unfold _handleMouseMove. destruct w as [w|]; [|done].
  match goal with |- context [_render ?t1] =>
    destruct (_render_fields t1) as (_ & _ & _ & _ & _ & _ & -> & ->)
  end.
  by destruct (state t).
Qed.

Lemma react_circles_distinct (s : Stimulus) (t : DrawCuboidTool) :
  circle2 t = S (circle1 t) -> circle2 (react s t) = S (circle1 (react s t)).
Proof.
  intros Ht. destruct s as [| |w|w]; cbn [react].
  - done.
  - unfold stopDrawing. cbn [assign circle1 circle2].
    by destruct (_setState_circles idle t) as [-> ->].
  - induction (registrations handleClick (click_listeners t)) as [|n IH]; [done|].
    rewrite Nat.iter_succ.
    by destruct (_handleClick_circles w (Nat.iter n (_handleClick w) t)) as [-> ->].
  - induction (registrations handleMouseMove (mousemove_listeners t)) as [|n IH]; [done|].
    rewrite Nat.iter_succ.
    by destruct (_handleMouseMove_circles w (Nat.iter n (_handleMouseMove w) t)) as [-> ->].
Qed.

Lemma reachable_circles_distinct (ss : list Stimulus) (clicks moves : list Listener) :
  circle1 (reacts ss (Cuboid.new clicks moves)) <> circle2 (reacts ss (Cuboid.new clicks moves)).
Proof.
  assert (H : circle2 (reacts ss (Cuboid.new clicks moves))
              = S (circle1 (reacts ss (Cuboid.new clicks moves)))); [|lia].
  unfold reacts. induction ss as [|s ss IH] using rev_ind.
  - cbn [foldl]. unfold Cuboid.new. cbv zeta.
    match goal with |- context [_setState idle ?t0] =>
      destruct (_setState_circles idle t0) as [-> ->]
    end.
    done.
  - rewrite foldl_snoc. by apply react_circles_distinct.
Qed.

(** C9 (as the code has it).  After a [_render] pass the anchor circle of a
    missing point is not visible and the anchor circle of a present point
    (when the mesh exists) is; the points are left as they were.  With both
    points present the cuboid and its occluded twin are made visible on the
    box of the two points; with a point missing their visibility is left as
    it was: [_render] never hides the cuboid. *)
Theorem render_preview (t : DrawCuboidTool) :
  circle1 t <> circle2 t ->
  (point1 t = None -> visible (circle1 t) (_render t) = false)
  /\ (point2 t = None -> visible (circle2 t) (_render t) = false)
  /\ (is_Some (point1 t) -> is_Some (objects t !! circle1 t) ->
      visible (circle1 t) (_render t) = true)
  /\ (is_Some (point2 t) -> is_Some (objects t !! circle2 t) ->
      visible (circle2 t) (_render t) = true)
  /\ (forall p1 p2, point1 t = Some p1 -> point2 t = Some p2 ->
        cuboid_visible (_render t) = true
        /\ cuboidOccluded_visible (_render t) = true
        /\ cuboid_position (_render t) = _createBox p1 p2
        /\ cuboidOccluded_position (_render t) = _createBox p1 p2)
  /\ (point1 t = None \/ point2 t = None ->
      cuboid_visible (_render t) = cuboid_visible t
      /\ cuboidOccluded_visible (_render t) = cuboidOccluded_visible t
      /\ cuboid_position (_render t) = cuboid_position t).
Proof.
  intros Hne. unfold visible, _render.
  assert (Hv1 : forall b1 b2 q1 q2,
             mesh_visible <$> set_mesh (circle2 t) b2 q2
                                (set_mesh (circle1 t) b1 q1 (objects t)) !! circle1 t
             = (fun _ => b1) <$> objects t !! circle1 t).
  { intros. rewrite visible_set_mesh_ne by done. apply visible_set_mesh_eq. }
  assert (Hv2 : forall b1 b2 q1 q2,
             mesh_visible <$> set_mesh (circle2 t) b2 q2
                                (set_mesh (circle1 t) b1 q1 (objects t)) !! circle2 t
             = (fun _ => b2) <$> objects t !! circle2 t).
  { intros. rewrite visible_set_mesh_eq. by rewrite visible_set_mesh_ne. }
  repeat split.
  - intros H1. rewrite H1. destruct (point2 t); cbn [objects];
      match goal with |- match ?m with _ => _ end = _ =>
        assert (Hm : mesh_visible <$> m = (fun _ => false) <$> objects t !! circle1 t)
          by apply Hv1;
        destruct m; destruct (objects t !! circle1 t); cbn in Hm; congruence
      end.
  - intros H2. rewrite H2. destruct (point1 t); cbn [objects];
      match goal with |- match ?m with _ => _ end = _ =>
        assert (Hm : mesh_visible <$> m = (fun _ => false) <$> objects t !! circle2 t)
          by apply Hv2;
        destruct m; destruct (objects t !! circle2 t); cbn in Hm; congruence
      end.
  - intros [p1 H1] [m1 Hm1]. rewrite H1. destruct (point2 t); cbn [objects];
      match goal with |- match ?m with _ => _ end = _ =>
        assert (Hm : mesh_visible <$> m = (fun _ => true) <$> objects t !! circle1 t)
          by apply Hv1;
        rewrite Hm1 in Hm; destruct m; cbn in Hm; congruence
      end.
  - intros [p2 H2] [m2 Hm2]. rewrite H2. destruct (point1 t); cbn [objects];
      match goal with |- match ?m with _ => _ end = _ =>
        assert (Hm : mesh_visible <$> m = (fun _ => true) <$> objects t !! circle2 t)
          by apply Hv2;
        rewrite Hm2 in Hm; destruct m; cbn in Hm; congruence
      end.
  - by rewrite H, H0.
  - by rewrite H, H0.
  - by rewrite H, H0.
  - by rewrite H, H0.
  - destruct H as [H|H]; rewrite H; by destruct (point1 t), (point2 t).
  - destruct H as [H|H]; rewrite H; by destruct (point1 t), (point2 t).
  - destruct H as [H|H]; rewrite H; by destruct (point1 t), (point2 t).
Qed.

Lemma render_preview_witness :
  let t := stopDrawing cuboid_drawn in
  visible (circle1 t) (_render t) = false
  /\ visible (circle2 t) (_render t) = false
  /\ cuboid_visible (_render t) = cuboid_visible t.
Proof.
  intros t.
  destruct (render_preview t ltac:(vm_compute; lia)) as (H1 & H2 & _ & _ & _ & H6).
  split; [apply H1; reflexivity|]. split; [apply H2; reflexivity|].
  apply H6. left. reflexivity.
Defined.

(** C9 as stated fails for the cuboid: once a cuboid has been drawn and the
    tool stopped, no point is present, and a [_render] pass leaves the
    cuboid and its occluded twin visible. *)
Lemma preview_hidden_counterexample :
  let t := stopDrawing cuboid_drawn in
  point1 t = None
  /\ point2 t = None
  /\ cuboid_visible (_render t) = true
  /\ cuboidOccluded_visible (_render t) = true
  /\ cuboid_visible (startDrawing t) = true.
Proof. vm_compute. done. Qed.

End CuboidFacts.

(** ** More on [_range] *)

Section RangeFurther.

Import CircleList Spec Ref.









(** X3.  A step of 0.  When [start <= stop], [_range] returns the empty
    list.  When [stop < start] the guard of [_range] lets the call through
    and its loop never ends: [_range] has no result, and the loop gives
    none with any amount of fuel, whatever it has collected so far. *)
Theorem range_zero_step (start stop : Z) :
  (start <= stop -> _range start (Some stop) (Some 0) = Some [])
  /\ (stop < start ->
      _range start (Some stop) (Some 0) = None
      /\ forall fuel result, _range_loop fuel start stop 0 result = None).
Proof.
  split.
  - intros Hle. unfold _range. cbn [default from_option id andb orb Z.ltb Z.compare].
    cbn. unfold range_fuel. cbn [_range_loop]. cbn.
    replace (stop <? start) with false by (symmetry; apply Z.ltb_ge; lia). done.
  - intros Hlt. split.
    + apply _range_None_iff. done.
    + intros fuel result. by apply _range_loop_diverges.
Qed.

Lemma range_zero_step_witness :
  _range 30 (Some 100) (Some 0) = Some [] /\ _range 100 (Some 30) (Some 0) = None.
Proof.
  destruct (range_zero_step 30 100) as [H1 _].
  destruct (range_zero_step 100 30) as [_ H2].
  split; [apply H1; lia|apply H2; lia].
Defined.

End RangeFurther.

(** ** The structure of a circle list *)

Section CircleListStructure.

Import Ros CircleList Spec Ref.

Lemma add_child_fresh (l : list handle) (o : handle) : o ∉ l -> add_child l o = l ++ [o].
Proof.
  intros Ho. unfold add_child. f_equal.
  induction l as [|a l IH]; [done|].
  apply not_elem_of_cons in Ho as [Hne Ho]. rewrite filter_cons.
  rewrite decide_True by congruence. f_equal. by apply IH.
Qed.

(** Adding again, one by one, objects that are children already rotates
    them to the end. *)
Lemma foldl_add_child_rotate (l1 : list handle) :
  forall l2, NoDup (l1 ++ l2) -> foldl add_child (l1 ++ l2) l1 = l2 ++ l1.
Proof.
  induction l1 as [|a l1 IH]; intros l2 Hnd; [by rewrite app_nil_r|].
  cbn [foldl app]. cbn [app] in Hnd. apply NoDup_cons in Hnd as [Ha Hnd].
  assert (Hadd : add_child (a :: l1 ++ l2) a = l1 ++ (l2 ++ [a])).
  { unfold add_child. rewrite filter_cons, decide_False by (intros H; by apply H).
    rewrite (app_assoc l1). f_equal.
    clear -Ha. induction (l1 ++ l2) as [|b l IH]; [done|].
    apply not_elem_of_cons in Ha as [Hne Ha]. rewrite filter_cons.
    rewrite decide_True by congruence. f_equal. by apply IH. }
  rewrite Hadd, IH.
  - by rewrite <- app_assoc.
  - rewrite app_assoc. apply NoDup_app. split; [done|].
    split; [|apply NoDup_singleton].
    intros x Hx ->%list_elem_of_singleton. done.
Qed.

Lemma foldl_add_child_all (l : list handle) (o : handle) :
  NoDup l -> o ∉ l -> foldl add_child l (l ++ [o]) = l ++ [o].
Proof.
  intros Hnd Ho. rewrite foldl_snoc.
  pose proof (foldl_add_child_rotate l []) as Hrot. rewrite !app_nil_r in Hrot.
  rewrite Hrot by done. cbn. by apply add_child_fresh.
Qed.

Lemma _setCircles_loop_wf (radiuses : list Z) :
  forall c h c' h',
    _setCircles_loop radiuses c h = Some (c', h') ->
    loop_inv c h -> loop_inv c' h' /\ material c' = material c /\ children c' = children c.
Proof.
  induction radiuses as [|r rs IH]; intros c h c' h' Hloop Hinv.
  - cbn in Hloop. unfold ret in Hloop. by injection Hloop as <- <-.
  - cbn [_setCircles_loop] in Hloop. unfold bind at 1 in Hloop.
    unfold _setCircles_body, bind, alloc, fresh, ret in Hloop.
    cbn [next_handle dispose_log] in Hloop.
    apply IH in Hloop as (Hinv' & Hm & Hc); [by cbn in Hm, Hc|].
    destruct Hinv as ((Hlg & Hmat & Hgeo & Hgrp & Hnd1 & Hnd2) & Hlt1 & Hlt2).
    unfold loop_inv, circles_wf.
    cbn [set_lists circles geometries group material next_handle].
    rewrite !fmap_app. cbn [fmap list_fmap line_ref line_geometry geometry_ref].
    assert (Hfresh1 : S (next_handle h) ∉ line_ref <$> circles c).
    { intros Hin. rewrite Forall_forall in Hlt1. apply Hlt1 in Hin. lia. }
    assert (Hfresh2 : next_handle h ∉ geometry_ref <$> geometries c).
    { intros Hin. rewrite Forall_forall in Hlt2. apply Hlt2 in Hin. lia. }
    split; [split; [by rewrite Hlg|]|].
    + split.
      { apply Forall_app. split; [done|]. by apply Forall_singleton. }
      split.
      { apply Forall_app. split; [done|]. by apply Forall_singleton. }
      split.
      { rewrite Hgrp. by apply foldl_add_child_all. }
      split.
      { apply NoDup_app. split; [done|]. split; [|apply NoDup_singleton].
        intros x Hx ->%list_elem_of_singleton. done. }
      apply NoDup_app. split; [done|]. split; [|apply NoDup_singleton].
      intros x Hx ->%list_elem_of_singleton. done.
    + split; apply Forall_app; split;
        try (eapply Forall_impl; [eassumption|]; cbn; lia); apply Forall_singleton; lia.
Qed.

Lemma loop_inv_empty (c : RenderableCircleList) (h : Heap) :
  loop_inv (set_lists c [] [] []) h.
Proof. unfold loop_inv, circles_wf. cbn. repeat split; constructor. Qed.

(** X4.  A circle list is consistent after its constructor and after every
    [update] with a new scale object: the i-th line loop draws the i-th
    geometry with the one material of the list, every geometry is a circle
    of 32 divisions around the origin, the group holds every line loop
    exactly once and in order (although [_setCircles] adds all the loops
    made so far again at every step), and no geometry or line loop occurs
    twice.  The constructor leaves the group as the only child; [update]
    keeps the children and the material. *)
Theorem circle_list_structure :
  (forall topic marker receiveTime h c h',
      CircleList.new topic marker receiveTime h = Some (c, h') ->
      circles_wf c /\ children c = [next_handle h] /\ material c = S (next_handle h))
  /\ (forall newMarker receiveTime c0 h c h',
        scale_ref (scale newMarker) <> scale_ref (scale (marker c0)) ->
        update newMarker receiveTime c0 h = Some (c, h') ->
        circles_wf c /\ children c = children c0 /\ material c = material c0).
Proof.
  split.
  - intros topic mk rt h c h' Hnew. unfold CircleList.new in Hnew.
    unfold bind at 1 in Hnew. unfold alloc at 1, fresh in Hnew.
    unfold bind at 1 in Hnew. unfold alloc at 1, fresh in Hnew.
    cbn [next_handle dispose_log] in Hnew.
    unfold bind at 1 in Hnew.
    match type of Hnew with context [_setCircles ?a ?b ?s ?c0 ?h0] =>
      destruct (_setCircles a b s c0 h0) as [[c1 h1]|] eqn:Hset; [|done]
    end.
    unfold ret in Hnew. injection Hnew as <- <-.
    unfold _setCircles, bind, lift in Hset.
    destruct (_range _ _ _) as [rs|]; [|done].
    apply _setCircles_loop_wf in Hset as ((Hwf & _) & Hm & Hc).
    + cbn in Hm, Hc. unfold circles_wf in *. cbn. rewrite Hc, Hm.
      rewrite Hm in Hwf. done.
    + apply (loop_inv_empty (RenderableMarker_new topic mk rt (S (next_handle h)))).
  - intros mk rt c0 h c h' Hne Hupd.
    rewrite update_other_scale in Hupd by done.
    unfold _setCircles, bind, lift in Hupd.
    destruct (_range _ _ _) as [rs|]; [|done].
    apply _setCircles_loop_wf in Hupd as ((Hwf & _) & Hm & Hc).
    + cbn in Hm, Hc. done.
    + apply loop_inv_empty.
Qed.

Lemma circle_list_structure_witness :
  exists c h',
    CircleList.new "rings" (example_marker 0%nat 0) None example_heap = Some (c, h')
    /\ group c = [5; 7; 9; 11]%nat
    /\ line_geometry <$> circles c = geometry_ref <$> geometries c.
Proof.
  destruct (CircleList.new "rings" (example_marker 0%nat 0) None example_heap)
    as [[c h']|] eqn:Hnew; [|by vm_compute in Hnew].
  exists c, h'. split; [done|].
  destruct (proj1 circle_list_structure _ _ _ _ _ _ Hnew) as ((Hlg & _) & _).
  split; [|exact Hlg].
  vm_compute in Hnew. injection Hnew as <- <-. reflexivity.
Defined.

End CircleListStructure.

(** ** The ways [_updateGrid] returns *)

Section GridCases.

Import Grids Spec Ref.

(** The handle of a renderable that [_createRenderable] makes is allocated
    by the call. *)
Lemma _createRenderable_ref (instanceId : string) (s : LayerSettingsCircleGrid)
    (w w' : World) (r : CircleGridRenderable) :
  _createRenderable instanceId s w = Some (r, w') ->
  (next_handle (heap w) <= renderable_ref r < next_handle (heap w'))%nat.
Proof.
  intros Hc.
  destruct (CircleList._range (minSize s) (Some (maxSize s)) (Some (step s)))
    as [rs|] eqn:Hrange.
  - unfold _createRenderable in Hc.
    destruct (createMarker_spec s (heap w)) as (m & Hm & Href & Hx & Hy & Hz).
    rewrite <- Hx, <- Hy, <- Hz in Hrange.
    destruct (new_spec (instanceId +:+ ":CIRCLE_LIST") m None
                {| next_handle := S (next_handle (heap w));
                   dispose_log := dispose_log (heap w) |} rs Hrange)
      as (c & Hnew & _).
    cbn [next_handle dispose_log] in Hnew.
    erewrite on_heap_Some in Hc; cycle 1.
    { unfold bind at 1. rewrite Hm. unfold bind at 1. rewrite Hnew.
      unfold bind, alloc, fresh, ret. cbn [next_handle dispose_log]. reflexivity. }
    cbn [mbind option_bind] in Hc. injection Hc as <- <-. cbn. lia.
  - unfold _createRenderable in Hc.
    destruct (on_heap _ w) as [[r1 w1]|] eqn:Hon; [|done].
    apply on_heap_inv in Hon as (h & Hm' & _).
    destruct (createMarker_spec s (heap w)) as (m & Hm & Href & Hx & Hy & Hz).
    rewrite <- Hx, <- Hy, <- Hz in Hrange.
    unfold bind at 1 in Hm'. rewrite Hm in Hm'. unfold bind at 1 in Hm'.
    by rewrite new_None in Hm'.
Qed.

(** The five ways in which [_updateGrid] returns. *)
Lemma _updateGrid_cases (instanceId : string) (s : option LayerConfig) (w w' : World) :
  _updateGrid instanceId s w = Some w' ->
  resources_ok w ->
  (s = None /\ renderables w !! instanceId = None /\ w' = w)
  \/ (exists r,
        s = None /\ renderables w !! instanceId = Some r
        /\ w' = with_renderables (delete instanceId (renderables w))
                  (with_children (remove_child (children w) (renderable_ref r))
                     (with_heap {| next_handle := next_handle (heap w);
                                   dispose_log := dispose_log (heap w)
                                                  ++ disposal (circleList r) |} w)))
  \/ (exists e r,
        s = Some e /\ renderables w !! instanceId = Some r
        /\ minSize (spread DEFAULT_SETTINGS e) = minSize (settings r)
        /\ maxSize (spread DEFAULT_SETTINGS e) = maxSize (settings r)
        /\ step (spread DEFAULT_SETTINGS e) = step (settings r)
        /\ w' = with_renderables
                  (<[instanceId := with_settings (spread DEFAULT_SETTINGS e) r]>
                     (renderables w)) w)
  \/ (exists e r c rs,
        s = Some e /\ renderables w !! instanceId = Some r
        /\ CircleList._range (minSize (spread DEFAULT_SETTINGS e))
             (Some (maxSize (spread DEFAULT_SETTINGS e)))
             (Some (step (spread DEFAULT_SETTINGS e))) = Some rs
        /\ w' = with_renderables
                  (<[instanceId := with_circleList c
                                     (with_settings (spread DEFAULT_SETTINGS e) r)]>
                     (renderables w))
                  (with_heap
                     {| next_handle := (next_handle (heap w) + 1 + 2 * length rs)%nat;
                        dispose_log := dispose_log (heap w)
                                       ++ (CircleList.geometry_ref
                                             <$> CircleList.geometries (circleList r)) |} w)
        /\ CircleList.radius <$> CircleList.geometries c = rs
        /\ CircleList.geometry_ref <$> CircleList.geometries c =
             (fun k => next_handle (heap w) + 1 + 2 * k)%nat <$> seq 0 (length rs)
        /\ CircleList.material c = CircleList.material (circleList r))
  \/ (exists e r rs,
        s = Some e /\ renderables w !! instanceId = None
        /\ CircleList._range (minSize (spread DEFAULT_SETTINGS e))
             (Some (maxSize (spread DEFAULT_SETTINGS e)))
             (Some (step (spread DEFAULT_SETTINGS e))) = Some rs
        /\ w' = with_renderables (<[instanceId := r]> (renderables w))
                  (with_children (add_child (children w) (renderable_ref r))
                     (with_heap
                        {| next_handle := (next_handle (heap w) + 4 + 2 * length rs)%nat;
                           dispose_log := dispose_log (heap w) |} w))
        /\ settings r = spread DEFAULT_SETTINGS e
        /\ CircleList.radius <$> CircleList.geometries (circleList r) = rs
        /\ CircleList.geometry_ref <$> CircleList.geometries (circleList r) =
             (fun k => next_handle (heap w) + 3 + 2 * k)%nat <$> seq 0 (length rs)
        /\ CircleList.material (circleList r) = (next_handle (heap w) + 2)%nat
        /\ (next_handle (heap w) <= renderable_ref r
            < next_handle (heap w) + 4 + 2 * length rs)%nat).
Proof.
  intros Hu Hok. destruct s as [e|].
  - destruct (renderables w !! instanceId) as [r|] eqn:Hr.
    + destruct ((minSize (spread DEFAULT_SETTINGS e) =? minSize (settings r))
                && (maxSize (spread DEFAULT_SETTINGS e) =? maxSize (settings r))
                && (step (spread DEFAULT_SETTINGS e) =? step (settings r))) eqn:Heq.
      * apply andb_prop in Heq as [[Hmin%Z.eqb_eq Hmax%Z.eqb_eq]%andb_prop Hstep%Z.eqb_eq].
        rewrite (_updateGrid_sizes_unchanged instanceId e w r) in Hu by done.
        injection Hu as <-. right. right. left. by exists e, r.
      * destruct Hok as (Hlog & Hown & Hdisj). destruct (Hown _ _ Hr) as (Hnd & Hx & Hsc).
        destruct (CircleList._range (minSize (spread DEFAULT_SETTINGS e))
                    (Some (maxSize (spread DEFAULT_SETTINGS e)))
                    (Some (step (spread DEFAULT_SETTINGS e)))) as [rs|] eqn:Hrange;
          [|rewrite (_updateGrid_rebuild_None instanceId e w r) in Hu; [done..|lia|done]].
        destruct (_updateGrid_rebuild instanceId e w r rs Hr Heq ltac:(lia) Hrange)
          as (c & Hupd & Hrad & Hrefs & Hmat & Hscale).
        rewrite Hupd in Hu. injection Hu as <-.
        right. right. right. left. by exists e, r, c, rs.
    + destruct (CircleList._range (minSize (spread DEFAULT_SETTINGS e))
                  (Some (maxSize (spread DEFAULT_SETTINGS e)))
                  (Some (step (spread DEFAULT_SETTINGS e)))) as [rs|] eqn:Hrange;
        [|by rewrite (_updateGrid_create_None instanceId e w) in Hu].
      destruct (_updateGrid_create instanceId e w rs Hr Hrange)
        as (r & Hupd & Hs & Hrad & Hrefs & Hmat & Hscale).
      assert (Href : (next_handle (heap w) <= renderable_ref r
                      < next_handle (heap w) + 4 + 2 * length rs)%nat).
      { pose proof Hupd as Hw1. unfold _updateGrid in Hw1. rewrite Hr in Hw1.
        destruct (_createRenderable instanceId (spread DEFAULT_SETTINGS e) w)
          as [[r1 w1]|] eqn:Hc; [|done].
        pose proof (_createRenderable_ref _ _ _ _ _ Hc) as Href.
        pose proof (_createRenderable_inv _ _ _ _ _ Hc) as (_ & _ & Hs1 & _).
        cbn [mbind option_bind] in Hw1. rewrite Hs1, !Z.eqb_refl in Hw1.
        cbn [andb negb] in Hw1. apply (inj Some) in Hw1.
        assert (Hr1 : with_settings (spread DEFAULT_SETTINGS e) r1 = r).
        { apply (f_equal (fun w => renderables w !! instanceId)) in Hw1.
          cbn in Hw1. rewrite !lookup_insert_eq in Hw1. by injection Hw1. }
        apply (f_equal (fun w => next_handle (heap w))) in Hw1. cbn in Hw1.
        rewrite <- Hr1. cbn. lia. }
      rewrite Hupd in Hu. injection Hu as <-.
      right. right. right. right. by exists e, r, rs.
  - destruct (renderables w !! instanceId) as [r|] eqn:Hr.
    + rewrite (_updateGrid_delete _ _ r Hr) in Hu. injection Hu as <-.
      right. left. by exists r.
    + rewrite _updateGrid_delete_absent in Hu by done. injection Hu as <-. by left.
Qed.

End GridCases.

(** ** Invariants of the circle-grid extension *)

Section GridInvariants.

Import Grids Spec Ref.

(** *** How an invariant goes through the handlers and the loops *)

Section Keeps.

Variable P : World -> Prop.

Hypothesis P_updateGrid :
  forall i e w w',
    config_layers w !! i = Some e -> _updateGrid i (Some e) w = Some w' -> P w -> P w'.
Hypothesis P_perform : forall a w w', perform a w = Some w' -> P w -> P w'.

Lemma run_keeps (acts : list UserAction) :
  forall w w', run acts w = Some w' -> P w -> P w'.
Proof.
  induction acts as [|a acts IH]; intros w w' Hrun HP.
  - by injection Hrun as <-.
  - cbn [run] in Hrun. destruct (perform a w) as [w1|] eqn:Hw1; [|done].
    cbn [mbind option_bind] in Hrun. apply (IH w1 w' Hrun). by eapply P_perform.
Qed.

Lemma settingsNodes_fold_keeps (l : list (string * LayerConfig)) :
  forall es w es' w',
    (forall kv, kv ∈ l -> config_layers w !! kv.1 = Some kv.2) ->
    foldl settingsNodes_body (Some (es, w)) l = Some (es', w') ->
    P w -> P w'.
Proof.
  induction l as [|[k e] l IH]; intros es w es' w' Hl Hf HP.
  - cbn in Hf. by injection Hf as <- <-.
  - cbn [foldl] in Hf. unfold settingsNodes_body at 2 in Hf. cbn [mbind option_bind] in Hf.
    assert (Hl' : forall kv, kv ∈ l -> config_layers w !! kv.1 = Some kv.2).
    { intros kv Hin. apply Hl. by right. }
    destruct (negb (is_grid e)); [by eapply IH|].
    destruct (renderables w !! k); [by eapply IH|].
    destruct (_updateGrid k (Some e) w) as [w1|] eqn:Hu; cbn [mbind option_bind] in Hf;
      [|by rewrite settingsNodes_fold_None in Hf].
    pose proof (_updateGrid_Some_inv _ _ _ _ Hu) as (Hc & _).
    eapply IH; [|exact Hf|].
    + intros kv Hin. rewrite Hc. by apply Hl'.
    + eapply P_updateGrid; [|exact Hu|exact HP]. apply (Hl (k, e)). by left.
Qed.

Lemma settingsNodes_keeps (w w' : World) (es : list SettingsTreeEntry) :
  settingsNodes w = Some (es, w') -> P w -> P w'.
Proof.
  apply settingsNodes_fold_keeps. intros [k e] Hin. by apply elem_of_map_to_list.
Qed.

Lemma load_fold_keeps (l : list (string * LayerConfig)) :
  forall w w',
    (forall kv, kv ∈ l -> config_layers w !! kv.1 = Some kv.2) ->
    foldl load_entry (Some w) l = Some w' -> P w -> P w'.
Proof.
  induction l as [|[k e] l IH]; intros w w' Hl Hf HP.
  - cbn in Hf. by injection Hf as <-.
  - cbn [foldl] in Hf. unfold load_entry at 2 in Hf. cbn [mbind option_bind fst snd] in Hf.
    assert (Hl' : forall kv, kv ∈ l -> config_layers w !! kv.1 = Some kv.2).
    { intros kv Hin. apply Hl. by right. }
    destruct (is_grid e); [|by eapply IH].
    destruct (_updateGrid k (Some e) w) as [w1|] eqn:Hu;
      [|by rewrite load_fold_None in Hf].
    pose proof (_updateGrid_Some_inv _ _ _ _ Hu) as (Hc & _).
    eapply IH; [|exact Hf|].
    + intros kv Hin. rewrite Hc. by apply Hl'.
    + eapply P_updateGrid; [|exact Hu|exact HP]. apply (Hl (k, e)). by left.
Qed.

Lemma constructor_keeps (h : Heap) (layers : gmap string LayerConfig) (w0 : World) :
  Grids.new h layers = Some w0 ->
  P {| heap := h; config_layers := layers; renderables := ∅; children := [];
       settingsTreeUpdates := 0; customLayersCountUpdates := 0 |} ->
  P w0.
Proof.
  unfold Grids.new. apply load_fold_keeps.
  intros [k e] Hin. by apply elem_of_map_to_list.
Qed.

(** The whole life of the extension: construction, user actions, and a
    settings-tree emission. *)
Lemma life_keeps (h : Heap) (layers : gmap string LayerConfig) (acts : list UserAction)
    (w0 w w' : World) (es : list SettingsTreeEntry) :
  P {| heap := h; config_layers := layers; renderables := ∅; children := [];
       settingsTreeUpdates := 0; customLayersCountUpdates := 0 |} ->
  Grids.new h layers = Some w0 ->
  run acts w0 = Some w ->
  settingsNodes w = Some (es, w') ->
  P w0 /\ P w /\ P w'.
Proof.
  intros H0 Hnew Hrun Hs.
  assert (P w0) by by eapply constructor_keeps.
  assert (P w) by by eapply run_keeps.
  assert (P w') by by eapply settingsNodes_keeps.
  done.
Qed.

End Keeps.

(** An invariant that does not read the configuration or the counters goes
    through the handlers as soon as [_updateGrid] keeps it. *)
Section KeepsFrame.

Variable P : World -> Prop.

Hypothesis P_frame :
  forall w w', heap w' = heap w -> renderables w' = renderables w ->
               children w' = children w -> P w -> P w'.
Hypothesis P_updateGrid :
  forall i s w w', _updateGrid i s w = Some w' -> P w -> P w'.

Lemma perform_keeps (a : UserAction) (w w' : World) : perform a w = Some w' -> P w -> P w'.
Proof.
  intros Hp HP. destruct a as [instanceId|[path value|path id]]; cbn [perform] in Hp.
  - unfold handleAddGrid in Hp.
    match type of Hp with context [_updateGrid instanceId (Some ?s) ?w1] =>
      destruct (_updateGrid instanceId (Some s) w1) as [w2|] eqn:Hw2; [|done];
      assert (P w1) by (by apply (P_frame w))
    end.
    cbn [mbind option_bind] in Hp. injection Hp as <-.
    apply (P_frame w2); try done. by eapply P_updateGrid.
  - cbn [handleSettingsAction] in Hp.
    destruct path as [|root [|instanceId [|field [|? ?]]]];
      try (by injection Hp as <-).
    eapply P_updateGrid; [exact Hp|]. apply (P_frame w); try done.
    all: unfold saveSetting; by destruct (String.eqb root "layers").
  - cbn [handleSettingsAction] in Hp.
    destruct path as [|root [|instanceId [|? ?]]];
      try (by injection Hp as <-).
    destruct (String.eqb id "delete"); [|by injection Hp as <-].
    match type of Hp with context [_updateGrid instanceId None ?w1] =>
      destruct (_updateGrid instanceId None w1) as [w2|] eqn:Hw2; [|done];
      assert (P w1) by (by apply (P_frame w))
    end.
    cbn [mbind option_bind] in Hp. injection Hp as <-.
    apply (P_frame w2); try done. by eapply P_updateGrid.
Qed.

End KeepsFrame.

(** *** Nothing is disposed of twice *)

Lemma NoDup_app_fresh (log released : list handle) :
  NoDup log -> NoDup released -> (forall x, x ∈ released -> x ∉ log) ->
  NoDup (log ++ released).
Proof.
  intros H1 H2 H3. apply NoDup_app. split; [done|]. split; [|done].
  intros x Hx Hr. by apply (H3 x).
Qed.

Lemma _updateGrid_disposal_ok (instanceId : string) (s : option LayerConfig) (w w' : World) :
  _updateGrid instanceId s w = Some w' -> disposal_ok w -> disposal_ok w'.
Proof.
  intros Hu [Hok Hnd]. split; [by eapply _updateGrid_resources_ok|].
  destruct (_updateGrid_cases _ _ _ _ Hu Hok)
    as [(_ & _ & ->)|[(r & _ & Hr & ->)|[(e & r & _ & Hr & _ & _ & _ & ->)
        |[(e & r & c & rs & _ & Hr & _ & -> & _)|(e & r & rs & _ & _ & _ & -> & _)]]]];
    cbn; try done.
  - destruct Hok as (_ & Hown & _). destruct (Hown _ _ Hr) as (Hndr & Hx & _).
    apply NoDup_app_fresh; [done..|]. intros x Hin. by apply Hx.
  - destruct Hok as (_ & Hown & _). destruct (Hown _ _ Hr) as (Hndr & Hx & _).
    unfold owned, disposal in Hndr, Hx.
    apply NoDup_app_fresh; [done| |].
    + by apply NoDup_app in Hndr as (? & _).
    + intros x Hin. apply Hx. set_solver.
Qed.

Lemma perform_disposal_ok (a : UserAction) (w w' : World) :
  perform a w = Some w' -> disposal_ok w -> disposal_ok w'.
Proof.
  apply (perform_keeps disposal_ok).
  - intros w1 w2 Hh Hr Hc [Hok Hnd]. unfold disposal_ok, resources_ok in *.
    by rewrite Hh, Hr.
  - apply _updateGrid_disposal_ok.
Qed.

(** *** The scene graph shows the registry *)

Lemma scene_replace (w w' : World) (i : string) (r r' : CircleGridRenderable) :
  scene_shows_registry w ->
  renderables w !! i = Some r ->
  renderable_ref r' = renderable_ref r ->
  renderables w' = <[i := r']> (renderables w) ->
  children w' = children w ->
  (next_handle (heap w) <= next_handle (heap w'))%nat ->
  scene_shows_registry w'.
Proof.
  intros (Hnd & Hiff & Hdist & Hlt) Hr Href Hrs Hch Hnext.
  unfold scene_shows_registry. rewrite Hrs, Hch.
  split; [done|]. split; [|split].
  - intros x. rewrite Hiff. split.
    + intros (j & rj & Hj & <-). destruct (decide (j = i)) as [->|Hne].
      * exists i, r'. rewrite lookup_insert_eq. split; [done|]. congruence.
      * exists j, rj. by rewrite lookup_insert_ne.
    + intros (j & rj & Hj & <-). destruct (decide (j = i)) as [->|Hne].
      * rewrite lookup_insert_eq in Hj. injection Hj as <-. exists i, r. done.
      * rewrite lookup_insert_ne in Hj by done. by exists j, rj.
  - intros j k rj rk Hjk. rewrite !lookup_insert.
    case_decide as Hj; case_decide as Hk; try congruence.
    + intros [= <-] Hrk. rewrite Href. by apply (Hdist i k).
    + intros Hrj [= <-]. rewrite Href. by apply (Hdist j i).
    + by apply Hdist.
  - intros j rj. rewrite lookup_insert. case_decide as Hj.
    + intros [= <-]. rewrite Href. apply Hlt in Hr. lia.
    + intros Hrj. apply Hlt in Hrj. lia.
Qed.

Lemma scene_insert_fresh (w w' : World) (i : string) (r : CircleGridRenderable) :
  scene_shows_registry w ->
  renderables w !! i = None ->
  (next_handle (heap w) <= renderable_ref r < next_handle (heap w'))%nat ->
  renderables w' = <[i := r]> (renderables w) ->
  children w' = add_child (children w) (renderable_ref r) ->
  scene_shows_registry w'.
Proof.
  intros (Hnd & Hiff & Hdist & Hlt) Hr Href Hrs Hch.
  assert (Hfresh : renderable_ref r ∉ children w).
  { rewrite Hiff. intros (j & rj & Hj & Heq). apply Hlt in Hj. lia. }
  unfold scene_shows_registry. rewrite Hrs, Hch, add_child_fresh by done.
  split; [|split; [|split]].
  - apply NoDup_app. split; [done|]. split; [|apply NoDup_singleton].
    intros x Hx ->%list_elem_of_singleton. done.
  - intros x. rewrite elem_of_app, list_elem_of_singleton, Hiff. split.
    + intros [(j & rj & Hj & <-)| ->].
      * exists j, rj. rewrite lookup_insert_ne; [done|]. intros ->. congruence.
      * exists i, r. by rewrite lookup_insert_eq.
    + intros (j & rj & Hj & <-). destruct (decide (j = i)) as [->|Hne].
      * rewrite lookup_insert_eq in Hj. injection Hj as <-. by right.
      * rewrite lookup_insert_ne in Hj by done. left. by exists j, rj.
  - intros j k rj rk Hjk. rewrite !lookup_insert.
    case_decide as Hj; case_decide as Hk; try congruence.
    + intros [= <-] Hrk. apply Hlt in Hrk. lia.
    + intros Hrj [= <-]. apply Hlt in Hrj. lia.
    + by apply Hdist.
  - intros j rj. rewrite lookup_insert. case_decide as Hj.
    + intros [= <-]. lia.
    + intros Hrj. apply Hlt in Hrj. lia.
Qed.

Lemma scene_delete (w w' : World) (i : string) (r : CircleGridRenderable) :
  scene_shows_registry w ->
  renderables w !! i = Some r ->
  renderables w' = delete i (renderables w) ->
  children w' = remove_child (children w) (renderable_ref r) ->
  next_handle (heap w') = next_handle (heap w) ->
  scene_shows_registry w'.
Proof.
  intros (Hnd & Hiff & Hdist & Hlt) Hr Hrs Hch Hnext.
  unfold scene_shows_registry. rewrite Hrs, Hch, Hnext. unfold remove_child.
  split; [by apply NoDup_filter|]. split; [|split].
  - intros x. rewrite list_elem_of_filter, Hiff. split.
    + intros [Hne (j & rj & Hj & <-)]. exists j, rj. split; [|done].
      apply lookup_delete_Some. split; [|done]. intros <-. congruence.
    + intros (j & rj & [Hne Hj]%lookup_delete_Some & <-).
      split; [by apply (Hdist j i rj r)|]. by exists j, rj.
  - intros j k rj rk Hjk [_ Hj]%lookup_delete_Some [_ Hk]%lookup_delete_Some.
    by apply (Hdist j k rj rk).
  - intros j rj [_ Hj]%lookup_delete_Some. by apply (Hlt j).
Qed.

Lemma _updateGrid_scene_ok (instanceId : string) (s : option LayerConfig) (w w' : World) :
  _updateGrid instanceId s w = Some w' -> scene_ok w -> scene_ok w'.
Proof.
  intros Hu [Hok Hsc]. split; [by eapply _updateGrid_resources_ok|].
  destruct (_updateGrid_cases _ _ _ _ Hu Hok)
    as [(_ & _ & ->)|[(r & _ & Hr & ->)|[(e & r & _ & Hr & _ & _ & _ & ->)
        |[(e & r & c & rs & _ & Hr & _ & -> & _)
         |(e & r & rs & _ & Hr & _ & -> & _ & _ & _ & _ & Href)]]]];
    [done| | | |];
    try match goal with
        | |- context [<[instanceId := ?x]> _] => set (r' := x)
        end.
  - by apply (scene_delete w _ instanceId r).
  - by apply (scene_replace w _ instanceId r r').
  - apply (scene_replace w _ instanceId r r'); try done. cbn. lia.
  - by apply (scene_insert_fresh w _ instanceId r).
Qed.

Lemma perform_scene_ok (a : UserAction) (w w' : World) :
  perform a w = Some w' -> scene_ok w -> scene_ok w'.
Proof.
  apply (perform_keeps scene_ok).
  - intros w1 w2 Hh Hr Hc [Hok Hsc].
    unfold scene_ok, resources_ok, scene_shows_registry in *.
    by rewrite Hh, Hr, Hc.
  - apply _updateGrid_scene_ok.
Qed.

(** *** The circles are those of the configuration *)

Lemma sizes_spread (e : LayerConfig) :
  sizes (spread DEFAULT_SETTINGS e) = configured_sizes e.
Proof. done. Qed.

Lemma _updateGrid_rings (instanceId : string) (s : option LayerConfig) (w w' : World) :
  _updateGrid instanceId s w = Some w' ->
  resources_ok w ->
  (forall i r, renderables w !! i = Some r -> rings_of_settings r) ->
  forall i r, renderables w' !! i = Some r -> rings_of_settings r.
Proof.
  intros Hu Hok Hrings.
  destruct (_updateGrid_cases _ _ _ _ Hu Hok)
    as [(_ & _ & ->)|[(r & _ & Hr & ->)
        |[(e & r & _ & Hr & Hmin & Hmax & Hstep & ->)
         |[(e & r & c & rs & _ & Hr & Hrange & -> & Hrad & _)
          |(e & r & rs & _ & Hr & Hrange & -> & Hs & Hrad & _)]]]];
    [done| | | |]; cbn [renderables with_renderables with_children with_heap].
  - intros i r1 [_ Hi]%lookup_delete_Some. by eapply Hrings.
  - intros i r1. rewrite lookup_insert. case_decide as Hi; [|by apply Hrings].
    intros [= <-]. pose proof (Hrings _ _ Hr) as Hold.
    unfold rings_of_settings in *. cbn [with_settings settings circleList].
    by rewrite Hmin, Hmax, Hstep.
  - intros i r1. rewrite lookup_insert. case_decide as Hi; [|by apply Hrings].
    intros [= <-]. unfold rings_of_settings.
    cbn [with_circleList with_settings settings circleList]. by rewrite Hrad.
  - intros i r1. rewrite lookup_insert. case_decide as Hi; [|by apply Hrings].
    intros [= <-]. unfold rings_of_settings. by rewrite Hs, Hrad.
Qed.

(** [_updateGrid], called on an instance after its configuration entry has
    been written: the settings of every renderable carry the configured
    sizes again. *)
Lemma _updateGrid_settings_of_config (instanceId : string) (s : option LayerConfig)
    (w w' : World) :
  _updateGrid instanceId s w = Some w' ->
  match s with
  | Some e => exists e', config_layers w !! instanceId = Some e'
                         /\ configured_sizes e' = configured_sizes e
  | None => True
  end ->
  (forall i r, i <> instanceId -> renderables w !! i = Some r ->
               exists e, config_layers w !! i = Some e
                         /\ sizes (settings r) = configured_sizes e) ->
  settings_of_config w'.
Proof.
  intros Hu Hcfg Hother i r Hr. destruct s as [e|].
  - apply _updateGrid_Some_inv in Hu as (Hc & (r1 & Hrs & Hs) & _).
    rewrite Hc. rewrite Hrs, lookup_insert in Hr. case_decide as Hi.
    + injection Hr as <-. subst i. destruct Hcfg as (e' & He' & Hsz).
      exists e'. split; [done|]. by rewrite Hs, sizes_spread.
    + by apply Hother.
  - destruct (_updateGrid_None_inv instanceId w) as (w1 & Hu1 & Hc & Hrs).
    rewrite Hu in Hu1. injection Hu1 as <-.
    rewrite Hc. rewrite Hrs in Hr. apply lookup_delete_Some in Hr as [Hne Hr].
    by apply Hother.
Qed.

Lemma _updateGrid_rings_ok (instanceId : string) (e : LayerConfig) (w w' : World) :
  config_layers w !! instanceId = Some e ->
  _updateGrid instanceId (Some e) w = Some w' -> rings_ok w -> rings_ok w'.
Proof.
  intros He Hu (Hok & Hrings & Hcfg).
  split; [by eapply _updateGrid_resources_ok|].
  split; [by eapply _updateGrid_rings|].
  eapply _updateGrid_settings_of_config; [exact Hu|by exists e|].
  intros i r _ Hr. by apply Hcfg.
Qed.

Lemma perform_rings_ok (a : UserAction) (w w' : World) :
  perform a w = Some w' -> rings_ok w -> rings_ok w'.
Proof.
  intros Hp (Hok & Hrings & Hcfg).
  destruct a as [instanceId|[path value|path id]]; cbn [perform] in Hp.
  - unfold handleAddGrid in Hp.
    match type of Hp with context [_updateGrid instanceId (Some ?s) ?w1] =>
      destruct (_updateGrid instanceId (Some s) w1) as [w2|] eqn:Hw2; [|done]
    end.
    cbn [mbind option_bind] in Hp. injection Hp as <-.
    split; [exact (_updateGrid_resources_ok _ _ _ _ Hw2 Hok)|].
    split; [exact (_updateGrid_rings _ _ _ _ Hw2 Hok Hrings)|].
    eapply _updateGrid_settings_of_config in Hw2; [exact Hw2| |].
    + cbn [config_layers with_config]. rewrite lookup_insert_eq. eexists. split; [done|]. done.
    + intros i r Hne Hr. cbn [config_layers with_config renderables] in *.
      rewrite lookup_insert_ne by done. by apply Hcfg.
  - cbn [handleSettingsAction] in Hp.
    destruct path as [|root [|instanceId [|field [|? ?]]]];
      try (by injection Hp as <-).
    assert (Hrs : renderables (saveSetting [root; instanceId; field] value w) = renderables w)
      by (unfold saveSetting; by destruct (String.eqb root "layers")).
    assert (Hh : heap (saveSetting [root; instanceId; field] value w) = heap w)
      by (unfold saveSetting; by destruct (String.eqb root "layers")).
    assert (Hcf : forall i, i <> instanceId ->
              config_layers (saveSetting [root; instanceId; field] value w) !! i
              = config_layers w !! i).
    { intros i Hne. unfold saveSetting. destruct (String.eqb root "layers"); [|done].
      cbn. by rewrite lookup_insert_ne. }
    split; [eapply _updateGrid_resources_ok; [exact Hp|]; unfold resources_ok;
            by rewrite Hh, Hrs|].
    split.
    { eapply _updateGrid_rings; [exact Hp| |].
      - unfold resources_ok. by rewrite Hh, Hrs.
      - by rewrite Hrs. }
    eapply _updateGrid_settings_of_config; [exact Hp| |].
    + destruct (config_layers _ !! instanceId) as [e|]; [|done]. by exists e.
    + intros i r Hne. rewrite Hrs, Hcf by done. by apply Hcfg.
  - cbn [handleSettingsAction] in Hp.
    destruct path as [|root [|instanceId [|? ?]]];
      try (by injection Hp as <-).
    destruct (String.eqb id "delete"); [|by injection Hp as <-].
    match type of Hp with context [_updateGrid instanceId None ?w1] =>
      destruct (_updateGrid instanceId None w1) as [w2|] eqn:Hw2; [|done]
    end.
    cbn [mbind option_bind] in Hp. injection Hp as <-.
    split; [exact (_updateGrid_resources_ok _ _ _ _ Hw2 Hok)|].
    split; [exact (_updateGrid_rings _ _ _ _ Hw2 Hok Hrings)|].
    eapply _updateGrid_settings_of_config in Hw2; [exact Hw2|done|].
    intros i r Hne Hr. cbn [config_layers with_config renderables] in *.
    rewrite lookup_delete_ne by done. by apply Hcfg.
Qed.

End GridInvariants.

Section GridLife.

Import Grids Spec Ref.

Lemma resources_ok_initial (h : Heap) (layers : gmap string LayerConfig) :
  Forall (fun x => (x < next_handle h)%nat) (dispose_log h) ->
  resources_ok {| heap := h; config_layers := layers; renderables := ∅; children := [];
                  settingsTreeUpdates := 0; customLayersCountUpdates := 0 |}.
Proof.
  intros Hlog. unfold resources_ok, resources_ok_at. cbn. split; [done|].
  split; intros *; by rewrite ?lookup_empty.
Qed.

(** The saved layout of [example_layers], six user actions and a
    settings-tree emission: every call returns. *)
Lemma example_life :
  exists w0 w es w',
    Grids.new empty_heap example_layers = Some w0
    /\ run example_actions w0 = Some w
    /\ settingsNodes w = Some (es, w').
Proof.
  assert (Hn : nonzero_steps example_layers).
  { apply (bool_decide_unpack _). vm_compute. reflexivity. }
  destruct (constructor_total empty_heap example_layers Hn) as [w0 Hnew].
  pose proof (constructor_inv empty_heap example_layers w0 Hnew) as (Hc0 & _).
  destruct (run_total example_actions w0) as (w & Hrun & Hsteps);
    [rewrite Hc0; exact Hn|vm_compute; reflexivity|].
  destruct (settingsNodes_total w Hsteps) as [[es w'] Hs].
  exists w0, w, es, w'. repeat split; assumption.
Qed.

(** X5.  Start the extension on any configuration, let the user perform any
    actions, and emit the settings tree.  Whenever these calls return: if
    nothing had been disposed of twice before, nothing has been afterwards,
    at any of the three moments; no resource of a registered renderable has
    been disposed of; and two registered renderables share no resource. *)
Theorem nothing_disposed_twice (h : Heap) (layers : gmap string LayerConfig)
    (acts : list UserAction) (w0 w w' : World) (es : list SettingsTreeEntry) :
  Forall (fun x => (x < next_handle h)%nat) (dispose_log h) ->
  NoDup (dispose_log h) ->
  Grids.new h layers = Some w0 ->
  run acts w0 = Some w ->
  settingsNodes w = Some (es, w') ->
  NoDup (dispose_log (heap w0))
  /\ NoDup (dispose_log (heap w))
  /\ NoDup (dispose_log (heap w'))
  /\ (forall i r x, renderables w !! i = Some r -> x ∈ owned r -> x ∉ dispose_log (heap w))
  /\ (forall i r x, renderables w' !! i = Some r -> x ∈ owned r -> x ∉ dispose_log (heap w'))
  /\ (forall i j ri rj x,
        i <> j -> renderables w' !! i = Some ri -> renderables w' !! j = Some rj ->
        x ∈ owned ri -> x ∉ owned rj).
Proof.
  intros Hlog Hnd Hnew Hrun Hs.
  destruct (life_keeps disposal_ok
              (fun i e w1 w2 _ => _updateGrid_disposal_ok i (Some e) w1 w2)
              perform_disposal_ok h layers acts w0 w w' es
              (conj (resources_ok_initial h layers Hlog) Hnd) Hnew Hrun Hs)
    as ((_ & H0) & ((_ & Hown & _) & H1) & ((_ & Hown' & Hdisj') & H2)).
  split; [exact H0|]. split; [exact H1|]. split; [exact H2|].
  split; [intros i r x Hr Hx; by apply (Hown i r Hr)|].
  split; [intros i r x Hr Hx; by apply (Hown' i r Hr)|].
  exact Hdisj'.
Qed.

Lemma nothing_disposed_twice_witness :
  exists w0 w es w',
    Grids.new empty_heap example_layers = Some w0
    /\ run example_actions w0 = Some w
    /\ settingsNodes w = Some (es, w')
    /\ dispose_log (heap w') = [19; 21; 23; 25; 3; 5; 7; 9; 11; 13; 2; 46; 48; 50; 52]%nat
    /\ NoDup (dispose_log (heap w')).
Proof.
  destruct example_life as (w0 & w & es & w' & Hnew & Hrun & Hs).
  exists w0, w, es, w'. split; [assumption|]. split; [assumption|]. split; [assumption|].
  split.
  - vm_compute in Hnew. injection Hnew as <-.
    vm_compute in Hrun. injection Hrun as <-.
    vm_compute in Hs. injection Hs as <- <-. reflexivity.
  - exact (proj1 (proj2 (proj2
             (nothing_disposed_twice empty_heap example_layers example_actions w0 w w' es
                (Forall_nil_2 _) (NoDup_nil_2) Hnew Hrun Hs)))).
Defined.

(** X6.  After the constructor, after any sequence of user actions (an
    edit carrying a value), and after a settings-tree emission (whenever
    these calls return), every registered renderable has a configuration
    entry, and its circles are those of the sizes in its settings: where
    these sizes, and the sum of [maxSize] and [step], are integers up to
    2^53 in magnitude, the radii are what [_range minSize maxSize step]
    computes on binary64 numbers. *)
Theorem rings_match_settings (h : Heap) (layers : gmap string LayerConfig)
    (acts : list UserAction) (w0 w w' : World) (es : list SettingsTreeEntry) :
  Forall (fun x => (x < next_handle h)%nat) (dispose_log h) ->
  Grids.new h layers = Some w0 ->
  run acts w0 = Some w ->
  settingsNodes w = Some (es, w') ->
  forall v, v = w0 \/ v = w \/ v = w' ->
    forall i r, renderables v !! i = Some r ->
      is_Some (config_layers v !! i)
      /\ (safe (minSize (settings r)) -> safe (maxSize (settings r)) ->
          safe (step (settings r)) -> safe (maxSize (settings r) + step (settings r)) ->
          forall fuel,
            (CircleList.range_fuel (minSize (settings r)) (maxSize (settings r)) <= fuel)%nat ->
            Binary64._range fuel (Binary64.of_Z (minSize (settings r)))
              (Some (Binary64.of_Z (maxSize (settings r))))
              (Some (Binary64.of_Z (step (settings r))))
            = Some (Binary64.of_Z
                      <$> (CircleList.radius <$> CircleList.geometries (circleList r)))).
Proof.
  intros Hlog Hnew Hrun Hs.
  assert (Hinit : rings_ok {| heap := h; config_layers := layers; renderables := ∅;
                              children := []; settingsTreeUpdates := 0;
                              customLayersCountUpdates := 0 |}).
  { split; [by apply resources_ok_initial|].
    split; intros i r Hr; cbn in Hr; by rewrite lookup_empty in Hr. }
  destruct (life_keeps rings_ok _updateGrid_rings_ok perform_rings_ok
              h layers acts w0 w w' es Hinit Hnew Hrun Hs) as (H0 & H1 & H2).
  assert (Hall : forall v, rings_ok v ->
            forall i r, renderables v !! i = Some r ->
              is_Some (config_layers v !! i)
              /\ (safe (minSize (settings r)) -> safe (maxSize (settings r)) ->
                  safe (step (settings r)) ->
                  safe (maxSize (settings r) + step (settings r)) ->
                  forall fuel,
                    (CircleList.range_fuel (minSize (settings r)) (maxSize (settings r))
                     <= fuel)%nat ->
                    Binary64._range fuel (Binary64.of_Z (minSize (settings r)))
                      (Some (Binary64.of_Z (maxSize (settings r))))
                      (Some (Binary64.of_Z (step (settings r))))
                    = Some (Binary64.of_Z
                              <$> (CircleList.radius
                                     <$> CircleList.geometries (circleList r))))).
  { intros v (_ & Hrings & Hcfg) i r Hr.
    destruct (Hcfg i r Hr) as (e & He & _). split; [eauto|].
    intros S1 S2 S3 S4.
    pose proof (Hrings i r Hr) as Hrg. unfold rings_of_settings in Hrg.
    pose proof (_range_integers (minSize (settings r)) (Some (maxSize (settings r)))
                  (Some (step (settings r))) S1 S2 S3 S4) as Hint.
    rewrite Hrg in Hint. exact Hint. }
  intros v [->|[->| ->]]; by apply Hall.
Qed.

Lemma rings_match_settings_witness :
  exists w0 w es w' r,
    Grids.new empty_heap example_layers = Some w0
    /\ run example_actions w0 = Some w
    /\ settingsNodes w = Some (es, w')
    /\ renderables w' !! "a" = Some r
    /\ (forall fuel, (71 <= fuel)%nat ->
          Binary64._range fuel (Binary64.of_Z 30) (Some (Binary64.of_Z 100))
            (Some (Binary64.of_Z 10))
          = Some (Binary64.of_Z
                    <$> (CircleList.radius <$> CircleList.geometries (circleList r))))
    /\ CircleList.radius <$> CircleList.geometries (circleList r)
       = [30; 40; 50; 60; 70; 80; 90].
Proof.
  destruct example_life as (w0 & w & es & w' & Hnew & Hrun & Hs).
  assert (Hr : exists r, renderables w' !! "a" = Some r
                         /\ (minSize (settings r), maxSize (settings r), step (settings r))
                            = (30, 100, 10)
                         /\ CircleList.radius <$> CircleList.geometries (circleList r)
                            = [30; 40; 50; 60; 70; 80; 90]).
  { vm_compute in Hnew. injection Hnew as <-.
    vm_compute in Hrun. injection Hrun as <-.
    vm_compute in Hs. injection Hs as <- <-. vm_compute. eauto. }
  destruct Hr as (r & Hr & Hsz & Hradii).
  exists w0, w, es, w', r.
  split; [assumption|]. split; [assumption|]. split; [assumption|]. split; [assumption|].
  split; [|exact Hradii].
  destruct (rings_match_settings empty_heap example_layers example_actions w0 w w' es
              (Forall_nil_2 _) Hnew Hrun Hs w' (or_intror (or_intror eq_refl)) "a" r Hr)
    as (_ & Hrange).
  injection Hsz as Hmin Hmax Hstep. rewrite Hmin, Hmax, Hstep in Hrange.
  apply Hrange; unfold safe; lia.
Defined.

(** X7.  After the constructor, after any sequence of user actions, and
    after a settings-tree emission (whenever these calls return), the scene
    graph shows the registry: the children of the extension are the
    registered renderables, each exactly once, and two instance ids never
    share a renderable. *)
Theorem scene_graph_shows_registry (h : Heap) (layers : gmap string LayerConfig)
    (acts : list UserAction) (w0 w w' : World) (es : list SettingsTreeEntry) :
  Forall (fun x => (x < next_handle h)%nat) (dispose_log h) ->
  Grids.new h layers = Some w0 ->
  run acts w0 = Some w ->
  settingsNodes w = Some (es, w') ->
  forall v, v = w0 \/ v = w \/ v = w' ->
    NoDup (children v)
    /\ (forall x, x ∈ children v <->
                  exists i r, renderables v !! i = Some r /\ renderable_ref r = x)
    /\ (forall i j ri rj,
          i <> j -> renderables v !! i = Some ri -> renderables v !! j = Some rj ->
          renderable_ref ri <> renderable_ref rj).
Proof.
  intros Hlog Hnew Hrun Hs.
  assert (Hinit : scene_ok {| heap := h; config_layers := layers; renderables := ∅;
                              children := []; settingsTreeUpdates := 0;
                              customLayersCountUpdates := 0 |}).
  { split; [by apply resources_ok_initial|].
    unfold scene_shows_registry. cbn. split; [constructor|]. split; [|split].
    - intros x. split; [by intros ?%not_elem_of_nil|].
      intros (i & r & Hr & _). by rewrite lookup_empty in Hr.
    - intros i j ri rj _ Hr. by rewrite lookup_empty in Hr.
    - intros i r Hr. by rewrite lookup_empty in Hr. }
  destruct (life_keeps scene_ok
              (fun i e w1 w2 _ => _updateGrid_scene_ok i (Some e) w1 w2)
              perform_scene_ok h layers acts w0 w w' es Hinit Hnew Hrun Hs)
    as ((_ & H0) & (_ & H1) & (_ & H2)).
  intros v [->|[->| ->]];
    match goal with H : scene_shows_registry ?v |- context [children ?v] =>
      destruct H as (Ha & Hb & Hc & _); exact (conj Ha (conj Hb Hc))
    end.
Qed.

Lemma scene_graph_shows_registry_witness :
  exists w0 w es w',
    Grids.new empty_heap example_layers = Some w0
    /\ run example_actions w0 = Some w
    /\ settingsNodes w = Some (es, w')
    /\ length (children w') = 2%nat
    /\ NoDup (children w').
Proof.
  destruct example_life as (w0 & w & es & w' & Hnew & Hrun & Hs).
  exists w0, w, es, w'.
  split; [assumption|]. split; [assumption|]. split; [assumption|].
  split.
  - vm_compute in Hnew. injection Hnew as <-.
    vm_compute in Hrun. injection Hrun as <-.
    vm_compute in Hs. injection Hs as <- <-. reflexivity.
  - exact (proj1 (scene_graph_shows_registry empty_heap example_layers example_actions
                    w0 w w' es (Forall_nil_2 _) Hnew Hrun Hs w'
                    (or_intror (or_intror eq_refl)))).
Defined.

End GridLife.

(** ** Settings actions of the circle-grid extension *)

Section GridActions.

Import Grids Spec Ref.




(** X9.  The delete action is idempotent.  It always returns; repeating it
    changes neither the configuration, nor the registry, nor the heap, nor
    the scene graph, and only schedules the two refreshes again.  On an
    instance that has no renderable the first delete disposes of nothing
    and only drops the configuration entry. *)
Theorem delete_is_idempotent (root instanceId : string) (w : World) :
  exists w1 w2,
    handleSettingsAction (PerformNodeAction [root; instanceId] "delete") w = Some w1
    /\ handleSettingsAction (PerformNodeAction [root; instanceId] "delete") w1 = Some w2
    /\ config_layers w2 = config_layers w1
    /\ renderables w2 = renderables w1
    /\ heap w2 = heap w1
    /\ children w2 = children w1
    /\ settingsTreeUpdates w2 = S (settingsTreeUpdates w1)
    /\ customLayersCountUpdates w2 = S (customLayersCountUpdates w1)
    /\ (renderables w !! instanceId = None ->
        heap w1 = heap w /\ renderables w1 = renderables w /\ children w1 = children w
        /\ config_layers w1 = delete instanceId (config_layers w)).
Proof.
  cbn [handleSettingsAction]. change (String.eqb "delete" "delete") with true. cbn iota.
  destruct (_updateGrid_None_inv instanceId
              (with_config (delete instanceId (config_layers w)) w))
    as (v1 & Hv1 & Hc1 & Hr1).
  rewrite Hv1. cbn [mbind option_bind]. eexists _, _. split; [reflexivity|].
  cbn [config_layers updateCustomLayersCount updateSettingsTree renderables] in *.
  assert (Habs : renderables v1 !! instanceId = None).
  { rewrite Hr1. apply lookup_delete_eq. }
  rewrite _updateGrid_delete_absent by (cbn; exact Habs).
  cbn [mbind option_bind]. split; [reflexivity|]. cbn.
  split; [rewrite Hc1; cbn [config_layers with_config]; apply delete_delete_eq|].
  split; [done|]. split; [done|]. split; [done|]. split; [done|]. split; [done|].
  intros Hnone. rewrite _updateGrid_delete_absent in Hv1 by (cbn; exact Hnone).
  injection Hv1 as <-. done.
Qed.

(** When every configured circle grid has its renderable, the loop of
    [settingsNodes] only emits the nodes. *)
Lemma settingsNodes_fold_registered (l : list (string * LayerConfig)) :
  forall es w,
    (forall kv, kv ∈ l -> is_grid kv.2 = true -> is_Some (renderables w !! kv.1)) ->
    foldl settingsNodes_body (Some (es, w)) l
    = Some (es ++ ((fun kv => settings_entry kv.1 kv.2)
                     <$> filter (fun kv => is_grid kv.2 = true) l), w).
Proof.
  induction l as [|[k e] l IH]; intros es w Hl.
  - cbn. by rewrite app_nil_r.
  - cbn [foldl]. unfold settingsNodes_body at 2. cbn [mbind option_bind].
    assert (Hl' : forall kv, kv ∈ l -> is_grid kv.2 = true -> is_Some (renderables w !! kv.1)).
    { intros kv Hin. apply Hl. by right. }
    rewrite filter_cons. cbn [snd].
    destruct (is_grid e) eqn:Hg; cbn [negb].
    + rewrite decide_True by done.
      destruct (Hl (k, e)) as [r Hr]; [by left|done|]. cbn [fst] in Hr. rewrite Hr.
      rewrite IH by done. cbn [fmap list_fmap fst snd]. by rewrite <- app_assoc.
    + rewrite decide_False by done. by apply IH.
Qed.

(** X10.  [settingsNodes] is idempotent: after an emission that returns, a
    second one returns the same entries and changes no state (the first
    one has created whatever renderable was missing).  There is one entry
    for each circle-grid layer of the configuration. *)
Theorem settingsNodes_idempotent (w w' : World) (es : list SettingsTreeEntry) :
  settingsNodes w = Some (es, w') ->
  settingsNodes w' = Some (es, w')
  /\ length es = size (grid_ids (config_layers w)).
Proof.
  intros Hs. pose proof (settingsNodes_inv _ _ _ Hs) as (-> & Hc & Hd). split.
  - unfold settingsNodes. rewrite settingsNodes_fold_registered.
    + cbn [app]. unfold settings_entries. by rewrite Hc.
    + intros [k e] Hin Hg. cbn [fst snd] in *. apply elem_of_map_to_list in Hin.
      apply elem_of_dom. rewrite Hd, elem_of_union. right.
      apply grid_ids_spec. exists e. by rewrite <- Hc.
  - unfold settings_entries. rewrite length_fmap.
    rewrite <- grid_keys_of_list.
    rewrite size_list_to_set; [by rewrite length_fmap|].
    apply NoDup_fmap_fst.
    + intros k e1 e2 [_ H1]%list_elem_of_filter [_ H2]%list_elem_of_filter.
      apply elem_of_map_to_list in H1, H2. congruence.
    + apply NoDup_filter, NoDup_map_to_list.
Qed.

Lemma settingsNodes_idempotent_witness :
  exists w0 w' es,
    Grids.new empty_heap example_layers = Some w0
    /\ settingsNodes w0 = Some (es, w')
    /\ settingsNodes w' = Some (es, w')
    /\ length es = 1%nat.
Proof.
  assert (Hn : nonzero_steps example_layers).
  { apply (bool_decide_unpack _). vm_compute. reflexivity. }
  destruct (constructor_total empty_heap example_layers Hn) as [w0 Hnew].
  pose proof (constructor_inv empty_heap example_layers w0 Hnew) as (Hc0 & _).
  destruct (settingsNodes_total w0) as [[es w'] Hs]; [rewrite Hc0; exact Hn|].
  destruct (settingsNodes_idempotent w0 w' es Hs) as [Hagain Hlen].
  exists w0, w', es. split; [assumption|]. split; [assumption|]. split; [assumption|].
  rewrite Hlen, Hc0. reflexivity.
Defined.

End GridActions.

(** ** The life of an object-list renderable *)

Section LDRenderableLife.

Import Ros LDMsg LDList LDScene Spec Ref.

Context {Rgb : Type} (stringToRgb : Rgb -> string -> Rgb).

(** The labels during the loop of [updateLDObjectList]: the label at the
    index of an object carries the text and the position of that object. *)
Lemma update_loop_labels (settings : LayerSettingsLDObjectList) (objs : list LDObject) :
  forall (i : nat) (this : @LDObjectListRenderable Rgb) (e : Renderer),
    (i <= length (labels this))%nat ->
    (forall k obj, objs !! k = Some obj ->
       exists l c,
         labels (update_loop stringToRgb settings objs i this e).1.2 !! (i + k)%nat
         = Some (style_label obj c l))
    /\ (forall j, (j < i)%nat ->
          labels (update_loop stringToRgb settings objs i this e).1.2 !! j = labels this !! j)
    /\ length (labels (update_loop stringToRgb settings objs i this e).1.2)
       = (length (labels this) + length objs)%nat.
Proof.
  induction objs as [|obj objs IH]; intros i this e Hi.
  - cbn. split; [done|]. split; [done|]. lia.
  - cbn [update_loop].
    destruct (update_body stringToRgb settings obj i this e) as [this1 e1] eqn:Hbody.
    assert (Hl1 : exists newLabel c,
              labels this1 = alter (style_label obj c) i (labels this ++ [newLabel])).
    { unfold update_body in Hbody.
      destruct (acquire (labelPool e) (heap e)) as [[newLabel pool] h].
      injection Hbody as <- _. cbn [labels]. eauto. }
    destruct Hl1 as (newLabel & c & Hl1).
    assert (Hlen1 : length (labels this1) = S (length (labels this))).
    { rewrite Hl1, length_alter, length_app. cbn. lia. }
    destruct (IH (S i) this1 e1) as (Hobj & Hlow & Hlen); [lia|].
    split; [|split].
    + intros [|k] o Ho.
      * injection Ho as ->. rewrite Nat.add_0_r. rewrite Hlow by lia.
        destruct (lookup_lt_is_Some_2 (labels this ++ [newLabel]) i) as [l0 Hl0].
        { rewrite length_app. cbn. lia. }
        exists l0, c. rewrite Hl1, list_lookup_alter_eq, Hl0. done.
      * cbn in Ho. replace (i + S k)%nat with (S i + k)%nat by lia. by apply Hobj.
    + intros j Hj. rewrite Hlow by lia.
      rewrite Hl1, list_lookup_alter_ne by lia.
      apply lookup_app_l. lia.
    + rewrite Hlen, Hlen1. cbn. lia.
Qed.

(** The labels that [updateLDObjectList] keeps are the first ones of the
    labels at the end of its loop. *)
Lemma updateLDObjectList_labels (objectList : LDObjectList)
    (originalMessage : option (LDObjectList_ option))
    (settings : LayerSettingsLDObjectList) (receiveTime : Z)
    (this : @LDObjectListRenderable Rgb) (e : Renderer) :
  labels (updateLDObjectList stringToRgb objectList originalMessage settings receiveTime
            this e).1
  = take (length (objects objectList))
      (labels (update_loop stringToRgb settings (objects objectList) 0 this
                 (with_heap (log_dispose (mesh this) (log_dispose (geometry this) (heap e)))
                    e)).1.2).
Proof.
  unfold updateLDObjectList.
  match goal with |- context [update_loop stringToRgb settings ?os 0 this ?e0] =>
    destruct (update_loop_spec stringToRgb settings os 0 this e0) as (this2 & e2 & refs & Heq & _);
    rewrite Heq
  end.
  cbn [fst snd labels Nat.add fresh]. case_bool_decide as Hlt; [done|].
  rewrite take_ge; [done|]. unfold Full in *. lia.
Qed.

(** After an update the renderable holds one label for each object. *)
Lemma updateLDObjectList_labels_length (objectList : LDObjectList)
    (originalMessage : option (LDObjectList_ option))
    (settings : LayerSettingsLDObjectList) (receiveTime : Z)
    (this : @LDObjectListRenderable Rgb) (e : Renderer) :
  length (labels (updateLDObjectList stringToRgb objectList originalMessage settings
                    receiveTime this e).1)
  = length (objects objectList).
Proof.
  rewrite updateLDObjectList_labels.
  match goal with |- context [update_loop stringToRgb settings ?os 0 this ?e0] =>
    destruct (update_loop_labels settings os 0 this e0 ltac:(lia)) as (_ & _ & Hlen)
  end.
  unfold Full in *. rewrite length_take, Hlen. lia.
Qed.


(** One update: the labels it holds afterwards, acquires and releases. *)
Lemma update_labels_count (u : Update) (s : @LDObjectListRenderable Rgb * Renderer) :
  length (labels (apply_update stringToRgb s u).1) = length (objects (u_objectList u))
  /\ acquire_count (labelPool (apply_update stringToRgb s u).2)
     = (acquire_count (labelPool s.2) + length (objects (u_objectList u)))%nat
  /\ length (release_log (labelPool (apply_update stringToRgb s u).2))
     = (length (release_log (labelPool s.2)) + length (labels s.1))%nat.
Proof.
  unfold apply_update.
  destruct (updateLDObjectList_spec stringToRgb (u_objectList u) (u_originalMessage u)
              (u_settings u) (u_receiveTime u) s.1 s.2)
    as (this1 & e1 & refs & -> & _ & _ & _ & _ & _ & _ & _ & _ & _ & _ & _
        & Hrefs & Hl & Hr & Ha).
  cbn [fst snd]. unfold Full in *.
  split; [|split; [exact Ha|]].
  - rewrite <- (length_fmap label_ref), Hl, length_take, length_app, length_fmap. lia.
  - rewrite Hr, length_app, length_drop, length_app, length_fmap. lia.
Qed.

Lemma process_snoc (us : list Update) (u : Update) (s : @LDObjectListRenderable Rgb * Renderer) :
  process stringToRgb (us ++ [u]) s = apply_update stringToRgb (process stringToRgb us s) u.
Proof. unfold process. by rewrite foldl_snoc. Qed.

(** X12.  Label accounting.  One [updateLDObjectList] acquires as many
    labels from the pool as the message has objects, and releases as many
    as the renderable held before.  So over any sequence of updates the
    labels acquired equal the labels released plus the labels held at the
    end (counting what was held at the start), and after [dispose()] every
    label acquired has been released. *)
Theorem label_accounting (us : list Update) (s : @LDObjectListRenderable Rgb * Renderer) :
  let s' := process stringToRgb us s in
  let d := LDScene.dispose s'.1 s'.2 in
  (acquire_count (labelPool s'.2) + length (release_log (labelPool s.2))
   + length (labels s.1)
   = acquire_count (labelPool s.2) + length (release_log (labelPool s'.2))
     + length (labels s'.1))%nat
  /\ (acquire_count (labelPool d.2) + length (release_log (labelPool s.2))
      + length (labels s.1)
      = acquire_count (labelPool s.2) + length (release_log (labelPool d.2)))%nat
  /\ (forall u,
        length (labels (apply_update stringToRgb s u).1) = length (objects (u_objectList u))
        /\ acquire_count (labelPool (apply_update stringToRgb s u).2)
           = (acquire_count (labelPool s.2) + length (objects (u_objectList u)))%nat
        /\ length (release_log (labelPool (apply_update stringToRgb s u).2))
           = (length (release_log (labelPool s.2)) + length (labels s.1))%nat).
Proof.
  intros s' d.
  assert (Hbal : (acquire_count (labelPool s'.2) + length (release_log (labelPool s.2))
                  + length (labels s.1)
                  = acquire_count (labelPool s.2) + length (release_log (labelPool s'.2))
                    + length (labels s'.1))%nat).
  { unfold s'. clear s' d. induction us as [|u us IH] using rev_ind; [done|].
    rewrite process_snoc.
    destruct (update_labels_count u (process stringToRgb us s)) as (H1 & H2 & H3).
    rewrite H1, H2, H3. lia. }
  split; [exact Hbal|]. split; [|intros u; apply update_labels_count].
  unfold d, LDScene.dispose. cbn [snd labelPool LDScene.Renderable_dispose labels].
  rewrite release_log_foldl, acquire_count_foldl, length_app, length_fmap. lia.
Qed.

End LDRenderableLife.

Section OutlineLife.

Import Ros LDMsg LDList LDScene Spec Ref.

Context {Rgb : Type} (stringToRgb : Rgb -> string -> Rgb).

Lemma NoDup_4 (a b c d : handle) :
  NoDup [a; b; c; d] <-> a <> b /\ a <> c /\ a <> d /\ b <> c /\ b <> d /\ c <> d.
Proof.
  rewrite !NoDup_cons, !not_elem_of_cons. split.
  - intros ((? & ? & ? & _) & (? & ? & _) & (? & _) & _). done.
  - intros (? & ? & ? & ? & ? & ?).
    repeat split; try done; try apply not_elem_of_nil. apply NoDup_nil_2.
Qed.

Lemma getGeometry_heap (key : string) (e : @Renderer Rgb) :
  (next_handle (heap e) <= next_handle (heap (getGeometry key e).2))%nat
  /\ dispose_log (heap (getGeometry key e).2) = dispose_log (heap e)
  /\ labelPool (getGeometry key e).2 = labelPool e.
Proof.
  unfold getGeometry. destruct (sharedGeometry e !! key); cbn; repeat split; lia.
Qed.

(** A renderable fresh from its constructor. *)
Lemma new_renderable_ok (topic : string) (e : @Renderer Rgb) (ud : LDObjectListUserData) :
  Forall (fun x => (x < next_handle (heap e))%nat) (dispose_log (heap e)) ->
  renderable_ok (LDList.new topic e ud)
  /\ labels (LDList.new topic e ud).1 = []
  /\ labelPool (LDList.new topic e ud).2 = labelPool e
  /\ dispose_log (heap (LDList.new topic e ud).2) = dispose_log (heap e)
  /\ (next_handle (heap e) <= geometry (LDList.new topic e ud).1)%nat
  /\ (next_handle (heap e) <= mesh (LDList.new topic e ud).1)%nat
  /\ (next_handle (heap e) <= material (LDList.new topic e ud).1)%nat
  /\ (next_handle (heap e)
      <= outline_ref (outlineGeometry (LDList.new topic e ud).1))%nat.
Proof.
  intros Hlog. unfold LDList.new, renderable_ok, getGeometry.
  cbn [fresh with_heap heap sharedGeometry].
  destruct (sharedGeometry e !! "LDObjectListRenderable-object") as [g1|];
    cbn [fresh with_heap heap sharedGeometry next_handle dispose_log].
  all: match goal with |- context [?m !! "LDObjectListRenderable-objectedges"] =>
         destruct (m !! "LDObjectListRenderable-objectedges") as [g2|]
       end;
    cbn [fst snd fresh with_heap heap sharedGeometry next_handle dispose_log
         outlineGeometry outline_ref geometry mesh material labels labelPool].
  all: (split; [|repeat split; try done; lia]).
  all: (split; [eapply Forall_impl; [exact Hlog|]; cbn; lia|]).
  all: (split; [lia|]); (split; [|split; [lia|split; [lia|split; [lia|]]]]).
  all: try (intros Hin; rewrite Forall_forall in Hlog; apply Hlog in Hin; lia).
  all: apply NoDup_4; lia.
Qed.

Lemma new_userData (topic : string) (e : @Renderer Rgb) (ud : LDObjectListUserData) :
  userData (LDList.new topic e ud).1 = ud
  /\ (next_handle (heap e) <= next_handle (heap (LDList.new topic e ud).2))%nat.
Proof.
  unfold LDList.new, getGeometry. cbn [fresh with_heap heap sharedGeometry].
  destruct (sharedGeometry e !! "LDObjectListRenderable-object") as [g1|];
    cbn [fresh with_heap heap sharedGeometry next_handle dispose_log].
  all: match goal with |- context [?m !! "LDObjectListRenderable-objectedges"] =>
         destruct (m !! "LDObjectListRenderable-objectedges") as [g2|]
       end.
  all: cbn; (split; [done|lia]).
Qed.

(** One update of a well-formed renderable. *)
Lemma apply_update_ok (u : Update) (s : @LDObjectListRenderable Rgb * Renderer) :
  renderable_ok s ->
  renderable_ok (apply_update stringToRgb s u)
  /\ geometry (apply_update stringToRgb s u).1 = geometry s.1
  /\ mesh (apply_update stringToRgb s u).1 = mesh s.1
  /\ material (apply_update stringToRgb s u).1 = material s.1
  /\ dispose_log (heap (apply_update stringToRgb s u).2)
     = dispose_log (heap s.2) ++ [geometry s.1; mesh s.1; outline_ref (outlineGeometry s.1)]
  /\ (next_handle (heap s.2)
      <= outline_ref (outlineGeometry (apply_update stringToRgb s u).1)
      < next_handle (heap (apply_update stringToRgb s u).2))%nat.
Proof.
  intros (Hlog & Ho & Honot & Hg & Hm & Hmat & Hnd).
  assert (Hmat' : material (apply_update stringToRgb s u).1 = material s.1).
  { unfold apply_update, updateLDObjectList.
    match goal with |- context [update_loop stringToRgb ?st ?os 0 ?t ?e0] =>
      destruct (update_loop_spec stringToRgb st os 0 t e0)
        as (this2 & e2 & refs & Heq & (_ & Hm2 & _) & _); rewrite Heq
    end.
    cbn. congruence. }
  unfold apply_update in *.
  destruct (updateLDObjectList_spec stringToRgb (u_objectList u) (u_originalMessage u)
              (u_settings u) (u_receiveTime u) s.1 s.2)
    as (this1 & e1 & refs & Heq & _ & _ & Hmesh & Hgeo & _ & _ & Hge & Hlt & Hd & _).
  rewrite Heq in *. cbn [fst snd] in *.
  split; [|by repeat split].
  unfold renderable_ok. cbn [fst snd]. rewrite Hd, Hmesh, Hgeo, Hmat'.
  split.
  { apply Forall_app. split.
    - eapply Forall_impl; [exact Hlog|]. cbn. lia.
    - repeat (apply Forall_cons; split; [lia|]). apply Forall_nil_2. }
  split; [lia|]. split.
  { rewrite elem_of_app, !elem_of_cons, elem_of_nil.
    intros [Hin|Hin]; [|lia]. rewrite Forall_forall in Hlog. apply Hlog in Hin. lia. }
  split; [lia|]. split; [lia|]. split; [lia|].
  apply NoDup_4 in Hnd. apply NoDup_4. lia.
Qed.

Lemma outlines_cons (u : Update) (us : list Update)
    (s : @LDObjectListRenderable Rgb * Renderer) :
  outlines stringToRgb (u :: us) s
  = outline_ref (outlineGeometry s.1) :: outlines stringToRgb us (apply_update stringToRgb s u).
Proof.
  unfold outlines. cbn [length seq fmap list_fmap take process foldl]. f_equal.
  rewrite <- fmap_S_seq, <- list_fmap_compose. done.
Qed.

Lemma filter_eq_cons_ne (x y : handle) (l : list handle) :
  y <> x -> filter (fun z => z = x) (y :: l) = filter (fun z => z = x) l.
Proof. intros Hne. by rewrite filter_cons, decide_False. Qed.

(** What the rest of the life of a renderable appends to the dispose log:
    every outline geometry it holds from now on, once, besides its box
    geometry, mesh and material. *)
Lemma dispose_log_dispose (this : @LDObjectListRenderable Rgb) (e : Renderer) :
  dispose_log (heap (LDScene.dispose this e).2)
  = dispose_log (heap e)
    ++ [mesh this; geometry this; material this; outline_ref (outlineGeometry this)].
Proof. unfold LDScene.dispose. cbn. by rewrite <- !app_assoc. Qed.

Lemma life_tail (us : list Update) :
  forall s : @LDObjectListRenderable Rgb * Renderer,
    renderable_ok s ->
    exists T,
      dispose_log (heap (LDScene.dispose (process stringToRgb us s).1
                           (process stringToRgb us s).2).2)
      = dispose_log (heap s.2) ++ T
      /\ (forall x, x ∈ T ->
            x = geometry s.1 \/ x = mesh s.1 \/ x = material s.1
            \/ x = outline_ref (outlineGeometry s.1)
            \/ (next_handle (heap s.2) <= x)%nat)
      /\ (forall o, o ∈ outlines stringToRgb us s ->
            (o = outline_ref (outlineGeometry s.1) \/ (next_handle (heap s.2) <= o)%nat)
            /\ length (filter (fun y => y = o) T) = 1%nat)
      /\ NoDup (outlines stringToRgb us s).
Proof.
  induction us as [|u us IH]; intros s Hok.
  - destruct Hok as (Hlog & Ho & Honot & Hg & Hm & Hmat & Hnd).
    apply NoDup_4 in Hnd as (H12 & H13 & H14 & H23 & H24 & H34).
    exists [mesh s.1; geometry s.1; material s.1; outline_ref (outlineGeometry s.1)].
    split; [apply dispose_log_dispose|].
    split.
    { intros x. rewrite !elem_of_cons, elem_of_nil. tauto. }
    unfold outlines. cbn [length seq fmap list_fmap take process foldl].
    split; [|apply NoDup_singleton].
    intros o ->%list_elem_of_singleton. split; [by left|].
    rewrite !filter_eq_cons_ne by congruence.
    rewrite filter_cons, decide_True by done. done.
  - destruct (apply_update_ok u s Hok) as (Hok1 & Hg1 & Hm1 & Hmat1 & Hd1 & Ho1).
    destruct (IH _ Hok1) as (T1 & HT1 & Hin1 & Hout1 & Hnd1).
    destruct Hok as (Hlog & Ho & Honot & Hg & Hm & Hmat & Hnd).
    apply NoDup_4 in Hnd as (H12 & H13 & H14 & H23 & H24 & H34).
    assert (Hnext : (next_handle (heap s.2)
                     <= next_handle (heap (apply_update stringToRgb s u).2))%nat) by lia.
    exists ([geometry s.1; mesh s.1; outline_ref (outlineGeometry s.1)] ++ T1).
    split.
    { change (process stringToRgb (u :: us) s)
        with (process stringToRgb us (apply_update stringToRgb s u)).
      rewrite HT1, Hd1. by rewrite <- app_assoc. }
    split.
    { intros x. rewrite elem_of_app, !elem_of_cons, elem_of_nil.
      intros [Hx|Hx]; [tauto|].
      destruct (Hin1 x Hx) as [->|[->|[->|[->|Hge]]]]; rewrite ?Hg1, ?Hm1, ?Hmat1;
        auto; right; right; right; right; lia. }
    rewrite outlines_cons.
    assert (Hlater : forall o, o ∈ outlines stringToRgb us (apply_update stringToRgb s u) ->
                               (next_handle (heap s.2) <= o)%nat).
    { intros o Hin. destruct (Hout1 o Hin) as [[->|Hge] _]; lia. }
    split.
    { intros o [->|Hin]%elem_of_cons.
      - split; [by left|].
        rewrite filter_app. rewrite !filter_eq_cons_ne by congruence.
        rewrite filter_cons, decide_True by done. rewrite filter_nil.
        cbn [app length]. f_equal.
        rewrite filter_eq_not_elem_of; [done|].
        intros Hx. destruct (Hin1 _ Hx) as [Heq|[Heq|[Heq|[Heq|Hge]]]];
          rewrite ?Hg1, ?Hm1, ?Hmat1 in *; try lia; congruence.
      - pose proof (Hlater o Hin) as Hge. split; [by right|].
        rewrite filter_app. rewrite !filter_eq_cons_ne by lia. rewrite filter_nil.
        cbn [app]. by apply Hout1. }
    apply NoDup_cons. split; [|done].
    intros Hin%Hlater. lia.
Qed.

(** X13.  A renderable made by the constructor and taken through any
    sequence of updates holds a new outline geometry after each update:
    the geometries it holds in turn are pairwise different.  The one it
    holds at the end is the geometry of its line segments and has not been
    disposed of; after [dispose()] each of them has been disposed of
    exactly once. *)
Theorem outline_geometry_lifecycle (topic : string) (e : @Renderer Rgb)
    (ud : LDObjectListUserData) (us : list Update) :
  Forall (fun x => (x < next_handle (heap e))%nat) (dispose_log (heap e)) ->
  let s := LDList.new topic e ud in
  let s' := process stringToRgb us s in
  let d := LDScene.dispose s'.1 s'.2 in
  length (outlines stringToRgb us s) = S (length us)
  /\ NoDup (outlines stringToRgb us s)
  /\ (forall o, o ∈ outlines stringToRgb us s ->
        disposals o (heap e) = 0%nat /\ disposals o (heap d.2) = 1%nat)
  /\ outline_geometry s'.1 = outline_ref (outlineGeometry s'.1)
  /\ disposals (outline_ref (outlineGeometry s'.1)) (heap s'.2) = 0%nat.
Proof.
  intros Hlog s s' d.
  destruct (new_renderable_ok topic e ud Hlog) as (Hok & _ & _ & Hd0 & _ & _ & _ & Hge0).
  fold s in Hok, Hd0, Hge0.
  destruct (life_tail us s Hok) as (T & HT & Hin & Hout & Hnd).
  fold s' in HT. fold d in HT.
  split; [unfold outlines; by rewrite length_fmap, length_seq|].
  split; [exact Hnd|]. split; [|split].
  - intros o Ho. destruct (Hout o Ho) as [Hwhere Hcount].
    assert (Hnot : o ∉ dispose_log (heap e)).
    { intros Hx. rewrite Forall_forall in Hlog. apply Hlog in Hx.
      destruct Hok as (_ & Ho1 & _). destruct Hwhere as [->|Hge]; lia. }
    unfold disposals. split.
    + by rewrite filter_eq_not_elem_of.
    + rewrite HT, Hd0, filter_app, length_app.
      rewrite filter_eq_not_elem_of by done. exact Hcount.
  - assert (Hall : forall us0 (s0 : @LDObjectListRenderable Rgb * Renderer),
              outline_geometry s0.1 = outline_ref (outlineGeometry s0.1) ->
              outline_geometry (process stringToRgb us0 s0).1
              = outline_ref (outlineGeometry (process stringToRgb us0 s0).1)).
    { induction us0 as [|u0 us0 IH0] using rev_ind; intros s0 H0; [done|].
      rewrite process_snoc. unfold apply_update.
      destruct (updateLDObjectList_spec stringToRgb (u_objectList u0) (u_originalMessage u0)
                  (u_settings u0) (u_receiveTime u0)
                  (process stringToRgb us0 s0).1 (process stringToRgb us0 s0).2)
        as (this1 & e1 & refs & -> & _ & _ & _ & _ & _ & Hog & _). done. }
    apply Hall. unfold s, LDList.new, getGeometry. cbn.
    by repeat (destruct (_ !! _); cbn).
  - assert (Hall : forall us0 (s0 : @LDObjectListRenderable Rgb * Renderer),
              renderable_ok s0 -> renderable_ok (process stringToRgb us0 s0)).
    { induction us0 as [|u0 us0 IH0] using rev_ind; intros s0 H0; [done|].
      rewrite process_snoc. by apply apply_update_ok, IH0. }
    destruct (Hall us s Hok) as (_ & _ & Hnot & _).
    unfold disposals. by rewrite filter_eq_not_elem_of.
Qed.

End OutlineLife.

Section OutlineLifeExamples.

Import Ros LDMsg LDList LDScene Spec Ref.

Lemma outline_geometry_lifecycle_witness :
  let us := [{| u_objectList := example_message 3; u_originalMessage := None;
                u_settings := example_settings; u_receiveTime := 1 |};
             {| u_objectList := example_message 1; u_originalMessage := None;
                u_settings := example_settings; u_receiveTime := 2 |}] in
  let s := LDList.new "/objects" example_renderer (LDList.userData example_renderable.1) in
  let s' := process example_stringToRgb us s in
  outlines example_stringToRgb us s = [5; 10; 12]%nat
  /\ NoDup (outlines example_stringToRgb us s)
  /\ disposals 10%nat (heap (LDScene.dispose s'.1 s'.2).2) = 1%nat.
Proof.
  intros us s s'.
  assert (Ho : outlines example_stringToRgb us s = [5; 10; 12]%nat) by (vm_compute; reflexivity).
  destruct (outline_geometry_lifecycle example_stringToRgb "/objects" example_renderer
              (LDList.userData example_renderable.1) us (Forall_nil_2 _))
    as (_ & Hnd & Hall & _).
  split; [exact Ho|]. split; [exact Hnd|].
  apply Hall. fold s. rewrite Ho. apply elem_of_cons. right. apply elem_of_cons. by left.
Defined.

End OutlineLifeExamples.

(** ** The object-list scene extension *)

Section SceneFacts.

Import Ros LDMsg LDList LDScene Spec Ref.

Context {Rgb : Type} (stringToRgb : Rgb -> string -> Rgb).
Variable normalizeVector3 : option (Vector3_ option) -> Vector3.
Variable normalizeColorRGBA : option (ColorRGBA_ option) -> ColorRGBA.
Variable normalizeHeader : option (Header_ option) -> Header.
Variable normalizePose : option (Pose_ option) -> Pose.
Variable normalizeTime : option (Time_ option) -> Time.
Variable normalizeTwist : option (Twist_ option) -> Twist.
Variable normalizeFrameId : string -> string.
Variable emptyPose : Pose.
Variable DEFAULT_COLOR_STR : string.
Variable topicIsConvertibleToSchema : Topic -> bool.

Local Abbreviation normalize :=
  (normalizeLDObjectList normalizeVector3 normalizeColorRGBA normalizeHeader
     normalizePose normalizeTime normalizeTwist).
Local Abbreviation handleLDObjectList :=
  (LDScene.handleLDObjectList stringToRgb normalizeVector3 normalizeColorRGBA
     normalizeHeader normalizePose normalizeTime normalizeTwist normalizeFrameId
     emptyPose DEFAULT_COLOR_STR).
Local Abbreviation handleSettingsAction :=
  (LDScene.handleSettingsAction stringToRgb DEFAULT_COLOR_STR).
Local Abbreviation DEFAULT_SETTINGS := (LDScene.DEFAULT_SETTINGS DEFAULT_COLOR_STR).

(** What [updateLDObjectList] leaves in [userData] and on the shared outline
    material. *)
Lemma updateLDObjectList_userData (objectList : LDObjectList)
    (originalMessage : option (LDObjectList_ option))
    (settings : LayerSettingsLDObjectList) (receiveTime : Z)
    (this : @LDObjectListRenderable Rgb) (e : Renderer) :
  let r := updateLDObjectList stringToRgb objectList originalMessage settings receiveTime
             this e in
  userData r.1
  = {| LDList.receiveTime := receiveTime;
       messageTime := toNanoSec (stamp (list_header objectList));
       frameId := frame_id (list_header objectList);
       userPose := userPose (userData this);
       settingsPath := settingsPath (userData this);
       LDList.settings := settings;
       topic := topic (userData this);
       LDList.objectList := objectList;
       LDList.originalMessage := originalMessage |}
  /\ instancedOutlineMaterial_color r.2 = bboxColor settings
  /\ material r.1 = material this
  /\ outline r.1 = outline this.
Proof.
  unfold updateLDObjectList.
  match goal with |- context [update_loop stringToRgb ?st ?os 0 ?t ?e0] =>
    destruct (update_loop_spec stringToRgb st os 0 t e0)
      as (this2 & e2 & refs & Heq & (_ & Hm2 & _ & Ho2 & _) & _); rewrite Heq
  end.
  cbn. done.
Qed.

(** X14.  [handleLDObjectList] leaves a renderable registered under the
    topic of the message.  Its user data carry the normalized message, the
    original message, the receive time and the message time; the pose, the
    settings path, the settings and the topic are those of the renderable
    that was registered before, or else the ones of the constructor call
    (settings: the defaults overridden by the configuration of the topic).
    The frame id ends as the [frame_id] of the header as it came, not as
    [normalizeFrameId] gave it to the constructor.  Instance count and
    labels match the number of objects, the shared outline material has
    the colour of this topic, and the other topics, the configuration and
    the settings tree are untouched. *)
Theorem message_is_shown (messageEvent : MessageEvent) (s : @LDObjectListScene Rgb) :
  let s' := handleLDObjectList messageEvent s in
  let objectList := normalize (event_message messageEvent) in
  exists registered,
    renderables s' !! event_topic messageEvent = Some registered
    /\ userData (renderable registered)
       = {| LDList.receiveTime := toNanoSec (event_receiveTime messageEvent);
            messageTime := toNanoSec (stamp (list_header objectList));
            frameId := frame_id (list_header objectList);
            userPose := match renderables s !! event_topic messageEvent with
                        | Some old => userPose (userData (renderable old))
                        | None => emptyPose
                        end;
            settingsPath := match renderables s !! event_topic messageEvent with
                            | Some old => settingsPath (userData (renderable old))
                            | None => ["topics"; event_topic messageEvent]
                            end;
            LDList.settings :=
              match renderables s !! event_topic messageEvent with
              | Some old => LDList.settings (userData (renderable old))
              | None => LDScene.spread DEFAULT_SETTINGS
                          (config_topics s !! event_topic messageEvent)
              end;
            topic := match renderables s !! event_topic messageEvent with
                     | Some old => topic (userData (renderable old))
                     | None => event_topic messageEvent
                     end;
            LDList.objectList := objectList;
            LDList.originalMessage := Some (event_message messageEvent) |}
    /\ mesh_count (renderable registered) = length (objects objectList)
    /\ length (labels (renderable registered)) = length (objects objectList)
    /\ instancedOutlineMaterial_color (renderer s')
       = bboxColor (LDList.settings (userData (renderable registered)))
    /\ (forall t, t <> event_topic messageEvent -> renderables s' !! t = renderables s !! t)
    /\ config_topics s' = config_topics s
    /\ settingsTreeUpdates s' = settingsTreeUpdates s.
Proof.
  intros s' objectList. unfold s', LDScene.handleLDObjectList. fold objectList.
  destruct (renderables s !! event_topic messageEvent) as [old|] eqn:Hold.
  - match goal with |- context [updateLDObjectList stringToRgb ?ol ?om ?st ?rt ?t ?e0] =>
      pose proof (updateLDObjectList_userData ol om st rt t e0) as (Hud & Hcol & _);
      destruct (updateLDObjectList_spec stringToRgb ol om st rt t e0)
        as (this1 & e1 & refs & Heq & Hcount & _);
      pose proof (updateLDObjectList_labels_length stringToRgb ol om st rt t e0) as Hlen;
      rewrite Heq in *
    end.
    cbn [fst snd] in *. eexists. unfold updated. cbn [renderables renderer fst snd].
    split; [apply lookup_insert_eq|]. cbn [renderable].
    split; [exact Hud|]. split; [exact Hcount|]. split; [exact Hlen|].
    split; [by rewrite Hud, Hcol|]. split; [|done].
    intros t Hne. by rewrite lookup_insert_ne.
  - cbn [fresh].
    match goal with |- context [LDList.new ?a ?b ?c] =>
      destruct (LDList.new a b c) as [this0 e0] eqn:Hnew
    end.
    assert (Hud0 : userData this0
                   = {| LDList.receiveTime := toNanoSec (event_receiveTime messageEvent);
                        messageTime := toNanoSec (stamp (list_header objectList));
                        frameId := normalizeFrameId (frame_id (list_header objectList));
                        userPose := emptyPose;
                        settingsPath := ["topics"; event_topic messageEvent];
                        LDList.settings :=
                          LDScene.spread DEFAULT_SETTINGS
                            (config_topics s !! event_topic messageEvent);
                        topic := event_topic messageEvent;
                        LDList.objectList := objectList;
                        LDList.originalMessage := Some (event_message messageEvent) |}).
    { match type of Hnew with LDList.new ?a ?b ?c = _ =>
        pose proof (proj1 (new_userData a b c)) as Hud0
      end.
      by rewrite Hnew in Hud0. }
    cbn [renderable renderable_ref renderer].
    match goal with |- context [updateLDObjectList stringToRgb ?ol ?om ?st ?rt ?t ?e0] =>
      pose proof (updateLDObjectList_userData ol om st rt t e0) as (Hud & Hcol & _);
      destruct (updateLDObjectList_spec stringToRgb ol om st rt t e0)
        as (this1 & e1 & refs & Heq & Hcount & _);
      pose proof (updateLDObjectList_labels_length stringToRgb ol om st rt t e0) as Hlen;
      rewrite Heq in *
    end.
    cbn [fst snd] in *. eexists. unfold updated. cbn [renderables renderer fst snd].
    split; [apply lookup_insert_eq|]. cbn [renderable].
    rewrite Hud0 in Hud. cbn in Hud.
    split; [exact Hud|]. split; [exact Hcount|]. split; [exact Hlen|].
    split; [by rewrite Hud, Hcol, Hud0|]. split; [|done].
    intros t Hne. by rewrite !lookup_insert_ne.
Qed.

(** One message touches the registry at its own topic only, and leaves a
    renderable there. *)
Lemma handleLDObjectList_registry (messageEvent : MessageEvent) (s : @LDObjectListScene Rgb) :
  let s' := handleLDObjectList messageEvent s in
  is_Some (renderables s' !! event_topic messageEvent)
  /\ (forall t, t <> event_topic messageEvent -> renderables s' !! t = renderables s !! t).
Proof.
  intros s'. unfold s', LDScene.handleLDObjectList.
  destruct (renderables s !! event_topic messageEvent) as [old|] eqn:Hold.
  - unfold updated. cbn [renderables]. split.
    + rewrite lookup_insert_eq. eauto.
    + intros t Hne. by rewrite lookup_insert_ne.
  - cbn [fresh].
    match goal with |- context [LDList.new ?a ?b ?c] =>
      destruct (LDList.new a b c) as [this0 e0]
    end.
    unfold updated. cbn [renderables]. split.
    + rewrite lookup_insert_eq. eauto.
    + intros t Hne. by rewrite !lookup_insert_ne.
Qed.

(** One message: the registry gains the topic of the message, and a
    renderable that was registered keeps its identity and its settings. *)
Lemma handleLDObjectList_step (messageEvent : MessageEvent) (s : @LDObjectListScene Rgb) :
  let s' := handleLDObjectList messageEvent s in
  dom (renderables s') = dom (renderables s) ∪ {[ event_topic messageEvent ]}
  /\ (forall t old,
        renderables s !! t = Some old ->
        exists r,
          renderables s' !! t = Some r
          /\ renderable_ref r = renderable_ref old
          /\ mesh (renderable r) = mesh (renderable old)
          /\ geometry (renderable r) = geometry (renderable old)
          /\ material (renderable r) = material (renderable old)
          /\ outline (renderable r) = outline (renderable old)
          /\ LDList.settings (userData (renderable r))
             = LDList.settings (userData (renderable old)))
  /\ (scene_children_ok s -> scene_children_ok s').
Proof.
  intros s'.
  destruct (handleLDObjectList_registry messageEvent s) as ([registered Hreg] & Hother).
  fold s' in Hreg, Hother.
  assert (Hdom : dom (renderables s') = dom (renderables s) ∪ {[ event_topic messageEvent ]}).
  { apply set_eq. intros t. rewrite elem_of_union, elem_of_singleton, !elem_of_dom.
    destruct (decide (t = event_topic messageEvent)) as [->|Hne].
    - rewrite Hreg. split; eauto.
    - rewrite Hother by done. split; [by left|]. by intros [?|?]. }
  split; [exact Hdom|].
  unfold s', LDScene.handleLDObjectList in *. clear s'.
  destruct (renderables s !! event_topic messageEvent) as [old0|] eqn:Hold.
  - match goal with |- context [updateLDObjectList stringToRgb ?ol ?om ?st ?rt ?t ?e0] =>
      pose proof (updateLDObjectList_userData ol om st rt t e0) as (Hud1 & _ & Hmat & Hout);
      destruct (updateLDObjectList_spec stringToRgb ol om st rt t e0)
        as (this1 & e1 & refs & Heq & _ & _ & Hmesh & Hgeo & _ & _ & Hge & Hlt & _);
      rewrite Heq in *
    end.
    cbn [fst snd] in *. unfold updated in *. cbn [renderables renderer fst snd] in *.
    split.
    + intros t old Ht. destruct (decide (t = event_topic messageEvent)) as [->|Hne].
      * rewrite Hold in Ht. injection Ht as <-. eexists. split; [apply lookup_insert_eq|].
        cbn [renderable renderable_ref]. rewrite Hud1. done.
      * exists old. rewrite lookup_insert_ne by done. done.
    + intros (Hnd & Hlt' & Hsize). unfold scene_children_ok.
      cbn [scene_children renderer renderables fst snd].
      split; [done|]. split.
      * eapply Forall_impl; [exact Hlt'|]. cbn. lia.
      * rewrite Hsize, <- !size_dom, Hdom.
        f_equal. apply elem_of_dom_2 in Hold. set_solver.
  - cbn [fresh] in *.
    match goal with |- context [LDList.new ?a ?b ?c] =>
      pose proof (proj2 (new_userData a b c)) as Hnext;
      destruct (LDList.new a b c) as [this0 e0] eqn:Hnew
    end.
    cbn [renderable renderable_ref renderer with_heap heap next_handle fst snd] in *.
    match goal with |- context [updateLDObjectList stringToRgb ?ol ?om ?st ?rt ?t ?e0] =>
      destruct (updateLDObjectList_spec stringToRgb ol om st rt t e0)
        as (this1 & e1 & refs & Heq & _ & _ & _ & _ & _ & _ & Hge & Hlt & _);
      rewrite Heq in *
    end.
    cbn [fst snd] in *. unfold updated in *.
    cbn [renderables renderer scene_children fst snd] in *.
    split.
    + intros t old Ht. exists old.
      rewrite !lookup_insert_ne by (intros <-; congruence). done.
    + intros (Hnd & Hlt' & Hsize). unfold scene_children_ok.
      cbn [scene_children renderer renderables fst snd].
      assert (Hfresh : next_handle (heap (renderer s)) ∉ scene_children s).
      { intros Hin. rewrite Forall_forall in Hlt'. apply Hlt' in Hin. lia. }
      rewrite add_child_fresh by done.
      split; [|split].
      * apply NoDup_app. split; [done|]. split; [|apply NoDup_singleton].
        intros x Hx ->%list_elem_of_singleton. done.
      * apply Forall_app. split.
        -- eapply Forall_impl; [exact Hlt'|]. cbn. lia.
        -- apply Forall_singleton. lia.
      * rewrite length_app, Hsize. cbn [length].
        rewrite insert_insert_eq, map_size_insert_None by done. lia.
Qed.

(** X15.  After any sequence of messages the topics with a renderable are
    those that had one before and those of the messages.  A renderable that
    existed before is still the same object, with the same mesh, box
    geometry, material, line segments and settings.  The children of the
    scene stay its renderables, each once. *)
Theorem one_renderable_per_topic (events : list MessageEvent) (s : @LDObjectListScene Rgb) :
  let s' := foldl (fun s messageEvent => handleLDObjectList messageEvent s) s events in
  dom (renderables s') = dom (renderables s) ∪ list_to_set (event_topic <$> events)
  /\ (forall t old,
        renderables s !! t = Some old ->
        exists r,
          renderables s' !! t = Some r
          /\ renderable_ref r = renderable_ref old
          /\ mesh (renderable r) = mesh (renderable old)
          /\ geometry (renderable r) = geometry (renderable old)
          /\ material (renderable r) = material (renderable old)
          /\ outline (renderable r) = outline (renderable old)
          /\ LDList.settings (userData (renderable r))
             = LDList.settings (userData (renderable old)))
  /\ (scene_children_ok s -> scene_children_ok s').
Proof.
  induction events as [|ev events IH] using rev_ind; intros s'.
  - unfold s'. cbn. split; [set_solver|]. split; [|done].
    intros t old Ht. exists old. done.
  - unfold s'. rewrite foldl_snoc.
    set (s1 := foldl (fun s messageEvent => handleLDObjectList messageEvent s) s events) in *.
    destruct IH as (Hdom1 & Hid1 & Hch1).
    destruct (handleLDObjectList_step ev s1) as (Hdom & Hid & Hch).
    split; [|split].
    + rewrite Hdom, Hdom1, fmap_app, list_to_set_app_L. cbn. set_solver.
    + intros t old Ht. destruct (Hid1 t old Ht) as (r1 & Hr1 & E1 & E2 & E3 & E4 & E5 & E6).
      destruct (Hid t r1 Hr1) as (r & Hr & F1 & F2 & F3 & F4 & F5 & F6).
      exists r. split; [done|]. repeat split; congruence.
    + intros Hok. by apply Hch, Hch1.
Qed.

(** X16.  An update action on a path of three keys saves the setting and
    refreshes the settings tree once; a colour saved under
    [topics/<topic>/bboxColor] is then in the configuration.  When the
    topic has a renderable, the renderable (the same object) takes the
    defaults overridden by the saved configuration as its settings and is
    redrawn from the message it already holds: same object list, original
    message and receive time, instance count and labels as many as the
    objects, and the shared outline material in its colour.  Other topics
    are untouched; when the topic has no renderable nothing but the save
    happens.  Node actions, and updates on paths of another length, do
    nothing at all. *)
Theorem settings_action_rerenders (root topicName field : string) (value : Grids.Value)
    (s : @LDObjectListScene Rgb) :
  let s' := handleSettingsAction (Grids.Update [root; topicName; field] value) s in
  config_topics s' = config_topics (saveSetting [root; topicName; field] value s)
  /\ settingsTreeUpdates s' = S (settingsTreeUpdates s)
  /\ (forall c, root = "topics" -> field = "bboxColor" -> value = Grids.VString c ->
        exists entry, config_topics s' !! topicName = Some entry
                      /\ t_bboxColor entry = Some c)
  /\ (forall t, t <> topicName -> renderables s' !! t = renderables s !! t)
  /\ (renderables s !! topicName = None ->
      s' = saveSetting [root; topicName; field] value s)
  /\ (forall old,
        renderables s !! topicName = Some old ->
        exists r,
          renderables s' !! topicName = Some r
          /\ renderable_ref r = renderable_ref old
          /\ LDList.settings (userData (renderable r))
             = LDScene.spread DEFAULT_SETTINGS (config_topics s' !! topicName)
          /\ LDList.objectList (userData (renderable r))
             = LDList.objectList (userData (renderable old))
          /\ LDList.originalMessage (userData (renderable r))
             = LDList.originalMessage (userData (renderable old))
          /\ LDList.receiveTime (userData (renderable r))
             = LDList.receiveTime (userData (renderable old))
          /\ mesh_count (renderable r)
             = length (objects (LDList.objectList (userData (renderable old))))
          /\ length (labels (renderable r))
             = length (objects (LDList.objectList (userData (renderable old))))
          /\ instancedOutlineMaterial_color (renderer s')
             = bboxColor (LDList.settings (userData (renderable r))))
  /\ (forall path id, handleSettingsAction (Grids.PerformNodeAction path id) s = s)
  /\ (forall path v, length path <> 3%nat -> handleSettingsAction (Grids.Update path v) s = s).
Proof.
  intros s'.
  assert (Hsave : renderables (saveSetting [root; topicName; field] value s) = renderables s
                  /\ renderer (saveSetting [root; topicName; field] value s) = renderer s
                  /\ settingsTreeUpdates (saveSetting [root; topicName; field] value s)
                     = S (settingsTreeUpdates s)) by done.
  destruct Hsave as (Hrs & Hre & Htree).
  unfold s', LDScene.handleSettingsAction. rewrite Hrs, Hre.
  set (s1 := saveSetting [root; topicName; field] value s) in *.
  assert (Hcolor : forall c, root = "topics" -> field = "bboxColor" ->
                     value = Grids.VString c ->
                     exists entry, config_topics s1 !! topicName = Some entry
                                   /\ t_bboxColor entry = Some c).
  { intros c -> -> ->. unfold s1, saveSetting.
    replace (String.eqb "topics" "topics") with true by reflexivity.
    cbn [config_topics]. rewrite lookup_insert_eq. eexists. split; [done|]. done. }
  destruct (renderables s !! topicName) as [old|] eqn:Hold.
  - set (this := with_settings (LDScene.spread DEFAULT_SETTINGS (config_topics s1 !! topicName))
                   (renderable old)).
    pose proof (updateLDObjectList_userData
                  (LDList.objectList (userData this)) (LDList.originalMessage (userData this))
                  (LDList.settings (userData this)) (LDList.receiveTime (userData this))
                  this (renderer s)) as (Hud & Hcol & _).
    destruct (updateLDObjectList_spec stringToRgb
                (LDList.objectList (userData this)) (LDList.originalMessage (userData this))
                (LDList.settings (userData this)) (LDList.receiveTime (userData this))
                this (renderer s))
      as (this1 & e1 & refs & Heq & Hcount & _).
    pose proof (updateLDObjectList_labels_length stringToRgb
                  (LDList.objectList (userData this)) (LDList.originalMessage (userData this))
                  (LDList.settings (userData this)) (LDList.receiveTime (userData this))
                  this (renderer s)) as Hlen.
    rewrite Heq in *. cbn [fst snd] in *.
    unfold updated. cbn [config_topics settingsTreeUpdates renderables renderer fst snd].
    split; [done|]. split; [exact Htree|]. split; [exact Hcolor|]. split.
    { intros t Hne. by rewrite lookup_insert_ne. }
    split; [done|]. split; [|by split; [|intros [|? [|? [|? [|? ?]]]] v Hl]].
    intros old' [= <-]. eexists. split; [apply lookup_insert_eq|].
    cbn [renderable renderable_ref]. rewrite Hud, Hcount, Hlen, Hcol. done.
  - split; [done|]. split; [exact Htree|]. split; [exact Hcolor|]. split; [done|].
    split; [done|]. split; [done|]. split; [done|].
    by intros [|? [|? [|? [|? ?]]]] v Hl.
Qed.

(** X17.  [settingsNodes] returns one entry for each topic of the data
    source that is convertible to the object-list schemas, in the order of
    the topics, whether or not the topic has a renderable or a
    configuration: the path is [topics/<name>], the one field is the
    colour of the configuration or the default colour, and the node is
    visible only when the configuration says so.  Without topics there are
    no entries. *)
Theorem settings_nodes_list_topics (s : @LDObjectListScene Rgb) :
  LDScene.settingsNodes DEFAULT_COLOR_STR topicIsConvertibleToSchema s
  = (fun topic =>
       let config := default empty_topic_config (config_topics s !! topic_name topic) in
       {| path := ["topics"; topic_name topic];
          node_label := topic_name topic;
          node_icon := "Cube";
          field_label := "Object Color";
          field_input := "rgba";
          field_value := default DEFAULT_COLOR_STR (t_bboxColor config);
          node_visible := default false (t_visible config) |})
    <$> filter (fun topic => topicIsConvertibleToSchema topic = true) (default [] (topics s)).
Proof.
  unfold LDScene.settingsNodes.
  rewrite <- (app_nil_l (_ <$> _)).
  generalize (@nil SettingsTreeEntry) as entries.
  induction (default [] (topics s)) as [|topic ts IH]; intros entries.
  - cbn. by rewrite app_nil_r.
  - cbn [foldl]. rewrite IH. unfold settingsNodes_body at 1. rewrite filter_cons.
    destruct (topicIsConvertibleToSchema topic); cbn [negb].
    + rewrite decide_True by done. cbn [fmap list_fmap]. by rewrite <- app_assoc.
    + by rewrite decide_False by done.
Qed.

End SceneFacts.

(** ** More on [DrawCuboidTool] *)

Section CuboidFurther.

Import Cuboid Spec Ref.

Lemma stored_exact (c : Z) : Z.abs c <= 2 ^ 24 -> stored c = Binary64.of_Z c.
Proof. apply fround_of_Z. Qed.

Lemma stored_above_exact (c : Z) :
  - 2 ^ 24 <= c < 2 ^ 24 -> stored_above c = Binary64.of_Z (c + 1).
Proof.
  intros Hc. unfold stored_above.
  rewrite add_of_Z by (unfold safe; lia).
  apply fround_of_Z. lia.
Qed.

(** X18.  [_createBox p q] writes 36 vertices, that is 12 triangles, two on
    each of six faces: the face at the x of [p], the face at the x of [q],
    the bottom, the top, the face over the y of [p] and the face over the y
    of [q].  Every vertex is one of eight corners, with its coordinates as
    the binary32 attribute stores them: it has the x of [p] or of [q], and
    either the y of [p] with the z of [p] or one above, or the y of [q]
    with the z of [q] or one above.  A coordinate up to 2^24 in magnitude
    is stored as it is, and so is the one above a coordinate from -2^24 to
    2^24 - 1; beyond that the attribute rounds: 2^24 + 1 is stored as 2^24,
    and so is the coordinate one above 2^24. *)
Theorem createBox_is_prism (p q : Ros.Vector3) :
  length (_createBox p q) = 108%nat
  /\ length (triangles (vertices (_createBox p q))) = 12%nat
  /\ Forall2 (fun f tri => on_face p q f tri.1.1 /\ on_face p q f tri.1.2 /\ on_face p q f tri.2)
       [x_of_p; x_of_p; x_of_q; x_of_q; bottom; bottom; top; top;
        y_of_p; y_of_p; y_of_q; y_of_q]
       (triangles (vertices (_createBox p q)))
  /\ (forall v, v ∈ vertices (_createBox p q) <->
        v ∈ [(stored (Ros.x p), stored (Ros.y p), stored (Ros.z p));
             (stored (Ros.x p), stored (Ros.y p), stored_above (Ros.z p));
             (stored (Ros.x p), stored (Ros.y q), stored (Ros.z q));
             (stored (Ros.x p), stored (Ros.y q), stored_above (Ros.z q));
             (stored (Ros.x q), stored (Ros.y p), stored (Ros.z p));
             (stored (Ros.x q), stored (Ros.y p), stored_above (Ros.z p));
             (stored (Ros.x q), stored (Ros.y q), stored (Ros.z q));
             (stored (Ros.x q), stored (Ros.y q), stored_above (Ros.z q))])
  /\ (forall c, Z.abs c <= 2 ^ 24 -> stored c = Binary64.of_Z c)
  /\ (forall c, - 2 ^ 24 <= c < 2 ^ 24 -> stored_above c = Binary64.of_Z (c + 1))
  /\ stored (2 ^ 24 + 1) = Binary64.of_Z (2 ^ 24)
  /\ stored_above (2 ^ 24) = stored (2 ^ 24).
Proof.
  destruct p as [px py pz], q as [qx qy qz].
  assert (Hbox : _createBox {| Ros.x := px; Ros.y := py; Ros.z := pz |}
                            {| Ros.x := qx; Ros.y := qy; Ros.z := qz |}
                 = let p0 := [stored px; stored py; stored pz] in
                   let p1 := [stored px; stored qy; stored qz] in
                   let p2 := [stored px; stored qy; stored_above qz] in
                   let p3 := [stored px; stored py; stored_above pz] in
                   let p4 := [stored qx; stored py; stored pz] in
                   let p5 := [stored qx; stored qy; stored qz] in
                   let p6 := [stored qx; stored qy; stored_above qz] in
                   let p7 := [stored qx; stored py; stored_above pz] in
                   concat [p0; p1; p3; p1; p2; p3;  p4; p5; p7; p5; p6; p7;
                           p0; p1; p4; p1; p5; p4;  p3; p2; p7; p2; p6; p7;
                           p0; p3; p4; p3; p7; p4;  p1; p2; p5; p2; p6; p5]) by reflexivity.
  rewrite Hbox. clear Hbox.
  cbv [concat app vertices triangles length Ros.x Ros.y Ros.z].
  split; [reflexivity|]. split; [reflexivity|]. split.
  - repeat (constructor;
            [cbv [on_face fst snd Ros.x Ros.y Ros.z]; tauto|]).
    constructor.
  - split.
    + intros v. rewrite !elem_of_cons, !elem_of_nil. tauto.
    + split; [exact stored_exact|]. split; [exact stored_above_exact|].
      split; vm_compute; reflexivity.
Qed.


(** What [_render] writes. *)
Lemma _render_frame (t : DrawCuboidTool) :
  children (_render t) = children t
  /\ next_object (_render t) = next_object t
  /\ circle3 (_render t) = circle3 t
  /\ circle4 (_render t) = circle4 t
  /\ objects (_render t)
     = set_mesh (circle2 t) (match point2 t with Some _ => true | None => false end) (point2 t)
         (set_mesh (circle1 t) (match point1 t with Some _ => true | None => false end) (point1 t) (objects t)).
Proof. unfold _render. destruct (point1 t), (point2 t); done. Qed.

Lemma set_mesh_hidden (c : handle) (b : bool) (p : option Ros.Vector3)
    (objs : gmap handle Mesh) :
  (forall o, (o < 4)%nat -> exists m, objs !! o = Some m /\ mesh_visible m = false) ->
  ((c < 4)%nat -> b = false) ->
  forall o, (o < 4)%nat ->
    exists m, set_mesh c b p objs !! o = Some m /\ mesh_visible m = false.
Proof.
  intros Hobjs Hc o Ho. destruct (Hobjs o Ho) as (m & Hm & Hv).
  unfold set_mesh. destruct (decide (c = o)) as [->|Hne].
  - rewrite lookup_alter_eq, Hm. cbn. eexists. split; [done|]. cbn. by apply Hc.
  - rewrite lookup_alter_ne by done. eauto.
Qed.

Lemma _render_circles_hidden (t : DrawCuboidTool) : circles_hidden t -> circles_hidden (_render t).
Proof.
  intros (Hch & Hobjs & Hnext & Hcases).
  destruct (_render_frame t) as (Hc' & Hn' & _ & _ & Ho').
  destruct (_render_fields t) as (_ & Hp1 & Hp2 & _ & _ & _ & Hc1 & Hc2).
  unfold circles_hidden. rewrite Hc', Hn', Ho', Hp1, Hp2, Hc1, Hc2.
  split; [done|]. split; [|done].
  apply set_mesh_hidden; [apply set_mesh_hidden; [done|]|].
  - destruct Hcases as [(_ & _ & -> & _)|[? ?]]; [done|lia].
  - destruct Hcases as [(_ & _ & _ & ->)|[? ?]]; [done|lia].
Qed.

(** Assigning state, points, flags, listeners and events leaves the scene
    objects alone. *)
Lemma assign_circles_hidden (st : DrawCuboidState) (p1 p2 : option Ros.Vector3)
    (u1 u2 : bool) (cs ms : list Listener) (evs : list DrawingEvent) (t : DrawCuboidTool) :
  circles_hidden t ->
  ((circle1 t = 0%nat /\ circle2 t = 1%nat) -> p1 = None /\ p2 = None) ->
  circles_hidden (assign st p1 p2 u1 u2 cs ms evs t).
Proof.
  intros (Hch & Hobjs & Hnext & Hcases) Hp. unfold circles_hidden. cbn.
  split; [done|]. split; [done|]. split; [done|].
  destruct Hcases as [(H1 & H2 & _)|?]; [|by right].
  left. destruct (Hp (conj H1 H2)) as [-> ->]. done.
Qed.

Lemma _setState_circles_hidden (st : DrawCuboidState) (t : DrawCuboidTool) :
  circles_hidden t ->
  (st = place_second_point -> (6 <= circle1 t)%nat) ->
  circles_hidden (_setState st t).
Proof.
  intros Hok Hst. unfold _setState. apply _render_circles_hidden.
  destruct st; apply assign_circles_hidden; try done.
  - intros [H1 H2]. destruct Hok as (_ & _ & _ & [(_ & _ & ? & ?)|[? ?]]); [done|lia].
  - intros [H1 H2]. specialize (Hst eq_refl). lia.
Qed.

Lemma _handleClick_circles_hidden (w : option Ros.Vector3) (t : DrawCuboidTool) :
  circles_hidden t ->
  drawing_with_new_circles t ->
  circles_hidden (_handleClick w t).
Proof.
  intros Hok Hst. unfold _handleClick. destruct w as [w|]; [|done].
  apply _render_circles_hidden.
  destruct (state t) eqn:Hstate; [done| |].
  - apply _setState_circles_hidden.
    + apply assign_circles_hidden; [done|]. intros [H1 _].
      destruct (Hst ltac:(congruence)). lia.
    + intros _. cbn. by apply Hst; congruence.
  - apply _setState_circles_hidden; [|done].
    apply assign_circles_hidden; [done|]. intros [H1 _].
    destruct (Hst ltac:(congruence)). lia.
Qed.

Lemma _handleMouseMove_circles_hidden (w : option Ros.Vector3) (t : DrawCuboidTool) :
  circles_hidden t ->
  drawing_with_new_circles t ->
  circles_hidden (_handleMouseMove w t).
Proof.
  intros Hok Hst. unfold _handleMouseMove. destruct w as [w|]; [|done].
  apply _render_circles_hidden.
  destruct (state t) eqn:Hstate; [done| |];
    (apply assign_circles_hidden; [done|]; intros [H1 _];
     destruct (Hst ltac:(congruence)); lia).
Qed.

(** The state and the first circle through the handlers. *)
Lemma _setState_state (st : DrawCuboidState) (t : DrawCuboidTool) :
  state (_setState st t) = st.
Proof.
  unfold _setState.
  match goal with |- context [_render ?t1] =>
    destruct (_render_fields t1) as (-> & _)
  end.
  by destruct st.
Qed.

Lemma _handleClick_state (w : option Ros.Vector3) (t : DrawCuboidTool) :
  state t = idle -> state (_handleClick w t) = idle.
Proof.
  intros Hst. unfold _handleClick. destruct w as [w|]; [|done].
  match goal with |- context [_render ?t1] =>
    destruct (_render_fields t1) as (-> & _)
  end.
  by rewrite Hst.
Qed.

Lemma _handleMouseMove_state (w : option Ros.Vector3) (t : DrawCuboidTool) :
  state (_handleMouseMove w t) = state t.
Proof.
  unfold _handleMouseMove. destruct w as [w|]; [|done].
  match goal with |- context [_render ?t1] =>
    destruct (_render_fields t1) as (-> & _)
  end.
  by destruct (state t) eqn:Hs.
Qed.

(** The registrations through [_setState] and the handlers. *)
Lemma _setState_listeners (st : DrawCuboidState) (t : DrawCuboidTool) :
  click_listeners (_setState st t)
  = match st with
    | idle => removeListener handleClick (click_listeners t)
    | place_first_point => addListener handleClick (click_listeners t)
    | place_second_point => click_listeners t
    end
  /\ mousemove_listeners (_setState st t)
     = match st with
       | idle => removeListener handleMouseMove (mousemove_listeners t)
       | place_first_point => addListener handleMouseMove (mousemove_listeners t)
       | place_second_point => mousemove_listeners t
       end.
Proof.
  unfold _setState.
  match goal with |- context [_render ?t1] =>
    destruct (_render_fields t1) as (_ & _ & _ & -> & -> & _)
  end.
  by destruct st.
Qed.

Lemma registrations_removeListener (f : Listener) (ls : list Listener) :
  registrations f (removeListener f ls) = 0%nat.
Proof.
  unfold registrations, removeListener.
  induction ls as [|g ls IH]; [done|].
  rewrite filter_cons. case_decide as Hg; [|done].
  rewrite filter_cons, decide_False by done. exact IH.
Qed.

Lemma registrations_addListener (f : Listener) (ls : list Listener) :
  registrations f (addListener f ls) = S (registrations f ls).
Proof.
  unfold registrations, addListener. rewrite filter_app, length_app.
  rewrite filter_cons, decide_True by done. cbn. lia.
Qed.

Lemma foreign_removeListener (f : Listener) (ls : list Listener) :
  filter (fun g => g <> f) (removeListener f ls) = filter (fun g => g <> f) ls.
Proof.
  unfold removeListener. induction ls as [|g ls IH]; [done|].
  rewrite filter_cons. case_decide as Hg.
  - rewrite !filter_cons, decide_True by done. by rewrite IH.
  - exact IH.
Qed.

Lemma foreign_addListener (f : Listener) (ls : list Listener) :
  filter (fun g => g <> f) (addListener f ls) = filter (fun g => g <> f) ls.
Proof.
  unfold addListener. rewrite filter_app, filter_cons, decide_False by (intros H; by apply H).
  by rewrite filter_nil, app_nil_r.
Qed.

Lemma _setState_listening (clicks moves : list Listener) (st : DrawCuboidState)
    (t : DrawCuboidTool) :
  listening clicks moves t ->
  (st = place_second_point -> state t <> idle) ->
  listening clicks moves (_setState st t).
Proof.
  intros (Hiff & Hregs & Hc & Hm) Hst. unfold listening.
  rewrite _setState_state. destruct (_setState_listeners st t) as [-> ->].
  destruct st.
  - rewrite !registrations_removeListener, !foreign_removeListener. done.
  - rewrite !registrations_addListener, !foreign_addListener, Hregs.
    split; [split; [done|lia]|done].
  - split; [|done]. split; [done|]. intros H0. exfalso. apply (Hst eq_refl). by apply Hiff.
Qed.

Lemma assign_listening (clicks moves : list Listener) (st : DrawCuboidState)
    (p1 p2 : option Ros.Vector3) (u1 u2 : bool) (t : DrawCuboidTool) :
  state t = st ->
  listening clicks moves t ->
  listening clicks moves
    (assign st p1 p2 u1 u2 (click_listeners t) (mousemove_listeners t) (events t) t).
Proof. by intros <-. Qed.

Lemma _render_listening (clicks moves : list Listener) (t : DrawCuboidTool) :
  listening clicks moves t -> listening clicks moves (_render t).
Proof.
  unfold listening.
  by destruct (_render_fields t) as (-> & _ & _ & -> & -> & _).
Qed.

Lemma _handleClick_listening (clicks moves : list Listener) (w : option Ros.Vector3)
    (t : DrawCuboidTool) :
  listening clicks moves t -> listening clicks moves (_handleClick w t).
Proof.
  intros Hl. unfold _handleClick. destruct w as [w|]; [|done].
  apply _render_listening. destruct (state t) eqn:Hstate; [done| |].
  - apply _setState_listening.
    + by apply assign_listening.
    + intros _. cbn. done.
  - apply _setState_listening; [|done].
    by apply assign_listening.
Qed.

Lemma _handleMouseMove_listening (clicks moves : list Listener) (w : option Ros.Vector3)
    (t : DrawCuboidTool) :
  listening clicks moves t -> listening clicks moves (_handleMouseMove w t).
Proof.
  intros Hl. unfold _handleMouseMove. destruct w as [w|]; [|done].
  apply _render_listening. destruct (state t) eqn:Hstate; [done| |];
    by apply assign_listening.
Qed.

Lemma _handleClick_drawing (w : option Ros.Vector3) (t : DrawCuboidTool) :
  drawing_with_new_circles t -> drawing_with_new_circles (_handleClick w t).
Proof.
  intros Hd Hst. destruct (_handleClick_circles w t) as [-> ->]. apply Hd.
  intros Hidle. apply Hst. by apply _handleClick_state.
Qed.

Lemma _handleMouseMove_drawing (w : option Ros.Vector3) (t : DrawCuboidTool) :
  drawing_with_new_circles t -> drawing_with_new_circles (_handleMouseMove w t).
Proof.
  intros Hd Hst. destruct (_handleMouseMove_circles w t) as [-> ->]. apply Hd.
  by rewrite _handleMouseMove_state in Hst.
Qed.

(** What holds of the tool in every state it can reach. *)
Lemma iter_keeps {A} (P : A -> Prop) (f : A -> A) (n : nat) (a : A) :
  (forall a, P a -> P (f a)) -> P a -> P (Nat.iter n f a).
Proof. intros Hf Ha. induction n as [|n IH]; [done|]. rewrite Nat.iter_succ. by apply Hf. Qed.

Lemma react_keeps (clicks moves : list Listener) (s : Stimulus) (t : DrawCuboidTool) :
  circles_hidden t /\ drawing_with_new_circles t /\ listening clicks moves t ->
  circles_hidden (react s t) /\ drawing_with_new_circles (react s t)
  /\ listening clicks moves (react s t).
Proof.
  intros (Hh & Hd & Hl). destruct s as [| |w|w]; cbn [react].
  - assert (Hh1 : circles_hidden (_setState place_first_point t))
      by (by apply _setState_circles_hidden).
    assert (Hl1 : listening clicks moves (_setState place_first_point t))
      by (by apply _setState_listening).
    unfold startDrawing. set (t1 := _setState place_first_point t) in *.
    clearbody t1. destruct Hh1 as (Hch & Hobjs & Hnext & _).
    split; [|split].
    + unfold circles_hidden. cbn [children objects next_object circle1 circle2 point1 point2].
      split; [done|]. split; [|split; [lia|right; lia]].
      intros o Ho. rewrite !lookup_insert_ne by lia. by apply Hobjs.
    + intros _. cbn [circle1 circle2]. lia.
    + exact Hl1.
  - assert (Hh1 : circles_hidden (_setState idle t)) by (by apply _setState_circles_hidden).
    assert (Hl1 : listening clicks moves (_setState idle t))
      by (by apply _setState_listening).
    pose proof (_setState_state idle t) as Hst1.
    unfold stopDrawing. set (t1 := _setState idle t) in *. clearbody t1. split; [|split].
    + destruct Hh1 as (Hch & Hobjs & Hnext & Hcases). unfold circles_hidden.
      cbn [assign children objects next_object circle1 circle2 point1 point2].
      split; [done|]. split; [done|]. split; [done|].
      destruct Hcases as [(? & ? & _)|?]; [by left|by right].
    + intros Hst. cbn [assign state] in Hst. done.
    + by apply assign_listening.
  - apply (iter_keeps (fun t => circles_hidden t /\ drawing_with_new_circles t
                                /\ listening clicks moves t)); [|done].
    intros a (Ha & Hb & Hc).
    split; [by apply _handleClick_circles_hidden|].
    split; [by apply _handleClick_drawing|by apply _handleClick_listening].
  - apply (iter_keeps (fun t => circles_hidden t /\ drawing_with_new_circles t
                                /\ listening clicks moves t)); [|done].
    intros a (Ha & Hb & Hc).
    split; [by apply _handleMouseMove_circles_hidden|].
    split; [by apply _handleMouseMove_drawing|by apply _handleMouseMove_listening].
Qed.

Lemma new_keeps (clicks moves : list Listener) :
  circles_hidden (Cuboid.new clicks moves)
  /\ drawing_with_new_circles (Cuboid.new clicks moves)
  /\ listening clicks moves (Cuboid.new clicks moves).
Proof.
  unfold Cuboid.new. cbv zeta.
  match goal with |- context [_setState idle ?t0] => set (t := t0) end.
  split; [|split].
  - apply _setState_circles_hidden; [|done].
    unfold circles_hidden, t. cbn. split; [done|]. split; [|split; [lia|by left]].
    intros o Ho. destruct o as [|[|[|[|o]]]]; [| | | |lia]; eexists; split; done.
  - intros Hst. by rewrite _setState_state in Hst.
  - unfold listening. rewrite _setState_state.
    destruct (_setState_listeners idle t) as [-> ->].
    rewrite !registrations_removeListener, !foreign_removeListener. done.
Qed.

Lemma reachable_keeps (ss : list Stimulus) (clicks moves : list Listener) :
  circles_hidden (reacts ss (Cuboid.new clicks moves))
  /\ drawing_with_new_circles (reacts ss (Cuboid.new clicks moves))
  /\ listening clicks moves (reacts ss (Cuboid.new clicks moves)).
Proof.
  unfold reacts. induction ss as [|s ss IH] using rev_ind; [apply new_keeps|].
  rewrite foldl_snoc. by apply react_keeps.
Qed.

(** X19.  Whatever sequence of method calls and pointer events the tool
    has seen since its construction: its handlers are registered exactly
    when it is not idle, as often for clicks as for mouse moves, and the
    listeners of others on the input are as they were when the tool was
    made. *)
Theorem listeners_follow_state (ss : list Stimulus) (clicks moves : list Listener) :
  let t := reacts ss (Cuboid.new clicks moves) in
  (state t = idle <-> registrations handleClick (click_listeners t) = 0%nat)
  /\ registrations handleClick (click_listeners t)
     = registrations handleMouseMove (mousemove_listeners t)
  /\ filter (fun g => g <> handleClick) (click_listeners t)
     = filter (fun g => g <> handleClick) clicks
  /\ filter (fun g => g <> handleMouseMove) (mousemove_listeners t)
     = filter (fun g => g <> handleMouseMove) moves.
Proof. intros t. by destruct (reachable_keeps ss clicks moves) as (_ & _ & H). Qed.

Lemma not_in_scene (c : nat) : (6 <= c)%nat -> c ∉ [0; 1; 2; 3; 4; 5]%nat.
Proof.
  intros Hc Hin.
  repeat (apply elem_of_cons in Hin as [->|Hin]; [lia|]). by apply elem_of_nil in Hin.
Qed.

(** X20.  Whatever sequence of method calls and pointer events the tool
    has seen since its construction: its scene children are the six
    objects that the constructor added, and none of the four circles among
    them is visible.  Once a point has been captured or the tool is
    drawing, the circles that [_render] moves and shows are the meshes that
    [startDrawing] made, and these are not in the scene. *)
Theorem anchor_circles_never_shown (ss : list Stimulus) (clicks moves : list Listener) :
  let t := reacts ss (Cuboid.new clicks moves) in
  children t = [0; 1; 2; 3; 4; 5]%nat
  /\ (forall o, (o < 4)%nat -> exists m, objects t !! o = Some m /\ mesh_visible m = false)
  /\ (is_Some (point1 t) \/ is_Some (point2 t) \/ state t <> idle ->
      (circle1 t ∉ children t) /\ (circle2 t ∉ children t)).
Proof.
  intros t. destruct (reachable_keeps ss clicks moves) as ((Hch & Hobjs & _ & Hcases) & Hd & _).
  fold t in Hch, Hobjs, Hcases, Hd.
  split; [done|]. split; [done|].
  intros Hsome.
  assert (Hge : (6 <= circle1 t)%nat /\ (6 <= circle2 t)%nat).
  { destruct Hcases as [(_ & _ & H1 & H2)|?]; [|done].
    destruct Hsome as [[? Hs]|[[? Hs]|Hst]]; [congruence|congruence|by apply Hd]. }
  rewrite Hch. destruct Hge. split; by apply not_in_scene.
Qed.

(** *** A drawing gesture *)

Lemma _render_cuboid (t : DrawCuboidTool) (p1 p2 : Ros.Vector3) :
  point1 t = Some p1 -> point2 t = Some p2 ->
  cuboid_position (_render t) = _createBox p1 p2
  /\ cuboidOccluded_position (_render t) = _createBox p1 p2
  /\ cuboid_visible (_render t) = true
  /\ cuboidOccluded_visible (_render t) = true.
Proof. intros H1 H2. unfold _render. by rewrite H1, H2. Qed.

Lemma registrations_none (f : Listener) (ls : list Listener) :
  registrations f ls = 0%nat -> filter (fun g => g <> f) ls = ls.
Proof.
  unfold registrations. induction ls as [|g ls IH]; [done|].
  rewrite !filter_cons. destruct (decide (g = f)) as [Heq|Hne]; [done|].
  rewrite decide_True by done. intros H. by rewrite IH.
Qed.

Lemma _handleMouseMove_fields (w : Ros.Vector3) (t : DrawCuboidTool) :
  state (_handleMouseMove (Some w) t) = state t
  /\ click_listeners (_handleMouseMove (Some w) t) = click_listeners t
  /\ mousemove_listeners (_handleMouseMove (Some w) t) = mousemove_listeners t
  /\ events (_handleMouseMove (Some w) t) = events t
  /\ point1 (_handleMouseMove (Some w) t)
     = match state t with place_first_point => Some w | _ => point1 t end
  /\ point2 (_handleMouseMove (Some w) t)
     = match state t with place_second_point => Some w | _ => point2 t end.
Proof.
  unfold _handleMouseMove.
  match goal with |- context [_render ?t1] =>
    destruct (_render_fields t1) as (-> & -> & -> & -> & -> & -> & _)
  end.
  by destruct (state t) eqn:Hs.
Qed.

Lemma _handleClick_first (w : Ros.Vector3) (t : DrawCuboidTool) :
  state t = place_first_point ->
  state (_handleClick (Some w) t) = place_second_point
  /\ click_listeners (_handleClick (Some w) t) = click_listeners t
  /\ mousemove_listeners (_handleClick (Some w) t) = mousemove_listeners t
  /\ events (_handleClick (Some w) t) = events t
  /\ point1 (_handleClick (Some w) t) = Some w
  /\ point2 (_handleClick (Some w) t) = point2 t.
Proof.
  intros Hs. unfold _handleClick. rewrite Hs. unfold _setState.
  repeat match goal with |- context [_render ?t1] =>
    destruct (_render_fields t1) as (-> & -> & -> & -> & -> & -> & _)
  end.
  done.
Qed.

Lemma _handleClick_second (w p : Ros.Vector3) (t : DrawCuboidTool) :
  state t = place_second_point ->
  point1 t = Some p ->
  state (_handleClick (Some w) t) = idle
  /\ click_listeners (_handleClick (Some w) t) = removeListener handleClick (click_listeners t)
  /\ mousemove_listeners (_handleClick (Some w) t)
     = removeListener handleMouseMove (mousemove_listeners t)
  /\ events (_handleClick (Some w) t) = events t ++ [cuboid_end]
  /\ point1 (_handleClick (Some w) t) = Some p
  /\ point2 (_handleClick (Some w) t) = Some w
  /\ cuboid_position (_handleClick (Some w) t) = _createBox p w
  /\ cuboidOccluded_position (_handleClick (Some w) t) = _createBox p w
  /\ cuboid_visible (_handleClick (Some w) t) = true
  /\ cuboidOccluded_visible (_handleClick (Some w) t) = true.
Proof.
  intros Hs Hp. unfold _handleClick. rewrite Hs.
  match goal with |- context [_render (_setState idle ?t1)] =>
    destruct (_render_cuboid (_setState idle t1) p w) as (-> & -> & -> & ->);
    [destruct (_setState_idle t1) as (_ & -> & _); exact Hp
    |destruct (_setState_idle t1) as (_ & _ & -> & _); done|];
    destruct (_render_fields (_setState idle t1)) as (-> & -> & -> & -> & -> & -> & _);
    destruct (_setState_idle t1) as (-> & -> & -> & -> & -> & ->)
  end.
  cbn [assign click_listeners mousemove_listeners events point1 point2]. done.
Qed.

(** Mouse moves while the first point is being placed, and while the second
    one is. *)
Lemma moves_first (ms : list (option Ros.Vector3)) :
  forall t,
    state t = place_first_point ->
    state (reacts (MouseMove <$> ms) t) = place_first_point
    /\ click_listeners (reacts (MouseMove <$> ms) t) = click_listeners t
    /\ mousemove_listeners (reacts (MouseMove <$> ms) t) = mousemove_listeners t
    /\ events (reacts (MouseMove <$> ms) t) = events t
    /\ point2 (reacts (MouseMove <$> ms) t) = point2 t.
Proof.
  induction ms as [|m ms IH]; intros t Hs; [done|].
  change (reacts (MouseMove <$> m :: ms) t)
    with (reacts (MouseMove <$> ms) (react (MouseMove m) t)).
  assert (Hstep : state (react (MouseMove m) t) = place_first_point
                  /\ click_listeners (react (MouseMove m) t) = click_listeners t
                  /\ mousemove_listeners (react (MouseMove m) t) = mousemove_listeners t
                  /\ events (react (MouseMove m) t) = events t
                  /\ point2 (react (MouseMove m) t) = point2 t).
  { cbn [react].
    apply (iter_keeps (fun a => state a = place_first_point
                                /\ click_listeners a = click_listeners t
                                /\ mousemove_listeners a = mousemove_listeners t
                                /\ events a = events t /\ point2 a = point2 t)); [|done].
    intros a (Ha1 & Ha2 & Ha3 & Ha4 & Ha5). destruct m as [w|]; [|done].
    destruct (_handleMouseMove_fields w a) as (-> & -> & -> & -> & _ & ->).
    by rewrite Ha1. }
  destruct Hstep as (H1 & H2 & H3 & H4 & H5).
  destruct (IH _ H1) as (-> & -> & -> & -> & ->). done.
Qed.

Lemma moves_second (ms : list (option Ros.Vector3)) :
  forall t,
    state t = place_second_point ->
    state (reacts (MouseMove <$> ms) t) = place_second_point
    /\ click_listeners (reacts (MouseMove <$> ms) t) = click_listeners t
    /\ mousemove_listeners (reacts (MouseMove <$> ms) t) = mousemove_listeners t
    /\ events (reacts (MouseMove <$> ms) t) = events t
    /\ point1 (reacts (MouseMove <$> ms) t) = point1 t.
Proof.
  induction ms as [|m ms IH]; intros t Hs; [done|].
  change (reacts (MouseMove <$> m :: ms) t)
    with (reacts (MouseMove <$> ms) (react (MouseMove m) t)).
  assert (Hstep : state (react (MouseMove m) t) = place_second_point
                  /\ click_listeners (react (MouseMove m) t) = click_listeners t
                  /\ mousemove_listeners (react (MouseMove m) t) = mousemove_listeners t
                  /\ events (react (MouseMove m) t) = events t
                  /\ point1 (react (MouseMove m) t) = point1 t).
  { cbn [react].
    apply (iter_keeps (fun a => state a = place_second_point
                                /\ click_listeners a = click_listeners t
                                /\ mousemove_listeners a = mousemove_listeners t
                                /\ events a = events t /\ point1 a = point1 t)); [|done].
    intros a (Ha1 & Ha2 & Ha3 & Ha4 & Ha5). destruct m as [w|]; [|done].
    destruct (_handleMouseMove_fields w a) as (-> & -> & -> & -> & -> & _).
    by rewrite Ha1. }
  destruct Hstep as (H1 & H2 & H3 & H4 & H5).
  destruct (IH _ H1) as (-> & -> & -> & -> & ->). done.
Qed.

Lemma startDrawing_fields (t : DrawCuboidTool) :
  state (startDrawing t) = place_first_point
  /\ click_listeners (startDrawing t) = addListener handleClick (click_listeners t)
  /\ mousemove_listeners (startDrawing t)
     = addListener handleMouseMove (mousemove_listeners t)
  /\ events (startDrawing t) = events t ++ [cuboid_start]
  /\ point1 (startDrawing t) = None
  /\ point2 (startDrawing t) = None.
Proof.
  unfold startDrawing. cbn [state click_listeners mousemove_listeners events point1 point2].
  unfold _setState.
  match goal with |- context [_render ?t1] =>
    destruct (_render_fields t1) as (-> & -> & -> & -> & -> & -> & _)
  end.
  done.
Qed.

Lemma reacts_app (ss1 ss2 : list Stimulus) (t : DrawCuboidTool) :
  reacts (ss1 ++ ss2) t = reacts ss2 (reacts ss1 t).
Proof. unfold reacts. apply foldl_app. Qed.

(** X21.  A drawing gesture.  On a tool whose handlers are not registered:
    [startDrawing()], any mouse moves, a click on [p], any mouse moves, and
    a click on [q] leave the tool idle with [p] and [q] as its two points,
    both cuboid meshes visible with the box over [p] and [q] as their
    position attribute, the two events drawing-start and drawing-end
    dispatched in that order, and the listeners of the input as they were
    before. *)
Theorem drawing_gesture (t : DrawCuboidTool) (moves1 moves2 : list (option Ros.Vector3))
    (p q : Ros.Vector3) :
  registrations handleClick (click_listeners t) = 0%nat ->
  registrations handleMouseMove (mousemove_listeners t) = 0%nat ->
  let t' := reacts ([StartDrawing] ++ (MouseMove <$> moves1) ++ [Click (Some p)]
                    ++ (MouseMove <$> moves2) ++ [Click (Some q)]) t in
  state t' = idle
  /\ point1 t' = Some p
  /\ point2 t' = Some q
  /\ cuboid_position t' = _createBox p q
  /\ cuboidOccluded_position t' = _createBox p q
  /\ cuboid_visible t' = true
  /\ cuboidOccluded_visible t' = true
  /\ events t' = events t ++ [cuboid_start; cuboid_end]
  /\ click_listeners t' = click_listeners t
  /\ mousemove_listeners t' = mousemove_listeners t.
Proof.
  intros Hc Hm t'. unfold t'. clear t'.
  rewrite !reacts_app.
  change (reacts [StartDrawing] t) with (startDrawing t).
  destruct (startDrawing_fields t) as (Hs0 & Hc0 & Hm0 & He0 & _ & Hq0).
  set (t0 := startDrawing t) in *. clearbody t0.
  destruct (moves_first moves1 t0 Hs0) as (Hs1 & Hc1 & Hm1 & He1 & Hq1).
  set (t1 := reacts (MouseMove <$> moves1) t0) in *. clearbody t1.
  assert (Hreg1 : registrations handleClick (click_listeners t1) = 1%nat).
  { by rewrite Hc1, Hc0, registrations_addListener, Hc. }
  change (reacts [Click (Some p)] t1) with (react (Click (Some p)) t1).
  cbn [react]. rewrite Hreg1. unfold Nat.iter; cbn [nat_rect].
  destruct (_handleClick_first p t1 Hs1) as (Hs2 & Hc2 & Hm2 & He2 & Hp2 & Hq2).
  set (t2 := _handleClick (Some p) t1) in *. clearbody t2.
  destruct (moves_second moves2 t2 Hs2) as (Hs3 & Hc3 & Hm3 & He3 & Hp3).
  set (t3 := reacts (MouseMove <$> moves2) t2) in *. clearbody t3.
  assert (Hreg3 : registrations handleClick (click_listeners t3) = 1%nat).
  { by rewrite Hc3, Hc2. }
  change (reacts [Click (Some q)] t3) with (react (Click (Some q)) t3).
  cbn [react]. rewrite Hreg3. unfold Nat.iter; cbn [nat_rect].
  destruct (_handleClick_second q p t3 Hs3 ltac:(congruence))
    as (-> & -> & -> & -> & -> & -> & -> & -> & -> & ->).
  rewrite Hc3, Hc2, Hc1, Hc0, Hm3, Hm2, Hm1, Hm0, He3, He2, He1, He0.
  unfold addListener, removeListener.
  rewrite !filter_app, !filter_cons, !decide_False by (intros H; by apply H).
  rewrite !filter_nil, !app_nil_r, !registrations_none by done.
  by rewrite <- app_assoc.
Qed.

Lemma drawing_gesture_witness :
  let t' := reacts [StartDrawing; MouseMove (Some corner2); Click (Some corner1);
                    MouseMove None; MouseMove (Some corner1); Click (Some corner2)]
              (Cuboid.new [foreign 0] []) in
  state t' = idle /\ cuboid_position t' = _createBox corner1 corner2
  /\ click_listeners t' = [foreign 0].
Proof.
  intros t'.
  destruct (drawing_gesture (Cuboid.new [foreign 0] []) [Some corner2]
              [None; Some corner1] corner1 corner2 ltac:(reflexivity) ltac:(reflexivity))
    as (H1 & _ & _ & H4 & _ & _ & _ & _ & H9 & _).
  split; [exact H1|]. split; [exact H4|exact H9].
Defined.

End CuboidFurther.
